(* ===== verification/_CoqProject ===== *)
-Q . S2P
Prelude.v
Std.v
Select.v
Parse.v
Protocol.v
AddressText.v
Reassembly.v
Metrics.v
TransportIo.v
Stream.v
SocksProtocol.v
SocksServer.v
HttpProxy.v
ClientStream.v
ClientConnection.v
ReconnectLog.v
ClientDatagram.v
FakeDns.v
NetTcp.v
NetWake.v
NetStack.v
NetDevice.v
Tun.v
NetWorker.v
NetDispatch.v
Endpoints.v
ClientConfig.v
ServerConfig.v
Quic.v
QuicEndpoint.v
Transport.v
Cli.v
Logging.v
Ffi.v
ServerAuth.v
Dns.v
ServerStream.v
ServerTunnels.v
ServerDatagram.v
ServerDownstream.v
Services.v
ClientDispatcher.v
UdpEndToEnd.v
SocksUdpEndToEnd.v
EndToEnd.v
AuthEndToEnd.v
RelayEndToEnd.v
SocksEndToEnd.v
TestKit.v
ProtocolTests.v
ClientTests.v
NetTests.v
ServerTests.v
TransportTests.v
