(* ===== verification/Prelude.v ===== *)
(** * The ombrac tunnel

    ombrac carries TCP connections and UDP packets of a client machine over one
    QUIC connection to a server, which makes the real connections. This library
    models the Rust crates under src/crates and proves what makes them correct.

    ** How the program is put together

    On the client an endpoint accepts an application's traffic: a SOCKS5 server,
    an HTTP proxy, or a tun device behind a userspace network stack with a fake
    name server. For each connection the endpoint asks the client for a tunnel
    stream to an [Address]; the client opens a QUIC stream (reconnecting when the
    connection is lost), sends a framed connect request, and gives back the
    stream once the server has answered. UDP packets go as QUIC datagrams, whole
    or in fragments that the other side puts together. The server authenticates a
    connection by its first stream, then serves each further stream by resolving
    and connecting to its destination and copying in both directions, and each
    datagram session by a UDP socket of its own. A service reads its configuration
    from a file and the command line, builds all this, and shuts it down; it runs
    in a binary or behind a C interface.

    ** The files, in order

    Foundations.
    - [Prelude]: results, polls, the state and error monad, machine integers with
      their wrap-around, chunks, shared lemmas, the hint database [ombrac] and the
      tactics. [Std]: the parts of the standard library the code is made of
      ([io::Error], addresses, [Buf]). [Select]: loops around [tokio::select!],
      biased or not, with the laws its instances share. [Parse]: text (UTF-8,
      ports, socket addresses as [SocketAddr::from_str] reads them).
    Protocol and transport.
    - [Protocol] (ombrac/src/protocol.rs, codec.rs): addresses, messages,
      [split_packet]. The serializer is the class [Bincode] with its laws: a message is
      read back in its wire form, without the scope and the flow label of an IPv6
      address, which [serde] does not write.
      [AddressText]: [Display for Address], with that of the standard library's
      addresses below it.
    - [Reassembly] (ombrac/src/reassembly.rs): fragments back to packets; the
      cache may evict any entry at any time ([evict]).
    - [Metrics] (ombrac/src/metrics.rs): the counters.
    - [TransportIo] (ombrac-transport/src/io.rs): [copy_bidirectional], two tasks
      whose awaits are the states and whose interleavings are all runs.
    - [Stream]: the interfaces the rest is written against: a reader and writer
      ([AsyncStream]), a poll-based reader and a writer ([PollRead], [PollWrite])
      whose directions do not disturb each other ([DuplexLaws]), and the
      length-delimited framing ([Framed]), each with its laws and an instance.
    - [Quic], [QuicEndpoint] (ombrac-transport/src/quic): errors, congestion
      names, TLS configurations; transport settings, certificates and keys,
      dialling with and without 0-RTT, rebinding, the server's queue of accepted
      connections. [Transport] (lib.rs, quic/): the traits [Initiator], [Acceptor]
      and [Connection] as classes, the QUIC stream, the wrapper of the library's
      connection and endpoints, and who verifies the server's certificate.
    The client.
    - [SocksProtocol], [SocksServer] (ombrac-client/src/endpoint/socks): the
      SOCKS5 wire format and the server's dialogue, and the UDP relay.
    - [HttpProxy] (ombrac-client/src/endpoint/http.rs): where a request of the
      HTTP proxy goes and how it is answered.
    - [ClientStream], [ClientConnection], [ClientDatagram], [ClientDispatcher]
      (ombrac-client/src/connection): the stream handed to the application;
      authentication, opening streams, retry and reconnection by any number of
      tasks on shared state; UDP sessions, their dispatcher and the background
      task that feeds it. [ReconnectLog]: what each step of a reconnection logs. A
      caller of [with_retry] may drop it at any await ([Cancel]).
    - [FakeDns], [Tun] (ombrac-client/src/endpoint/tun.rs): the fake name server, cut
      at each access to its caches, with an expiry, the eviction listener and a
      query's two insertions as steps of their own; where each connection and packet
      of the device is sent, and the UDP flows.
    - [NetTcp], [NetWake], [NetStack], [NetDevice], [NetWorker], [NetDispatch]
      (ombrac-netstack/src): a TCP connection of the stack (the application's half
      and the worker's, through two ring buffers); the same cut at each access to
      shared memory, to see which wake-ups are lost; the sink that routes packets,
      the UDP half, the buffer pool, how a worker is chosen and accepts a
      connection; pooled buffers with their bytes, and the tokens of the device, where
      a pool is shared by threads whose releases overlap ([pool_step]);
      the worker's loop; the construction of the stack, of a worker's device and
      interface, and the dispatcher.
    - [Endpoints] (endpoint/socks/mod.rs, http.rs, tun.rs): the accept loops, the
      forwarding loops between the device and the stack, whose receivers may go away
      at any time, the tun endpoint's shutdown.
    Configuration and services.
    - [ClientConfig], [ServerConfig], [Cli] (config and service.rs of the client
      and the server): defaults, merging; the QUIC settings made of them; the
      endpoints started; draining at shutdown; arguments and the ways to load.
    - [Logging], [Ffi] (logging and ffi.rs of both crates): the log callback and
      the installation of the subscriber; the C functions on the process's statics. A
      call may never return ([Forever]), as what it blocks on may not.
    The server.
    - [ServerAuth], [Dns], [ServerStream], [ServerTunnels], [ServerDatagram],
      [ServerDownstream] (ombrac-server/src/connection): admission of connections,
      what the trace tells of the secret, and the bound on connections; name
      resolution; serving a stream; the two loops of a connection and what ends
      them; UDP sessions; the task that carries a session's replies, which the signal
      and the eviction of its session end.
    The whole.
    - [Services] (service.rs of both crates, client.rs, bin/main.rs): building,
      shutting down, with the holders of the client's [Arc]; the exit status.
    - [UdpEndToEnd], [EndToEnd], [AuthEndToEnd], [RelayEndToEnd]: client and
      server together, for UDP sessions, for a connect, for the authentication, and
      for the bytes of a connected stream. In [RelayEndToEnd] the four copies and
      the tunnel between them are one step relation; [tunnel_event_ok] says what the
      QUIC stream promises: bytes arrive in order, and the end only when the peer
      has dropped its half (which finishes it) and everything has arrived.
    - [SocksEndToEnd], [SocksUdpEndToEnd]: an application of the SOCKS endpoint,
      from its first byte: the dialogue or the association of [SocksServer] on top
      of the files above, whose theorems they compose.
    The repository's tests.
    - [TestKit], [ProtocolTests], [ClientTests], [NetTests], [ServerTests],
      [TransportTests]: the unit tests of the modelled functions, one definition
      per test under its own name, with the source's inputs and assertions; a lemma
      per group evaluates them in the kernel. They check the model against what the
      program is known to do. [TransportTests] also has the mocks of io.rs, and for
      them the general theorem behind its tests ([copy_with_cancel_total]).

    ** Conventions

    Code that is not under src/ is a parameter: QUIC, [tokio]'s sockets, the
    [bincode], [smoltcp], [etherparse], [hickory], [tracing], [hyper] and [quinn]
    crates appear as classes or section variables, with laws that state what their
    documentation promises; each class has an instance on which the theorems are
    evaluated. Asynchronous code is cut at its awaits: between two of them a task
    is a function from state and event to state, so an interleaving is a sequence
    of steps, and what an await returns is an input. Shared state ([DashMap]s,
    atomics, mutexes, channels, statics) is in the state of the step relation.
    Integers keep their width ([as_u16], [as_u64] and [wrap] write the wrap-around
    out). Panics are values ([None], or [Panicked]). The features are the default
    ones, on Linux. Where a program loops, its model recurses on the input it
    consumes or has fuel, and a theorem shows that the fuel is enough: the number
    of bytes left ([NetTcp.io_send]), the bytes and sockets left to move
    ([NetWorker.worker_drain_terminates]), the ticks up to the deadline
    ([ServerConfig.drain_loop]), the length of the text ([Parse], [AddressText]).

    ** What the theorems show

    - Round trips and formats: fragmenting and reassembling gives the packet back
      under any order and duplication and with other traffic between them, as long as
      the cache does not evict it before it is complete; SOCKS and
      UDP/IP packets and addresses are read back as they were written, and so is
      the text of an address; the SOCKS parsers accept exactly the encodings,
      without a panic.
    - Data is neither lost nor reordered: through [copy_bidirectional], the
      buffered QUIC stream in both directions, the ring buffers of the stack, the
      way from the device into the stack while its receivers are there, the dispatcher
      of TCP packets, the UDP queues and the task of a session's replies, in every interleaving; a packet
      never carries bytes of an earlier one.
    - End to end: what a client learns of a connect; that it gets tunnels exactly
      when it holds the server's secret; that the destination receives a prefix of
      what the application sent, and the other way round, and all of it once the
      stream was read to its end; a UDP packet of an application leaves the server
      as it was sent, and the answers reach that application. For an application of
      the SOCKS endpoint: the one reply it reads, with the code the server's error
      has; the bytes after it, and what the server counts of them; the datagrams of
      an association in both directions, each with its address.
    - Bounds: reassembly buffers, server connections as configured, sessions,
      queues, buffers.
    - Safety: a connection is admitted exactly when its first message proves the
      secret; certificates are verified unless configured otherwise; nothing is
      tunnelled to the addresses the program lists as private or reserved; one
      reconnection at a time; a worker sleeps only when there was nothing to do for
      its channel and its connections.
    - Life cycle: which configuration a service is built from, when it comes up,
      when its shutdown returns, what every sequence of C calls does; every failed
      reconnection is in the log once, and the counters agree with the log, save for
      those that were dropped in mid-attempt.
    - Termination: retries, copies after cancellation, draining, the worker's work,
      the loops of a connection.
    - Behaviour that may surprise, stated as it is: a dispatcher and a session that
      wait for each other ([ClientDatagram.dispatcher_deadlock]), wake-ups that are
      lost ([NetStack.flush_lost_wakeup], [NetWake.eof_wakeup_lost]) or never come
      ([NetWake.writer_woken_while_live], [NetWorker.idle_wakes]), an end of file
      before the data ([NetWake.eof_before_data]), a tail that is cut
      ([NetTcp.prune_truncates]), an answer of the name server for which its address
      no longer stands ([FakeDns.stale_answer]), addresses that are let through
      ([Tun.skipped_v4_blocks], [Tun.reserved_let_through]), a pool that outgrows its
      bound ([NetDevice.pool_overfull]), a second stream for a repeated request
      ([NetStack.retransmitted_syn_second_stream]), a malformed packet that ends a
      loop ([Tun.malformed_packet_ends_udp], [SocksServer.udp_relay_malformed_ends],
      [Endpoints.malformed_packet_ends_forwarding]), replies labelled with the first
      destination ([Tun.relay_udp_flow_labels]), a socket kept for the first
      destination's family ([UdpEndToEnd.session_family_fixed]), counts that are
      truncated ([Protocol.split_packet_count_truncated]), a library that starts
      once per process ([Ffi.restart_fails], [Ffi.second_startup_silences]), a
      shutdown that leaves connections behind ([Services.server_shutdown_abandons]),
      an answer that is lost when the application closes its half first
      ([RelayEndToEnd.half_close_loses_answer]: both directions stop together, as
      the tests of io.rs ask).

    ** What is not modelled

    The macros and build scripts, which have no behaviour of their own; parsing of
    JSON and of arguments, which is [serde] and [clap]; what [hyper] does with a
    request; the methods of [quinn] behind the calls of [Transport.QuinnApi]; the
    texts of log lines other than those of [ReconnectLog], and the second copy of
    the logging module and of main in the server crate, which has the same text as
    the client's. Of the unit tests, those of the JSON parser and the serializer's
    bytes, of threads and timers, of packets built by [etherparse], of live name
    lookups and of the floating-point jitter. Wakers are
    modelled only where a theorem is about them ([NetStack], [NetWake]); elsewhere
    a poll may happen at any time. *)

From Stdlib Require Export ZArith Lia.
From Stdlib Require Strings.Byte.
From stdpp Require Export prelude gmap list strings option pretty vector.

#[global] Set Default Goal Selector "!".

Open Scope Z_scope.

(** Bytes are the standard library's 256-constructor type, so a byte string
    is well formed by typing alone. *)
Abbreviation byte := Corelib.Init.Byte.byte.
Abbreviation Bytes := (list byte).

(** [Result<T, E>]; the success case is second so that the type is a functor
    in its last argument. *)
Inductive Result (E A : Type) : Type :=
  | Ok (a : A)
  | Err (e : E).
Arguments Ok {E A} a.
Arguments Err {E A} e.

#[export] Instance Result_mret E : MRet (Result E) := fun A a => Ok a.
#[export] Instance Result_mbind E : MBind (Result E) := fun A B f m =>
  match m with Ok a => f a | Err e => Err e end.
#[export] Instance Result_fmap E : FMap (Result E) := fun A B f m =>
  match m with Ok a => Ok (f a) | Err e => Err e end.

#[export] Instance Result_eq_dec `{EqDecision E} `{EqDecision A} :
  EqDecision (Result E A).
Proof. solve_decision. Defined.

Definition is_ok {E A} (r : Result E A) : bool :=
  match r with Ok _ => true | Err _ => false end.

Definition map_err {E F A} (f : E → F) (r : Result E A) : Result F A :=
  match r with Ok a => Ok a | Err e => Err (f e) end.

Lemma result_bind_ok {E A B} (r : Result E A) (f : A → Result E B) b :
  r ≫= f = Ok b ↔ ∃ a, r = Ok a ∧ f a = Ok b.
Proof. destruct r; cbn; naive_solver. Qed.

Lemma map_err_ok {E F A} (f : E → F) (r : Result E A) a : map_err f r = Ok a ↔ r = Ok a.
Proof. destruct r; cbn; split; congruence. Qed.

(** [Option::ok_or]. *)
Definition ok_or {E A} (e : E) (o : option A) : Result E A :=
  match o with Some a => Ok a | None => Err e end.

(** [Option::or]. *)
Definition opt_or {A} (a b : option A) : option A :=
  match a with Some _ => a | None => b end.

(** [std::task::Poll]. *)
Inductive Poll (A : Type) : Type :=
  | Ready (a : A)
  | Pending.
Arguments Ready {A} a.
Arguments Pending {A}.

(** A state and error monad: [S] is threaded through every step and survives
    an error, as the streams of the program do when [?] returns early. *)
Definition StM (S E A : Type) : Type := S → Result E A * S.

#[export] Instance StM_mret S E : MRet (StM S E) := fun A a s => (Ok a, s).
#[export] Instance StM_mbind S E : MBind (StM S E) := fun A B f m s =>
  match m s with
  | (Ok a, s') => f a s'
  | (Err e, s') => (Err e, s')
  end.

Definition st_err {S E A} (e : E) : StM S E A := fun s => (Err e, s).
Definition st_lift {S E A} (r : Result E A) : StM S E A := fun s => (r, s).
Definition st_get {S E} : StM S E S := fun s => (Ok s, s).
Definition st_modify {S E} (f : S → S) : StM S E unit := fun s => (Ok tt, f s).

Lemma st_bind_ok {S E A B} (m : StM S E A) (f : A → StM S E B) s a s' :
  m s = (Ok a, s') → (m ≫= f) s = f a s'.
Proof. unfold mbind, StM_mbind. by intros ->. Qed.

Lemma st_bind_err {S E A B} (m : StM S E A) (f : A → StM S E B) s e s' :
  m s = (Err e, s') → (m ≫= f) s = (Err e, s').
Proof. unfold mbind, StM_mbind. by intros ->. Qed.

(** The same with the continuation last, to rewrite with a known outcome. *)
Lemma st_run_ok {S E A} (m : StM S E A) s a s' :
  m s = (Ok a, s') → ∀ B (f : A → StM S E B), (m ≫= f) s = f a s'.
Proof. intros H B f. by apply st_bind_ok. Qed.

Lemma st_run_err {S E A} (m : StM S E A) s e s' :
  m s = (Err e, s') → ∀ B (f : A → StM S E B), (m ≫= f) s = (Err e, s').
Proof. intros H B f. by apply st_bind_err. Qed.

(** ** Machine integers *)

(** Reduction of an integer to [w] bits: what [as uN] and the wrapping
    operations of Rust compute. *)
Definition wrap (w z : Z) : Z := z mod 2 ^ w.
Abbreviation as_u8 := (wrap 8).
Abbreviation as_u16 := (wrap 16).
Abbreviation as_u32 := (wrap 32).
Abbreviation as_u64 := (wrap 64).

Definition in_width (w z : Z) : Prop := 0 ≤ z < 2 ^ w.

Lemma wrap_range w z : 0 ≤ w → in_width w (wrap w z).
Proof. intros. unfold in_width, wrap. apply Z.mod_pos_bound. lia. Qed.

Lemma wrap_small w z : in_width w z → wrap w z = z.
Proof. unfold in_width, wrap. intros. by apply Z.mod_small. Qed.

Lemma wrap_add_l w a b : wrap w (wrap w a + b) = wrap w (a + b).
Proof. apply Zplus_mod_idemp_l. Qed.

Lemma wrap_add_r w a b : wrap w (a + wrap w b) = wrap w (a + b).
Proof. apply Zplus_mod_idemp_r. Qed.

(** ** Bytes and integers *)

Definition b2z (b : byte) : Z := Z.of_N (Byte.to_N b).
Definition z2b (z : Z) : byte :=
  match Byte.of_N (Z.to_N (z mod 256)) with
  | Some b => b
  | None => Byte.x00
  end.

#[export] Instance byte_eq_dec : EqDecision byte := Byte.byte_eq_dec.

Lemma b2z_range b : 0 ≤ b2z b < 256.
Proof.
  unfold b2z. pose proof (Byte.to_N_bounded b). lia.
Qed.

Lemma b2z_z2b z : b2z (z2b z) = z mod 256.
Proof.
  unfold b2z, z2b. pose proof (Z.mod_pos_bound z 256 ltac:(lia)).
  destruct (Byte.of_N _) as [b|] eqn:E.
  - apply Byte.to_of_N in E. rewrite E. lia.
  - apply Byte.of_N_None_iff in E. lia.
Qed.

Lemma z2b_b2z b : z2b (b2z b) = b.
Proof.
  unfold z2b. pose proof (b2z_range b). rewrite Z.mod_small by lia.
  unfold b2z. rewrite N2Z.id, Byte.of_to_N. done.
Qed.

Lemma b2z_inj a b : b2z a = b2z b → a = b.
Proof. intros E. by rewrite <-(z2b_b2z a), E, z2b_b2z. Qed.

Lemma b2z_z2b_small z : 0 ≤ z < 256 → b2z (z2b z) = z.
Proof. intros. rewrite b2z_z2b. by apply Z.mod_small. Qed.

#[export] Instance byte_countable : Countable byte.
Proof.
  refine (inj_countable' (fun b => Byte.to_N b)
            (fun n => z2b (Z.of_N n)) _).
  intros b. apply z2b_b2z.
Defined.

(** [u16::from_be_bytes] and [u16::to_be_bytes] ([BufMut::put_u16]). *)
Definition u16_from_be (hi lo : byte) : Z := b2z hi * 256 + b2z lo.
Definition u16_to_be (z : Z) : Bytes := [z2b (z / 256); z2b z].

Lemma u16_from_be_range hi lo : in_width 16 (u16_from_be hi lo).
Proof.
  unfold in_width, u16_from_be. pose proof (b2z_range hi).
  pose proof (b2z_range lo). lia.
Qed.

Lemma u16_from_to_be z :
  in_width 16 z → u16_from_be (z2b (z / 256)) (z2b z) = z.
Proof.
  unfold in_width, u16_from_be. intros H. rewrite !b2z_z2b.
  change (2 ^ 16) with 65536 in H.
  rewrite (Z.mod_small (z / 256)) by (Z.div_mod_to_equations; lia).
  Z.div_mod_to_equations; lia.
Qed.

(** ** Lists *)

(** [slice::chunks n]: consecutive blocks of [n] elements, the last one
    shorter. The fuel is the length of the list, which is enough because every
    block takes at least one element; [n = 0] panics in Rust, which the callers
    of the model rule out or report. *)
Fixpoint chunks_fuel {A} (fuel n : nat) (l : list A) : list (list A) :=
  match fuel, l with
  | O, _ | _, [] => []
  | S f, _ => take n l :: chunks_fuel f n (drop n l)
  end.

Definition chunks {A} (n : nat) (l : list A) : list (list A) :=
  chunks_fuel (length l) n l.

Lemma chunks_fuel_enough {A} n f1 f2 (l : list A) :
  (0 < n)%nat → (length l ≤ f1)%nat → (length l ≤ f2)%nat →
  chunks_fuel f1 n l = chunks_fuel f2 n l.
Proof.
  intros Hn. revert f2 l.
  induction f1 as [|f1 IH]; intros f2 l H1 H2.
  { destruct l; simpl in *; [|lia]. by destruct f2. }
  destruct l as [|x l]; [by destruct f2|].
  destruct f2 as [|f2]; simpl in H2; [lia|]. simpl. f_equal.
  destruct n as [|n]; [lia|]. simpl. apply IH.
  - rewrite length_drop. simpl in H1. lia.
  - rewrite length_drop. lia.
Qed.

Lemma chunks_cons {A} n (l : list A) :
  (0 < n)%nat → l ≠ [] → chunks n l = take n l :: chunks n (drop n l).
Proof.
  intros Hn Hl. unfold chunks. destruct l as [|x l]; [done|]. simpl. f_equal.
  apply chunks_fuel_enough; [done|..]; rewrite length_drop; simpl; lia.
Qed.

Lemma chunks_nil {A} n : chunks n ([] : list A) = [].
Proof. done. Qed.

Lemma chunks_ind {A} n (P : list A → list (list A) → Prop) :
  (0 < n)%nat → P [] [] →
  (∀ l, l ≠ [] → P (drop n l) (chunks n (drop n l)) →
        P l (take n l :: chunks n (drop n l))) →
  ∀ l, P l (chunks n l).
Proof.
  intros Hn H0 HS l. remember (length l) as m eqn:Hm.
  revert l Hm. induction (lt_wf m) as [m _ IH]. intros l Hm.
  destruct (decide (l = [])) as [->|Hl]; [done|].
  rewrite chunks_cons by done. apply HS; [done|].
  eapply IH; [|done]. rewrite length_drop.
  destruct l; [done|]. simpl in *. lia.
Qed.

Lemma concat_chunks {A} n (l : list A) : (0 < n)%nat → concat (chunks n l) = l.
Proof.
  intros Hn. apply (chunks_ind n (fun l c => concat c = l)); [done..|].
  intros k _ E. simpl. rewrite E. apply take_drop.
Qed.

Lemma length_chunks {A} n (l : list A) :
  (0 < n)%nat → length (chunks n l) = Nat.div (length l + n - 1) n.
Proof.
  intros Hn.
  apply (chunks_ind n (fun l c => length c = Nat.div (length l + n - 1) n));
    [done|..].
  - symmetry. apply Nat.div_small. simpl. lia.
  - intros k Hk E. simpl. rewrite E, length_drop.
    destruct (decide (length k ≤ n)%nat).
    + replace (length k - n + n - 1)%nat with (n - 1)%nat by lia.
      rewrite Nat.div_small by lia.
      destruct k as [|x k]; [done|]. simpl length in *.
      apply (Nat.div_unique _ _ 1 (length k)); lia.
    + replace (length k + n - 1)%nat with (length k - n + n - 1 + 1 * n)%nat
        by lia.
      rewrite Nat.div_add by lia. lia.
Qed.

Lemma chunks_Forall {A} n (l : list A) :
  (0 < n)%nat → Forall (fun c => c ≠ [] ∧ (length c ≤ n)%nat) (chunks n l).
Proof.
  intros Hn.
  apply (chunks_ind n (fun _ c => Forall (fun c => c ≠ [] ∧ (length c ≤ n)%nat) c));
    [done|constructor|].
  intros k Hk IH. constructor; [|done]. split.
  - destruct k, n; done || lia.
  - rewrite length_take. lia.
Qed.

(** [count_some l]: how many entries of a vector of options are filled. *)
Fixpoint count_some {A} (l : list (option A)) : nat :=
  match l with
  | [] => 0
  | Some _ :: l => S (count_some l)
  | None :: l => count_some l
  end.

Lemma count_some_le {A} (l : list (option A)) : (count_some l ≤ length l)%nat.
Proof. induction l as [|[]]; simpl; lia. Qed.

Lemma count_some_replicate {A} n : count_some (replicate n (None : option A)) = O.
Proof. induction n; simpl; done. Qed.

Lemma count_some_insert {A} (l : list (option A)) i x :
  l !! i = Some None → count_some (<[i:=Some x]> l) = S (count_some l).
Proof.
  revert i. induction l as [|y l IH]; intros [|i]; simpl; try done.
  - by intros [= ->].
  - intros H. destruct y; rewrite IH; done.
Qed.

Lemma count_some_full {A} (l : list (option A)) :
  count_some l = length l ↔ Forall is_Some l.
Proof.
  induction l as [|[x|] l IH]; simpl.
  - done.
  - rewrite Forall_cons, <-IH. split; [|intros [_ E]; lia].
    intros; split; [by eexists|lia].
  - pose proof (count_some_le l). split; [lia|].
    intros [[? ?] ?]%Forall_cons. done.
Qed.

Lemma lookup_replicate_none {A} n i (x : option A) :
  replicate n None !! i = Some x → x = None.
Proof. by intros [-> _]%lookup_replicate. Qed.

Lemma filter_nil_iff {A} (P : A → Prop) `{!∀ x, Decision (P x)} (l : list A) :
  filter P l = [] ↔ ∀ x, x ∈ l → ¬ P x.
Proof.
  split.
  - intros Hn x Hx Hp. by apply (filter_nil_not_elem_of P l x) in Hn.
  - intros Hn. apply elem_of_nil_inv. intros x [Hp Hx]%list_elem_of_filter. by apply (Hn x).
Qed.

Lemma filter_all {A} (P : A → Prop) `{!∀ x, Decision (P x)} (l : list A) :
  (∀ x, x ∈ l → P x) → filter P l = l.
Proof.
  induction l as [|x l IH]; intros HP; [done|].
  rewrite filter_cons_True by (apply HP; left). f_equal. apply IH.
  intros y Hy. apply HP. by right.
Qed.

Lemma filter_conj {A} (P Q : A → Prop) `{!∀ x, Decision (P x), !∀ x, Decision (Q x)} (l : list A) :
  (∀ x, P x → Q x) → filter P (filter Q l) = filter P l.
Proof.
  intros HPQ. induction l as [|x l IH]; [done|].
  destruct (decide (Q x)) as [Hq|Hq].
  - rewrite (filter_cons_True Q) by done. rewrite !filter_cons, IH. done.
  - rewrite (filter_cons_False Q), IH by done.
    rewrite filter_cons_False by auto. done.
Qed.

Lemma filter_disjoint_nil {A} (P Q : A → Prop) `{!∀ x, Decision (P x), !∀ x, Decision (Q x)}
    (l : list A) :
  (∀ x, P x → ¬ Q x) → filter P (filter Q l) = [].
Proof.
  intros HPQ. induction l as [|x l IH]; [done|]. destruct (decide (Q x)).
  - rewrite (filter_cons_True Q) by done. rewrite filter_cons_False by (intros ?; by eapply HPQ).
    done.
  - by rewrite (filter_cons_False Q).
Qed.

(** ** Automation *)

(** Closes a decidable proposition by evaluating its decision procedure. *)
Ltac decide_now := apply (bool_decide_unpack _); vm_compute; exact I.

(** An equation of boolean comparisons, by linear arithmetic with division. *)
Ltac bool_lia :=
  apply eq_bool_prop_intro;
  rewrite ?orb_True, ?andb_True, !Is_true_true, ?Z.eqb_eq, ?Z.leb_le;
  Z.to_euclidean_division_equations; lia.

(** Case analysis on the first [match] or [if] of the goal or of a
    hypothesis, with its equation. *)
Ltac case_match_eqn H :=
  match goal with
  | |- context [match ?x with _ => _ end] => destruct x eqn:H
  end.

Create HintDb ombrac.
#[export] Hint Resolve wrap_range u16_from_be_range b2z_range : ombrac.
#[export] Hint Rewrite @length_app @length_cons @length_drop @length_take
  @length_fmap @length_imap @length_replicate @length_vec_to_list : ombrac.

(** Arithmetic about lengths of lists. *)
Ltac list_lia := autorewrite with ombrac in *; cbn [length] in *; lia.

(** Arithmetic about the range of a machine integer. *)
Ltac width_lia := unfold in_width in *; lia.
