(* ===== verification/Std.v ===== *)
(** The parts of Rust's standard library the program's data is made of:
    [std::io::Error], [std::net] addresses and fixed-size byte arrays. *)

From S2P Require Import Prelude.
From stdpp Require Export vector.

(** ** [std::io] *)

(** [io::ErrorKind]. *)
Inductive ErrorKind :=
  | NotFound | PermissionDenied | ConnectionRefused | ConnectionReset
  | HostUnreachable | NetworkUnreachable | ConnectionAborted | NotConnected
  | AddrInUse | AddrNotAvailable | NetworkDown | BrokenPipe | AlreadyExists
  | WouldBlock | NotADirectory | IsADirectory | DirectoryNotEmpty
  | ReadOnlyFilesystem | StaleNetworkFileHandle | InvalidInput | InvalidData
  | TimedOut | WriteZero | StorageFull | NotSeekable | QuotaExceeded
  | FileTooLarge | ResourceBusy | ExecutableFileBusy | Deadlock
  | CrossesDevices | TooManyLinks | InvalidFilename | ArgumentListTooLong
  | Interrupted | Unsupported | UnexpectedEof | OutOfMemory | OtherKind.

#[export] Instance ErrorKind_eq_dec : EqDecision ErrorKind.
Proof. solve_decision. Defined.

(** [io::Error]: its kind and what its [Display] prints. *)
Record IoError := mkIoError { kind : ErrorKind; msg : string }.

#[export] Instance IoError_eq_dec : EqDecision IoError.
Proof. solve_decision. Defined.

(** [io::Result]. *)
Abbreviation io_result := (Result IoError).

(** [io::Error::other]. *)
Definition io_other (m : string) : IoError := mkIoError OtherKind m.

(** What [AsyncReadExt::read_exact] and [read_u8] return at the end of a
    stream. *)
Definition early_eof : IoError := mkIoError UnexpectedEof "early eof".

(** ** Fixed-size arrays [[u8; N]] *)

(** Fills an array of [n] elements from the front of a list, as
    [read_exact] into, or [copy_to_slice] of, an array does. *)
Fixpoint take_vec {A} (n : nat) (l : list A) : option (vec A n * list A) :=
  match n with
  | O => Some ([#], l)
  | S n =>
      match l with
      | [] => None
      | x :: l =>
          match take_vec n l with
          | Some (v, r) => Some (x ::: v, r)
          | None => None
          end
      end
  end.

Lemma take_vec_app {A n} (v : vec A n) l :
  take_vec n (vec_to_list v ++ l) = Some (v, l).
Proof. induction v as [|x n v IH]; simpl; [done|]. by rewrite IH. Qed.

Lemma take_vec_inv {A} n (l : list A) v r :
  take_vec n l = Some (v, r) → l = vec_to_list v ++ r.
Proof.
  revert l v. induction n as [|n IH]; intros l v; simpl.
  - intros [= <- <-]. done.
  - destruct l as [|x l]; [done|].
    destruct (take_vec n l) as [[v' r']|] eqn:E; [|done].
    intros [= <- <-]. apply IH in E as ->. done.
Qed.

Lemma take_vec_None {A} n (l : list A) :
  take_vec n l = None ↔ (length l < n)%nat.
Proof.
  revert l. induction n as [|n IH]; intros l; simpl; [naive_solver lia|].
  destruct l as [|x l]; simpl; [naive_solver lia|].
  specialize (IH l). destruct (take_vec n l) as [[v r]|].
  - split; [done|]. intros. destruct IH as [_ IH]. discriminate IH. lia.
  - split; [|done]. intros _. destruct IH as [IH _]. specialize (IH eq_refl). lia.
Qed.

(** ** [std::net] *)

Record Ipv4Addr := mkIpv4 { v4_octets : vec byte 4 }.
Record Ipv6Addr := mkIpv6 { v6_octets : vec byte 16 }.

#[export] Instance Ipv4Addr_eq_dec : EqDecision Ipv4Addr.
Proof. solve_decision. Defined.
#[export] Instance Ipv6Addr_eq_dec : EqDecision Ipv6Addr.
Proof. solve_decision. Defined.

Inductive IpAddr := IpV4 (a : Ipv4Addr) | IpV6 (a : Ipv6Addr).

(** Ports are [u16]; flow label and scope are [u32]. *)
Record SocketAddrV4 := mkSA4 { sa4_ip : Ipv4Addr; sa4_port : Z }.
Record SocketAddrV6 := mkSA6
  { sa6_ip : Ipv6Addr; sa6_port : Z; sa6_flowinfo : Z; sa6_scope_id : Z }.

#[export] Instance SocketAddrV4_eq_dec : EqDecision SocketAddrV4.
Proof. solve_decision. Defined.
#[export] Instance SocketAddrV6_eq_dec : EqDecision SocketAddrV6.
Proof. solve_decision. Defined.

Inductive SocketAddr := SockV4 (a : SocketAddrV4) | SockV6 (a : SocketAddrV6).

#[export] Instance IpAddr_eq_dec : EqDecision IpAddr.
Proof. solve_decision. Defined.
#[export] Instance SocketAddr_eq_dec : EqDecision SocketAddr.
Proof. solve_decision. Defined.

(** [SocketAddr::new]. *)
Definition socket_addr_new (ip : IpAddr) (port : Z) : SocketAddr :=
  match ip with
  | IpV4 a => SockV4 (mkSA4 a port)
  | IpV6 a => SockV6 (mkSA6 a port 0 0)
  end.

Definition socket_addr_ip (a : SocketAddr) : IpAddr :=
  match a with SockV4 a => IpV4 (sa4_ip a) | SockV6 a => IpV6 (sa6_ip a) end.

Definition socket_addr_port (a : SocketAddr) : Z :=
  match a with SockV4 a => sa4_port a | SockV6 a => sa6_port a end.

Lemma socket_addr_new_ip ip port : socket_addr_ip (socket_addr_new ip port) = ip.
Proof. by destruct ip. Qed.

Lemma socket_addr_new_port ip port :
  socket_addr_port (socket_addr_new ip port) = port.
Proof. by destruct ip. Qed.

Definition v4_unspecified : Ipv4Addr := mkIpv4 (vreplicate 4 Byte.x00).
Definition v6_unspecified : Ipv6Addr := mkIpv6 (vreplicate 16 Byte.x00).

(** ** In-memory buffers *)

(** Why a computation stops: a panic, or an error it returns. *)
Inductive Abort := Panicked | Failed (e : IoError).

#[export] Instance Abort_eq_dec : EqDecision Abort.
Proof. solve_decision. Defined.

(** A computation on a [Buf], which it consumes from the front. *)
Abbreviation BufM := (StM Bytes Abort).

Definition buf_fail {A} (e : IoError) : BufM A := st_err (Failed e).

(** [if buf.remaining() < n { return Err(e) }]. *)
Definition buf_require (n : nat) (e : IoError) : BufM unit := fun b =>
  if Nat.ltb (length b) n then (Err (Failed e), b) else (Ok tt, b).

(** [copy_to_slice] into an array, [copy_to_bytes], [advance]: they panic when
    fewer bytes remain. *)
Definition buf_array (n : nat) : BufM (vec byte n) := fun b =>
  match take_vec n b with
  | Some (v, r) => (Ok v, r)
  | None => (Err Panicked, b)
  end.

Definition buf_bytes (n : nat) : BufM Bytes := fun b =>
  if Nat.leb n (length b) then (Ok (take n b), drop n b) else (Err Panicked, b).

Definition get_u8 : BufM byte := fun b =>
  match b with x :: r => (Ok x, r) | [] => (Err Panicked, b) end.

Definition get_u16 : BufM Z := fun b =>
  match b with
  | hi :: lo :: r => (Ok (u16_from_be hi lo), r)
  | _ => (Err Panicked, b)
  end.

Lemma buf_require_eq n e b :
  (n ≤ length b)%nat → buf_require n e b = (Ok tt, b).
Proof. intros. unfold buf_require. by destruct (Nat.ltb_spec (length b) n); [lia|]. Qed.

Lemma buf_array_app {n} (v : vec byte n) r :
  buf_array n (vec_to_list v ++ r) = (Ok v, r).
Proof. unfold buf_array. by rewrite take_vec_app. Qed.

Lemma buf_bytes_app l r : buf_bytes (length l) (l ++ r) = (Ok l, r).
Proof.
  unfold buf_bytes. rewrite length_app.
  destruct (Nat.leb_spec (length l) (length l + length r)); [|lia].
  by rewrite take_app_length, drop_app_length.
Qed.

Lemma get_u16_app z r : in_width 16 z → get_u16 (u16_to_be z ++ r) = (Ok z, r).
Proof. intros. simpl. by rewrite u16_from_to_be. Qed.

Lemma u16_to_from_be hi lo : u16_to_be (u16_from_be hi lo) = [hi; lo].
Proof.
  unfold u16_to_be, u16_from_be. pose proof (b2z_range hi). pose proof (b2z_range lo).
  f_equal; [|f_equal].
  - replace ((b2z hi * 256 + b2z lo) / 256)%Z with (b2z hi); [apply z2b_b2z|].
    apply (Z.div_unique _ _ _ (b2z lo)); lia.
  - rewrite <-(z2b_b2z lo) at 2. unfold z2b.
    by rewrite Z.add_comm, Z.mod_add by lia.
Qed.
