(* ===== verification/Select.v ===== *)
(** Loops around [tokio::select!]. Most tasks of the program are a loop whose
    body waits for a signal to stop or for the next item of a source, whichever
    comes first. This file has the loop once, with its laws; the tasks themselves
    are its instances in the files of their components. *)

From S2P Require Import Prelude.

(** ** One turn *)

(** What a poll of the two branches finds: whether the signal has come, the item
    of the source if there is one, and, for a [select!] that is not [biased],
    whether the branch of the signal is the one polled first. *)
Record Turn (A : Type) := mkTurn
  { signal : bool; ready : option A; signal_first : bool }.
Arguments mkTurn {A}.
Arguments signal {A} t.
Arguments ready {A} t.
Arguments signal_first {A} t.

Inductive Branch (A : Type) := OnSignal | OnReady (a : A) | Waiting.
Arguments OnSignal {A}.
Arguments OnReady {A} a.
Arguments Waiting {A}.

(** [biased;] with the signal as the first branch. *)
Definition select_biased {A} (t : Turn A) : Branch A :=
  if signal t then OnSignal
  else match ready t with Some a => OnReady a | None => Waiting end.

(** Without [biased;] the order of the branches is chosen at random. *)
Definition select_fair {A} (t : Turn A) : Branch A :=
  match ready t with
  | Some a => if signal t && signal_first t then OnSignal else OnReady a
  | None => if signal t then OnSignal else Waiting
  end.

(** ** The loop *)

(** What the body does with an item: on to the next turn, or out of the loop. *)
Inductive Flow (R : Type) := Loop | Return (r : R).
Arguments Loop {R}.
Arguments Return {R} r.

Section loop.
Context {A S R : Type}.
Context (select : Turn A → Branch A) (on_signal : R) (body : A → S → Flow R * S).

(** The loop over the turns it gets: its result, [None] while it is still
    running, the turns it did not take, and its state. *)
Fixpoint select_loop (turns : list (Turn A)) (s : S) : option R * list (Turn A) * S :=
  match turns with
  | [] => (None, [], s)
  | t :: turns =>
    match select t with
    | OnSignal => (Some on_signal, turns, s)
    | OnReady a =>
      match body a s with
      | (Return r, s) => (Some r, turns, s)
      | (Loop, s) => select_loop turns s
      end
    | Waiting => select_loop turns s
    end
  end.

Definition loop_result (turns : list (Turn A)) (s : S) : option R :=
  fst (fst (select_loop turns s)).
Definition loop_state (turns : list (Turn A)) (s : S) : S := snd (select_loop turns s).

(** The items up to the first turn that takes the signal. *)
Fixpoint items_before (turns : list (Turn A)) : list A :=
  match turns with
  | [] => []
  | t :: turns =>
    match select t with
    | OnSignal => []
    | OnReady a => a :: items_before turns
    | Waiting => items_before turns
    end
  end.

(** Whether some turn takes the signal. *)
Definition takes_signal (t : Turn A) : bool :=
  match select t with OnSignal => true | _ => false end.

(** A body that never leaves the loop: the loop handles the items in order, and
    ends exactly when it takes the signal. *)
Lemma select_loop_total (step : A → S → S) turns s :
  (∀ a s, body a s = (Loop, step a s)) →
  loop_result turns s = (if existsb takes_signal turns then Some on_signal else None)
  ∧ loop_state turns s = foldl (flip step) s (items_before turns).
Proof.
  intros Hb. unfold loop_result, loop_state. revert s.
  induction turns as [|t turns IH]; intros s; cbn [select_loop existsb items_before]; [done|].
  unfold takes_signal at 1. destruct (select t) as [|a|]; cbn [orb]; [done| |apply IH].
  rewrite Hb. apply IH.
Qed.

(** The loop resumes where it was. *)
Lemma select_loop_app t1 t2 s :
  select_loop (t1 ++ t2) s =
    match select_loop t1 s with
    | (Some r, rest, s) => (Some r, rest ++ t2, s)
    | (None, _, s) => select_loop t2 s
    end.
Proof.
  revert s. induction t1 as [|t t1 IH]; intros s; cbn [select_loop app]; [done|].
  destruct (select t) as [|a|]; [done| |apply IH].
  destruct (body a s) as [[|r] s']; [apply IH|done].
Qed.

(** An invariant of the body is one of the loop. *)
Lemma select_loop_inv (I : S → Prop) turns s :
  (∀ a s, I s → I (snd (body a s))) → I s → I (loop_state turns s).
Proof.
  intros Hb. unfold loop_state. revert s.
  induction turns as [|t turns IH]; intros s Hs; cbn [select_loop]; [done|].
  destruct (select t) as [|a|]; [done| |by apply IH].
  specialize (Hb a s Hs). destruct (body a s) as [[|r] s']; [by apply IH|done].
Qed.

(** What the loop returns is the signal's result or one of its body's. *)
Lemma select_loop_return turns s r :
  loop_result turns s = Some r → r = on_signal ∨ ∃ a s', fst (body a s') = Return r.
Proof.
  unfold loop_result. revert s. induction turns as [|t turns IH]; intros s; cbn [select_loop]; [done|].
  destruct (select t) as [|a|]; [intros [= <-]; by left| |apply IH].
  destruct (body a s) as [[|r'] s'] eqn:E; [apply IH|].
  intros [= <-]. right. exists a, s. by rewrite E.
Qed.
End loop.

(** ** The two orders *)

Section orders.
Context {A S R : Type} (on_signal : R) (body : A → S → Flow R * S).

(** With [biased;], a loop that is still running when the signal has come ends at
    that turn, and handles nothing more. *)
Lemma biased_ends t1 t t2 s :
  signal t = true → loop_result select_biased on_signal body t1 s = None →
  select_loop select_biased on_signal body (t1 ++ t :: t2) s
  = (Some on_signal, t2, loop_state select_biased on_signal body t1 s).
Proof.
  intros Ht Hn. rewrite select_loop_app. unfold loop_result, loop_state in *.
  destruct (select_loop select_biased on_signal body t1 s) as [[[r|] rest] s']; [done|].
  cbn [select_loop fst snd]. unfold select_biased at 1. by rewrite Ht.
Qed.

(** Without it, the loop may take items as long as the source has them; it ends at
    the first turn at which the source has none, or at which the signal is polled
    first. *)
Lemma fair_ends t1 t t2 s :
  signal t = true → (ready t = None ∨ signal_first t = true) →
  loop_result select_fair on_signal body t1 s = None →
  select_loop select_fair on_signal body (t1 ++ t :: t2) s
  = (Some on_signal, t2, loop_state select_fair on_signal body t1 s).
Proof.
  intros Ht Hf Hn. rewrite select_loop_app. unfold loop_result, loop_state in *.
  destruct (select_loop select_fair on_signal body t1 s) as [[[r|] rest] s']; [done|].
  cbn [select_loop fst snd]. unfold select_fair at 1. rewrite Ht.
  destruct (ready t); [|done]. destruct Hf as [Hf|Hf]; [done|by rewrite Hf].
Qed.

(** Before the signal both orders are the same loop. *)
Lemma orders_agree turns s :
  Forall (λ t, signal t = false) turns →
  select_loop select_fair on_signal body turns s
  = select_loop select_biased on_signal body turns s.
Proof.
  intros Hf. revert s. induction Hf as [|t turns Ht Hf IH]; intros s; [done|].
  cbn [select_loop]. unfold select_fair at 1, select_biased at 1. rewrite Ht.
  destruct (ready t) as [a|]; cbn [andb]; [|apply IH].
  by destruct (body a s) as [[|r] s']; [apply IH|].
Qed.
End orders.

(** ** Accept loops *)

(** The commonest body: a connection that was accepted is handed to a task of its
    own, an error of [accept] is logged and the loop goes on. The state is the
    list of the connections handed over. *)
Definition spawn_accepted {E C R} (result : Result E C) (spawned : list C)
    : Flow R * list C :=
  match result with
  | Ok c => (Loop, spawned ++ [c])
  | Err _ => (Loop, spawned)
  end.

Definition oks {E C} (l : list (Result E C)) : list C :=
  omap (λ r, match r with Ok c => Some c | Err _ => None end) l.

Lemma foldl_spawn {E C} (l : list (Result E C)) s :
  foldl (flip (λ r s, match r with Ok c => s ++ [c] | Err _ => s end)) s l = s ++ oks l.
Proof.
  revert s. induction l as [|[c|e] l IH]; intros s; cbn.
  - by rewrite app_nil_r.
  - by rewrite IH, <-app_assoc.
  - apply IH.
Qed.

(** An accept loop hands over every connection accepted before the signal, once
    and in order; errors do not end it, the signal does, and nothing else. *)
Lemma accept_loop_spec {E C R} (select : Turn (Result E C) → Branch (Result E C)) (r : R) turns :
  loop_result select r spawn_accepted turns [] = (if existsb (takes_signal select) turns then Some r else None)
  ∧ loop_state select r spawn_accepted turns [] = oks (items_before select turns).
Proof.
  destruct (select_loop_total select r spawn_accepted
    (λ x s, match x with Ok c => s ++ [c] | Err _ => s end) turns []) as [H1 H2].
  { by intros [c|e] s. }
  split; [done|]. by rewrite H2, foldl_spawn.
Qed.

(** For the biased order, the items before the signal and whether it is taken, in
    terms of the turns themselves. *)
Lemma takes_signal_biased {A} (t : Turn A) : takes_signal select_biased t = signal t.
Proof. unfold takes_signal, select_biased. destruct (signal t); [done|]. by destruct (ready t). Qed.

Lemma existsb_signal_biased {A} (turns : list (Turn A)) :
  existsb (takes_signal select_biased) turns = existsb signal turns.
Proof. induction turns as [|t l IH]; cbn; [done|]. by rewrite takes_signal_biased, IH. Qed.

Lemma items_before_biased {A} (t1 : list (Turn A)) t t2 :
  Forall (λ t, signal t = false) t1 → signal t = true →
  items_before select_biased (t1 ++ t :: t2) = omap ready t1.
Proof.
  intros H1 Ht. induction H1 as [|x l Hx _ IH]; cbn [items_before app]; unfold select_biased at 1.
  - by rewrite Ht.
  - rewrite Hx. cbn. destruct (ready x); by rewrite IH.
Qed.

(** A loop that ends by itself or by the signal: if the signal has come from some
    turn on and there is a turn after that, it has ended. *)
Lemma biased_loop_ends {A S R} (on_signal : R) (body : A → S → Flow R * S) turns s :
  Exists (λ t, signal t = true) turns →
  is_Some (loop_result select_biased on_signal body turns s).
Proof.
  intros He. unfold loop_result. revert s.
  induction He as [t l Ht|t l He IH]; intros s; cbn [select_loop];
    unfold select_biased at 1; [by rewrite Ht|].
  destruct (signal t); [done|]. destruct (ready t) as [a|]; [|apply IH].
  destruct (body a s) as [[|r] s']; [apply IH|done].
Qed.

(** ** Reasoning about a loop by what it has handled *)

(** Both orders take an item only where there is one, and wait only where there is
    none. *)
Record select_ok {A} (select : Turn A → Branch A) : Prop := {
  sel_ready t a : select t = OnReady a → ready t = Some a;
  sel_wait t : select t = Waiting → ready t = None
}.

Lemma select_biased_ok {A} : select_ok (A := A) select_biased.
Proof.
  split; intros [s r f]; unfold select_biased; cbn; destruct s, r; naive_solver.
Qed.

Lemma select_fair_ok {A} : select_ok (A := A) select_fair.
Proof.
  split; intros [s r f]; unfold select_fair; cbn; destruct s, r, f; naive_solver.
Qed.

(** [I] relates the items handled so far to the state. When the loop is looked at,
    it has handled a prefix of the items that came, in order; and if its body ended
    it, that was at the item after them. *)
Lemma select_loop_handled {A S R} (select : Turn A → Branch A) (on_signal : R)
    (body : A → S → Flow R * S) (I : list A → S → Prop) turns s :
  select_ok select →
  (∀ l a s s', I l s → body a s = (Loop, s') → I (l ++ [a]) s') →
  I [] s →
  ∃ handled, prefix handled (omap ready turns)
    ∧ (I handled (loop_state select on_signal body turns s)
       ∧ (loop_result select on_signal body turns s = None
          ∨ loop_result select on_signal body turns s = Some on_signal)
       ∨ ∃ a s1 r, I handled s1 ∧ body a s1 = (Return r, loop_state select on_signal body turns s)
           ∧ loop_result select on_signal body turns s = Some r
           ∧ prefix (handled ++ [a]) (omap ready turns)).
Proof.
  intros Hsel Hstep HI. unfold loop_state, loop_result.
  assert (∀ l s, I l s → ∃ more, prefix more (omap ready turns)
    ∧ (I (l ++ more) (snd (select_loop select on_signal body turns s))
       ∧ (fst (fst (select_loop select on_signal body turns s)) = None
          ∨ fst (fst (select_loop select on_signal body turns s)) = Some on_signal)
       ∨ ∃ a s1 r, I (l ++ more) s1
           ∧ body a s1 = (Return r, snd (select_loop select on_signal body turns s))
           ∧ fst (fst (select_loop select on_signal body turns s)) = Some r
           ∧ prefix (more ++ [a]) (omap ready turns))) as H; [|by apply (H [] s)].
  clear s HI. induction turns as [|t turns IH]; intros l s HI; cbn [select_loop].
  { exists []. rewrite app_nil_r. split; [done|]. left. auto. }
  destruct (select t) as [|a|] eqn:Es.
  - exists []. rewrite app_nil_r. split; [apply prefix_nil|]. left. auto.
  - apply (sel_ready _ Hsel) in Es. cbn [omap list_omap]. rewrite Es.
    destruct (body a s) as [[|r] s'] eqn:Eb.
    + destruct (IH (l ++ [a]) s' ltac:(by eapply Hstep)) as (more & Hp & H).
      exists (a :: more). rewrite <-app_assoc in H. split; [by apply prefix_cons|].
      destruct H as [H|(a' & s1 & r & H1 & H2 & H3 & H4)]; [by left|right].
      exists a', s1, r. split_and!; [done..|]. by apply prefix_cons.
    + exists []. rewrite app_nil_r. split; [apply prefix_nil|]. right.
      exists a, s, r. split_and!; [done..|]. apply prefix_cons, prefix_nil.
  - apply (sel_wait _ Hsel) in Es. cbn [omap list_omap]. rewrite Es. by apply IH.
Qed.
