(* ===== verification/Parse.v ===== *)
(** The text parsers of Rust's standard library the program calls:
    [str::from_utf8], [str::rsplit_once], [u16::from_str] and
    [SocketAddr::from_str] ([core::net::parser]). A [&str] is its UTF-8 bytes. *)

From S2P Require Import Prelude Std.

#[local] Open Scope Z_scope.

(** The bytes of a string literal, and back. *)
Definition byte_of_ascii (a : Ascii.ascii) : byte := z2b (Z.of_N (Ascii.N_of_ascii a)).
Fixpoint bytes_of (s : string) : Bytes :=
  match s with
  | EmptyString => []
  | String a s => byte_of_ascii a :: bytes_of s
  end.

Definition is_byte (z : Z) (b : byte) : bool := b2z b =? z.
Definition in_range (lo hi : Z) (b : byte) : bool := (lo <=? b2z b) && (b2z b <=? hi).

(** ** [std::str::from_utf8] *)

(** The number of bytes the character at the head of the list takes, when it
    is a well-formed UTF-8 sequence (RFC 3629, no surrogates). *)
Definition utf8_char (l : Bytes) : option nat :=
  let cont := in_range 0x80 0xBF in
  match l with
  | [] => None
  | b :: r =>
    if b2z b <? 0x80 then Some 1%nat
    else if in_range 0xC2 0xDF b then
      match r with c :: _ => if cont c then Some 2%nat else None | _ => None end
    else if in_range 0xE0 0xEF b then
      match r with
      | c :: d :: _ =>
        let ok := if is_byte 0xE0 b then in_range 0xA0 0xBF c
                  else if is_byte 0xED b then in_range 0x80 0x9F c else cont c in
        if ok && cont d then Some 3%nat else None
      | _ => None
      end
    else if in_range 0xF0 0xF4 b then
      match r with
      | c :: d :: e :: _ =>
        let ok := if is_byte 0xF0 b then in_range 0x90 0xBF c
                  else if is_byte 0xF4 b then in_range 0x80 0x8F c else cont c in
        if ok && cont d && cont e then Some 4%nat else None
      | _ => None
      end
    else None
  end.

(** The fuel is the length of the list: a character takes at least a byte. *)
Fixpoint utf8_valid_fuel (fuel : nat) (l : Bytes) : bool :=
  match l, fuel with
  | [], _ => true
  | _, O => false
  | _, S f =>
    match utf8_char l with Some n => utf8_valid_fuel f (drop n l) | None => false end
  end.
Definition utf8_valid (l : Bytes) : bool := utf8_valid_fuel (length l) l.

(** ** Integers and separators *)

Definition digit_of (radix : Z) (b : byte) : option Z :=
  let z := b2z b in
  let d := if in_range 48 57 b then z - 48
           else if in_range 97 122 b then z - 87
           else if in_range 65 90 b then z - 55 else radix in
  if d <? radix then Some d else None.

(** [u16::from_str]: an optional [+], then decimal digits, the value checked
    against the width after each digit. *)
Fixpoint u16_digits (acc : Z) (l : Bytes) : option Z :=
  match l with
  | [] => Some acc
  | b :: r =>
    match digit_of 10 b with
    | Some d => let acc' := acc * 10 + d in
                if acc' <? 2 ^ 16 then u16_digits acc' r else None
    | None => None
    end
  end.
Definition parse_u16 (l : Bytes) : option Z :=
  match l with
  | [] => None
  | b :: r => if is_byte 43 b
              then match r with [] => None | _ => u16_digits 0 r end
              else u16_digits 0 l
  end.

(** [str::rsplit_once(c)]: split at the last occurrence. *)
Fixpoint rsplit_once (c : Z) (l : Bytes) : option (Bytes * Bytes) :=
  match l with
  | [] => None
  | b :: r =>
    match rsplit_once c r with
    | Some (pre, post) => Some (b :: pre, post)
    | None => if is_byte c b then Some ([], r) else None
    end
  end.

(** ** [core::net::parser] *)

(** A parser consumes a prefix or fails without consuming
    ([Parser::read_atomically]). *)
Definition P (A : Type) : Type := Bytes → option (A * Bytes).
#[export] Instance P_mret : MRet P := fun A a l => Some (a, l).
#[export] Instance P_mbind : MBind P := fun A B f m l =>
  match m l with Some (a, r) => f a r | None => None end.

Definition read_given_char (z : Z) : P unit := fun l =>
  match l with b :: r => if is_byte z b then Some (tt, r) else None | [] => None end.

(** Reads all the digits there are: value, digit count and the rest.
    [limit] is the bound [checked_add] enforces ([None]: unchecked). *)
Fixpoint read_digits (radix : Z) (acc : Z) (count : nat) (l : Bytes) : Z * nat * Bytes :=
  match l with
  | [] => (acc, count, l)
  | b :: r =>
    match digit_of radix b with
    | Some d => read_digits radix (acc * radix + d) (S count) r
    | None => (acc, count, l)
    end
  end.

(** [read_number]: [width] is the target type's; a value out of it fails. *)
Definition read_number (radix : Z) (max_digits : option nat)
    (allow_zero_prefix : bool) (width : Z) : P Z := fun l =>
  let '(v, n, r) := read_digits radix 0 0 l in
  let leading_zero := match l with b :: _ => is_byte 48 b | [] => false end in
  if match max_digits with Some m => Nat.ltb m n | None => false end then None
  else if Nat.eqb n 0 then None
  else if negb allow_zero_prefix && leading_zero && Nat.ltb 1 n then None
  else if v <? 2 ^ width then Some (v, r) else None.

Definition read_separator {A} (sep : Z) (index : nat) (inner : P A) : P A :=
  match index with O => inner | S _ => _ ← read_given_char sep; inner end.

Definition read_ipv4_addr : P Ipv4Addr :=
  let n i := read_separator 46 i (read_number 10 (Some 3%nat) false 8) in
  a ← n 0%nat; b ← n 1%nat; c ← n 2%nat; d ← n 3%nat;
  mret (mkIpv4 [# z2b a; z2b b; z2b c; z2b d]).

Definition read_port : P Z := _ ← read_given_char 58; read_number 10 None true 16.

(** [read_groups]: up to [todo] more groups from index [i], with an embedded
    IPv4 address allowed when two groups are left. Returns the groups and
    whether they end with an IPv4 address. *)
Fixpoint read_groups (i todo : nat) (l : Bytes) : list Z * bool * Bytes :=
  match todo with
  | O => ([], false, l)
  | S todo' =>
    let v4 := match todo' with
              | O => None
              | S _ => read_separator 58 i read_ipv4_addr l
              end in
    match v4 with
    | Some (a, r) =>
      let o := vec_to_list (v4_octets a) in
      match o with
      | [a; b; c; d] => ([u16_from_be a b; u16_from_be c d], true, r)
      | _ => ([], false, l)
      end
    | None =>
      match read_separator 58 i (read_number 16 (Some 4%nat) true 16) l with
      | Some (g, r) =>
        let '(gs, v4, r') := read_groups (S i) todo' r in (g :: gs, v4, r')
      | None => ([], false, l)
      end
    end
  end.

Definition ipv6_of_groups (gs : list Z) : Ipv6Addr :=
  match take_vec 16 (concat (u16_to_be <$> gs)) with
  | Some (v, _) => mkIpv6 v
  | None => v6_unspecified
  end.

Definition read_ipv6_addr : P Ipv6Addr := fun l =>
  let '(head, head_ipv4, r) := read_groups 0 8 l in
  if Nat.eqb (length head) 8 then Some (ipv6_of_groups head, r)
  else if head_ipv4 then None
  else match (_ ← read_given_char 58; read_given_char 58) r with
       | None => None
       | Some (_, r') =>
         let '(tail, _, r'') := read_groups 0 (8 - (length head + 1)) r' in
         Some (ipv6_of_groups
                 (head ++ replicate (8 - length head - length tail) 0 ++ tail), r'')
       end.

Definition read_scope_id : P Z := fun l =>
  match (_ ← read_given_char 37; read_number 10 None true 32) l with
  | Some x => Some x
  | None => Some (0, l)
  end.

Definition read_socket_addr_v4 : P SocketAddr :=
  ip ← read_ipv4_addr; port ← read_port; mret (SockV4 (mkSA4 ip port)).

Definition read_socket_addr_v6 : P SocketAddr :=
  _ ← read_given_char 91; ip ← read_ipv6_addr; scope ← read_scope_id;
  _ ← read_given_char 93; port ← read_port; mret (SockV6 (mkSA6 ip port 0 scope)).

(** [SocketAddr::from_str]: the whole text must be consumed. *)
Definition parse_socket_addr (l : Bytes) : option SocketAddr :=
  let r := match read_socket_addr_v4 l with
           | Some x => Some x
           | None => read_socket_addr_v6 l
           end in
  match r with Some (a, []) => Some a | _ => None end.

(** [IpAddr::from_str]. *)
Definition parse_ip_addr (l : Bytes) : option IpAddr :=
  match read_ipv4_addr l with
  | Some (a, []) => Some (IpV4 a)
  | Some (_, _ :: _) => None
  | None =>
    match read_ipv6_addr l with Some (a, []) => Some (IpV6 a) | _ => None end
  end.

(** ** Lemmas *)

Lemma u16_digits_range acc l z :
  in_width 16 acc → u16_digits acc l = Some z → in_width 16 z.
Proof.
  revert acc. induction l as [|b l IH]; intros acc H; cbn [u16_digits].
  - by intros [= <-].
  - unfold digit_of. case_match eqn:E; [|done].
    destruct (_ <? 2 ^ 16) eqn:E2; [|done]. intros H2. apply IH in H2; [done|].
    unfold in_width in *. apply Z.ltb_lt in E2.
    assert (0 ≤ z0); [|lia].
    pose proof (b2z_range b). revert E. unfold in_range.
    repeat case_match; intros [= <-]; lia.
Qed.

Lemma parse_u16_range l z : parse_u16 l = Some z → in_width 16 z.
Proof.
  destruct l as [|b r]; [done|]. cbn [parse_u16].
  assert (in_width 16 0) by width_lia.
  case_match; [destruct r; [done|]|]; intros; by eapply u16_digits_range.
Qed.

Lemma rsplit_once_app c l pre post :
  rsplit_once c l = Some (pre, post) → ∃ b, b2z b = c ∧ l = pre ++ b :: post.
Proof.
  revert pre. induction l as [|b l IH]; intros pre; simpl; [done|].
  destruct (rsplit_once c l) as [[p q]|].
  - intros [= <- ->]. destruct (IH p eq_refl) as (b' & E & ->). by exists b'.
  - unfold is_byte. destruct (b2z b =? c) eqn:E; [|done]. intros [= <- <-].
    exists b. split; [by apply Z.eqb_eq|done].
Qed.

Example parse_v4 :
  parse_socket_addr (bytes_of "1.2.3.4:80") =
    Some (SockV4 (mkSA4 (mkIpv4 [# z2b 1; z2b 2; z2b 3; z2b 4]) 80)).
Proof. vm_compute. reflexivity. Qed.

Example parse_v6 :
  parse_socket_addr (bytes_of "[::1]:443") =
    Some (SockV6 (mkSA6 (ipv6_of_groups [0;0;0;0;0;0;0;1]) 443 0 0)).
Proof. vm_compute. reflexivity. Qed.

Example parse_v6_embedded :
  parse_ip_addr (bytes_of "64:ff9b::192.0.2.33") =
    Some (IpV6 (ipv6_of_groups [0x64; 0xff9b; 0; 0; 0; 0; 0xc000; 0x221])).
Proof. vm_compute. reflexivity. Qed.

Lemma rsplit_once_last c b pre post :
  b2z b = c → Forall (λ x, b2z x ≠ c) post →
  rsplit_once c (pre ++ b :: post) = Some (pre, post).
Proof.
  intros Hb Hp. assert (rsplit_once c post = None) as Hn.
  { induction Hp as [|x l Hx _ IH]; simpl; [done|]. rewrite IH. unfold is_byte.
    by destruct (Z.eqb_spec (b2z x) c). }
  induction pre as [|x pre IH]; simpl.
  - rewrite Hn. unfold is_byte. by rewrite Hb, Z.eqb_refl.
  - by rewrite IH.
Qed.

Lemma rsplit_once_post c l pre post :
  rsplit_once c l = Some (pre, post) → Forall (λ x, b2z x ≠ c) post.
Proof.
  assert (∀ l, rsplit_once c l = None → Forall (λ x, b2z x ≠ c) l) as Hnone.
  { clear. induction l as [|x l IH]; simpl; [done|].
    destruct (rsplit_once c l) as [[]|]; [done|]. unfold is_byte.
    destruct (Z.eqb_spec (b2z x) c); [done|]. intros _. constructor; auto. }
  revert pre. induction l as [|x l IH]; intros pre; simpl; [done|].
  destruct (rsplit_once c l) as [[p q]|] eqn:E.
  - intros [= _ ->]. by apply (IH p).
  - destruct (is_byte c x); [|done]. intros [= _ <-]. by apply Hnone.
Qed.

(** ** Printing of [u16] values *)

Fixpoint display_digits (fuel : nat) (z : Z) : Bytes :=
  match fuel with
  | O => []
  | S f => if z <? 10 then [z2b (48 + z)]
           else display_digits f (z / 10) ++ [z2b (48 + z mod 10)]
  end.

(** [Display for u16]: five digits are enough. *)
Definition display_u16 (z : Z) : Bytes := display_digits 5 z.

Lemma digit_of_display d : 0 ≤ d < 10 → digit_of 10 (z2b (48 + d)) = Some d.
Proof.
  intros. unfold digit_of, in_range. rewrite b2z_z2b_small by lia.
  destruct (Z.leb_spec 48 (48 + d)); [|lia]. destruct (Z.leb_spec (48 + d) 57); [|lia].
  simpl. replace (48 + d - 48) with d by lia.
  destruct (Z.ltb_spec d 10); [done|lia].
Qed.

Lemma u16_digits_app acc l b z :
  u16_digits acc l = Some z →
  u16_digits acc (l ++ [b]) = u16_digits z [b].
Proof.
  revert acc. induction l as [|x l IH]; intros acc; [by intros [= ->]|].
  cbn [u16_digits app]. destruct (digit_of 10 x) as [d|]; [|done].
  destruct (_ <? _); [|done]. apply IH.
Qed.

Lemma u16_digits_display f z :
  0 ≤ z < 2 ^ 16 → z < 10 ^ Z.of_nat f → u16_digits 0 (display_digits f z) = Some z.
Proof.
  revert z. induction f as [|f IH]; intros z Hz Hf.
  { simpl in *. replace z with 0 by lia. done. }
  cbn [display_digits]. destruct (Z.ltb_spec z 10) as [H|H].
  - cbn [u16_digits]. rewrite digit_of_display by lia.
    rewrite (proj2 (Z.ltb_lt (0 * 10 + z) (2 ^ 16))) by lia. done.
  - rewrite Nat2Z.inj_succ, Z.pow_succ_r in Hf by lia.
    rewrite (u16_digits_app _ _ _ (z / 10)).
    2:{ apply IH; Z.div_mod_to_equations; lia. }
    cbn [u16_digits]. rewrite digit_of_display by (apply Z.mod_pos_bound; lia).
    assert (z / 10 * 10 + z mod 10 = z) as -> by (Z.div_mod_to_equations; lia).
    by rewrite (proj2 (Z.ltb_lt z (2 ^ 16))) by lia.
Qed.

Lemma display_digits_range f z :
  0 ≤ z → Forall (λ b, 48 ≤ b2z b < 58) (display_digits f z).
Proof.
  revert z. induction f as [|f IH]; intros z Hz; cbn [display_digits]; [done|].
  pose proof (Z.mod_pos_bound z 10 ltac:(lia)).
  destruct (Z.ltb_spec z 10).
  - constructor; [|done]. rewrite b2z_z2b_small; lia.
  - apply Forall_app. split; [apply IH; apply Z.div_pos; lia|].
    constructor; [|done]. rewrite b2z_z2b_small; lia.
Qed.

Lemma parse_display_u16 z : in_width 16 z → parse_u16 (display_u16 z) = Some z.
Proof.
  unfold in_width. intros Hz. unfold display_u16.
  pose proof (display_digits_range 5 z ltac:(lia)) as Hr.
  pose proof (u16_digits_display 5 z Hz ltac:(lia)) as Hd.
  destruct (display_digits 5 z) as [|b l] eqn:E.
  { cbn [display_digits] in E. destruct (z <? 10); [done|].
    by apply app_eq_nil in E as [_ ?]. }
  cbn [parse_u16]. apply Forall_cons in Hr as [Hb _]. unfold is_byte.
  destruct (Z.eqb_spec (b2z b) 43); [lia|done].
Qed.
