(* ===== verification/Protocol.v ===== *)
(** The protocol messages and their fragmentation
    (crates/ombrac/src/protocol.rs, and the message types of codec.rs). *)

From S2P Require Import Prelude Std Parse.

#[local] Open Scope Z_scope.

(** ** Messages *)

(** [Secret = [u8; 32]]. *)
Abbreviation Secret := (vec byte 32).

Definition PROTOCOL_VERSION : Z := 0x01.
Definition MAX_DOMAIN_LENGTH : nat := 255.

Inductive Address :=
  | SocketV4 (a : SocketAddrV4)
  | SocketV6 (a : SocketAddrV6)
  | Domain (name : Bytes) (port : Z).

#[export] Instance Address_eq_dec : EqDecision Address.
Proof. solve_decision. Defined.

Record ClientHello := mkHello
  { hello_version : Z; hello_secret : Secret; hello_options : Bytes }.

Record ClientConnect := mkConnect { connect_address : Address }.

Inductive ServerAuthResponse := AuthOk | AuthErr.

Inductive UdpPacket :=
  | Unfragmented (session_id : Z) (address : Address) (data : Bytes)
  | Fragmented (session_id fragment_id fragment_index fragment_count : Z)
      (address : option Address) (data : Bytes).

#[export] Instance UdpPacket_eq_dec : EqDecision UdpPacket.
Proof. solve_decision. Defined.

Inductive ConnectErrorKind :=
  | CekConnectionRefused | CekNetworkUnreachable | CekHostUnreachable
  | CekTimedOut | CekOther.

Inductive ServerConnectResponse :=
  | ConnectOk
  | ConnectErr (kind : ConnectErrorKind) (message : string).

Inductive ClientMessage :=
  | MsgHello (h : ClientHello)
  | MsgConnect (c : ClientConnect).

Inductive ServerMessage := MsgConnectResponse (r : ServerConnectResponse).

(** [ConnectErrorKind::from_io_error]. *)
Definition from_io_error (error : IoError) : ConnectErrorKind :=
  match kind error with
  | ConnectionRefused => CekConnectionRefused
  | NetworkUnreachable => CekNetworkUnreachable
  | HostUnreachable => CekHostUnreachable
  | TimedOut => CekTimedOut
  | _ => CekOther
  end.

(** ** Serialization *)

(** The serializer is the [bincode] crate: a parameter, one instance per
    message type. [None] is its error, whose text is not modelled. *)
Class Bincode (T : Type) := {
  encode_to_vec : T → option Bytes;
  borrow_decode_from_slice : Bytes → option (T * nat)
}.

(** What is left of a message on the wire. To a binary format [serde] writes an
    IPv6 socket address as its address and its port: flow information and scope are
    read back as zero. Everything else is kept. *)
Class WireForm (T : Type) := wire : T → T.
#[global] Hint Mode WireForm ! : typeclass_instances.

Definition wire_v6 (a : SocketAddrV6) : SocketAddrV6 := mkSA6 (sa6_ip a) (sa6_port a) 0 0.

Definition wire_address (a : Address) : Address :=
  match a with SocketV6 a => SocketV6 (wire_v6 a) | _ => a end.

#[export] Instance wire_hello : WireForm ClientHello := id.
#[export] Instance wire_connect : WireForm ClientConnect := λ c,
  mkConnect (wire_address (connect_address c)).
#[export] Instance wire_udp : WireForm UdpPacket := λ p,
  match p with
  | Unfragmented sid a data => Unfragmented sid (wire_address a) data
  | Fragmented sid fid i n a data => Fragmented sid fid i n (wire_address <$> a) data
  end.
#[export] Instance wire_client : WireForm ClientMessage := λ m,
  match m with MsgHello h => MsgHello (wire h) | MsgConnect c => MsgConnect (wire c) end.
#[export] Instance wire_server : WireForm ServerMessage := id.
#[export] Instance wire_auth : WireForm ServerAuthResponse := id.

Lemma wire_address_idemp a : wire_address (wire_address a) = wire_address a.
Proof. by destruct a. Qed.

(** What the crate documents: decoding what was encoded gives the message back, as
    far as it was written, and the number of bytes read. *)
Class BincodeLaws (T : Type) `{Bincode T} `{WireForm T} :=
  bincode_round_trip : ∀ (m : T) b,
    encode_to_vec m = Some b → borrow_decode_from_slice b = Some (wire m, length b).

Definition encode {T} `{Bincode T} (message : T) : io_result Bytes :=
  match encode_to_vec message with
  | Some b => Ok b
  | None => Err (mkIoError InvalidInput "encode error: ")
  end.

Definition decode {T} `{Bincode T} (bytes : Bytes) : io_result T :=
  match borrow_decode_from_slice bytes with
  | Some (m, _) => Ok m
  | None => Err (mkIoError InvalidData "decode error: ")
  end.

Lemma decode_encode {T} `{BincodeLaws T} (m : T) b :
  encode m = Ok b → decode b = Ok (wire m).
Proof.
  unfold encode, decode. destruct (encode_to_vec m) eqn:E; [|done].
  intros [= ->]. by rewrite (bincode_round_trip m b).
Qed.

(** Of a message without IPv6 addresses everything is written. *)
Lemma decode_encode_same {T} `{BincodeLaws T} (m : T) b :
  wire m = m → encode m = Ok b → decode b = Ok m.
Proof. intros Hw He. by rewrite (decode_encode m b He), Hw. Qed.

(** ** Addresses *)

(** [From<SocketAddr> for Address]. *)
Definition address_from (value : SocketAddr) : Address :=
  match value with
  | SockV4 addr => SocketV4 addr
  | SockV6 addr => SocketV6 addr
  end.

(** [From<(String, u16)>] and [From<(&str, u16)>]. *)
Definition address_from_pair (value : Bytes * Z) : Address :=
  Domain (fst value) (snd value).

Definition invalid_input (m : string) : IoError := mkIoError InvalidInput m.

(** [TryFrom<&str> for Address]. *)
Definition address_try_from (value : Bytes) : io_result Address :=
  let invalid := Err (invalid_input "invalid address format: ") in
  match parse_socket_addr value with
  | Some addr => Ok (address_from addr)
  | None =>
    match rsplit_once 58 value with
    | Some (domain, port_str) =>
      match parse_u16 port_str with
      | Some port =>
        if Nat.eqb (length domain) 0 then
          Err (invalid_input "domain name cannot be empty")
        else if Nat.ltb MAX_DOMAIN_LENGTH (length domain) then
          Err (invalid_input "domain name is too long: ")
        else Ok (Domain domain port)
      | None => invalid
      end
    | None => invalid
    end
  end.

(** [Address::to_socket_addr]; [tokio::net::lookup_host] is a parameter. *)
Definition to_socket_addr (lookup_host : Bytes → Z → io_result (list SocketAddr))
    (self : Address) : io_result SocketAddr :=
  match self with
  | SocketV4 addr => Ok (SockV4 addr)
  | SocketV6 addr => Ok (SockV6 addr)
  | Domain domain port =>
    if utf8_valid domain then
      addrs ← lookup_host domain port;
      match addrs with
      | a :: _ => Ok a
      | [] => Err (mkIoError NotFound "domain name could not be resolved")
      end
    else Err (invalid_input "domain name contains invalid utf-8 characters")
  end.

(** ** Fragmentation *)

(** [UdpPacket::fragmented_overhead]. *)
Definition fragmented_overhead : nat :=
  let FIXED_OVERHEAD := (1 + 8 + 4 + 2 + 2)%nat in
  let MAX_ADDRESS_OVERHEAD := (1 + 2 + MAX_DOMAIN_LENGTH + 2)%nat in
  (FIXED_OVERHEAD + MAX_ADDRESS_OVERHEAD)%nat.

(** One step of the closure mapped over the enumerated chunks. *)
Definition make_fragment (session_id fragment_id fragment_count : Z)
    (address : Address) (i : nat) (chunk : Bytes) : UdpPacket :=
  let fragment_index := as_u16 (Z.of_nat i) in
  Fragmented session_id fragment_id fragment_index fragment_count
    (if fragment_index =? 0 then Some address else None) chunk.

(** [UdpPacket::split_packet]. [None] is a panic: [chunks 0], or the
    assertion that the truncated count is positive. *)
Definition split_packet (session_id : Z) (address : Address) (data : Bytes)
    (max_payload_size : nat) (fragment_id : Z) : option (list UdpPacket) :=
  if Nat.eqb max_payload_size 0 then None else
  let data_chunks := chunks max_payload_size data in
  let fragment_count := as_u16 (Z.of_nat (length data_chunks)) in
  if fragment_count >? 0 then
    Some (imap (make_fragment session_id fragment_id fragment_count address)
               data_chunks)
  else None.

Definition packet_data (p : UdpPacket) : Bytes :=
  match p with Unfragmented _ _ d | Fragmented _ _ _ _ _ d => d end.

(** ** Lemmas *)

Lemma split_packet_spec sid addr data n fid :
  (0 < n)%nat → data ≠ [] → Z.of_nat (length (chunks n data)) < 2 ^ 16 →
  split_packet sid addr data n fid =
    Some (imap (make_fragment sid fid (Z.of_nat (length (chunks n data))) addr)
               (chunks n data)).
Proof.
  intros Hn Hd Hl. unfold split_packet.
  destruct (Nat.eqb_spec n 0); [lia|].
  rewrite wrap_small by width_lia.
  assert (0 < length (chunks n data))%nat.
  { rewrite chunks_cons by done. simpl. lia. }
  destruct (Z.gtb_spec (Z.of_nat (length (chunks n data))) 0); [done|lia].
Qed.

Lemma imap_packet_data sid fid cnt addr cs :
  packet_data <$> imap (make_fragment sid fid cnt addr) cs = cs.
Proof.
  rewrite fmap_imap. transitivity (imap (λ _ c, c) cs); [done|].
  apply list_eq. intros i. rewrite list_lookup_imap. by destruct (cs !! i).
Qed.

Lemma make_fragment_small sid fid cnt addr i c :
  Z.of_nat i < 2 ^ 16 →
  make_fragment sid fid cnt addr i c =
    Fragmented sid fid (Z.of_nat i) cnt
      (if Nat.eqb i 0 then Some addr else None) c.
Proof.
  intros. unfold make_fragment. rewrite wrap_small by width_lia.
  destruct (Z.eqb_spec (Z.of_nat i) 0), (Nat.eqb_spec i 0); done || lia.
Qed.

(** ** Properties *)

Lemma chunks_not_nil {A} n (l : list A) : (0 < n)%nat → l ≠ [] → chunks n l ≠ [].
Proof. intros. by rewrite chunks_cons. Qed.

Lemma length_chunks_le {A} n k (l : list A) :
  (0 < n)%nat → Z.of_nat (length l) ≤ k * Z.of_nat n →
  Z.of_nat (length (chunks n l)) ≤ k.
Proof.
  intros Hn Hl. rewrite length_chunks by done. rewrite Nat2Z.inj_div.
  apply Z.lt_succ_r, Z.div_lt_upper_bound; lia.
Qed.

(** A packet of at most 65535 chunks splits without a panic into
    [ceil(len / n)] fragments: in order, numbered from 0, all with that count,
    each with at most [n] bytes and at least one, the address in the first
    only, and their payloads concatenate to the data. *)
Theorem split_packet_fragments sid addr data n fid :
  (0 < n)%nat → data ≠ [] → Z.of_nat (length data) ≤ 65535 * Z.of_nat n →
  ∃ frs, split_packet sid addr data n fid = Some frs
    ∧ length frs = Nat.div (length data + n - 1) n
    ∧ concat (packet_data <$> frs) = data
    ∧ (∀ i p, frs !! i = Some p → ∃ c,
         p = Fragmented sid fid (Z.of_nat i) (Z.of_nat (length frs))
               (if Nat.eqb i 0 then Some addr else None) c
         ∧ (0 < length c ≤ n)%nat).
Proof.
  intros Hn Hd Hl.
  pose proof (length_chunks_le n 65535 data Hn Hl) as Hlen.
  pose proof (chunks_Forall n data Hn) as Hc. rewrite Forall_lookup in Hc.
  eexists. split; [by apply split_packet_spec; [..|lia]|].
  rewrite length_imap. split_and!.
  - by apply length_chunks.
  - rewrite imap_packet_data. by apply concat_chunks.
  - intros i p Hi. rewrite list_lookup_imap in Hi.
    destruct (chunks n data !! i) as [c|] eqn:E; [|done]. injection Hi as <-.
    exists c. pose proof (lookup_lt_Some _ _ _ E).
    rewrite make_fragment_small by lia. split; [done|].
    destruct (Hc i c E). destruct c; [done|]. simpl in *. lia.
Qed.

Lemma split_packet_fragments_witness :
  ∃ frs, split_packet 1 (Domain [] 0) [Byte.x61; Byte.x62; Byte.x63] 2 9 = Some frs
         ∧ length frs = 2%nat.
Proof.
  destruct (split_packet_fragments 1 (Domain [] 0) [Byte.x61; Byte.x62; Byte.x63]
              2 9) as (frs & E & Hl & _); [lia|done|simpl; lia|].
  by exists frs.
Defined.

(** The fragment count is the number of chunks truncated to 16 bits, and
    only the truncated count is checked: 65536 chunks make the call panic, and
    one chunk more makes every fragment claim a count of 1. *)
Theorem split_packet_count_truncated sid addr data n fid :
  (0 < n)%nat →
  (Z.of_nat (length (chunks n data)) = 65536 →
   split_packet sid addr data n fid = None)
  ∧ (Z.of_nat (length (chunks n data)) = 65537 →
     ∃ frs, split_packet sid addr data n fid = Some frs
       ∧ Z.of_nat (length frs) = 65537
       ∧ Forall (λ p, ∃ i a c, p = Fragmented sid fid i 1 a c) frs).
Proof.
  intros Hn. unfold split_packet. destruct (Nat.eqb_spec n 0); [lia|].
  split; intros E; rewrite E; [done|]. eexists. split; [done|].
  rewrite length_imap. split; [done|]. apply Forall_lookup. intros i p Hi.
  rewrite list_lookup_imap in Hi. destruct (chunks n data !! i); [|done].
  injection Hi as <-. unfold make_fragment. eauto.
Qed.

Lemma split_packet_count_truncated_witness :
  let data := replicate (Z.to_nat 65536) Byte.x00 in
  split_packet 1 (Domain [] 0) data 1 9 = None.
Proof.
  intros data.
  apply (split_packet_count_truncated 1 (Domain [] 0) data 1 9); [lia|].
  rewrite length_chunks by lia. unfold data. rewrite length_replicate.
  rewrite Nat.div_1_r. lia.
Defined.

(** What [Address::try_from] accepts and builds: an IP socket address when
    the whole text is one, otherwise the text before the last colon as a name
    of 1 to 255 bytes and the text after it as a 16-bit port. Every rejection
    is [InvalidInput]. *)
Theorem address_try_from_spec v :
  match address_try_from v with
  | Ok (SocketV4 a) => parse_socket_addr v = Some (SockV4 a)
  | Ok (SocketV6 a) => parse_socket_addr v = Some (SockV6 a)
  | Ok (Domain d p) =>
      parse_socket_addr v = None ∧ (1 ≤ length d ≤ 255)%nat ∧ in_width 16 p
      ∧ ∃ c s, v = d ++ c :: s ∧ b2z c = 58 ∧ parse_u16 s = Some p
               ∧ Forall (λ x, b2z x ≠ 58) s
  | Err e => kind e = InvalidInput ∧ parse_socket_addr v = None
  end.
Proof.
  unfold address_try_from. destruct (parse_socket_addr v) as [[]|]; [done..|].
  destruct (rsplit_once 58 v) as [[d s]|] eqn:E; [|done].
  destruct (parse_u16 s) as [p|] eqn:Ep; [|done].
  destruct (Nat.eqb_spec (length d) 0); [done|].
  destruct (Nat.ltb_spec MAX_DOMAIN_LENGTH (length d)); [done|].
  destruct (rsplit_once_app _ _ _ _ E) as (c & Hc & Hv).
  split_and!; [done|lia|done|by eapply parse_u16_range|].
  exists c, s. split_and!; [done..|]. by eapply rsplit_once_post.
Qed.

Lemma address_try_from_domain d p :
  (1 ≤ length d ≤ 255)%nat → in_width 16 p →
  parse_socket_addr (d ++ z2b 58 :: display_u16 p) = None →
  address_try_from (d ++ z2b 58 :: display_u16 p) = Ok (Domain d p).
Proof.
  intros Hd Hp Hn. unfold address_try_from. rewrite Hn.
  rewrite rsplit_once_last, (parse_display_u16 _ Hp).
  - destruct (Nat.eqb_spec (length d) 0); [lia|].
    by destruct (Nat.ltb_spec MAX_DOMAIN_LENGTH (length d)); [unfold MAX_DOMAIN_LENGTH in *; lia|].
  - done.
  - eapply Forall_impl; [apply display_digits_range; unfold in_width in *; lia|].
    intros x Hx. simpl in Hx. lia.
Qed.

(** A name of 1 to 255 bytes followed by a colon and the decimal port, as
    [Display] prints it, is read back as that name and port, whatever colons
    the name holds, unless the text is an IP socket address. *)
Theorem address_domain_round_trip d p :
  (1 ≤ length d ≤ 255)%nat → in_width 16 p →
  parse_socket_addr (d ++ z2b 58 :: display_u16 p) = None →
  address_try_from (d ++ z2b 58 :: display_u16 p) = Ok (Domain d p).
Proof. apply address_try_from_domain. Qed.

Lemma address_domain_round_trip_witness :
  address_try_from (bytes_of "a:b.example:65535") =
    Ok (Domain (bytes_of "a:b.example") 65535).
Proof.
  apply (address_domain_round_trip (bytes_of "a:b.example") 65535).
  - simpl. lia.
  - width_lia.
  - reflexivity.
Defined.
