(* ===== verification/AddressText.v ===== *)
(** Addresses as text (ombrac/src/protocol.rs): [Display for Address], with the
    printers of the standard library it calls, and that [Address::try_from] reads
    back what it prints. *)

From S2P Require Import Prelude Std Parse Protocol.

#[local] Open Scope Z_scope.

(** ** Printing *)

(** A digit, in lower case. *)
Definition digit_char (d : Z) : byte := z2b (if d <? 10 then 48 + d else 87 + d).

Fixpoint display_radix (radix : Z) (fuel : nat) (z : Z) : Bytes :=
  match fuel with
  | O => []
  | S f => if z <? radix then [digit_char z]
           else display_radix radix f (z / radix) ++ [digit_char (z mod radix)]
  end.

(** [Display for u8] and [u32], [LowerHex for u16]: the digits that are enough. *)
Definition display_u8 (z : Z) : Bytes := display_radix 10 3 z.
Definition display_u32 (z : Z) : Bytes := display_radix 10 10 z.
Definition hex_u16 (z : Z) : Bytes := display_radix 16 4 z.

Definition colon : byte := z2b 58.
Definition dot : byte := z2b 46.

(** [Display for Ipv4Addr]. *)
Definition display_ipv4 (a : Ipv4Addr) : Bytes :=
  match vec_to_list (v4_octets a) with
  | [a; b; c; d] =>
    display_u8 (b2z a) ++ dot :: display_u8 (b2z b) ++ dot :: display_u8 (b2z c)
    ++ dot :: display_u8 (b2z d)
  | _ => []
  end.

(** [Ipv6Addr::segments]. *)
Fixpoint pairs_be (l : Bytes) : list Z :=
  match l with
  | hi :: lo :: l => u16_from_be hi lo :: pairs_be l
  | _ => []
  end.
Definition segments (a : Ipv6Addr) : list Z := pairs_be (vec_to_list (v6_octets a)).

(** The longest run of zero segments, the first one of that length: a start and a
    length, with the current run. *)
Fixpoint longest_zeroes (i : nat) (l : list Z) (longest current : nat * nat) : nat * nat :=
  match l with
  | [] => longest
  | segment :: l =>
    if segment =? 0 then
      let current := if Nat.eqb (snd current) 0 then (i, 1%nat) else (fst current, S (snd current)) in
      let longest := if Nat.ltb (snd longest) (snd current) then current else longest in
      longest_zeroes (S i) l longest current
    else longest_zeroes (S i) l longest (0, 0)%nat
  end.

(** [fmt_subslice]: segments between colons. *)
Definition tail_text (l : list Z) : Bytes := concat (map (λ s, colon :: hex_u16 s) l).
Definition fmt_subslice (l : list Z) : Bytes :=
  match l with [] => [] | s :: l => hex_u16 s ++ tail_text l end.

(** [Ipv6Addr::to_ipv4_mapped], on the segments. *)
Definition to_ipv4_mapped (l : list Z) : option Ipv4Addr :=
  match l with
  | [a; b; c; d; e; f; ab; cd] =>
    if decide ([a; b; c; d; e; f] = [0; 0; 0; 0; 0; 0xffff])
    then Some (mkIpv4 [# z2b (ab / 256); z2b ab; z2b (cd / 256); z2b cd]) else None
  | _ => None
  end.

(** [Display for Ipv6Addr], without a width. *)
Definition display_ipv6 (a : Ipv6Addr) : Bytes :=
  let l := segments a in
  match to_ipv4_mapped l with
  | Some ipv4 => bytes_of "::ffff:" ++ display_ipv4 ipv4
  | None =>
    let '(start, len) := longest_zeroes 0 l (0, 0)%nat (0, 0)%nat in
    if Nat.ltb 1 len
    then fmt_subslice (take start l) ++ bytes_of "::" ++ fmt_subslice (drop (start + len) l)
    else fmt_subslice l
  end.

(** [Display for SocketAddrV4] and [SocketAddrV6]. *)
Definition display_v4 (a : SocketAddrV4) : Bytes :=
  display_ipv4 (sa4_ip a) ++ colon :: display_u16 (sa4_port a).

Definition display_v6 (a : SocketAddrV6) : Bytes :=
  bytes_of "[" ++ display_ipv6 (sa6_ip a)
  ++ (if sa6_scope_id a =? 0 then [] else bytes_of "%" ++ display_u32 (sa6_scope_id a))
  ++ bytes_of "]:" ++ display_u16 (sa6_port a).

(** [String::from_utf8_lossy]: each longest prefix of a sequence that cannot be
    continued becomes one U+FFFD. *)
Definition replacement : Bytes := [Byte.xef; Byte.xbf; Byte.xbd].

Definition invalid_prefix (l : Bytes) : nat :=
  let cont := in_range 0x80 0xBF in
  match l with
  | b :: c :: r =>
    let ok := if in_range 0xE0 0xEF b then
                if is_byte 0xE0 b then in_range 0xA0 0xBF c
                else if is_byte 0xED b then in_range 0x80 0x9F c else cont c
              else if in_range 0xF0 0xF4 b then
                if is_byte 0xF0 b then in_range 0x90 0xBF c
                else if is_byte 0xF4 b then in_range 0x80 0x8F c else cont c
              else false in
    if negb ok then 1%nat
    else match r with
         | d :: _ => if in_range 0xF0 0xF4 b && cont d then 3%nat else 2%nat
         | [] => 2%nat
         end
  | _ => 1%nat
  end.

Fixpoint from_utf8_lossy_fuel (fuel : nat) (l : Bytes) : Bytes :=
  match l, fuel with
  | [], _ => []
  | _, O => []
  | _, S f =>
    match utf8_char l with
    | Some n => take n l ++ from_utf8_lossy_fuel f (drop n l)
    | None => replacement ++ from_utf8_lossy_fuel f (drop (invalid_prefix l) l)
    end
  end.
Definition from_utf8_lossy (l : Bytes) : Bytes := from_utf8_lossy_fuel (length l) l.

(** [Display for Address]. *)
Definition address_display (a : Address) : Bytes :=
  match a with
  | Domain domain port => from_utf8_lossy domain ++ colon :: display_u16 port
  | SocketV4 addr => display_v4 addr
  | SocketV6 addr => display_v6 addr
  end.

Example displayed :
  map address_display
    [SocketV4 (mkSA4 (mkIpv4 [# z2b 10; z2b 0; z2b 200; z2b 1]) 80);
     SocketV6 (mkSA6 (ipv6_of_groups [0x2001; 0xdb8; 0; 0; 1; 0; 0; 0]) 443 0 0);
     SocketV6 (mkSA6 (ipv6_of_groups [0xfe80; 0; 0; 0; 0; 0; 0; 0xa]) 1 7 3);
     SocketV6 (mkSA6 (ipv6_of_groups [0; 0; 0; 0; 0; 0xffff; 0x7f00; 1]) 53 0 0);
     Domain (bytes_of "example.com") 8080;
     Domain [Byte.x61; Byte.xe4; Byte.xb8; Byte.x62] 1]
  = [bytes_of "10.0.200.1:80"; bytes_of "[2001:db8:0:0:1::]:443"; bytes_of "[fe80::a%3]:1";
     bytes_of "[::ffff:127.0.0.1]:53"; bytes_of "example.com:8080";
     [Byte.x61] ++ replacement ++ bytes_of "b:1"].
Proof. vm_compute. reflexivity. Qed.

(** ** Digits *)

Lemma digit_char_digit radix d :
  2 ≤ radix ≤ 16 → 0 ≤ d < radix → digit_of radix (digit_char d) = Some d.
Proof.
  intros Hr Hd. unfold digit_of, digit_char, in_range.
  destruct (Z.ltb_spec d 10).
  - rewrite b2z_z2b_small by lia.
    rewrite (proj2 (Z.leb_le 48 (48 + d))), (proj2 (Z.leb_le (48 + d) 57)) by lia. cbn [andb].
    replace (48 + d - 48) with d by lia. by rewrite (proj2 (Z.ltb_lt d radix)) by lia.
  - rewrite b2z_z2b_small by lia.
    rewrite (proj2 (Z.leb_gt (87 + d) 57)), andb_false_r by lia.
    rewrite (proj2 (Z.leb_le 97 (87 + d))), (proj2 (Z.leb_le (87 + d) 122)) by lia. cbn [andb].
    replace (87 + d - 87) with d by lia. by rewrite (proj2 (Z.ltb_lt d radix)) by lia.
Qed.

Definition value (radix : Z) (ds : list Z) : Z := foldl (λ a d, a * radix + d) 0 ds.

(** The digits of a number: they stand for it, there are as many as needed, and a
    leading zero is the only digit. *)
Lemma display_radix_spec radix f z :
  2 ≤ radix ≤ 16 → (0 < f)%nat → 0 ≤ z < radix ^ Z.of_nat f →
  ∃ ds, Forall2 (λ b d, digit_of radix b = Some d) (display_radix radix f z) ds
    ∧ value radix ds = z ∧ (1 ≤ length ds ≤ f)%nat
    ∧ (∀ r, ds = 0 :: r → r = []).
Proof.
  intros Hr. revert z. induction f as [|f IH]; intros z Hf Hz; [lia|]. cbn [display_radix].
  destruct (Z.ltb_spec z radix) as [H|H].
  - exists [z]. split_and!; [|done|cbn; lia|cbn; lia|by intros r [= _ <-]].
    constructor; [apply digit_char_digit; lia|constructor].
  - rewrite Nat2Z.inj_succ, Z.pow_succ_r in Hz by lia.
    destruct f as [|f']; [cbn in Hz; lia|].
    destruct (IH (z / radix)) as (ds & Hd & Hv & Hl & H0); [lia| |].
    { split; [apply Z.div_pos; lia|]. apply Z.div_lt_upper_bound; lia. }
    exists (ds ++ [z mod radix]). split_and!.
    + apply Forall2_app; [done|]. constructor; [|constructor].
      apply digit_char_digit; [done|]. apply Z.mod_pos_bound. lia.
    + unfold value in *. rewrite foldl_app, Hv. cbn. pose proof (Z.div_mod z radix). lia.
    + rewrite length_app. cbn. lia.
    + rewrite length_app. cbn. lia.
    + intros r E. destruct ds as [|d0 ds]; [cbn in Hl; lia|]. injection E as -> _.
      specialize (H0 ds eq_refl) as ->. unfold value in Hv. cbn in Hv.
      assert (1 ≤ z / radix) by (apply Z.div_le_lower_bound; lia). lia.
Qed.

Lemma display_digits_radix f z : 0 ≤ z → display_digits f z = display_radix 10 f z.
Proof.
  revert z. induction f as [|f IH]; intros z Hz; [done|]. cbn [display_digits display_radix].
  unfold digit_char. destruct (Z.ltb_spec z 10); [done|].
  pose proof (Z.mod_pos_bound z 10 ltac:(lia)).
  rewrite IH by (apply Z.div_pos; lia). by rewrite (proj2 (Z.ltb_lt (z mod 10) 10)) by lia.
Qed.

(** ** Reading numbers *)

(** What the next byte is not. *)
Definition next (P : byte → Prop) (l : Bytes) : Prop := ∀ b r, l = b :: r → P b.

Lemma read_digits_app radix bs ds r acc n :
  Forall2 (λ b d, digit_of radix b = Some d) bs ds → next (λ b, digit_of radix b = None) r →
  read_digits radix acc n (bs ++ r) = (foldl (λ a d, a * radix + d) acc ds, (n + length ds)%nat, r).
Proof.
  intros Hd Hr. revert acc n. induction Hd as [|b d bs ds Hb _ IH]; intros acc n; cbn.
  - rewrite Nat.add_0_r. destruct r as [|b r]; [done|]. cbn. by rewrite (Hr b r eq_refl).
  - by rewrite Hb, IH, <-Nat.add_succ_comm.
Qed.

Lemma digit_zero radix b : digit_of radix b = Some 0 ↔ b2z b = 48 ∧ 0 < radix.
Proof.
  unfold digit_of, in_range. pose proof (b2z_range b).
  destruct (Z.leb_spec 48 (b2z b)), (Z.leb_spec (b2z b) 57), (Z.leb_spec 97 (b2z b)),
    (Z.leb_spec (b2z b) 122), (Z.leb_spec 65 (b2z b)), (Z.leb_spec (b2z b) 90); cbn [andb];
    match goal with |- context [?x <? radix] => destruct (Z.ltb_spec x radix) end;
    split; try done; try (intros [= ?]); try (intros [? ?]); try split; try (f_equal); lia.
Qed.

(** A printed number is read back, whatever follows it that is not a digit. *)
Lemma read_number_display radix f z max zero width r :
  2 ≤ radix ≤ 16 → (0 < f)%nat → 0 ≤ z < radix ^ Z.of_nat f → z < 2 ^ width →
  match max with Some m => (f ≤ m)%nat | None => True end →
  next (λ b, digit_of radix b = None) r →
  read_number radix max zero width (display_radix radix f z ++ r) = Some (z, r).
Proof.
  intros Hr Hf Hz Hw Hm Hn.
  destruct (display_radix_spec radix f z Hr Hf Hz) as (ds & Hd & Hv & Hl & H0).
  unfold read_number. rewrite (read_digits_app _ _ _ _ _ _ Hd Hn).
  change (foldl _ 0 ds) with (value radix ds). rewrite Hv. cbn [Nat.add].
  assert (match max with Some m => Nat.ltb m (length ds) | None => false end = false) as ->.
  { destruct max as [m|]; [|done]. apply Nat.ltb_ge. lia. }
  destruct (Nat.eqb_spec (length ds) 0); [lia|].
  rewrite (proj2 (Z.ltb_lt z (2 ^ width)) Hw).
  destruct Hd as [|b d bs ds Hb Hd]; [cbn in Hl; lia|]. cbn [app].
  destruct (is_byte 48 b) eqn:E; [|by rewrite andb_false_r].
  unfold is_byte in E. apply Z.eqb_eq in E.
  assert (digit_of radix b = Some 0) as Hb0 by (apply digit_zero; lia).
  rewrite Hb in Hb0. injection Hb0 as ->. rewrite (H0 ds eq_refl). cbn.
  by rewrite andb_false_r.
Qed.

Lemma digit_mono radix b : radix ≤ 16 → digit_of 16 b = None → digit_of radix b = None.
Proof.
  unfold digit_of. intros Hr. cbv zeta. set (d := if in_range 48 57 b then _ else _).
  assert ((if in_range 48 57 b then b2z b - 48 else if in_range 97 122 b then b2z b - 87
           else if in_range 65 90 b then b2z b - 55 else radix) = d ∨
          (if in_range 48 57 b then b2z b - 48 else if in_range 97 122 b then b2z b - 87
           else if in_range 65 90 b then b2z b - 55 else radix) = radix) as [->| ->]
    by (unfold d; repeat case_match; auto).
  - destruct (Z.ltb_spec d 16); [done|]. by destruct (Z.ltb_spec d radix); [lia|].
  - by rewrite Z.ltb_irrefl.
Qed.

(** ** Reading IPv4 addresses *)

Lemma b2z_width b : 0 ≤ b2z b < 10 ^ Z.of_nat 3 ∧ b2z b < 2 ^ 8.
Proof. pose proof (b2z_range b). cbn. lia. Qed.

Lemma read_octet b r :
  next (λ b, digit_of 10 b = None) r →
  read_number 10 (Some 3%nat) false 8 (display_u8 (b2z b) ++ r) = Some (b2z b, r).
Proof.
  intros Hr. destruct (b2z_width b). apply read_number_display; [lia|lia|done|done|lia|done].
Qed.

Lemma next_cons (P : byte → Prop) b r : P b → next P (b :: r).
Proof. by intros HP ? ? [= <- _]. Qed.

Lemma P_bind_some {A B} (m : Parse.P A) (f : A → Parse.P B) l a r :
  m l = Some (a, r) → (m ≫= f) l = f a r.
Proof. unfold mbind, P_mbind. by intros ->. Qed.

Lemma P_bind_none {A B} (m : Parse.P A) (f : A → Parse.P B) l :
  m l = None → (m ≫= f) l = None.
Proof. unfold mbind, P_mbind. by intros ->. Qed.

Lemma read_display_ipv4 a r :
  next (λ b, digit_of 10 b = None) r → read_ipv4_addr (display_ipv4 a ++ r) = Some (a, r).
Proof.
  intros Hr. destruct a as [v].
  unfold display_ipv4. cbn [v4_octets]. inv_vec v; intros a b c d. cbn [vec_to_list].
  unfold read_ipv4_addr. cbn [read_separator].
  repeat (rewrite <-app_assoc; cbn [app]).
  assert (∀ m l, (read_given_char 46 ≫= λ _ : unit, m) (dot :: l) = m l :> option (Z * Bytes))
    as Hdot by done.
  erewrite P_bind_some; [|by apply read_octet, next_cons].
  erewrite P_bind_some; [|rewrite Hdot; by apply read_octet, next_cons].
  erewrite P_bind_some; [|rewrite Hdot; by apply read_octet, next_cons].
  erewrite P_bind_some; [|rewrite Hdot; by apply read_octet].
  cbn. by rewrite !z2b_b2z.
Qed.

(** A hexadecimal text is not an IPv4 address unless a dot follows. *)
Definition is_hex (b : byte) : Prop := digit_of 16 b ≠ None.

Definition ends (l : Bytes) : Prop := next (λ b, digit_of 16 b = None ∧ b2z b ≠ 46) l.

Lemma read_digits_hex radix acc n bs r :
  radix ≤ 16 → Forall is_hex bs → ends r →
  ∃ v m bs', read_digits radix acc n (bs ++ r) = (v, m, bs' ++ r) ∧ Forall is_hex bs'.
Proof.
  intros Hr Hb He. revert acc n. induction Hb as [|b bs Hb Hbs IH]; intros acc n; cbn.
  - destruct r as [|b r]; [by exists acc, n, []|]. cbn.
    destruct (He b r eq_refl) as [H1 _]. rewrite (digit_mono radix b Hr H1). by exists acc, n, [].
  - destruct (digit_of radix b) as [d|]; [apply IH|].
    exists acc, n, (b :: bs). split; [done|by constructor].
Qed.

Lemma hex_not_dot b : is_hex b → is_byte 46 b = false.
Proof.
  unfold is_hex, is_byte. destruct (Z.eqb_spec (b2z b) 46) as [E|]; [|done].
  unfold digit_of, in_range. rewrite E. by cbn.
Qed.

Lemma read_ipv4_hex bs r : Forall is_hex bs → ends r → read_ipv4_addr (bs ++ r) = None.
Proof.
  intros Hb He. unfold read_ipv4_addr. cbn [read_separator].
  destruct (read_digits_hex 10 0 0 bs r ltac:(lia) Hb He) as (v & m & bs' & Hd & Hb').
  assert (∀ x l, read_number 10 (Some 3%nat) false 8 (bs ++ r) = Some (x, l) → l = bs' ++ r) as Hn.
  { intros x l. unfold read_number. rewrite Hd. repeat case_match; try done; by intros [= _ <-]. }
  destruct (read_number 10 (Some 3%nat) false 8 (bs ++ r)) as [[x l]|] eqn:E;
    [|by apply P_bind_none].
  rewrite (P_bind_some _ _ _ _ _ E), (Hn x l eq_refl). do 2 apply P_bind_none.
  unfold read_given_char. destruct Hb' as [|b bs' Hb' _]; cbn [app].
  - destruct r as [|b r]; [done|]. destruct (He b r eq_refl) as [_ H46]. unfold is_byte.
    by destruct (Z.eqb_spec (b2z b) 46).
  - by rewrite hex_not_dot.
Qed.

Lemma read_ipv4_ends r : ends r → read_ipv4_addr r = None.
Proof. apply (read_ipv4_hex []). constructor. Qed.

(** ** Reading IPv6 addresses *)

Lemma hex_u16_hex s : in_width 16 s → Forall is_hex (hex_u16 s).
Proof.
  intros Hs. destruct (display_radix_spec 16 4 s ltac:(lia) ltac:(lia) Hs) as (ds & Hd & _).
  unfold hex_u16. induction Hd as [|b d bs ds' Hb _ IH]; constructor; [|done].
  unfold is_hex. by rewrite Hb.
Qed.

Lemma read_group s r :
  in_width 16 s → ends r → read_number 16 (Some 4%nat) true 16 (hex_u16 s ++ r) = Some (s, r).
Proof.
  intros Hs He. apply read_number_display; [lia|lia|exact Hs|apply Hs|lia|].
  intros b l E. by destruct (He b l E).
Qed.

Lemma read_group_ends r : ends r → read_number 16 (Some 4%nat) true 16 r = None.
Proof.
  intros He. unfold read_number. destruct r as [|b r]; [done|]. cbn.
  destruct (He b r eq_refl) as [-> _]. done.
Qed.

(** What can follow a sequence of segments: no digit, no dot, and a colon only
    before another one. *)
Definition stop (r : Bytes) : Prop := ends r ∧ ∀ r', r = colon :: r' → ends r'.

Lemma separator_stop {A} (inner : Parse.P A) i r :
  stop r → (∀ l, ends l → inner l = None) → read_separator 58 i inner r = None.
Proof.
  intros [He Hc] Hi. destruct i as [|i]; cbn; [by apply Hi|].
  unfold mbind, P_mbind, read_given_char. destruct r as [|b r]; [done|].
  destruct (is_byte 58 b) eqn:E; [|done]. apply Hi, Hc.
  unfold is_byte in E. apply Z.eqb_eq in E. unfold colon. f_equal. by apply b2z_inj.
Qed.

Lemma tail_text_ends l r : stop r → ends (tail_text l ++ r).
Proof.
  intros [Hr _]. destruct l as [|s l]; [exact Hr|]. by apply next_cons.
Qed.

Lemma read_groups_tail l i todo r :
  (length l ≤ todo)%nat → Forall (in_width 16) l → stop r →
  read_groups (S i) todo (tail_text l ++ r) = (l, false, r).
Proof.
  intros Hl Hw Hr. revert i todo Hl. induction Hw as [|s l Hs _ IH]; intros i todo Hl.
  - cbn [tail_text map concat app]. destruct todo as [|todo]; [done|]. cbn [read_groups].
    rewrite (separator_stop read_ipv4_addr), (separator_stop (read_number 16 _ _ _))
      by (done || apply read_ipv4_ends || apply read_group_ends).
    by destruct todo.
  - destruct todo as [|todo]; cbn [length] in Hl; [lia|]. cbn [read_groups].
    change (tail_text (s :: l)) with (colon :: hex_u16 s ++ tail_text l).
    cbn [app]. rewrite <-app_assoc.
    assert (∀ A (p : Parse.P A) t, read_separator 58 (S i) p (colon :: t) = p t) as Hsep by done.
    rewrite !Hsep, (read_ipv4_hex (hex_u16 s)), read_group
      by (done || by apply hex_u16_hex || by apply tail_text_ends).
    rewrite IH by lia. by destruct todo.
Qed.

Lemma read_groups_slice l todo r :
  (length l ≤ todo)%nat → Forall (in_width 16) l → stop r →
  read_groups 0 todo (fmt_subslice l ++ r) = (l, false, r).
Proof.
  intros Hl Hw Hr. destruct Hw as [|s l Hs Hw].
  - cbn [fmt_subslice app]. destruct todo as [|todo]; [done|]. cbn [read_groups].
    rewrite (separator_stop read_ipv4_addr), (separator_stop (read_number 16 _ _ _))
      by (done || apply read_ipv4_ends || apply read_group_ends).
    by destruct todo.
  - destruct todo as [|todo]; cbn [length] in Hl; [lia|]. cbn [fmt_subslice read_groups].
    rewrite <-app_assoc. cbn [read_separator].
    rewrite (read_ipv4_hex (hex_u16 s)), read_group
      by (done || by apply hex_u16_hex || by apply tail_text_ends).
    rewrite (read_groups_tail l 0 todo) by (done || lia). by destruct todo.
Qed.

(** *** The run of zeros *)

Definition zero_span (l : list Z) (sp : nat * nat) : Prop :=
  ∀ k, (fst sp ≤ k < fst sp + snd sp)%nat → l !! k = Some 0.

Lemma longest_zeroes_span l i rest longest current :
  rest = drop i l → zero_span l longest → zero_span l current →
  (snd current = O ∨ (fst current + snd current)%nat = i) →
  zero_span l (longest_zeroes i rest longest current).
Proof.
  revert i longest current.
  induction rest as [|segment rest IH]; intros i longest current Hr Hl Hc Hi; [done|].
  cbn [longest_zeroes].
  assert (l !! i = Some segment) as Hseg by (by rewrite <-(Nat.add_0_r i), <-lookup_drop, <-Hr).
  assert (rest = drop (S i) l) as Hr' by (by rewrite <-Nat.add_1_r, <-drop_drop, <-Hr).
  destruct (Z.eqb_spec segment 0) as [->|]; [|apply IH; try done; [intros k; cbn; lia|by left]].
  set (cur := if Nat.eqb (snd current) 0 then _ else _).
  assert (zero_span l cur ∧ (fst cur + snd cur)%nat = S i) as [Hcur Hcur'].
  { unfold cur. destruct (Nat.eqb_spec (snd current) 0); cbn; (split; [|lia]).
    - intros k Hk. cbn in Hk. by replace k with i by lia.
    - intros k Hk. cbn in Hk. destruct (decide (k = i)) as [->|]; [done|]. apply Hc. lia. }
  apply IH; [done| |done|by right]. by destruct (Nat.ltb _ _).
Qed.

Lemma zero_span_split l s n :
  zero_span l (s, n) → (s + n ≤ length l)%nat →
  l = take s l ++ replicate n 0 ++ drop (s + n) l.
Proof.
  intros Hz Hl. rewrite <-(take_drop s l) at 1. f_equal.
  rewrite <-(take_drop n (drop s l)), drop_drop. f_equal. apply list_eq. intros k.
  destruct (decide (k < n)%nat).
  - rewrite lookup_take_lt, lookup_drop, Hz, lookup_replicate_2 by (cbn; lia). done.
  - rewrite lookup_take_ge, lookup_ge_None_2 by (rewrite ?length_replicate; lia). done.
Qed.

Lemma zero_span_end l s n : zero_span l (s, n) → (n = 0 ∨ s + n ≤ length l)%nat.
Proof.
  intros Hz. destruct n as [|n]; [by left|]. right.
  specialize (Hz (s + n)%nat ltac:(cbn; lia)). apply lookup_lt_Some in Hz. lia.
Qed.

(** *** Whole addresses *)

Lemma segments_spec a :
  length (segments a) = 8%nat ∧ Forall (in_width 16) (segments a)
  ∧ ipv6_of_groups (segments a) = a.
Proof.
  destruct a as [v]. unfold segments. cbn [v6_octets].
  repeat (match goal with v : vec _ _ |- _ => inv_vec v; intros end).
  cbn [vec_to_list pairs_be]. split; [done|]. split.
  - repeat (constructor; [apply u16_from_be_range|]). constructor.
  - unfold ipv6_of_groups. cbn [fmap list_fmap].
    assert (∀ hi lo, u16_to_be (u16_from_be hi lo) = [hi; lo]) as Hbe.
    { intros hi lo. unfold u16_to_be, u16_from_be.
      pose proof (b2z_range hi). pose proof (b2z_range lo). f_equal; [|f_equal].
      - rewrite <-(z2b_b2z hi) at 2. f_equal. Z.div_mod_to_equations; lia.
      - rewrite <-(z2b_b2z lo) at 2. apply b2z_inj. rewrite !b2z_z2b.
        rewrite Z.add_comm, Z.mod_add by lia. done. }
    rewrite !Hbe. done.
Qed.

Lemma stop_colons r : stop (colon :: colon :: r).
Proof. split; [by apply next_cons|]. intros ? [= <-]. by apply next_cons. Qed.

Definition closes (r : Bytes) : Prop :=
  next (λ b, digit_of 16 b = None ∧ b2z b ≠ 46 ∧ b2z b ≠ 58) r.

Lemma closes_stop r : closes r → stop r.
Proof.
  intros Hr. split; [intros b l E; by destruct (Hr b l E) as (? & ? & _)|].
  intros l E. by destruct (Hr colon l E) as (_ & _ & []).
Qed.

Lemma mapped_segments a ip :
  to_ipv4_mapped (segments a) = Some ip →
  ∃ ab cd, segments a = [0; 0; 0; 0; 0; 0xffff; ab; cd]
    ∧ match vec_to_list (v4_octets ip) with
      | [p; q; s; t] => u16_from_be p q = ab ∧ u16_from_be s t = cd
      | _ => False
      end.
Proof.
  destruct (segments_spec a) as (Hl & Hw & _). revert Hl Hw.
  destruct (segments a) as [|g0 [|g1 [|g2 [|g3 [|g4 [|g5 [|g6 [|g7 [|g8 l]]]]]]]]]; try done.
  intros _ Hw. cbn [to_ipv4_mapped]. case_decide as E; [|done]. intros [= <-].
  injection E as -> -> -> -> -> ->. exists g6, g7. split; [done|]. cbn.
  do 6 apply Forall_cons in Hw as [_ Hw].
  apply Forall_cons in Hw as [H6 Hw]. apply Forall_cons in Hw as [H7 _].
  split; by apply u16_from_to_be.
Qed.

Lemma read_groups_mapped ip r ab cd :
  closes r →
  match vec_to_list (v4_octets ip) with
  | [p; q; s; t] => u16_from_be p q = ab ∧ u16_from_be s t = cd
  | _ => False
  end →
  read_groups 0 7 (hex_u16 0xffff ++ colon :: display_ipv4 ip ++ r) = ([0xffff; ab; cd], true, r).
Proof.
  intros Hr Hip. cbn [read_groups read_separator].
  assert (∀ l, ends (colon :: l)) as Hc by (intros l; by apply next_cons).
  rewrite (read_ipv4_hex (hex_u16 0xffff)), read_group by (done || by apply hex_u16_hex).
  assert (∀ A (p : Parse.P A) l,
    (_ ← read_given_char 58; p) (colon :: l) = p l) as Hsep by done.
  rewrite Hsep, read_display_ipv4.
  - destruct (vec_to_list (v4_octets ip)) as [|p [|q [|s [|t [|]]]]]; try done.
    by destruct Hip as [-> ->].
  - intros b l E. apply (digit_mono 10); [lia|]. by destruct (Hr b l E).
Qed.

Lemma read_display_ipv6 a r :
  closes r → read_ipv6_addr (display_ipv6 a ++ r) = Some (a, r).
Proof.
  intros Hr. pose proof (closes_stop r Hr) as Hs.
  destruct (segments_spec a) as (Hl & Hw & Ha). unfold display_ipv6, read_ipv6_addr.
  destruct (to_ipv4_mapped (segments a)) as [ip|] eqn:Em.
  - destruct (mapped_segments a ip Em) as (ab & cd & Hg & Hip).
    change (bytes_of "::ffff:") with (colon :: colon :: hex_u16 0xffff ++ [colon]).
    cbn [app]. rewrite <-!app_assoc. cbn [app].
    pose proof (read_groups_slice [] 8 _ ltac:(cbn; lia) ltac:(constructor)
      (stop_colons (hex_u16 0xffff ++ colon :: display_ipv4 ip ++ r))) as Hread.
    cbn [fmt_subslice app] in Hread. rewrite Hread. clear Hread.
    cbn [length Nat.eqb].
    change ((_ ← read_given_char 58; read_given_char 58)
      (colon :: colon :: hex_u16 0xffff ++ colon :: display_ipv4 ip ++ r))
      with (Some (tt, hex_u16 0xffff ++ colon :: display_ipv4 ip ++ r)).
    cbv beta iota. change (8 - (0 + 1))%nat with 7%nat.
    rewrite (read_groups_mapped ip r ab cd Hr Hip). cbn [length Nat.sub replicate app].
    by rewrite <-Hg, Ha.
  - pose proof (longest_zeroes_span (segments a) 0 _ (0, 0)%nat (0, 0)%nat eq_refl) as Hz.
    destruct (longest_zeroes _ _ _ _) as [s n]. destruct (Nat.ltb_spec 1 n) as [Hn|_].
    + specialize (Hz ltac:(intros k; cbn; lia) ltac:(intros k; cbn; lia) ltac:(by left)).
      destruct (zero_span_end _ _ _ Hz) as [|He]; [lia|]. rewrite Hl in He.
      pose proof (zero_span_split _ _ _ Hz ltac:(lia)) as Hsplit.
      rewrite <-!app_assoc. change (bytes_of "::") with [colon; colon]. cbn [app].
      rewrite read_groups_slice;
        [|rewrite length_take; lia|by apply Forall_take|apply stop_colons].
      rewrite length_take, Hl, Nat.min_l by lia.
      destruct (Nat.eqb_spec s 8); [lia|]. cbn [mbind P_mbind].
      change ((_ ← read_given_char 58; read_given_char 58)
        (colon :: colon :: fmt_subslice (drop (s + n) (segments a)) ++ r))
        with (Some (tt, fmt_subslice (drop (s + n) (segments a)) ++ r)). cbn [fst].
      rewrite read_groups_slice; [|rewrite length_drop; lia|by apply Forall_drop|done].
      rewrite length_drop, Hl. replace (8 - s - (8 - (s + n)))%nat with n by lia.
      by rewrite <-Hsplit, Ha.
    + by rewrite read_groups_slice, Hl, Ha by (done || lia).
Qed.

Lemma from_utf8_lossy_valid l : utf8_valid l = true → from_utf8_lossy l = l.
Proof.
  unfold utf8_valid, from_utf8_lossy. generalize (length l) as f. intros f. revert l.
  induction f as [|f IH]; intros [|b l]; cbn [utf8_valid_fuel from_utf8_lossy_fuel]; try done.
  destruct (utf8_char (b :: l)) as [n|]; [|done]. intros Hv. by rewrite IH, take_drop.
Qed.

Lemma read_port_display p :
  in_width 16 p → read_port (colon :: display_u16 p) = Some (p, []).
Proof.
  intros Hp. unfold read_port.
  change ((_ ← read_given_char 58; read_number 10 None true 16) (colon :: display_u16 p))
    with (read_number 10 None true 16 (display_u16 p)).
  unfold display_u16. rewrite display_digits_radix by apply Hp.
  rewrite <-(app_nil_r (display_radix _ _ _)). unfold in_width in Hp.
  apply read_number_display; [lia|lia|cbn; lia|lia|done|done].
Qed.

Lemma parse_display_v4 a :
  in_width 16 (sa4_port a) → parse_socket_addr (display_v4 a) = Some (SockV4 a).
Proof.
  intros Hp. destruct a as [ip port]. unfold parse_socket_addr, display_v4, read_socket_addr_v4.
  cbn [sa4_ip sa4_port] in *.
  erewrite P_bind_some; [|by apply read_display_ipv4, next_cons].
  by erewrite P_bind_some; [|by apply read_port_display].
Qed.

Lemma read_scope_display s r :
  in_width 32 s → next (λ b, digit_of 10 b = None) r → next (λ b, b2z b ≠ 37) r →
  read_scope_id ((if s =? 0 then [] else bytes_of "%" ++ display_u32 s) ++ r) = Some (s, r).
Proof.
  intros Hs Hr Hr'. unfold read_scope_id. destruct (Z.eqb_spec s 0) as [->|].
  - cbn [app]. rewrite P_bind_none; [done|]. unfold read_given_char.
    destruct r as [|b r]; [done|]. unfold is_byte.
    by destruct (Z.eqb_spec (b2z b) 37); [destruct (Hr' b r eq_refl)|].
  - rewrite <-app_assoc.
    change ((_ ← read_given_char 37; read_number 10 None true 32)
      (bytes_of "%" ++ display_u32 s ++ r)) with (read_number 10 None true 32 (display_u32 s ++ r)).
    unfold in_width in Hs. unfold display_u32.
    rewrite read_number_display; [done|lia|lia|cbn; lia|lia|done|done].
Qed.

Lemma closes_cons b r : digit_of 16 b = None → b2z b ≠ 46 → b2z b ≠ 58 → closes (b :: r).
Proof. intros. by apply next_cons. Qed.

Lemma parse_display_v6 a :
  in_width 16 (sa6_port a) → in_width 32 (sa6_scope_id a) →
  parse_socket_addr (display_v6 a)
  = Some (SockV6 (mkSA6 (sa6_ip a) (sa6_port a) 0 (sa6_scope_id a))).
Proof.
  intros Hp Hs. destruct a as [ip port flow scope]. cbn [sa6_port sa6_scope_id sa6_ip] in *.
  unfold parse_socket_addr, display_v6. cbn [sa6_port sa6_scope_id sa6_ip].
  unfold read_socket_addr_v4.
  rewrite P_bind_none by (apply read_ipv4_ends; by apply next_cons).
  unfold read_socket_addr_v6.
  erewrite P_bind_some; [|by apply (f_equal Some)].
  erewrite P_bind_some; [|apply read_display_ipv6].
  - erewrite P_bind_some; [|apply read_scope_display; [done|by apply next_cons|by apply next_cons]].
    erewrite P_bind_some; [|by apply (f_equal Some)].
    by erewrite P_bind_some; [|by apply read_port_display].
  - destruct (scope =? 0); by apply closes_cons.
Qed.

(** C29. [Address::try_from] reads back what [Display] prints: an IPv4 address with
    its port; an IPv6 address, in brackets, with its port and its scope, however its
    zeros are compressed and also when it is printed as a mapped IPv4 address, up to
    the flow information, which is not printed; and a name of 1 to 255 bytes of
    UTF-8, whatever colons it holds, with its port, unless the text is that of an IP
    address. *)
Theorem address_display_round_trip a :
  match a with
  | SocketV4 s => in_width 16 (sa4_port s)
  | SocketV6 s => in_width 16 (sa6_port s) ∧ in_width 32 (sa6_scope_id s)
  | Domain d p =>
    (1 ≤ length d ≤ 255)%nat ∧ utf8_valid d = true ∧ in_width 16 p
    ∧ parse_socket_addr (address_display (Domain d p)) = None
  end →
  address_try_from (address_display a) =
    Ok match a with
       | SocketV6 s => SocketV6 (mkSA6 (sa6_ip s) (sa6_port s) 0 (sa6_scope_id s))
       | _ => a
       end.
Proof.
  destruct a as [s|s|d p]; unfold address_display.
  - intros Hp. unfold address_try_from. by rewrite parse_display_v4.
  - intros [Hp Hs]. unfold address_try_from. by rewrite parse_display_v6.
  - intros (Hd & Hu & Hp & Hn). rewrite from_utf8_lossy_valid in * by done.
    by apply address_try_from_domain.
Qed.

Lemma address_display_round_trip_witness :
  let v4 := SocketV4 (mkSA4 (mkIpv4 [# z2b 192; z2b 0; z2b 2; z2b 33]) 65535) in
  let v6 := SocketV6 (mkSA6 (ipv6_of_groups [0x2001; 0; 0; 0xa; 0; 0; 0; 0]) 80 0 7) in
  let name := Domain (bytes_of "a:b.example") 443 in
  address_try_from (address_display v4) = Ok v4
  ∧ address_try_from (address_display v6) = Ok v6
  ∧ address_try_from (address_display name) = Ok name.
Proof.
  intros v4 v6 name. split; [|split].
  - apply (address_display_round_trip v4). cbn. width_lia.
  - apply (address_display_round_trip v6). cbn. width_lia.
  - apply (address_display_round_trip name). split; [cbn; lia|].
    split; [reflexivity|]. split; [width_lia|reflexivity].
Defined.
