(* ===== verification/Reassembly.v ===== *)
(** Reassembly of fragmented UDP packets (crates/ombrac/src/reassembly.rs). *)

From S2P Require Import Prelude Std Protocol.

#[local] Open Scope Z_scope.

Definition DEFAULT_REASSEMBLY_TIMEOUT_SECS : Z := 10.
Definition DEFAULT_MAX_CONCURRENT_REASSEMBLIES : Z := 8192.
Definition MAX_FRAGMENT_COUNT : Z := 256.

(** [(session_id, fragment_id)]. *)
Abbreviation CacheKey := (Z * Z)%type.

(** ** One buffer *)

Record ReassemblyBuffer := mkBuffer {
  fragments : list (option Bytes);
  received_count : Z;
  total_count : Z;
  buf_address : option Address;
  buf_session_id : Z
}.

#[export] Instance ReassemblyBuffer_eq_dec : EqDecision ReassemblyBuffer.
Proof. solve_decision. Defined.

(** [ReassemblyBuffer::new]. *)
Definition buffer_new (session_id fragment_count : Z) (address : option Address)
    : ReassemblyBuffer :=
  mkBuffer (replicate (Z.to_nat fragment_count) None) 0 fragment_count address
    session_id.

(** The part of [add_fragment] that fixes the fragment count: [None] is the
    early [return false]. *)
Definition check_count (self : ReassemblyBuffer) (fragment_count : Z)
    : option ReassemblyBuffer :=
  if (fragment_count =? 0) || (fragment_count >? MAX_FRAGMENT_COUNT) then None
  else if total_count self =? 0 then
    Some (mkBuffer (replicate (Z.to_nat fragment_count) None)
            (received_count self) fragment_count (buf_address self)
            (buf_session_id self))
  else if negb (total_count self =? fragment_count) then None
  else Some self.

(** The part that stores or compares the address of fragment 0. *)
Definition check_address (self : ReassemblyBuffer) (fragment_index : Z)
    (address : option Address) : option ReassemblyBuffer :=
  if fragment_index =? 0 then
    match buf_address self with
    | None =>
      Some (mkBuffer (fragments self) (received_count self) (total_count self)
              address (buf_session_id self))
    | Some existing =>
      match address with
      | Some new_addr => if decide (existing = new_addr) then Some self else None
      | None => None
      end
    end
  else Some self.

(** The part that stores the payload in a free slot. The increment is a [u16]
    addition. *)
Definition store_fragment (self : ReassemblyBuffer) (fragment_index : Z)
    (data : Bytes) : bool * ReassemblyBuffer :=
  let index := Z.to_nat fragment_index in
  match fragments self !! index with
  | Some None =>
    (true, mkBuffer (<[index := Some data]> (fragments self))
             (as_u16 (received_count self + 1)) (total_count self)
             (buf_address self) (buf_session_id self))
  | _ => (false, self)
  end.

(** [ReassemblyBuffer::add_fragment]: the returned flag and the buffer after
    the call. The changes made before an early return stay. *)
Definition add_fragment (self : ReassemblyBuffer) (fragment : UdpPacket)
    : bool * ReassemblyBuffer :=
  match fragment with
  | Unfragmented _ _ _ => (false, self)
  | Fragmented _ _ fragment_index fragment_count address data =>
    match check_count self fragment_count with
    | None => (false, self)
    | Some self1 =>
      match check_address self1 fragment_index address with
      | None => (false, self1)
      | Some self2 => store_fragment self2 fragment_index data
      end
    end
  end.

(** [ReassemblyBuffer::is_complete]. *)
Definition is_complete (self : ReassemblyBuffer) : bool :=
  (total_count self >? 0) && (received_count self =? total_count self)
  && match buf_address self with Some _ => true | None => false end.

(** The loop of [assemble_and_take]: takes the fragments in order; stops at a
    missing one, with the earlier ones taken. *)
Fixpoint take_fragments (fs : list (option Bytes)) : option Bytes * list (option Bytes) :=
  match fs with
  | [] => (Some [], [])
  | Some data :: fs =>
    let '(r, fs') := take_fragments fs in
    (match r with Some rest => Some (data ++ rest) | None => None end, None :: fs')
  | None :: fs => (None, None :: fs)
  end.

(** [ReassemblyBuffer::assemble_and_take]. *)
Definition assemble_and_take (self : ReassemblyBuffer)
    : option (Z * Address * Bytes) * ReassemblyBuffer :=
  if negb (is_complete self) then (None, self) else
  let '(combined, fs) := take_fragments (fragments self) in
  let self' := mkBuffer fs (received_count self) (total_count self)
                 (buf_address self) (buf_session_id self) in
  match combined with
  | None => (None, self')
  | Some data =>
    (match buf_address self' with
     | Some addr => Some (buf_session_id self', addr, data)
     | None => None
     end, self')
  end.

(** ** The reassembler *)

(** The cache, as a map from keys to buffers. It is a [moka] cache with a
    capacity and a time to live: an entry can disappear between two calls
    ([evict]). *)
Record UdpReassembler := mkReassembler { cache : gmap CacheKey ReassemblyBuffer }.

Definition reassembler_new : UdpReassembler := mkReassembler ∅.

Definition evict (k : CacheKey) (self : UdpReassembler) : UdpReassembler :=
  mkReassembler (delete k (cache self)).

(** [UdpReassembler::process]. The program awaits each call before it makes
    the next, so a call is one step; no path returns an error. *)
Definition process (self : UdpReassembler) (packet : UdpPacket)
    : io_result (option (Z * Address * Bytes)) * UdpReassembler :=
  match packet with
  | Unfragmented session_id address data =>
    (Ok (Some (session_id, address, data)), self)
  | Fragmented session_id fragment_id _ _ _ _ =>
    let cache_key := (session_id, fragment_id) in
    let buffer := default (buffer_new session_id 0 None) (cache self !! cache_key) in
    let '(added, buffer1) := add_fragment buffer packet in
    let self1 := mkReassembler (<[cache_key := buffer1]> (cache self)) in
    if negb added then (Ok None, self1)
    else if is_complete buffer1 then
      let '(assembled_data, _) := assemble_and_take buffer1 in
      (Ok assembled_data, mkReassembler (delete cache_key (cache self1)))
    else (Ok None, self1)
  end.

(** What happens to a reassembler: it is given a packet, or its cache drops an
    entry, because the 10 seconds are over or the 8192 places are taken. A drop in
    the middle of a call has the effect of one right after it: the call works on
    the buffer it has. *)
Inductive CacheEvent :=
  | Packet (p : UdpPacket)
  | Dropped (k : CacheKey).

#[export] Instance CacheEvent_eq_dec : EqDecision CacheEvent.
Proof. solve_decision. Defined.

Definition cache_event (self : UdpReassembler) (e : CacheEvent)
    : option (Z * Address * Bytes) * UdpReassembler :=
  match e with
  | Packet p =>
    let '(r, self1) := process self p in
    (match r with Ok o => o | Err _ => None end, self1)
  | Dropped k => (None, evict k self)
  end.

(** A sequence of events, with what each hands out. *)
Fixpoint process_all (self : UdpReassembler) (es : list CacheEvent)
    : list (option (Z * Address * Bytes)) * UdpReassembler :=
  match es with
  | [] => ([], self)
  | e :: es =>
    let '(o, self1) := cache_event self e in
    let '(os, self2) := process_all self1 es in (o :: os, self2)
  end.

Definition packet_key (p : UdpPacket) : option CacheKey :=
  match p with
  | Unfragmented _ _ _ => None
  | Fragmented sid fid _ _ _ _ => Some (sid, fid)
  end.

(** ** Invariant *)

(** A buffer that holds at least one fragment: a fixed count between 1 and
    256, as many slots, and a received count that is the number of filled
    slots. A fresh buffer has no count yet. *)
Definition buffer_inv (b : ReassemblyBuffer) : Prop :=
  length (fragments b) = Z.to_nat (total_count b)
  ∧ received_count b = Z.of_nat (count_some (fragments b))
  ∧ 0 ≤ total_count b ≤ MAX_FRAGMENT_COUNT
  ∧ (total_count b = 0 → buf_address b = None).

Definition packet_wf (p : UdpPacket) : Prop :=
  match p with
  | Unfragmented _ _ _ => True
  | Fragmented _ _ i n _ _ => in_width 16 i ∧ in_width 16 n
  end.

Lemma buffer_new_inv sid a : a = None → buffer_inv (buffer_new sid 0 a).
Proof. intros ->. unfold buffer_inv, MAX_FRAGMENT_COUNT. simpl. split_and!; done || lia. Qed.

Lemma buffer_inv_single sid d a : buffer_inv (mkBuffer [Some d] 1 1 (Some a) sid).
Proof. unfold buffer_inv, MAX_FRAGMENT_COUNT. simpl. split_and!; done || lia. Qed.

Lemma check_count_inv b n b' :
  buffer_inv b → 0 ≤ n → check_count b n = Some b' →
  buffer_inv b' ∧ total_count b' = n ∧ 0 < n
  ∧ buf_session_id b' = buf_session_id b ∧ buf_address b' = buf_address b
  ∧ received_count b' = received_count b.
Proof.
  unfold check_count, buffer_inv, MAX_FRAGMENT_COUNT.
  intros (Hl & Hc & Ht & Ha) Hn.
  destruct (Z.eqb_spec n 0), (Z.gtb_spec n 256); simpl; [done..|].
  destruct (Z.eqb_spec (total_count b) 0) as [E|E].
  - intros [= <-]. simpl. rewrite length_replicate, count_some_replicate.
    rewrite E in Hl. apply nil_length_inv in Hl. rewrite Hl in Hc.
    simpl in Hc. split_and!; done || lia.
  - destruct (Z.eqb_spec (total_count b) n); simpl; [|done].
    intros [= <-]. split_and!; done || lia.
Qed.

Lemma check_address_inv b i a b' :
  check_address b i a = Some b' →
  fragments b' = fragments b ∧ received_count b' = received_count b
  ∧ total_count b' = total_count b ∧ buf_session_id b' = buf_session_id b.
Proof.
  unfold check_address. intros H.
  repeat case_match; simplify_eq; done.
Qed.

Lemma store_fragment_inv b i d :
  buffer_inv b →
  buffer_inv (snd (store_fragment b i d))
  ∧ buf_session_id (snd (store_fragment b i d)) = buf_session_id b
  ∧ (fst (store_fragment b i d) = false → snd (store_fragment b i d) = b)
  ∧ (fst (store_fragment b i d) = true →
     received_count (snd (store_fragment b i d)) = received_count b + 1).
Proof.
  unfold buffer_inv, store_fragment, MAX_FRAGMENT_COUNT. intros (Hl & Hc & Ht & Ha).
  destruct (fragments b !! Z.to_nat i) as [[x|]|] eqn:E; simpl; [done| |done].
  pose proof (count_some_insert (fragments b) (Z.to_nat i) d E) as Ci.
  pose proof (count_some_le (<[Z.to_nat i:=Some d]> (fragments b))) as Cl.
  rewrite length_insert, Ci in *.
  assert (as_u16 (received_count b + 1) = received_count b + 1) as ->.
  { apply wrap_small. width_lia. }
  split_and!; done || lia.
Qed.

Lemma add_fragment_inv b p :
  buffer_inv b → packet_wf p →
  buffer_inv (snd (add_fragment b p))
  ∧ buf_session_id (snd (add_fragment b p)) = buf_session_id b.
Proof.
  intros Hb Hp. destruct p as [|sid fid i n a d]; simpl; [done|].
  destruct Hp as [_ [Hn _]].
  destruct (check_count b n) as [b1|] eqn:E1; [|done].
  destruct (check_count_inv b n b1 Hb Hn E1) as (H1 & T1 & P1 & S1 & _).
  destruct (check_address b1 i a) as [b2|] eqn:E2; [|done].
  destruct (check_address_inv b1 i a b2 E2) as (F2 & R2 & T2 & S2).
  assert (buffer_inv b2) as Hb2.
  { unfold buffer_inv in *. rewrite F2, R2, T2. split_and!; lia || naive_solver lia. }
  destruct (store_fragment_inv b2 i d Hb2) as (H3 & S3 & _).
  split; [done|congruence].
Qed.

(** ** Reachable states *)

(** The states a reassembler goes through while it is given the packets of
    [h] (latest first) and the cache drops entries at will. *)
Inductive reachable : list UdpPacket → UdpReassembler → Prop :=
  | reach_new : reachable [] reassembler_new
  | reach_process h r p :
      reachable h r → packet_wf p → reachable (p :: h) (snd (process r p))
  | reach_evict h r k : reachable h r → reachable h (evict k r).

(** Every payload and the address of a buffer come from a packet received for
    its own key, at that index and under the buffer's count. *)
Definition explained (h : list UdpPacket) (k : CacheKey) (b : ReassemblyBuffer)
    : Prop :=
  (∀ i d, fragments b !! i = Some (Some d) →
     ∃ a, Fragmented (fst k) (snd k) (Z.of_nat i) (total_count b) a d ∈ h)
  ∧ (∀ a, buf_address b = Some a →
     ∃ d, Fragmented (fst k) (snd k) 0 (total_count b) (Some a) d ∈ h).

Definition buffer_ok (h : list UdpPacket) (k : CacheKey) (b : ReassemblyBuffer)
    : Prop :=
  buffer_inv b ∧ buf_session_id b = fst k ∧ explained h k b.

Definition reassembler_ok (h : list UdpPacket) (r : UdpReassembler) : Prop :=
  map_Forall (buffer_ok h) (cache r).

Lemma explained_mono h h' k b : h ⊆ h' → explained h k b → explained h' k b.
Proof.
  intros Hs [Hf Ha]. split.
  - intros i d Hi. destruct (Hf i d Hi) as [a Hin]. exists a. by apply Hs.
  - intros a E. destruct (Ha a E) as [d Hin]. exists d. by apply Hs.
Qed.

Lemma buffer_new_ok h k : buffer_ok h k (buffer_new (fst k) 0 None).
Proof.
  split_and!; [by apply buffer_new_inv|done|].
  split; [intros i d Hi; done|intros a E; done].
Qed.

Lemma check_count_explained h k b n b' :
  buffer_inv b → check_count b n = Some b' → explained h k b → explained h k b'.
Proof.
  intros (_ & _ & _ & Ha) H [Hf Hx]. revert H. unfold check_count.
  destruct (_ || _); [done|]. destruct (Z.eqb_spec (total_count b) 0) as [E|E].
  - intros [= <-]. split; simpl.
    + intros i d Hi. by apply lookup_replicate_none in Hi.
    + intros a Ea. rewrite (Ha E) in Ea. done.
  - destruct (negb _); [done|]. intros [= <-]. done.
Qed.

Lemma check_address_explained h k b i n a d b' :
  total_count b = n → Fragmented (fst k) (snd k) i n a d ∈ h →
  check_address b i a = Some b' → explained h k b → explained h k b'.
Proof.
  unfold check_address. intros Hn Hin H He.
  destruct (Z.eqb_spec i 0) as [->|]; [|by simplify_eq].
  destruct (buf_address b) as [x|].
  - destruct a; [|done]. case_decide; by simplify_eq.
  - destruct He as [Hf Ha]. simplify_eq. split; simpl; [done|].
    intros a' ->. by exists d.
Qed.

Lemma store_fragment_explained h k b i n a d :
  0 ≤ i → total_count b = n → Fragmented (fst k) (snd k) i n a d ∈ h →
  explained h k b → explained h k (snd (store_fragment b i d)).
Proof.
  intros Hi Hn Hin [Hf Ha]. unfold store_fragment.
  destruct (fragments b !! Z.to_nat i) as [[x|]|] eqn:E; simpl; [done| |done].
  split; simpl; [|done]. intros j d' Hj.
  destruct (decide (j = Z.to_nat i)) as [->|Hne].
  - rewrite list_lookup_insert_eq in Hj by (by eapply lookup_lt_Some).
    simplify_eq. exists a. by rewrite Z2Nat.id by lia.
  - rewrite list_lookup_insert_ne in Hj by done. by apply Hf.
Qed.

(** [add_fragment] keeps a buffer explained by the packets received so far. *)
Lemma add_fragment_ok h k b i n a d :
  in_width 16 i → in_width 16 n →
  Fragmented (fst k) (snd k) i n a d ∈ h → buffer_ok h k b →
  buffer_ok h k (snd (add_fragment b (Fragmented (fst k) (snd k) i n a d))).
Proof.
  intros Hi Hn Hin (Hb & Hs & He).
  destruct (add_fragment_inv b (Fragmented (fst k) (snd k) i n a d) Hb)
    as [Hb' Hs']; [done|].
  split_and!; [done|congruence|]. simpl.
  destruct (check_count b n) as [b1|] eqn:E1; [|done].
  destruct (check_count_inv b n b1 Hb (proj1 Hn) E1) as (H1 & T1 & _).
  pose proof (check_count_explained _ _ _ _ _ Hb E1 He) as He1.
  destruct (check_address b1 i a) as [b2|] eqn:E2; [|done].
  destruct (check_address_inv b1 i a b2 E2) as (_ & _ & T2 & _).
  apply (store_fragment_explained _ _ _ _ n a); [apply Hi|congruence|done|].
  by eapply (check_address_explained _ _ b1).
Qed.

Lemma buffer_at_ok h r k :
  reassembler_ok h r →
  buffer_ok h k (default (buffer_new (fst k) 0 None) (cache r !! k)).
Proof.
  intros H. destruct (cache r !! k) as [b|] eqn:E; simpl.
  - by apply H.
  - apply buffer_new_ok.
Qed.

Lemma reassembler_ok_cons h r p : reassembler_ok h r → reassembler_ok (p :: h) r.
Proof.
  intros Hr k b E. destruct (Hr k b E) as (? & ? & ?). split_and!; [done..|].
  eapply explained_mono; [|done]. set_solver.
Qed.

(** The buffer that [process] works on, after its call of [add_fragment]. *)
Lemma added_buffer_ok h r sid fid i n a d :
  let p := Fragmented sid fid i n a d in
  packet_wf p → reassembler_ok h r →
  buffer_ok (p :: h) (sid, fid)
    (snd (add_fragment (default (buffer_new sid 0 None) (cache r !! (sid, fid))) p)).
Proof.
  intros p [Hi Hn] Hr.
  apply (add_fragment_ok (p :: h) (sid, fid) _ i n a d Hi Hn ltac:(left)).
  by apply (buffer_at_ok (p :: h) r (sid, fid)), reassembler_ok_cons.
Qed.

Lemma process_ok h r p :
  packet_wf p → reassembler_ok h r →
  reassembler_ok (p :: h) (snd (process r p)).
Proof.
  intros Hp Hr. pose proof (reassembler_ok_cons _ _ p Hr) as Hr'.
  destruct p as [|sid fid i n a d]; [done|].
  pose proof (added_buffer_ok _ _ _ _ _ _ _ _ Hp Hr) as Hb. unfold process.
  destruct (add_fragment _ _) as [added b1]. cbn [snd] in Hb.
  destruct added; cbn [negb].
  2:{ by apply map_Forall_insert_2. }
  destruct (is_complete b1); [|by apply map_Forall_insert_2].
  destruct (assemble_and_take b1) as [o b2]. cbn [snd cache].
  rewrite delete_insert_eq. apply map_Forall_delete, Hr'.
Qed.

Lemma reachable_ok h r : reachable h r → reassembler_ok h r.
Proof.
  induction 1 as [|h r p _ IH Hp|h r k _ IH].
  - apply map_Forall_empty.
  - by apply process_ok.
  - by apply map_Forall_delete.
Qed.

(** ** Assembly *)

Lemma take_fragments_full fs ds :
  fs = Some <$> ds → take_fragments fs = (Some (concat ds), (λ _, None) <$> fs).
Proof.
  intros ->. induction ds as [|d ds IH]; [done|].
  rewrite fmap_cons. cbn [take_fragments]. by rewrite IH.
Qed.

Lemma is_complete_full b :
  buffer_inv b → is_complete b = true →
  ∃ ds a, fragments b = Some <$> ds ∧ buf_address b = Some a
          ∧ length ds = Z.to_nat (total_count b) ∧ 0 < total_count b.
Proof.
  intros (Hl & Hc & _ & _). unfold is_complete.
  destruct (Z.gtb_spec (total_count b) 0); [|done].
  destruct (Z.eqb_spec (received_count b) (total_count b)) as [E|]; [|done].
  destruct (buf_address b) as [a|]; [|done]. intros _.
  assert (Forall is_Some (fragments b)) as Hf.
  { apply count_some_full. lia. }
  exists (omap id (fragments b)), a.
  assert (fragments b = Some <$> omap id (fragments b)) as Ef.
  { clear -Hf. induction Hf as [|x l [y ->] _ IH]; [done|].
    simpl. by f_equal. }
  split_and!; [done..| |done].
  apply (f_equal length) in Ef. rewrite length_fmap in Ef. lia.
Qed.

Lemma assemble_complete b ds a :
  is_complete b = true → fragments b = Some <$> ds → buf_address b = Some a →
  fst (assemble_and_take b) = Some (buf_session_id b, a, concat ds).
Proof.
  intros Hc Hf Ha. unfold assemble_and_take. rewrite Hc. cbn [negb].
  rewrite (take_fragments_full _ _ Hf). simpl. by rewrite Ha.
Qed.


(** ** Delivery of a split packet *)

Section delivery.
Context (sid fid : Z) (addr : Address) (cs : list Bytes).
Context (Hcs : 0 < Z.of_nat (length cs) ≤ MAX_FRAGMENT_COUNT).

#[local] Abbreviation total := (Z.of_nat (length cs)).

(** The [i]-th fragment the sender makes. *)
Definition frag (i : nat) (c : Bytes) : UdpPacket :=
  make_fragment sid fid total addr i c.

(** The buffer after the fragments of the index set [S] arrived. *)
Definition partial_buffer (S : gset nat) : ReassemblyBuffer :=
  mkBuffer (imap (λ i c, if decide (i ∈ S) then Some c else None) cs)
    (Z.of_nat (size S)) total (if decide (0%nat ∈ S) then Some addr else None) sid.

Lemma partial_lookup S i c :
  cs !! i = Some c →
  fragments (partial_buffer S) !! i =
    Some (if decide (i ∈ S) then Some c else None).
Proof. intros H. simpl. by rewrite list_lookup_imap, H. Qed.

Lemma partial_insert S i c :
  cs !! i = Some c →
  <[i := Some c]> (fragments (partial_buffer S)) =
    fragments (partial_buffer ({[i]} ∪ S)).
Proof.
  intros H. apply list_eq. intros j. simpl.
  destruct (decide (i = j)) as [<-|Hne].
  - rewrite list_lookup_insert_eq.
    2:{ rewrite length_imap. by eapply lookup_lt_Some. }
    rewrite list_lookup_imap, H. simpl. by rewrite decide_True by set_solver.
  - rewrite list_lookup_insert_ne by done. rewrite !list_lookup_imap.
    destruct (cs !! j); simpl; [|done]. f_equal.
    by rewrite (decide_ext (j ∈ S) (j ∈ {[i]} ∪ S)) by set_solver.
Qed.

(** What [add_fragment] does with a genuine fragment: a new index is stored,
    a duplicate is refused and changes nothing. *)
Lemma add_fragment_partial S i c :
  cs !! i = Some c → (size S ≤ length cs)%nat → S ≠ ∅ →
  add_fragment (partial_buffer S) (frag i c) =
    (bool_decide (i ∉ S), partial_buffer ({[i]} ∪ S)).
Proof.
  intros Hi HS Hne. assert (i < length cs)%nat by (by eapply lookup_lt_Some).
  unfold MAX_FRAGMENT_COUNT in Hcs. unfold frag.
  rewrite make_fragment_small by lia. cbn [add_fragment].
  assert (check_count (partial_buffer S) total = Some (partial_buffer S)) as ->.
  { unfold check_count, MAX_FRAGMENT_COUNT. cbn [total_count partial_buffer].
    destruct (Z.eqb_spec total 0); [lia|]. destruct (Z.gtb_spec total 256); [lia|].
    by rewrite Z.eqb_refl. }
  assert (check_address (partial_buffer S) (Z.of_nat i)
    (if Nat.eqb i 0 then Some addr else None) =
    Some (mkBuffer (fragments (partial_buffer S)) (Z.of_nat (size S)) total
            (buf_address (partial_buffer ({[i]} ∪ S))) sid)) as ->.
  { unfold check_address. cbn [buf_address partial_buffer].
    destruct i as [|i]; simpl.
    - rewrite (decide_True (P := 0%nat ∈ {[0%nat]} ∪ S)) by set_solver.
      destruct (decide (0%nat ∈ S)) as [H0|]; [|done].
      rewrite decide_True by done. unfold partial_buffer.
      by rewrite decide_True.
    - rewrite (decide_ext (0%nat ∈ {[Datatypes.S i]} ∪ S) (0%nat ∈ S))
        by set_solver. done. }
  unfold store_fragment. cbn [fragments].
  rewrite Nat2Z.id, (partial_lookup _ _ c) by done.
  destruct (decide (i ∈ S)) as [Hin|Hin].
  - rewrite bool_decide_eq_false_2 by set_solver.
    by replace ({[i]} ∪ S) with S by set_solver.
  - rewrite bool_decide_eq_true_2 by done. f_equal.
    cbn [received_count total_count buf_address buf_session_id].
    rewrite (partial_insert _ _ c) by done. unfold partial_buffer. f_equal.
    rewrite size_union, size_singleton by set_solver.
    rewrite wrap_small by width_lia. lia.
Qed.

(** The first fragment to arrive finds a buffer without a count. *)
Lemma add_fragment_fresh i c :
  cs !! i = Some c →
  add_fragment (buffer_new sid 0 None) (frag i c) =
    (true, partial_buffer {[i]}).
Proof.
  intros Hi. assert (i < length cs)%nat by (by eapply lookup_lt_Some).
  unfold MAX_FRAGMENT_COUNT in Hcs. unfold frag.
  rewrite make_fragment_small by lia. cbn [add_fragment].
  unfold check_count, MAX_FRAGMENT_COUNT. cbn.
  destruct (Z.eqb_spec total 0); [lia|]. destruct (Z.gtb_spec total 256); [lia|].
  cbn. rewrite Nat2Z.id.
  assert (fragments (partial_buffer {[i]}) =
    <[i := Some c]> (replicate (length cs) None)) as Ef.
  { apply list_eq. intros j. simpl. rewrite list_lookup_imap.
    destruct (decide (i = j)) as [<-|Hne].
    - rewrite list_lookup_insert_eq by (rewrite length_replicate; lia).
      rewrite Hi. simpl. by rewrite decide_True by set_solver.
    - rewrite list_lookup_insert_ne by done.
      destruct (cs !! j) eqn:E; simpl.
      + rewrite decide_False by set_solver.
        by rewrite lookup_replicate_2 by (by eapply lookup_lt_Some).
      + symmetry. apply lookup_replicate_None. by apply lookup_ge_None in E. }
  unfold partial_buffer in Ef |- *. cbn [fragments] in Ef. rewrite Ef.
  rewrite size_singleton. unfold check_address, store_fragment.
  destruct i as [|i]; simpl.
  - rewrite lookup_replicate_2 by lia. by rewrite decide_True by set_solver.
  - rewrite Nat2Z.id, lookup_replicate_2 by lia.
    by rewrite decide_False by set_solver.
Qed.

#[local] Abbreviation key := (sid, fid).
#[local] Abbreviation all := (set_seq 0 (length cs) : gset nat).

Lemma size_all : size all = length cs.
Proof.
  rewrite <-(list_to_set_seq 0 (length cs)).
  rewrite size_list_to_set by apply NoDup_seq. apply length_seq.
Qed.

Lemma all_size_le S : S ⊆ all → (size S ≤ length cs)%nat.
Proof. intros H. rewrite <-size_all. by apply subseteq_size. Qed.

Lemma all_size_eq S : S ⊆ all → size S = length cs → S = all.
Proof.
  intros HS Hs. apply set_eq. intros x. split; [apply HS|]. intros Hx.
  destruct (decide (x ∈ S)) as [|Hn]; [done|]. exfalso.
  assert ({[x]} ∪ S ⊆ all) as Hsub by set_solver.
  apply all_size_le in Hsub. rewrite size_union, size_singleton in Hsub by set_solver.
  lia.
Qed.

Lemma partial_complete S :
  S ⊆ all → is_complete (partial_buffer S) = bool_decide (S = all).
Proof.
  intros HS. unfold is_complete. cbn [total_count received_count buf_address partial_buffer].
  destruct (Z.gtb_spec total 0); [|lia]. cbn [andb].
  destruct (decide (S = all)) as [->|Hne].
  - rewrite size_all, Z.eqb_refl, decide_True by (apply elem_of_set_seq; lia).
    by rewrite bool_decide_eq_true_2.
  - rewrite bool_decide_eq_false_2 by done.
    destruct (Z.eqb_spec (Z.of_nat (size S)) total); [|done].
    destruct Hne. apply all_size_eq; [done|lia].
Qed.

(** The reassembler has received exactly the fragments of [S]. *)
Definition holds (S : gset nat) (r : UdpReassembler) : Prop :=
  cache r !! key = if decide (S = ∅) then None else Some (partial_buffer S).

Lemma holds_add_fragment S r i c :
  holds S r → S ⊆ all → cs !! i = Some c →
  add_fragment (default (buffer_new sid 0 None) (cache r !! key)) (frag i c) =
    (bool_decide (i ∉ S), partial_buffer ({[i]} ∪ S)).
Proof.
  unfold holds. intros -> HS Hi. destruct (decide (S = ∅)) as [->|Hne]; cbn [from_option].
  - rewrite (add_fragment_fresh _ _ Hi), bool_decide_eq_true_2 by set_solver.
    by rewrite union_empty_r_L.
  - apply add_fragment_partial; [done|by apply all_size_le|done].
Qed.

Lemma process_frag_eq r i c :
  process r (frag i c) =
  let '(added, buffer1) :=
    add_fragment (default (buffer_new sid 0 None) (cache r !! key)) (frag i c) in
  let self1 := mkReassembler (<[key := buffer1]> (cache r)) in
  if negb added then (Ok None, self1)
  else if is_complete buffer1 then
    let '(assembled_data, _) := assemble_and_take buffer1 in
    (Ok assembled_data, mkReassembler (delete key (cache self1)))
  else (Ok None, self1).
Proof. done. Qed.

Lemma process_more S r i c :
  holds S r → S ⊆ all → cs !! i = Some c → {[i]} ∪ S ≠ all →
  fst (process r (frag i c)) = Ok None
  ∧ holds ({[i]} ∪ S) (snd (process r (frag i c))).
Proof.
  intros Hr HS Hi Hne.
  assert ({[i]} ∪ S ⊆ all) as Hsub.
  { apply lookup_lt_Some in Hi. intros x [->%elem_of_singleton|Hx]%elem_of_union;
      [apply elem_of_set_seq; lia|by apply HS]. }
  rewrite process_frag_eq, (holds_add_fragment S r i c) by done.
  rewrite partial_complete, (bool_decide_eq_false_2 _ Hne) by done.
  assert (holds ({[i]} ∪ S)
    (mkReassembler (<[key:=partial_buffer ({[i]} ∪ S)]> (cache r)))) as Hh.
  { unfold holds. simpl. rewrite lookup_insert_eq.
    by rewrite decide_False by set_solver. }
  destruct (bool_decide (i ∉ S)); by split.
Qed.

Lemma process_last S r i c :
  holds S r → S ⊆ all → cs !! i = Some c → i ∉ S → {[i]} ∪ S = all →
  fst (process r (frag i c)) = Ok (Some (sid, addr, concat cs))
  ∧ holds ∅ (snd (process r (frag i c))).
Proof.
  intros Hr HS Hi Hn Heq.
  rewrite process_frag_eq, (holds_add_fragment S r i c) by done.
  rewrite bool_decide_eq_true_2, Heq by done. cbn [negb].
  rewrite partial_complete, bool_decide_eq_true_2 by done.
  pose proof (assemble_complete (partial_buffer all) cs addr) as Ha.
  destruct (assemble_and_take _) as [o b]. cbn [fst snd] in *.
  split.
  - rewrite Ha; [done|..].
    + by rewrite partial_complete, bool_decide_eq_true_2.
    + apply list_eq. intros j. simpl. rewrite list_lookup_imap, list_lookup_fmap.
      destruct (cs !! j) eqn:E; simpl; [|done].
      rewrite decide_True; [done|]. apply lookup_lt_Some in E.
      apply elem_of_set_seq. lia.
    + simpl. apply decide_True. apply elem_of_set_seq. lia.
  - unfold holds. simpl. rewrite lookup_delete_eq. by rewrite decide_True.
Qed.

Lemma process_other S r p :
  packet_key p ≠ Some key → holds S r → holds S (snd (process r p)).
Proof.
  intros Hk. unfold holds. intros <-.
  destruct p as [|s f i n a d]; [done|]. simpl in Hk.
  assert ((s, f) ≠ key) as Hne by congruence.
  unfold process. destruct (add_fragment _ _) as [added b1].
  destruct (negb added); simpl; [by rewrite lookup_insert_ne|].
  destruct (is_complete b1); simpl; [|by rewrite lookup_insert_ne].
  destruct (assemble_and_take b1). simpl.
  by rewrite lookup_delete_ne, lookup_insert_ne.
Qed.

(** The indices of the fragments of this packet among [es]. *)
Definition indices (es : list CacheEvent) : gset nat :=
  list_to_set (omap (λ e, match e with
    | Packet (Fragmented s f i _ _ _) =>
      if decide ((s, f) = key) then Some (Z.to_nat i) else None
    | _ => None end) es).

(** The event concerns another packet. *)
Definition elsewhere (e : CacheEvent) : Prop :=
  match e with Packet q => packet_key q ≠ Some key | Dropped k => k ≠ key end.
Definition genuine (e : CacheEvent) : Prop :=
  elsewhere e ∨ ∃ i c, cs !! i = Some c ∧ e = Packet (frag i c).

Lemma frag_key i c : packet_key (frag i c) = Some key.
Proof. done. Qed.

Lemma indices_cons_frag i c qs :
  cs !! i = Some c → indices (Packet (frag i c) :: qs) = {[i]} ∪ indices qs.
Proof.
  intros H%lookup_lt_Some. unfold indices, frag, MAX_FRAGMENT_COUNT in *.
  rewrite make_fragment_small by lia. simpl. rewrite decide_True by done.
  simpl. by rewrite Nat2Z.id.
Qed.

Lemma indices_cons_other e es : elsewhere e → indices (e :: es) = indices es.
Proof.
  intros H. unfold indices. destruct e as [[]|]; simpl in *; [done| |done].
  by rewrite decide_False by congruence.
Qed.

Lemma indices_genuine es : Forall genuine es → indices es ⊆ all.
Proof.
  induction 1 as [|e es [He|(i & c & Hi & ->)] _ IH]; [set_solver|..].
  - by rewrite indices_cons_other.
  - rewrite (indices_cons_frag _ c) by done. apply lookup_lt_Some in Hi.
    assert (i ∈ all) by (apply elem_of_set_seq; lia). set_solver.
Qed.

Lemma frag_inj i j c d :
  cs !! i = Some c → cs !! j = Some d → frag j d = frag i c → j = i.
Proof.
  unfold frag, MAX_FRAGMENT_COUNT in *.
  intros Hi%lookup_lt_Some Hj%lookup_lt_Some.
  rewrite !make_fragment_small by lia. intros [= E]. lia.
Qed.

Lemma frag_index_inv i c s f z n a d :
  cs !! i = Some c → frag i c = Fragmented s f z n a d → Z.to_nat z = i.
Proof.
  intros Hi%lookup_lt_Some. unfold frag, MAX_FRAGMENT_COUNT in *.
  rewrite make_fragment_small by lia. intros [= _ _ <-]. lia.
Qed.

Lemma elem_of_indices i es :
  i ∈ indices es ↔
  ∃ z n a d, Packet (Fragmented sid fid z n a d) ∈ es ∧ Z.to_nat z = i.
Proof.
  unfold indices. rewrite elem_of_list_to_set, list_elem_of_omap. split.
  - intros (e & He & E). destruct e as [[|s f z n a d]|]; [done| |done].
    destruct (decide ((s, f) = key)) as [[= -> ->]|]; [|done].
    injection E as <-. eauto 10.
  - intros (z & n & a & d & Hq & <-).
    eexists. split; [done|]. simpl. by rewrite decide_True.
Qed.

Lemma indices_elem es i c :
  Forall genuine es → cs !! i = Some c → i ∈ indices es → Packet (frag i c) ∈ es.
Proof.
  rewrite Forall_forall. intros Hg Hi (z & n & a & d & Hq & Hz)%elem_of_indices.
  destruct (Hg _ Hq) as [He|(j & c' & Hj & E)]; [by destruct He|].
  assert (frag j c' = Fragmented sid fid z n a d) as E' by congruence.
  assert (j = i) as -> by (rewrite <-Hz; symmetry; by eapply frag_index_inv).
  assert (c' = c) as -> by congruence. by rewrite E'.
Qed.

Lemma indices_elem_2 es i c :
  cs !! i = Some c → Packet (frag i c) ∈ es → i ∈ indices es.
Proof.
  intros Hi Hq. apply elem_of_indices.
  assert (∃ z n a d, frag i c = Fragmented sid fid z n a d) as (z & n & a & d & E)
    by (unfold frag, make_fragment; eauto 10).
  rewrite E in Hq. exists z, n, a, d. split; [done|]. by eapply frag_index_inv.
Qed.

Lemma event_other S r e : elsewhere e → holds S r → holds S (snd (cache_event r e)).
Proof.
  intros He Hr. destruct e as [q|k]; cbn [cache_event].
  - pose proof (process_other S r q He Hr). by destruct (process r q).
  - unfold holds, evict in *. cbn [snd cache]. by rewrite lookup_delete_ne.
Qed.

Lemma process_all_partial es r S :
  holds S r → S ⊆ all → Forall genuine es → S ∪ indices es ≠ all →
  (∀ j q, es !! j = Some (Packet q) → packet_key q = Some key →
     fst (process_all r es) !! j = Some None)
  ∧ holds (S ∪ indices es) (snd (process_all r es)).
Proof.
  revert r S. induction es as [|e es IH]; intros r S Hr HS Hg Hne.
  { split; [done|]. unfold indices. simpl. by rewrite union_empty_r_L. }
  apply Forall_cons in Hg as [[He|(i & c & Hi & ->)] Hg]; cbn [process_all].
  - rewrite indices_cons_other in * by done.
    pose proof (event_other S r e He Hr) as Hh.
    destruct (cache_event r e) as [o r1]. cbn [fst snd] in *.
    destruct (IH r1 S) as [IH1 IH2]; [done..|].
    destruct (process_all r1 es) as [os r2]. cbn [fst snd] in *. split; [|done].
    intros [|j] q'; simpl; [by intros [= ->] ?%He|apply IH1].
  - pose proof (indices_genuine _ Hg) as Hsub. rewrite (indices_cons_frag _ c) in * by done.
    assert (i ∈ all) as Hia by (apply lookup_lt_Some in Hi; apply elem_of_set_seq; lia).
    assert ({[i]} ∪ S ≠ all) as Hne1.
    { intros Heq. apply Hne. rewrite <-Heq in Hsub |- *. set_solver. }
    destruct (process_more S r i c) as [Ho Hh]; [done..|]. cbn [cache_event].
    destruct (process r (frag i c)) as [o r1]. cbn [fst snd] in *. rewrite Ho.
    assert ({[i]} ∪ S ∪ indices es = S ∪ ({[i]} ∪ indices es)) as Heq
      by (rewrite (comm_L (∪) {[i]} S); by rewrite (assoc_L (∪))).
    destruct (IH r1 ({[i]} ∪ S)) as [IH1 IH2];
      [done|set_solver|done|by rewrite Heq|].
    destruct (process_all r1 es) as [os r2]. cbn [fst snd] in *. split.
    + intros [|j] q'; simpl; [done|apply IH1].
    + by rewrite <-Heq.
Qed.

Lemma process_all_delivers qs i c r :
  cache r !! key = None → Forall genuine qs → cs !! i = Some c →
  i ∉ indices qs → {[i]} ∪ indices qs = all →
  (∀ j q, qs !! j = Some (Packet q) → packet_key q = Some key →
     fst (process_all r qs) !! j = Some None)
  ∧ fst (process (snd (process_all r qs)) (frag i c)) =
      Ok (Some (sid, addr, concat cs))
  ∧ cache (snd (process (snd (process_all r qs)) (frag i c))) !! key = None.
Proof.
  intros Hr Hg Hi Hn Heq.
  assert (i ∈ all) as Hia by (apply lookup_lt_Some in Hi; apply elem_of_set_seq; lia).
  destruct (process_all_partial qs r ∅) as [H1 H2]; [done|set_solver|done|set_solver|].
  rewrite union_empty_l_L in H2.
  destruct (process_last (indices qs) (snd (process_all r qs)) i c) as [H3 H4];
    [done|by apply indices_genuine|done..|].
  split_and!; [done..|]. unfold holds in H4. by rewrite decide_True in H4.
Qed.
End delivery.

(** ** Properties *)

Lemma split_packet_frag sid addr data n fid frs :
  split_packet sid addr data n fid = Some frs →
  (Z.of_nat (length frs) ≤ MAX_FRAGMENT_COUNT) →
  0 < Z.of_nat (length (chunks n data)) ≤ MAX_FRAGMENT_COUNT
  ∧ concat (chunks n data) = data
  ∧ frs = imap (frag sid fid addr (chunks n data)) (chunks n data).
Proof.
  unfold split_packet, frag. destruct (Nat.eqb_spec n 0); [done|].
  destruct (Z.gtb_spec (as_u16 (Z.of_nat (length (chunks n data)))) 0) as [H|];
    [|done].
  intros [= <-]. rewrite length_imap. unfold MAX_FRAGMENT_COUNT. intros Hl.
  rewrite wrap_small in H |- * by width_lia.
  split_and!; [lia|lia|apply concat_chunks; lia|done].
Qed.

(** C1. A packet that [split_packet] cuts into at most 256 fragments. Its fragments, in
    any order and with duplicates, among packets of any other session or fragment
    id and evictions of any other entry of the cache, give back the packet's
    session, address and payload exactly when the last missing one arrives, and
    nothing before; the entry is gone afterwards. The cache must not have dropped
    the packet's own entry in the meantime (it drops what is older than 10 seconds
    or more than its 8192 places). *)
Theorem split_reassemble sid addr data n fid frs r es p :
  split_packet sid addr data n fid = Some frs →
  Z.of_nat (length frs) ≤ MAX_FRAGMENT_COUNT →
  cache r !! (sid, fid) = None →
  Forall (λ e, match e with
    | Packet q => packet_key q = Some (sid, fid) → q ∈ frs
    | Dropped k => k ≠ (sid, fid)
    end) es →
  p ∈ frs → Packet p ∉ es → Forall (λ f, f = p ∨ Packet f ∈ es) frs →
  (∀ j q, es !! j = Some (Packet q) → packet_key q = Some (sid, fid) →
     fst (process_all r es) !! j = Some None)
  ∧ fst (process (snd (process_all r es)) p) = Ok (Some (sid, addr, data))
  ∧ cache (snd (process (snd (process_all r es)) p)) !! (sid, fid) = None.
Proof.
  intros Hs Hl Hr Hq Hp Hnew Hall.
  destruct (split_packet_frag _ _ _ _ _ _ Hs Hl) as (Hcs & Hcat & ->).
  rewrite <-Hcat. set (cs := chunks n data) in *.
  assert (∀ q, q ∈ imap (frag sid fid addr cs) cs →
            ∃ i c, cs !! i = Some c ∧ q = frag sid fid addr cs i c) as Hfr.
  { intros q [i Hi]%list_elem_of_lookup. rewrite list_lookup_imap in Hi.
    destruct (cs !! i) as [c|] eqn:E; [|done]. injection Hi as <-. eauto. }
  destruct (Hfr p Hp) as (i & c & Hi & ->).
  assert (Forall (genuine sid fid addr cs) es) as Hg.
  { eapply Forall_impl; [exact Hq|]. intros [q|k] Hk; [|by left].
    destruct (decide (packet_key q = Some (sid, fid))) as [E|E]; [|by left].
    right. destruct (Hfr q (Hk E)) as (i' & c' & Hi' & ->). eauto. }
  apply process_all_delivers; [done..| |].
  - intros Hin. apply Hnew. by apply (indices_elem _ _ _ _ Hcs).
  - apply set_eq. intros j. rewrite elem_of_union, elem_of_singleton, elem_of_set_seq.
    split.
    + intros [->|Hj]; [apply lookup_lt_Some in Hi; lia|].
      apply (indices_genuine _ _ _ _ Hcs _ Hg) in Hj. apply elem_of_set_seq in Hj. lia.
    + intros [_ Hj]. apply lookup_lt_is_Some in Hj as [c' Hj].
      rewrite Forall_forall in Hall.
      assert (frag sid fid addr cs j c' ∈ imap (frag sid fid addr cs) cs) as Hf.
      { apply list_elem_of_lookup. exists j. by rewrite list_lookup_imap, Hj. }
      apply Hall in Hf as [Hf|Hf].
      * left. by eapply frag_inj in Hf.
      * right. by eapply indices_elem_2.
Qed.

Definition demo_frags : list UdpPacket :=
  default [] (split_packet 1 (Domain [Byte.x61] 53)
                [Byte.x01; Byte.x02; Byte.x03] 2 7).

Lemma split_reassemble_witness :
  ∃ f0 f1, demo_frags = [f0; f1] ∧
  fst (process (snd (process_all reassembler_new
         [Packet f1; Packet (Unfragmented 1 (Domain [] 0) []); Dropped (1, 8); Packet f1])) f0)
  = Ok (Some (1, Domain [Byte.x61] 53, [Byte.x01; Byte.x02; Byte.x03])).
Proof.
  eexists _, _. split; [vm_compute; reflexivity|].
  eapply (split_reassemble 1 (Domain [Byte.x61] 53)
    [Byte.x01; Byte.x02; Byte.x03] 2 7 demo_frags).
  - reflexivity.
  - decide_now.
  - reflexivity.
  - repeat constructor; [by decide_now..|done|by decide_now].
  - decide_now.
  - decide_now.
  - decide_now.
Defined.

(** C11. In every state the reassembler reaches, whatever packets arrive and
    whatever the cache drops, a buffer has at most 256 slots, as many as its
    count, its received count is the number of filled slots (so its [u16]
    increment never wraps), and it carries its key's session. *)
Theorem reachable_bounds h r k b :
  reachable h r → cache r !! k = Some b →
  length (fragments b) = Z.to_nat (total_count b)
  ∧ 0 ≤ total_count b ≤ MAX_FRAGMENT_COUNT
  ∧ received_count b = Z.of_nat (count_some (fragments b))
  ∧ received_count b ≤ total_count b
  ∧ as_u16 (received_count b + 1) = received_count b + 1
  ∧ buf_session_id b = fst k.
Proof.
  intros Hr Hk. destruct (reachable_ok _ _ Hr _ _ Hk) as ((Hl & Hc & Ht & _) & Hs & _).
  pose proof (count_some_le (fragments b)). unfold MAX_FRAGMENT_COUNT in *.
  split_and!; [done|lia|lia|done|lia| |done].
  apply wrap_small. width_lia.
Qed.

Lemma reachable_bounds_witness :
  let p := Fragmented 1 2 1 3 None [Byte.x61] in
  let r := snd (process reassembler_new p) in
  reachable [p] r ∧
  ∃ b, cache r !! (1, 2) = Some b ∧ received_count b ≤ total_count b.
Proof.
  intros p r.
  assert (reachable [p] r) as Hr.
  { apply reach_process; [apply reach_new|]. repeat split; lia. }
  split; [exact Hr|]. eexists. split; [reflexivity|].
  eapply (reachable_bounds [p] r (1, 2)); [exact Hr|reflexivity].
Defined.

(** C19. Whatever the reassembler hands out was received: either an
    unfragmented packet, or the concatenation, in index order, of payloads of
    fragments of one session, one fragment id and one count, with an address
    that a fragment 0 of that packet carried. Fragments of other packets never
    leak in. *)
Theorem process_sound h r p sid a d :
  reachable h r → packet_wf p →
  fst (process r p) = Ok (Some (sid, a, d)) →
  p = Unfragmented sid a d
  ∨ ∃ fid n ds,
      packet_key p = Some (sid, fid) ∧ 0 < n ≤ MAX_FRAGMENT_COUNT
      ∧ length ds = Z.to_nat n ∧ d = concat ds
      ∧ (∀ i c, ds !! i = Some c →
           ∃ a', Fragmented sid fid (Z.of_nat i) n a' c ∈ p :: h)
      ∧ (∃ d0, Fragmented sid fid 0 n (Some a) d0 ∈ p :: h).
Proof.
  intros Hr Hp. pose proof (reachable_ok _ _ Hr) as Hok.
  destruct p as [s0 a0 d0|s f i n a0 d0]; [intros [= -> -> ->]; by left|].
  destruct (added_buffer_ok h r s f i n a0 d0 Hp Hok) as (Hb & Hsid & Hf & Ha).
  unfold process. destruct (add_fragment _ _) as [added b]. cbn [fst snd] in *.
  destruct added; simpl; [|done]. destruct (is_complete b) eqn:Ec; simpl; [|done].
  destruct (is_complete_full b Hb Ec) as (ds & a1 & Hds & Ha1 & Hlen & Hpos).
  pose proof (assemble_complete b ds a1 Ec Hds Ha1) as Has.
  destruct (assemble_and_take b) as [o b']. simpl in Has |- *. rewrite Has.
  rewrite Hsid. intros [= <- <- <-]. right. destruct Hb as (_ & _ & Ht & _).
  exists f, (total_count b), ds. split_and!; [done|lia|lia|done|done| |].
  - intros j c Hj. apply Hf. by rewrite Hds, list_lookup_fmap, Hj.
  - by apply Ha.
Qed.

Lemma process_sound_witness :
  let f0 := Fragmented 1 2 0 2 (Some (Domain [] 1)) [Byte.x61] in
  let f1 := Fragmented 1 2 1 2 None [Byte.x62] in
  let r := snd (process reassembler_new f0) in
  fst (process r f1) = Ok (Some (1, Domain [] 1, [Byte.x61; Byte.x62]))
  ∧ (f1 = Unfragmented 1 (Domain [] 1) [Byte.x61; Byte.x62]
     ∨ ∃ fid n ds,
      packet_key f1 = Some (1, fid) ∧ 0 < n ≤ MAX_FRAGMENT_COUNT
      ∧ length ds = Z.to_nat n ∧ [Byte.x61; Byte.x62] = concat ds
      ∧ (∀ i c, ds !! i = Some c →
           ∃ a', Fragmented 1 fid (Z.of_nat i) n a' c ∈ [f1; f0])
      ∧ (∃ d0, Fragmented 1 fid 0 n (Some (Domain [] 1)) d0 ∈ [f1; f0])).
Proof.
  intros f0 f1 r. split; [reflexivity|].
  apply (process_sound [f0] r f1 1 (Domain [] 1) [Byte.x61; Byte.x62]).
  - apply reach_process; [apply reach_new|]. repeat split; lia.
  - repeat split; lia.
  - reflexivity.
Defined.

(** A complete buffer accepts nothing: every slot is taken. *)
Lemma add_fragment_complete b p :
  buffer_inv b → packet_wf p → is_complete b = true →
  add_fragment b p = (false, b).
Proof.
  intros Hb Hp Hc. destruct (is_complete_full b Hb Hc) as (ds & a & Hds & Ha & Hl & Ht).
  destruct p as [|s f i n a' d]; [done|]. cbn [add_fragment].
  unfold check_count. destruct (_ || _); [done|].
  destruct (Z.eqb_spec (total_count b) 0); [lia|].
  destruct (negb _); [done|].
  assert (store_fragment b i d = (false, b)) as Hst.
  { unfold store_fragment. rewrite Hds, list_lookup_fmap.
    by destruct (ds !! Z.to_nat i). }
  unfold check_address. rewrite Ha.
  destruct (i =? 0); [|done]. destruct a' as [x|]; [|done].
  by destruct (decide (a = x)).
Qed.

(** A fragment 0 that arrives without an address is stored. When the
    address is sent again in a second fragment 0, the buffer becomes complete
    on a call that reports nothing, and from then on no packet of that key
    delivers it or changes it: the payload is lost until the entry expires. *)
Theorem addressless_first_fragment_lost r sid fid d d' a qs :
  cache r !! (sid, fid) = None →
  Forall (λ q, packet_wf q ∧ packet_key q = Some (sid, fid)) qs →
  let ps := Packet <$> Fragmented sid fid 0 1 None d
            :: Fragmented sid fid 0 1 (Some a) d' :: qs in
  Forall (λ o, o = None) (fst (process_all r ps))
  ∧ ∃ b, cache (snd (process_all r ps)) !! (sid, fid) = Some b
         ∧ is_complete b = true.
Proof.
  intros Hr Hqs ps.
  set (b := mkBuffer [Some d] 1 1 (Some a) sid).
  assert (∀ r', cache r' !! (sid, fid) = Some b →
    Forall (λ o, o = None) (fst (process_all r' (Packet <$> qs)))
    ∧ cache (snd (process_all r' (Packet <$> qs))) !! (sid, fid) = Some b) as Hstay.
  { induction Hqs as [|q qs [Hw Hk] _ IH]; intros r' Hb; [by split|].
    destruct q as [|s f i n a' d0]; [done|]. injection Hk as -> ->.
    rewrite fmap_cons. cbn [process_all cache_event process]. rewrite Hb. cbn [from_option id].
    rewrite add_fragment_complete; [|by apply (buffer_inv_single)|done|done].
    cbn [negb].
    destruct (IH (mkReassembler (<[(sid, fid):=b]> (cache r')))) as [H1 H2].
    { simpl. by rewrite lookup_insert_eq. }
    destruct (process_all _ (Packet <$> qs)) as [os r2]. simpl in *. split; [by constructor|done]. }
  set (r1 := mkReassembler (<[(sid, fid):=mkBuffer [Some d] 1 1 None sid]> (cache r))).
  set (r2 := mkReassembler (<[(sid, fid):=b]> (cache r1))).
  assert (process r (Fragmented sid fid 0 1 None d) = (Ok None, r1)) as E1.
  { unfold process. by rewrite Hr. }
  assert (process r1 (Fragmented sid fid 0 1 (Some a) d') = (Ok None, r2)) as E2.
  { unfold process. unfold r1 at 1 2. cbn [cache]. by rewrite lookup_insert_eq. }
  destruct (Hstay r2) as [H1 H2]; [apply lookup_insert_eq|].
  unfold ps. rewrite !fmap_cons. cbn [process_all cache_event]. rewrite E1, E2.
  destruct (process_all r2 (Packet <$> qs)) as [os r3]. cbn [fst snd] in *. split.
  - by repeat constructor.
  - by exists b.
Qed.

Lemma addressless_first_fragment_lost_witness :
  let ps := [Packet (Fragmented 1 2 0 1 None [Byte.x61]);
             Packet (Fragmented 1 2 0 1 (Some (Domain [] 1)) [Byte.x61]);
             Packet (Fragmented 1 2 0 1 (Some (Domain [] 1)) [Byte.x61])] in
  Forall (λ o, o = None) (fst (process_all reassembler_new ps)).
Proof.
  intros ps.
  apply (addressless_first_fragment_lost reassembler_new 1 2 [Byte.x61] [Byte.x61]
    (Domain [] 1) [Fragmented 1 2 0 1 (Some (Domain [] 1)) [Byte.x61]]).
  - reflexivity.
  - constructor; [|constructor]. split; [|reflexivity].
    repeat split; lia.
Defined.
