(* ===== verification/Metrics.v ===== *)
(** The runtime counters (crates/ombrac/src/metrics.rs): atomic [u64] counters,
    each increment one [fetch_add]. *)

From S2P Require Import Prelude Std.

#[local] Open Scope Z_scope.

Record Counters := mkCounters {
  connections_accepted : Z;
  connections_rejected : Z;
  connections_auth_failed : Z;
  streams_opened : Z;
  streams_closed : Z;
  streams_failed : Z;
  udp_sessions_opened : Z;
  udp_sessions_closed : Z;
  bytes_rx : Z;
  bytes_tx : Z;
  reassemblies_completed : Z;
  reassembly_drops : Z;
  reconnect_attempts : Z;
  reconnect_succeeded : Z
}.

#[export] Instance Counters_eq_dec : EqDecision Counters.
Proof. solve_decision. Defined.

(** [Metrics::new]. *)
Definition metrics_new : Counters := mkCounters 0 0 0 0 0 0 0 0 0 0 0 0 0 0.

(** The name of a counter, for [fetch_add] to address it. *)
Inductive Counter :=
  | ConnectionsAccepted | ConnectionsRejected | ConnectionsAuthFailed
  | StreamsOpened | StreamsClosed | StreamsFailed
  | UdpSessionsOpened | UdpSessionsClosed | BytesRx | BytesTx
  | ReassembliesCompleted | ReassemblyDrops
  | ReconnectAttempts | ReconnectSucceeded.

#[export] Instance Counter_eq_dec : EqDecision Counter.
Proof. solve_decision. Defined.

Definition load (c : Counter) (m : Counters) : Z :=
  match c with
  | ConnectionsAccepted => connections_accepted m
  | ConnectionsRejected => connections_rejected m
  | ConnectionsAuthFailed => connections_auth_failed m
  | StreamsOpened => streams_opened m
  | StreamsClosed => streams_closed m
  | StreamsFailed => streams_failed m
  | UdpSessionsOpened => udp_sessions_opened m
  | UdpSessionsClosed => udp_sessions_closed m
  | BytesRx => bytes_rx m
  | BytesTx => bytes_tx m
  | ReassembliesCompleted => reassemblies_completed m
  | ReassemblyDrops => reassembly_drops m
  | ReconnectAttempts => reconnect_attempts m
  | ReconnectSucceeded => reconnect_succeeded m
  end.

(** A wrapping [AtomicU64::fetch_add]. *)
Definition fetch_add (c : Counter) (n : Z) (m : Counters) : Counters :=
  let upd (x : Counter) := if decide (x = c) then as_u64 (load x m + n) else load x m in
  mkCounters (upd ConnectionsAccepted) (upd ConnectionsRejected)
    (upd ConnectionsAuthFailed) (upd StreamsOpened) (upd StreamsClosed)
    (upd StreamsFailed) (upd UdpSessionsOpened) (upd UdpSessionsClosed)
    (upd BytesRx) (upd BytesTx) (upd ReassembliesCompleted)
    (upd ReassemblyDrops) (upd ReconnectAttempts) (upd ReconnectSucceeded).

(** [Metrics::snapshot]: the snapshot type has the same fields. *)
Definition snapshot (m : Counters) : Counters :=
  mkCounters (load ConnectionsAccepted m) (load ConnectionsRejected m)
    (load ConnectionsAuthFailed m) (load StreamsOpened m) (load StreamsClosed m)
    (load StreamsFailed m) (load UdpSessionsOpened m) (load UdpSessionsClosed m)
    (load BytesRx m) (load BytesTx m) (load ReassembliesCompleted m)
    (load ReassemblyDrops m) (load ReconnectAttempts m) (load ReconnectSucceeded m).

Lemma load_fetch_add_eq c n m : load c (fetch_add c n m) = as_u64 (load c m + n).
Proof. by destruct c. Qed.

Lemma load_fetch_add_ne c c' n m :
  c ≠ c' → load c' (fetch_add c n m) = load c' m.
Proof. destruct c, c'; done. Qed.

#[export] Hint Rewrite load_fetch_add_eq : ombrac.

Lemma snapshot_load m c : load c (snapshot m) = load c m.
Proof. by destruct c. Qed.

(** Increments by one [u64] addition each commute, whatever counters they
    address: an interleaving of relaxed increments has one outcome. *)
Lemma fetch_add_comm c c' n n' m :
  fetch_add c n (fetch_add c' n' m) = fetch_add c' n' (fetch_add c n m).
Proof.
  destruct (decide (c = c')) as [<-|Hne].
  - unfold fetch_add. f_equal; destruct c; simpl; try done;
      unfold wrap; rewrite !Zplus_mod_idemp_l; f_equal; lia.
  - destruct c, c'; done.
Qed.
