(* ===== verification/TransportIo.v ===== *)
(** The copy loops that carry tunnel data (crates/ombrac-transport/src/io.rs).

    The two directions of [copy_bidirectional] run as two tasks of one
    [tokio::join!]; a task runs without interruption between two awaits. A
    task's awaits are its states here, and a step is what it does between two
    of them, given the outcome of the await. Readers and writers are outside:
    what they return is the event of the step. *)

From S2P Require Import Prelude Std.

#[local] Open Scope Z_scope.

Definition DEFAULT_BUF_SIZE : Z := 8 * 1024.
#[global] Arguments DEFAULT_BUF_SIZE : simpl never.

Record CopyBidirectionalStats := mkStats { a_to_b_bytes : Z; b_to_a_bytes : Z }.

(** ** One direction *)

(** Where a [copy_with_cancel] stands: before its first test of the token, in
    the [select!], in [write_all] of a block, or returned. *)
Inductive CopyPhase :=
  | Starting
  | Selecting
  | WritingAll (block : Bytes)
  | Returned (r : Result (IoError * Z) Z).

(** [copied] is the program's counter. [taken] and [given] record what the
    reader returned and what the writer accepted. *)
Record CopyState := mkCopy
  { phase : CopyPhase; copied : Z; taken : Bytes; given : Bytes }.

Definition copy_init : CopyState := mkCopy Starting 0 [] [].

(** The outcome of an await: the task is polled, [read] completes, [write_all]
    completes, or fails after the writer accepted [n] bytes of the block. *)
Inductive CopyEvent :=
  | EvPoll
  | EvRead (r : io_result Bytes)
  | EvWritten
  | EvWriteErr (e : IoError) (n : nat).

(** The [or_else] on a read error. *)
Definition read_result (r : io_result Bytes) : io_result Bytes :=
  match r with
  | Ok b => Ok b
  | Err e => match kind e with
             | ConnectionReset | ConnectionAborted => Ok []
             | _ => Err e
             end
  end.

(** [copy_with_cancel] between two awaits. [cancelled] is the token; [None]
    means that the event cannot happen in this state: the [select!] is biased,
    so a read never completes once the token is cancelled, and [read] returns
    at most as many bytes as the buffer holds. *)
Definition copy_step (cancelled : bool) (s : CopyState) (ev : CopyEvent)
    : option CopyState :=
  let ret r := Some (mkCopy (Returned r) (copied s) (taken s) (given s)) in
  match phase s, ev with
  | Starting, EvPoll =>
    if cancelled then ret (Ok 0)
    else Some (mkCopy Selecting (copied s) (taken s) (given s))
  | Selecting, EvPoll => if cancelled then ret (Ok (copied s)) else Some s
  | Selecting, EvRead r =>
    if cancelled then None else
    match read_result r with
    | Ok [] => ret (Ok (copied s))
    | Ok block =>
      if Z.of_nat (length block) <=? DEFAULT_BUF_SIZE
      then Some (mkCopy (WritingAll block) (copied s) (taken s ++ block) (given s))
      else None
    | Err e => ret (Err (e, copied s))
    end
  | WritingAll block, EvPoll => Some s
  | WritingAll block, EvWritten =>
    Some (mkCopy Selecting (as_u64 (copied s + Z.of_nat (length block)))
            (taken s) (given s ++ block))
  | WritingAll block, EvWriteErr e n =>
    if Nat.ltb n (length block)
    then Some (mkCopy (Returned (Err (e, copied s))) (copied s) (taken s)
                 (given s ++ take n block))
    else None
  | _, _ => None
  end.

(** ** Both directions *)

Inductive Direction := AtoB | BtoA.

Record Bidirectional := mkBidi
  { a_to_b : CopyState; b_to_a : CopyState; token : bool }.

Definition bidi_init : Bidirectional := mkBidi copy_init copy_init false.

Definition returned (s : CopyState) : bool :=
  match phase s with Returned _ => true | _ => false end.

(** One task of the [join!] runs to its next await. When its copy returns, it
    cancels the token before it yields. *)
Definition bidi_step (s : Bidirectional) (d : Direction) (ev : CopyEvent)
    : option Bidirectional :=
  match d with
  | AtoB =>
    c ← copy_step (token s) (a_to_b s) ev;
    Some (mkBidi c (b_to_a s) (token s || returned c))
  | BtoA =>
    c ← copy_step (token s) (b_to_a s) ev;
    Some (mkBidi (a_to_b s) c (token s || returned c))
  end.

Fixpoint bidi_run (s : Bidirectional) (es : list (Direction * CopyEvent))
    : option Bidirectional :=
  match es with
  | [] => Some s
  | (d, ev) :: es => s' ← bidi_step s d ev; bidi_run s' es
  end.

Definition count_of (r : Result (IoError * Z) Z) : Z :=
  match r with Ok n => n | Err (_, n) => n end.

(** What [copy_bidirectional] returns once both tasks have. *)
Definition bidi_result (s : Bidirectional)
    : option (Result (IoError * CopyBidirectionalStats) CopyBidirectionalStats) :=
  match phase (a_to_b s), phase (b_to_a s) with
  | Returned a_to_b_result, Returned b_to_a_result =>
    let stats := mkStats (count_of a_to_b_result) (count_of b_to_a_result) in
    Some match a_to_b_result, b_to_a_result with
         | Err (e, _), _ => Err (e, stats)
         | Ok _, Err (e, _) => Err (e, stats)
         | Ok _, Ok _ => Ok stats
         end
  | _, _ => None
  end.

(** ** Invariant *)

Definition side (d : Direction) (s : Bidirectional) : CopyState :=
  match d with AtoB => a_to_b s | BtoA => b_to_a s end.

Definition len64 (l : Bytes) : Z := as_u64 (Z.of_nat (length l)).

(** In each phase: what is still in flight, and that the counter is the number
    of bytes of the blocks written in full. *)
Definition copy_ok (s : CopyState) : Prop :=
  match phase s with
  | Starting => copied s = 0 ∧ taken s = [] ∧ given s = []
  | Selecting => copied s = len64 (given s) ∧ taken s = given s
  | WritingAll b => copied s = len64 (given s) ∧ taken s = given s ++ b
  | Returned (Ok n) => n = len64 (given s) ∧ taken s = given s
  | Returned (Err (_, n)) =>
    ∃ full part rest, given s = full ++ part ∧ taken s = given s ++ rest
      ∧ n = len64 full ∧ Z.of_nat (length (part ++ rest)) ≤ DEFAULT_BUF_SIZE
      ∧ (rest = [] → part = [])
  end.

Definition copy_block_ok (s : CopyState) : Prop :=
  match phase s with
  | WritingAll b => b ≠ [] ∧ Z.of_nat (length b) ≤ DEFAULT_BUF_SIZE
  | _ => True
  end.

Definition bidi_ok (s : Bidirectional) : Prop :=
  (∀ d, copy_ok (side d s) ∧ copy_block_ok (side d s))
  ∧ token s = returned (a_to_b s) || returned (b_to_a s).

Lemma len64_app a b : as_u64 (len64 a + Z.of_nat (length b)) = len64 (a ++ b).
Proof.
  unfold len64, wrap. rewrite length_app, Nat2Z.inj_add. apply Zplus_mod_idemp_l.
Qed.

Lemma copy_init_ok : copy_ok copy_init ∧ copy_block_ok copy_init.
Proof. by split. Qed.

Lemma copy_step_ok c s ev s' :
  copy_ok s → copy_block_ok s → copy_step c s ev = Some s' →
  copy_ok s' ∧ copy_block_ok s'.
Proof.
  destruct s as [ph n tk gv]. unfold copy_ok, copy_block_ok, copy_step.
  destruct ph as [| |b|r], ev as [|r'| |e k]; cbn -[Nat.ltb Z.of_nat]; try done.
  - intros (-> & -> & ->) _. by destruct c; intros [= <-].
  - intros (-> & ->) _. by destruct c; intros [= <-].
  - intros (-> & ->) _. destruct c; [done|].
    destruct (read_result r') as [[|x b]|e] eqn:E.
    + by intros [= <-].
    + destruct (Z.leb_spec (Z.of_nat (length (x :: b))) DEFAULT_BUF_SIZE) as [Hl|]; [|done].
      intros [= <-]. by split.
    + intros [= <-]. split; [|done]. cbn. exists gv, [], [].
      rewrite !app_nil_r. by split_and!.
  - intros [-> ->] [? ?] [= <-]. by split.
  - intros [-> ->] [Hb _] [= <-]. cbn. rewrite len64_app. done.
  - intros [-> ->] [Hb Hl]. destruct (Nat.ltb_spec k (length b)); [|done].
    intros [= <-]. split; [|done]. cbn.
    exists gv, (take k b), (drop k b). split_and!; [done| |done| |].
    + by rewrite <-app_assoc, take_drop.
    + by rewrite take_drop.
    + intros Hr. apply (f_equal length) in Hr. rewrite length_drop in Hr.
      simpl in Hr. lia.
Qed.

Lemma bidi_step_ok s d ev s' : bidi_ok s → bidi_step s d ev = Some s' → bidi_ok s'.
Proof.
  intros [Hd Ht]. unfold bidi_step. destruct d.
  all: destruct (copy_step _ _ _) as [c|] eqn:E; [|done]; intros [= <-].
  - destruct (copy_step_ok _ _ _ _ (proj1 (Hd AtoB)) (proj2 (Hd AtoB)) E).
    split; [intros []; [done|apply (Hd BtoA)]|]. cbn. rewrite Ht.
    unfold copy_step, returned in *. destruct (phase (a_to_b s)); cbn;
      by destruct (phase (b_to_a s)), (phase c).
  - destruct (copy_step_ok _ _ _ _ (proj1 (Hd BtoA)) (proj2 (Hd BtoA)) E).
    split; [intros []; [apply (Hd AtoB)|done]|]. cbn. rewrite Ht.
    unfold copy_step, returned in *. destruct (phase (b_to_a s)); cbn;
      by destruct (phase (a_to_b s)), (phase c).
Qed.

Lemma bidi_run_ok s es s' : bidi_ok s → bidi_run s es = Some s' → bidi_ok s'.
Proof.
  revert s. induction es as [|[d ev] es IH]; intros s Hs; cbn.
  - by intros [= <-].
  - destruct (bidi_step s d ev) as [s1|] eqn:E; [|done]. cbn.
    apply IH. by eapply bidi_step_ok.
Qed.

Lemma bidi_init_ok : bidi_ok bidi_init.
Proof. split; [|done]. by intros []; apply copy_init_ok. Qed.

(** ** Properties *)

(** C10. Whatever the two ends do and however the two directions interleave,
    the bytes a writer accepted are a prefix of those its reader returned: no
    byte is invented, reordered or skipped. At most one block of 8192 bytes has been
    read and not been written, and when the copy returns success each direction has delivered
    everything it read and reports exactly its length. *)
Theorem copy_bidirectional_faithful es s :
  bidi_run bidi_init es = Some s →
  (∀ d, ∃ rest, taken (side d s) = given (side d s) ++ rest
     ∧ Z.of_nat (length rest) ≤ 8192)
  ∧ (∀ stats, bidi_result s = Some (Ok stats) →
       (∀ d, taken (side d s) = given (side d s))
       ∧ stats = mkStats (len64 (given (a_to_b s))) (len64 (given (b_to_a s)))).
Proof.
  intros H. destruct (bidi_run_ok _ _ _ bidi_init_ok H) as [Hd Ht]. split.
  - intros d. destruct (Hd d) as [Hc Hb]. revert Hc Hb. unfold copy_ok, copy_block_ok.
    change DEFAULT_BUF_SIZE with 8192.
    destruct (phase (side d s)) as [| |b|[n|[e n]]].
    + intros (_ & -> & ->) _. by exists [].
    + intros [_ ->] _. exists []. by rewrite app_nil_r.
    + intros [_ ->] [_ ?]. by exists b.
    + intros [_ ->] _. exists []. by rewrite app_nil_r.
    + intros (f & p & rest & _ & -> & _ & Hl & _) _. exists rest. split; [done|].
      rewrite length_app in Hl. lia.
  - intros stats. destruct (Hd AtoB) as [Ha _], (Hd BtoA) as [Hb _].
    unfold bidi_result, copy_ok in *. cbn [side] in *.
    destruct (phase (a_to_b s)) as [| | |[n|[e n]]]; try done;
      destruct (phase (b_to_a s)) as [| | |[m|[e' m]]]; try done.
    destruct Ha as [-> Ha], Hb as [-> Hb]. intros [= <-]. split; [|done].
    by intros [].
Qed.

Definition demo_copy : list (Direction * CopyEvent) :=
  [(AtoB, EvPoll); (BtoA, EvPoll); (AtoB, EvRead (Ok [Byte.x61; Byte.x62]));
   (AtoB, EvWritten); (BtoA, EvRead (Ok [])); (AtoB, EvPoll)].

Definition demo_state (n : nat) : Bidirectional :=
  default bidi_init (bidi_run bidi_init (take n demo_copy)).

Lemma copy_bidirectional_faithful_witness :
  bidi_run bidi_init demo_copy = Some (demo_state 6)
  ∧ taken (side AtoB (demo_state 6)) = given (side AtoB (demo_state 6))
  ∧ given (side AtoB (demo_state 6)) = [Byte.x61; Byte.x62].
Proof.
  assert (bidi_run bidi_init demo_copy = Some (demo_state 6)) as H
    by (vm_compute; reflexivity).
  assert (bidi_result (demo_state 6) = Some (Ok (mkStats 2 0))) as Hr
    by (vm_compute; reflexivity).
  split; [exact H|]. split; [|vm_compute; reflexivity].
  exact (proj1 (proj2 (copy_bidirectional_faithful demo_copy _ H) _ Hr) AtoB).
Defined.

(** When either direction has returned, an error included, neither reads
    another byte. *)
Theorem copy_cancel_stops_reading s es s' :
  token s = true → bidi_run s es = Some s' →
  token s' = true ∧ ∀ d, taken (side d s') = taken (side d s).
Proof.
  revert s. induction es as [|[d ev] es IH]; intros s Ht; cbn.
  { by intros [= <-]. }
  destruct (bidi_step s d ev) as [s1|] eqn:E; [|done]. cbn. intros Hrun.
  assert (token s1 = true ∧ ∀ d, taken (side d s1) = taken (side d s)) as [Ht1 Hs1].
  { clear -Ht E. unfold bidi_step in E. rewrite Ht in E.
    assert (∀ c c', copy_step true c ev = Some c' → taken c' = taken c) as Hstep.
    { intros [ph n tk gv] c'. unfold copy_step. destruct ph, ev; cbn -[Nat.ltb]; try done;
        try (by intros [= <-]). destruct (Nat.ltb _ _); [|done]. by intros [= <-]. }
    destruct d.
    all: destruct (copy_step _ _ _) as [c|] eqn:Ec; [|done];
      injection E as <-; split; [done|]; intros []; cbn; try done; by apply Hstep. }
  destruct (IH s1 Ht1 Hrun) as [H1 H2]. split; [done|]. intros d'.
  by rewrite H2, Hs1.
Qed.

Lemma copy_cancel_stops_reading_witness :
  bidi_run (demo_state 5) [(AtoB, EvPoll)] = Some (demo_state 6)
  ∧ taken (side AtoB (demo_state 6)) = taken (side AtoB (demo_state 5)).
Proof.
  assert (token (demo_state 5) = true) as Ht by (vm_compute; reflexivity).
  assert (bidi_run (demo_state 5) [(AtoB, EvPoll)] = Some (demo_state 6)) as H
    by (vm_compute; reflexivity).
  split; [exact H|].
  exact (proj2 (copy_cancel_stops_reading _ _ _ Ht H) AtoB).
Defined.

(** The steps left to a direction once the token is cancelled. *)
Definition steps_left (s : CopyState) : nat :=
  match phase s with
  | Starting | Selecting => 1
  | WritingAll _ => 2
  | Returned _ => 0
  end.

Definition bidi_left (s : Bidirectional) : nat :=
  steps_left (a_to_b s) + steps_left (b_to_a s).

Lemma bidi_next s d :
  token s = true → steps_left (side d s) ≠ 0%nat →
  ∃ ev s', bidi_step s d ev = Some s' ∧ token s' = true
           ∧ S (bidi_left s') = bidi_left s.
Proof.
  intros Ht Hl.
  assert (∃ ev c, copy_step true (side d s) ev = Some c
            ∧ S (steps_left c) = steps_left (side d s)) as (ev & c & E & Hc).
  { unfold steps_left, copy_step in *. destruct (phase (side d s)); [..|done].
    - by exists EvPoll; eexists.
    - by exists EvPoll; eexists.
    - by exists EvWritten; eexists. }
  exists ev. unfold bidi_step, bidi_left. rewrite Ht.
  destruct d; cbn in *; rewrite E; cbn; (eexists; split; [done|split; [done|]]);
    cbn; lia.
Qed.

(** The copy ends: from any state in which one direction has returned,
    at most four more steps (each pending write completing, each direction
    polled once) bring both to a result. *)
Theorem copy_terminates_after_cancel s :
  token s = true →
  ∃ es s', (length es ≤ 4)%nat ∧ bidi_run s es = Some s'
           ∧ ∃ r, bidi_result s' = Some r.
Proof.
  intros Ht. assert (bidi_left s ≤ 4)%nat as Hl.
  { unfold bidi_left, steps_left. repeat case_match; lia. }
  revert Hl. generalize 4%nat as n. intros n. revert s Ht.
  induction n as [|n IH]; intros s Ht Hl.
  - exists [], s. split; [done|]. split; [done|].
    unfold bidi_left, steps_left, bidi_result in *.
    destruct (phase (a_to_b s)), (phase (b_to_a s)); try (exfalso; simpl in Hl; lia).
    by eexists.
  - destruct (decide (steps_left (a_to_b s) = 0%nat)) as [Ha|Ha].
    1: destruct (decide (steps_left (b_to_a s) = 0%nat)) as [Hb|Hb].
    { destruct (IH s Ht) as (es & s' & Hes & H); [unfold bidi_left; lia|].
      exists es, s'. split; [lia|done]. }
    1: destruct (bidi_next s BtoA Ht Hb) as (ev & s1 & E & Ht1 & Hs1).
    2: destruct (bidi_next s AtoB Ht Ha) as (ev & s1 & E & Ht1 & Hs1).
    all: destruct (IH s1 Ht1) as (es & s' & Hes & Hr & H); [lia|].
    1: exists ((BtoA, ev) :: es), s'. 2: exists ((AtoB, ev) :: es), s'.
    all: split; [simpl; lia|]; split; [|done]; cbn [bidi_run]; by rewrite E.
Qed.

Lemma copy_terminates_after_cancel_witness :
  let s := mkBidi (mkCopy (WritingAll [Byte.x61]) 0 [Byte.x61] [])
             (mkCopy (Returned (Ok 0)) 0 [] []) true in
  ∃ es s', (length es ≤ 4)%nat ∧ bidi_run s es = Some s'
           ∧ ∃ r, bidi_result s' = Some r.
Proof. intros s. apply (copy_terminates_after_cancel s). reflexivity. Defined.
