(* ===== verification/Stream.v ===== *)
(** The byte streams and framed streams the program talks through: interfaces
    that stand for [tokio]'s I/O types and [tokio_util]'s codec, with what
    their documentation promises. *)

From S2P Require Import Prelude Std.

#[local] Open Scope Z_scope.

(** ** Byte streams *)

(** [AsyncReadExt::read_exact] and [AsyncWriteExt::write_all] on a stream
    state [S]. [incoming] is what the peer's side still holds for the reader,
    [outgoing] what the stream accepted for the peer. *)
Class AsyncStream (S : Type) := {
  read_exact : nat → StM S IoError Bytes;
  write_all : Bytes → StM S IoError unit;
  incoming : S → Bytes;
  outgoing : S → Bytes
}.

(** A read returns the next bytes in order, or fails with [UnexpectedEof] when
    there are not enough; a write that succeeds hands over all its bytes. *)
Class AsyncStreamLaws (S : Type) `{AsyncStream S} := {
  read_exact_enough n s :
    (n ≤ length (incoming s))%nat →
    ∃ s', read_exact n s = (Ok (take n (incoming s)), s')
          ∧ incoming s' = drop n (incoming s) ∧ outgoing s' = outgoing s;
  read_exact_eof n s :
    (length (incoming s) < n)%nat →
    ∃ e s', read_exact n s = (Err e, s') ∧ kind e = UnexpectedEof
            ∧ outgoing s' = outgoing s;
  write_all_result b s :
    ∃ r s', write_all b s = (r, s') ∧ incoming s' = incoming s
            ∧ ∃ k, outgoing s' = outgoing s ++ take k b
                   ∧ (is_ok r = true → (length b ≤ k)%nat)
}.

(** [read_u8]: a [read_exact] of one byte. *)
Definition read_u8 {S} `{AsyncStream S} : StM S IoError byte :=
  b ← read_exact 1;
  match b with
  | x :: _ => mret x
  | [] => st_err early_eof
  end.

(** A stream in memory, whose writes fail once [room] bytes were taken. *)
Record MemStream := mkMem { mem_in : Bytes; mem_out : Bytes; mem_room : nat }.

#[export] Instance mem_stream : AsyncStream MemStream := {
  read_exact n s :=
    if Nat.leb n (length (mem_in s))
    then (Ok (take n (mem_in s)), mkMem (drop n (mem_in s)) (mem_out s) (mem_room s))
    else (Err early_eof, mkMem [] (mem_out s) (mem_room s));
  write_all b s :=
    let s' := mkMem (mem_in s) (mem_out s ++ take (mem_room s) b)
                (mem_room s - length b) in
    if Nat.leb (length b) (mem_room s) then (Ok tt, s')
    else (Err (mkIoError BrokenPipe "broken pipe"), s');
  incoming := mem_in;
  outgoing := mem_out
}.

#[export] Instance mem_stream_laws : AsyncStreamLaws MemStream.
Proof.
  split; cbn [read_exact write_all incoming outgoing mem_stream].
  - intros n s H. destruct (Nat.leb_spec n (length (mem_in s))); [|lia]. by eexists.
  - intros n s H. destruct (Nat.leb_spec n (length (mem_in s))); [lia|].
    by eexists _, _.
  - intros b s. destruct (Nat.leb_spec (length b) (mem_room s));
      (eexists _, _; split; [done|]; split; [done|]; exists (mem_room s));
      by split.
Qed.

(** A stream whose writes always succeed. *)
Class ReliableWrites (S : Type) `{AsyncStream S} :=
  write_all_reliable b s : fst (write_all b s) = Ok tt.

Record PipeStream := mkPipe { pipe_in : Bytes; pipe_out : Bytes }.

#[export] Instance pipe_stream : AsyncStream PipeStream := {
  read_exact n s :=
    if Nat.leb n (length (pipe_in s))
    then (Ok (take n (pipe_in s)), mkPipe (drop n (pipe_in s)) (pipe_out s))
    else (Err early_eof, mkPipe [] (pipe_out s));
  write_all b s := (Ok tt, mkPipe (pipe_in s) (pipe_out s ++ b));
  incoming := pipe_in;
  outgoing := pipe_out
}.

#[export] Instance pipe_stream_laws : AsyncStreamLaws PipeStream.
Proof.
  split; cbn [read_exact write_all incoming outgoing pipe_stream].
  - intros n s H. destruct (Nat.leb_spec n (length (pipe_in s))); [|lia]. by eexists.
  - intros n s H. destruct (Nat.leb_spec n (length (pipe_in s))); [lia|].
    by eexists _, _.
  - intros b s. eexists _, _. split; [done|]. split; [done|]. exists (length b).
    by rewrite firstn_all.
Qed.

#[export] Instance pipe_reliable : ReliableWrites PipeStream.
Proof. by intros b s. Qed.

Section laws.
Context {S : Type} `{AsyncStreamLaws S}.

Lemma read_u8_cons x l s :
  incoming s = x :: l →
  ∃ s', read_u8 s = (Ok x, s') ∧ incoming s' = l ∧ outgoing s' = outgoing s.
Proof.
  intros E. destruct (read_exact_enough 1 s) as (s' & Hr & Hi & Ho).
  { rewrite E. simpl. lia. }
  exists s'. unfold read_u8, mbind, StM_mbind. rewrite Hr, E.
  split_and!; [done| |done]. by rewrite Hi, E.
Qed.

Lemma read_u8_nil s :
  incoming s = [] →
  ∃ e s', read_u8 s = (Err e, s') ∧ kind e = UnexpectedEof
          ∧ outgoing s' = outgoing s.
Proof.
  intros E. destruct (read_exact_eof 1 s) as (e & s' & Hr & Hk & Ho).
  { rewrite E. simpl. lia. }
  exists e, s'. unfold read_u8, mbind, StM_mbind. by rewrite Hr.
Qed.

Lemma read_exact_app l r s :
  incoming s = l ++ r →
  ∃ s', read_exact (length l) s = (Ok l, s') ∧ incoming s' = r
        ∧ outgoing s' = outgoing s.
Proof.
  intros E. destruct (read_exact_enough (length l) s) as (s' & Hr & Hi & Ho).
  { rewrite E, length_app. lia. }
  exists s'. rewrite Hr, Hi, E. by rewrite take_app_length, drop_app_length.
Qed.

Lemma write_all_ok b s s' :
  write_all b s = (Ok tt, s') →
  incoming s' = incoming s ∧ outgoing s' = outgoing s ++ b.
Proof.
  intros Hw. destruct (write_all_result b s) as (r & s1 & E & Hi & k & Ho & Hk).
  rewrite E in Hw. injection Hw as -> ->. split; [done|].
  rewrite Ho. f_equal. apply take_ge. by apply Hk.
Qed.

Lemma write_all_reliable_eq `{!ReliableWrites S} b s :
  ∃ s', write_all b s = (Ok tt, s') ∧ incoming s' = incoming s
        ∧ outgoing s' = outgoing s ++ b.
Proof.
  destruct (write_all b s) as [r s'] eqn:E. exists s'.
  pose proof (write_all_reliable b s) as Hr. rewrite E in Hr. simpl in Hr.
  subst r. split; [done|]. by apply write_all_ok.
Qed.
End laws.

(** ** Partial reads *)

(** [AsyncRead::poll_read] into a buffer with [n] bytes of room: the bytes it
    put there. [readable] is what the stream still has to deliver. *)
Class PollRead (S : Type) := {
  poll_read : nat → S → Poll (io_result Bytes) * S;
  readable : S → Bytes
}.

(** A read returns the next bytes, at most as many as there is room for; a
    read that is pending or fails takes nothing; an empty read with room left
    means the end. *)
Class PollReadLaws (S : Type) `{PollRead S} := {
  poll_read_ready n s b s' :
    poll_read n s = (Ready (Ok b), s') →
    (length b ≤ n)%nat ∧ readable s = b ++ readable s'
    ∧ (b = [] → (0 < n)%nat → readable s = []);
  poll_read_other n s r s' :
    poll_read n s = (r, s') → (∀ b, r ≠ Ready (Ok b)) → readable s' = readable s
}.

(** [AsyncWrite]: [poll_write] gives the number of bytes taken from the front of
    the buffer; [written] are the bytes the stream has taken so far. *)
Class PollWrite (S : Type) := {
  poll_write : Bytes → S → Poll (io_result nat) * S;
  poll_flush : S → Poll (io_result unit) * S;
  poll_shutdown : S → Poll (io_result unit) * S;
  written : S → Bytes
}.

(** A write takes the bytes it reports and no others; the other calls take
    none. *)
Class PollWriteLaws (S : Type) `{PollWrite S} := {
  poll_write_ready b s n s' :
    poll_write b s = (Ready (Ok n), s') →
    (n ≤ length b)%nat ∧ written s' = written s ++ take n b;
  poll_write_other b s r s' :
    poll_write b s = (r, s') → (∀ n, r ≠ Ready (Ok n)) → written s' = written s;
  poll_flush_written s : written (snd (poll_flush s)) = written s;
  poll_shutdown_written s : written (snd (poll_shutdown s)) = written s
}.

(** The two directions of a stream do not touch each other. *)
Class DuplexLaws (S : Type) `{PollRead S} `{PollWrite S} := {
  poll_read_written n s : written (snd (poll_read n s)) = written s;
  poll_write_readable b s : readable (snd (poll_write b s)) = readable s;
  poll_flush_readable s : readable (snd (poll_flush s)) = readable s;
  poll_shutdown_readable s : readable (snd (poll_shutdown s)) = readable s
}.

(** The calls a task makes on a stream, and what they gave it: the bytes it
    read and the bytes it handed over. *)
Inductive StreamCall := CallRead (n : nat) | CallWrite (b : Bytes) | CallFlush | CallShutdown.

Definition stream_call {S} `{PollRead S} `{PollWrite S} (c : StreamCall) (s : S)
    : Bytes * Bytes * S :=
  match c with
  | CallRead n =>
    let '(r, s) := poll_read n s in
    (match r with Ready (Ok b) => b | _ => [] end, [], s)
  | CallWrite b =>
    let '(r, s) := poll_write b s in
    ([], match r with Ready (Ok n) => take n b | _ => [] end, s)
  | CallFlush => ([], [], snd (poll_flush s))
  | CallShutdown => ([], [], snd (poll_shutdown s))
  end.

Fixpoint stream_calls {S} `{PollRead S} `{PollWrite S} (cs : list StreamCall) (s : S)
    : Bytes * Bytes * S :=
  match cs with
  | [] => ([], [], s)
  | c :: cs =>
    let '(r, w, s) := stream_call c s in
    let '(rs, ws, s) := stream_calls cs s in
    (r ++ rs, w ++ ws, s)
  end.

Lemma stream_call_ok {S} `{PollReadLaws S} `{!PollWrite S} `{!PollWriteLaws S}
    `{!DuplexLaws S} c (s : S) :
  let '(r, w, s') := stream_call c s in
  readable s = r ++ readable s' ∧ written s' = written s ++ w.
Proof.
  destruct c as [n|b| |]; cbn [stream_call].
  - pose proof (poll_read_written n s) as Hw. destruct (poll_read n s) as [r s'] eqn:E.
    cbn [snd] in Hw. rewrite Hw, app_nil_r. split; [|done].
    destruct r as [[b|e]|]; [by apply (poll_read_ready _ _ _ _ E)|..];
      by rewrite (poll_read_other _ _ _ _ E).
  - pose proof (poll_write_readable b s) as Hr. destruct (poll_write b s) as [r s'] eqn:E.
    cbn [snd] in Hr. rewrite Hr. split; [done|].
    destruct r as [[n|e]|]; [by apply (poll_write_ready _ _ _ _ E)|..];
      by rewrite app_nil_r, (poll_write_other _ _ _ _ E).
  - by rewrite app_nil_r, poll_flush_readable, poll_flush_written.
  - by rewrite app_nil_r, poll_shutdown_readable, poll_shutdown_written.
Qed.

Lemma stream_calls_ok {S} `{PollReadLaws S} `{!PollWrite S} `{!PollWriteLaws S}
    `{!DuplexLaws S} cs (s : S) :
  let '(r, w, s') := stream_calls cs s in
  readable s = r ++ readable s' ∧ written s' = written s ++ w.
Proof.
  revert s. induction cs as [|c cs IH]; intros s; cbn [stream_calls].
  { by rewrite app_nil_r. }
  pose proof (stream_call_ok c s) as Hc. destruct (stream_call c s) as [[r w] s1].
  specialize (IH s1). destruct (stream_calls cs s1) as [[rs ws] s2].
  destruct Hc as [-> Hw], IH as [-> Hws]. by rewrite Hws, Hw, !app_assoc.
Qed.

(** ** Framed streams *)

(** [tokio_util::codec::Framed] over a stream: [send] of one frame, [next],
    the parts it is taken apart into, and the bytes it has handed to its stream. *)
Class Framed (S F : Type) := {
  framed_new : S → F;
  framed_send : Bytes → StM F IoError unit;
  framed_next : F → option (io_result Bytes) * F;
  read_buf : F → Bytes;
  write_buf : F → Bytes;
  framed_inner : F → S;
  framed_written : F → Bytes
}.
#[global] Hint Mode Framed - + : typeclass_instances.

(** The frame of the codec that [length_codec] configures: the length in four
    big-endian bytes, then the payload. *)
Definition MAX_CONTROL_FRAME_LENGTH : Z := 64 * 1024.
Definition LENGTH_PREFIX_SIZE : nat := 4.

Definition frame (payload : Bytes) : Bytes :=
  let n := Z.of_nat (length payload) in
  [z2b (n / 2 ^ 24); z2b (n / 2 ^ 16); z2b (n / 2 ^ 8); z2b n] ++ payload.

(** What remains to be read from a framed stream, buffered or not. *)
Definition framed_readable {S F} `{Framed S F} `{PollRead S} (f : F) : Bytes :=
  read_buf f ++ readable (framed_inner f).

(** Framing starts with empty buffers, a [send] that succeeds flushes, has handed
    over the frame and nothing else, and reads nothing; [next] writes nothing,
    returns the payload of the frame in front and leaves the rest of the input in
    place; at the end of the input it returns no frame. *)
Class FramedLaws (S F : Type) `{Framed S F} `{PollRead S} := {
  framed_new_readable s : framed_readable (framed_new s : F) = readable s;
  framed_new_clean s : write_buf (framed_new s : F) = [] ∧ framed_written (framed_new s : F) = [];
  framed_send_written b (f f' : F) :
    framed_send b f = (Ok tt, f') → write_buf f = [] →
    framed_written f' = framed_written f ++ frame b;
  framed_next_written (f : F) : framed_written (snd (framed_next f)) = framed_written f;
  framed_send_flushes b (f f' : F) :
    framed_send b f = (Ok tt, f') →
    write_buf f' = [] ∧ framed_readable f' = framed_readable f;
  framed_next_frame (f : F) p rest :
    framed_readable f = frame p ++ rest →
    Z.of_nat (length p) ≤ MAX_CONTROL_FRAME_LENGTH →
    ∃ f' : F, framed_next f = (Some (Ok p), f') ∧ framed_readable f' = rest
          ∧ write_buf f' = write_buf f;
  framed_next_end (f f' : F) p :
    framed_readable f = [] → framed_next f ≠ (Some (Ok p), f')
}.

(** A framed stream in memory: the input and the frames sent. Its stream is
    the input alone. *)
Record MemFramed := mkFramed { mf_read : Bytes; mf_input : Bytes; mf_sent : list Bytes }.

(** A writer in memory that takes at most [memw_room] bytes at a time. *)
Record MemWriter := mkMemWriter { memw_data : Bytes; memw_room : nat }.

#[export] Instance mem_poll_write : PollWrite MemWriter := {
  poll_write b s :=
    match memw_room s with
    | O => (Pending, s)
    | S _ => (Ready (Ok (Nat.min (memw_room s) (length b))),
              mkMemWriter (memw_data s ++ take (memw_room s) b) (memw_room s))
    end;
  poll_flush s := (Ready (Ok tt), s);
  poll_shutdown s := (Ready (Ok tt), mkMemWriter (memw_data s) 0);
  written := memw_data
}.

#[export] Instance mem_poll_write_laws : PollWriteLaws MemWriter.
Proof.
  split; cbn [poll_write poll_flush poll_shutdown written mem_poll_write]; try done.
  - intros b [d [|k]] n s'; [done|]. cbn [memw_room memw_data].
    intros E. change (S k `min` length b)%nat with (Nat.min (S k) (length b)) in E.
    revert E. generalize (Nat.le_min_r (S k) (length b)), (take_take b (S k) (length b)).
    generalize (Nat.min (S k) (length b)). intros m Hm Ht [= <- <-].
    split; [done|]. cbn [memw_data]. by rewrite <-Ht, firstn_all.
  - intros b [d [|k]] r s'; cbn [memw_room]; [by intros [= <- <-]|].
    intros [= <- <-] Hr. by destruct (Hr (Nat.min (S k) (length b))).
Qed.

#[export] Instance bytes_poll_read : PollRead Bytes := {
  poll_read n s := (Ready (Ok (take n s)), drop n s);
  readable := id
}.

Definition be32 (l : Bytes) : option (Z * Bytes) :=
  match l with
  | a :: b :: c :: d :: r =>
    Some (((b2z a * 256 + b2z b) * 256 + b2z c) * 256 + b2z d, r)
  | _ => None
  end.

#[export] Instance mem_framed : Framed Bytes MemFramed := {
  framed_new s := mkFramed [] s [];
  framed_send b f := (Ok tt, mkFramed (mf_read f) (mf_input f) (mf_sent f ++ [b]));
  framed_next f :=
    match be32 (mf_read f ++ mf_input f) with
    | Some (n, r) =>
      if n <=? MAX_CONTROL_FRAME_LENGTH then
        if Nat.leb (Z.to_nat n) (length r)
        then (Some (Ok (take (Z.to_nat n) r)),
              mkFramed (drop (Z.to_nat n) r) [] (mf_sent f))
        else (None, f)
      else (Some (Err (mkIoError InvalidData "frame size too big")), f)
    | None => (None, f)
    end;
  read_buf := mf_read;
  write_buf _ := [];
  framed_inner := mf_input;
  framed_written f := mf_sent f ≫= frame
}.

Lemma be32_frame p rest :
  Z.of_nat (length p) ≤ MAX_CONTROL_FRAME_LENGTH →
  be32 (frame p ++ rest) = Some (Z.of_nat (length p), p ++ rest).
Proof.
  unfold MAX_CONTROL_FRAME_LENGTH, frame. intros Hl. cbn [app be32].
  rewrite !b2z_z2b. do 2 f_equal.
  rewrite (Z.div_small _ (2 ^ 24)) by lia.
  rewrite (Z.mod_small (_ / 2 ^ 16)) by (Z.div_mod_to_equations; lia).
  Z.div_mod_to_equations; lia.
Qed.

#[export] Instance mem_framed_laws : FramedLaws Bytes MemFramed.
Proof.
  split.
  - done.
  - done.
  - intros b f f' [= <-] _. cbn [framed_written mem_framed mf_sent].
    by rewrite bind_app, bind_singleton.
  - intros f. cbn [framed_next mem_framed framed_written].
    destruct (be32 _) as [[n r]|]; [|done].
    destruct (n <=? _); [destruct (Nat.leb _ _)|]; done.
  - intros b f f' [= <-]. done.
  - intros f p rest E Hl. unfold framed_readable in *.
    cbn [read_buf framed_inner framed_next mem_framed] in *.
    change (readable (mf_input f)) with (mf_input f) in E.
    rewrite E, be32_frame by done. rewrite (proj2 (Z.leb_le _ _) Hl).
    rewrite Nat2Z.id, length_app, (proj2 (Nat.leb_le _ _)) by lia.
    rewrite take_app_length, drop_app_length. eexists. split; [done|].
    split; [|done]. cbn [mf_read mf_input]. by rewrite app_nil_r.
  - intros f f' p E. unfold framed_readable in E.
    cbn [read_buf framed_inner framed_next mem_framed] in *.
    change (readable (mf_input f)) with (mf_input f) in E. by rewrite E.
Qed.

#[export] Instance bytes_poll_read_laws : PollReadLaws Bytes.
Proof.
  split; cbn [poll_read readable bytes_poll_read]; unfold id.
  - intros n s b s' [= <- <-]. rewrite take_drop, length_take.
    split_and!; [lia|done|]. intros E Hn. destruct n, s; done || lia.
  - intros n s r s' [= <- <-] Hr. by destruct (Hr (take n s)).
Qed.
