(* ===== verification/SocksProtocol.v ===== *)
(** The SOCKS5 wire format
    (crates/ombrac-client/src/endpoint/socks/protocol.rs). *)

From S2P Require Import Prelude Std Stream.
From S2P Require Parse Protocol AddressText.

#[local] Open Scope Z_scope.

Definition VERSION : byte := Byte.x05.

Definition ATYP_IPV4 : byte := Byte.x01.
Definition ATYP_DOMAIN : byte := Byte.x03.
Definition ATYP_IPV6 : byte := Byte.x04.

Definition CMD_CONNECT : byte := Byte.x01.
Definition CMD_BIND : byte := Byte.x02.
Definition CMD_ASSOCIATE : byte := Byte.x03.

Definition NO_AUTHENTICATION : byte := Byte.x00.
Definition NO_ACCEPTABLE_METHOD : byte := Byte.xff.

Definition invalid_data (m : string) : IoError := mkIoError InvalidData m.

(** ** Addresses *)

Inductive Address :=
  | IPv4 (addr : SocketAddrV4)
  | IPv6 (addr : SocketAddrV6)
  | Domain (name : Bytes) (port : Z).

#[export] Instance Address_eq_dec : EqDecision Address.
Proof. solve_decision. Defined.

Definition UNSPECIFIED : Address := IPv4 (mkSA4 v4_unspecified 0).

(** What both parsers build from the bytes of an address. *)
Definition ipv4_of (ip : vec byte 4) (port : Z) : Address :=
  IPv4 (mkSA4 (mkIpv4 ip) port).
Definition ipv6_of (ip : vec byte 16) (port : Z) : Address :=
  IPv6 (mkSA6 (mkIpv6 ip) port 0 0).

(** Splits what [read_exact] filled in: the array, then the port's bytes. *)
Definition array_and_port (n : nat) (buf : Bytes) : option (vec byte n * Z) :=
  match take_vec n buf with
  | Some (ip, [hi; lo]) => Some (ip, u16_from_be hi lo)
  | _ => None
  end.

(** [Address::read]. The last branch of each inner [match] is unreachable:
    [read_exact] fills the whole buffer. *)
Definition read {S} `{AsyncStream S} : StM S IoError Address :=
  atyp ← read_u8;
  if decide (atyp = ATYP_IPV4) then
    buf ← read_exact 6;
    match array_and_port 4 buf with
    | Some (ip, port) => mret (ipv4_of ip port)
    | None => st_err early_eof
    end
  else if decide (atyp = ATYP_IPV6) then
    buf ← read_exact 18;
    match array_and_port 16 buf with
    | Some (ip, port) => mret (ipv6_of ip port)
    | None => st_err early_eof
    end
  else if decide (atyp = ATYP_DOMAIN) then
    len ← read_u8;
    let len := Z.to_nat (b2z len) in
    if Nat.eqb len 0 then st_err (invalid_data "empty domain") else
    buf ← read_exact (len + 2);
    match drop len buf with
    | [hi; lo] => mret (Domain (take len buf) (u16_from_be hi lo))
    | _ => st_err early_eof
    end
  else st_err (invalid_data "invalid address type: ").

(** [Address::from_buf]. *)
Definition from_buf : BufM Address :=
  _ ← buf_require 1 (invalid_data "insufficient data for address type");
  atyp ← get_u8;
  if decide (atyp = ATYP_IPV4) then
    _ ← buf_require 6 (invalid_data "insufficient data for IPv4 address");
    ip ← buf_array 4;
    port ← get_u16;
    mret (ipv4_of ip port)
  else if decide (atyp = ATYP_IPV6) then
    _ ← buf_require 18 (invalid_data "insufficient data for IPv6 address");
    ip ← buf_array 16;
    port ← get_u16;
    mret (ipv6_of ip port)
  else if decide (atyp = ATYP_DOMAIN) then
    _ ← buf_require 1 (invalid_data "insufficient data for domain length");
    len ← get_u8;
    let len := Z.to_nat (b2z len) in
    if Nat.eqb len 0 then buf_fail (invalid_data "empty domain") else
    _ ← buf_require (len + 2) (invalid_data "insufficient data for domain name");
    domain ← buf_bytes len;
    port ← get_u16;
    mret (Domain domain port)
  else buf_fail (invalid_data "invalid address type: ").

(** [Address::encode]: appends to [dst]. *)
Definition encode (self : Address) (dst : Bytes) : Bytes :=
  match self with
  | IPv4 addr =>
    dst ++ [ATYP_IPV4] ++ vec_to_list (v4_octets (sa4_ip addr))
        ++ u16_to_be (sa4_port addr)
  | IPv6 addr =>
    dst ++ [ATYP_IPV6] ++ vec_to_list (v6_octets (sa6_ip addr))
        ++ u16_to_be (sa6_port addr)
  | Domain domain port =>
    dst ++ [ATYP_DOMAIN] ++ [z2b (Z.of_nat (length domain))] ++ domain
        ++ u16_to_be port
  end.

(** [Address::encoded_len]. *)
Definition encoded_len (self : Address) : nat :=
  match self with
  | IPv4 _ => 1 + 4 + 2
  | IPv6 _ => 1 + 16 + 2
  | Domain domain _ => 1 + 1 + length domain + 2
  end.

(** [From<SocketAddr>], [From<Address> for OmbracAddress] and back. *)
Definition of_socket_addr (value : SocketAddr) : Address :=
  match value with SockV4 addr => IPv4 addr | SockV6 addr => IPv6 addr end.

Definition to_ombrac (value : Address) : Protocol.Address :=
  match value with
  | IPv4 addr => Protocol.SocketV4 addr
  | IPv6 addr => Protocol.SocketV6 addr
  | Domain domain port => Protocol.Domain domain port
  end.

(** [Display for Address]. *)
Definition address_display (value : Address) : Bytes :=
  match value with
  | IPv4 addr => AddressText.display_v4 addr
  | IPv6 addr => AddressText.display_v6 addr
  | Domain domain port =>
    AddressText.from_utf8_lossy domain ++ AddressText.colon :: Parse.display_u16 port
  end.

(** The text of an address is that of the protocol's. *)
Lemma address_display_to_ombrac a :
  address_display a = AddressText.address_display (to_ombrac a).
Proof. by destruct a. Qed.

Definition try_from (value : Protocol.Address) : io_result Address :=
  match value with
  | Protocol.SocketV4 addr => Ok (IPv4 addr)
  | Protocol.SocketV6 addr => Ok (IPv6 addr)
  | Protocol.Domain domain port =>
    if Nat.ltb 255 (length domain)
    then Err (invalid_data "domain exceeds maximum length")
    else Ok (Domain domain port)
  end.

(** ** Requests and replies *)

Inductive Request :=
  | Connect (a : Address) | Bind (a : Address) | Associate (a : Address).

(** [Request::read]. *)
Definition request_read {S} `{AsyncStream S} : StM S IoError Request :=
  header ← read_exact 3;
  match header with
  | [ver; cmd; _] =>
    if decide (ver ≠ VERSION)
    then st_err (invalid_data "unsupported SOCKS version") else
    address ← read;
    if decide (cmd = CMD_CONNECT) then mret (Connect address)
    else if decide (cmd = CMD_BIND) then mret (Bind address)
    else if decide (cmd = CMD_ASSOCIATE) then mret (Associate address)
    else st_err (invalid_data "invalid request command: ")
  | _ => st_err early_eof
  end.

Inductive Reply :=
  | Succeeded | GeneralFailure | ConnectionNotAllowed | ReplyNetworkUnreachable
  | ReplyHostUnreachable | ReplyConnectionRefused | TtlExpired
  | CommandNotSupported.

Definition reply_as_u8 (self : Reply) : byte :=
  match self with
  | Succeeded => Byte.x00
  | GeneralFailure => Byte.x01
  | ConnectionNotAllowed => Byte.x02
  | ReplyNetworkUnreachable => Byte.x03
  | ReplyHostUnreachable => Byte.x04
  | ReplyConnectionRefused => Byte.x05
  | TtlExpired => Byte.x06
  | CommandNotSupported => Byte.x07
  end.

(** [Reply::from_connect_error]. *)
Definition from_connect_error (err : IoError) : Reply :=
  match kind err with
  | ConnectionRefused => ReplyConnectionRefused
  | TimedOut => TtlExpired
  | HostUnreachable => ReplyHostUnreachable
  | NetworkUnreachable => ReplyNetworkUnreachable
  | PermissionDenied => ConnectionNotAllowed
  | _ => GeneralFailure
  end.

(** [encode_reply]. *)
Definition encode_reply (reply : Reply) (address : Address) : Bytes :=
  encode address ([VERSION] ++ [reply_as_u8 reply] ++ [Byte.x00]).

(** ** UDP datagrams *)

Record UdpPacket := mkUdp { frag : byte; address : Address; data : Bytes }.

#[export] Instance UdpPacket_eq_dec : EqDecision UdpPacket.
Proof. solve_decision. Defined.

(** [UdpPacket::from_buf]. *)
Definition udp_from_buf : BufM UdpPacket :=
  _ ← buf_require 3 (invalid_data "insufficient data for UDP header");
  _ ← buf_bytes 2;
  frag ← get_u8;
  address ← from_buf;
  data ← st_get;
  mret (mkUdp frag address data).

(** [UdpPacket::encode_unfragmented]. *)
Definition encode_unfragmented (address : Address) (data : Bytes) : Bytes :=
  encode address ([Byte.x00] ++ [Byte.x00] ++ [Byte.x00]) ++ data.

(** ** Well-formed addresses *)

(** The addresses the wire format can carry. *)
Definition wire_ok (a : Address) : Prop :=
  match a with
  | IPv4 a => in_width 16 (sa4_port a)
  | IPv6 a => in_width 16 (sa6_port a) ∧ sa6_flowinfo a = 0 ∧ sa6_scope_id a = 0
  | Domain d p => (1 ≤ length d ≤ 255)%nat ∧ in_width 16 p
  end.

Lemma encode_app a dst : encode a dst = dst ++ encode a [].
Proof. by destruct a. Qed.

(** ** Lemmas on the parser's steps *)

Lemma from_buf_cons atyp b :
  from_buf (atyp :: b) =
    (if decide (atyp = ATYP_IPV4) then
       _ ← buf_require 6 (invalid_data "insufficient data for IPv4 address");
       ip ← buf_array 4; port ← get_u16; mret (ipv4_of ip port)
     else if decide (atyp = ATYP_IPV6) then
       _ ← buf_require 18 (invalid_data "insufficient data for IPv6 address");
       ip ← buf_array 16; port ← get_u16; mret (ipv6_of ip port)
     else if decide (atyp = ATYP_DOMAIN) then
       _ ← buf_require 1 (invalid_data "insufficient data for domain length");
       len ← get_u8;
       let len := Z.to_nat (b2z len) in
       if Nat.eqb len 0 then buf_fail (invalid_data "empty domain") else
       _ ← buf_require (len + 2) (invalid_data "insufficient data for domain name");
       domain ← buf_bytes len; port ← get_u16; mret (Domain domain port)
     else buf_fail (invalid_data "invalid address type: ")) b.
Proof. done. Qed.

(** An array and a port in front of a buffer that holds enough bytes. *)
Lemma array_port_split n (b : Bytes) :
  (n + 2 ≤ length b)%nat →
  ∃ (v : vec byte n) hi lo r, b = vec_to_list v ++ hi :: lo :: r.
Proof.
  intros Hl. destruct (take_vec n b) as [[v r]|] eqn:E.
  - apply take_vec_inv in E as ->.
    rewrite length_app, length_vec_to_list in Hl.
    destruct r as [|hi [|lo r]]; simpl in Hl; [lia..|]. eauto.
  - apply take_vec_None in E. lia.
Qed.

Lemma bytes_port_split n (b : Bytes) :
  (n + 2 ≤ length b)%nat →
  ∃ d hi lo r, length d = n ∧ b = d ++ hi :: lo :: r.
Proof.
  intros Hl. exists (take n b). pose proof (take_drop n b) as E.
  destruct (drop n b) as [|hi [|lo r]] eqn:Ed;
    (apply (f_equal length) in Ed as Hd; rewrite length_drop in Hd; simpl in Hd).
  1-2: lia.
  exists hi, lo, r. rewrite E. split; [|done]. list_lia.
Qed.

Lemma encode_v4 (v : vec byte 4) hi lo r :
  ATYP_IPV4 :: vec_to_list v ++ hi :: lo :: r =
    encode (ipv4_of v (u16_from_be hi lo)) [] ++ r.
Proof. unfold ipv4_of, encode; cbn [sa4_ip sa4_port v4_octets]. rewrite u16_to_from_be.
  simpl. by rewrite <-app_assoc. Qed.

Lemma encode_v6 (v : vec byte 16) hi lo r :
  ATYP_IPV6 :: vec_to_list v ++ hi :: lo :: r =
    encode (ipv6_of v (u16_from_be hi lo)) [] ++ r.
Proof. unfold ipv6_of, encode; cbn [sa6_ip sa6_port v6_octets]. rewrite u16_to_from_be.
  simpl. by rewrite <-app_assoc. Qed.

Lemma encode_domain len d hi lo r :
  length d = Z.to_nat (b2z len) →
  ATYP_DOMAIN :: len :: d ++ hi :: lo :: r =
    encode (Domain d (u16_from_be hi lo)) [] ++ r.
Proof.
  intros Hl. unfold encode. rewrite u16_to_from_be, Hl.
  pose proof (b2z_range len). rewrite Z2Nat.id, z2b_b2z by lia.
  simpl. by rewrite <-app_assoc.
Qed.

(** The wire-correct addresses are those with one of these three shapes. *)
Lemma encode_inv a r :
  wire_ok a →
  (∃ v hi lo, a = ipv4_of v (u16_from_be hi lo)
     ∧ encode a [] ++ r = ATYP_IPV4 :: vec_to_list v ++ hi :: lo :: r)
  ∨ (∃ v hi lo, a = ipv6_of v (u16_from_be hi lo)
     ∧ encode a [] ++ r = ATYP_IPV6 :: vec_to_list v ++ hi :: lo :: r)
  ∨ (∃ len d hi lo, a = Domain d (u16_from_be hi lo)
     ∧ length d = Z.to_nat (b2z len) ∧ length d ≠ 0%nat
     ∧ encode a [] ++ r = ATYP_DOMAIN :: len :: d ++ hi :: lo :: r).
Proof.
  destruct a as [[[v] p]|[[v] p fl sc]|d p]; simpl.
  - intros Hp. left. exists v, (z2b (p / 256)), (z2b p). rewrite u16_from_to_be by done.
    split; [done|]. by rewrite <-app_assoc.
  - intros (Hp & -> & ->). right; left. exists v, (z2b (p / 256)), (z2b p).
    rewrite u16_from_to_be by done. split; [done|]. by rewrite <-app_assoc.
  - intros [Hd Hp]. right; right.
    exists (z2b (Z.of_nat (length d))), d, (z2b (p / 256)), (z2b p).
    rewrite u16_from_to_be by done. rewrite b2z_z2b_small by lia.
    split_and!; [done|lia|lia|]. by rewrite <-app_assoc.
Qed.

Lemma ipv4_of_ok v hi lo : wire_ok (ipv4_of v (u16_from_be hi lo)).
Proof. apply u16_from_be_range. Qed.

Lemma ipv6_of_ok v hi lo : wire_ok (ipv6_of v (u16_from_be hi lo)).
Proof. split_and!; [apply u16_from_be_range|done|done]. Qed.

Lemma domain_ok len d hi lo :
  length d = Z.to_nat (b2z len) → length d ≠ 0%nat →
  wire_ok (Domain d (u16_from_be hi lo)).
Proof.
  intros H1 H2. pose proof (b2z_range len).
  split; [lia|apply u16_from_be_range].
Qed.

(** *** [from_buf] *)

Lemma from_buf_v4 (v : vec byte 4) hi lo r :
  from_buf (ATYP_IPV4 :: vec_to_list v ++ hi :: lo :: r) =
    (Ok (ipv4_of v (u16_from_be hi lo)), r).
Proof.
  rewrite from_buf_cons, decide_True by done.
  erewrite st_bind_ok.
  2:{ apply buf_require_eq. list_lia. }
  by erewrite st_bind_ok by apply buf_array_app.
Qed.

Lemma from_buf_v6 (v : vec byte 16) hi lo r :
  from_buf (ATYP_IPV6 :: vec_to_list v ++ hi :: lo :: r) =
    (Ok (ipv6_of v (u16_from_be hi lo)), r).
Proof.
  rewrite from_buf_cons, decide_False, decide_True by done.
  erewrite st_bind_ok.
  2:{ apply buf_require_eq. list_lia. }
  by erewrite st_bind_ok by apply buf_array_app.
Qed.

Lemma from_buf_domain len d hi lo r :
  length d = Z.to_nat (b2z len) → length d ≠ 0%nat →
  from_buf (ATYP_DOMAIN :: len :: d ++ hi :: lo :: r) =
    (Ok (Domain d (u16_from_be hi lo)), r).
Proof.
  intros Hl Hn. rewrite from_buf_cons, !decide_False, decide_True by done.
  erewrite st_bind_ok.
  2:{ apply buf_require_eq. simpl. lia. }
  erewrite st_bind_ok by done. cbv zeta. rewrite <-Hl.
  destruct (Nat.eqb_spec (length d) 0); [done|].
  erewrite st_bind_ok.
  2:{ apply buf_require_eq. list_lia. }
  by erewrite st_bind_ok by apply buf_bytes_app.
Qed.

Lemma from_buf_encode a r : wire_ok a → from_buf (encode a [] ++ r) = (Ok a, r).
Proof.
  intros Ha. destruct (encode_inv a r Ha)
    as [(v & hi & lo & -> & ->)|[(v & hi & lo & -> & ->)
       |(len & d & hi & lo & -> & H1 & H2 & ->)]].
  - apply from_buf_v4.
  - apply from_buf_v6.
  - by apply from_buf_domain.
Qed.

(** Every buffer is a wire address in front of a rest, or is rejected with
    [InvalidData]. *)
Lemma from_buf_cases b :
  (∃ a r, wire_ok a ∧ b = encode a [] ++ r)
  ∨ (∃ e b', from_buf b = (Err (Failed e), b') ∧ kind e = InvalidData).
Proof.
  destruct b as [|atyp b]; [right; by eexists _, _|].
  rewrite from_buf_cons.
  destruct (decide (atyp = ATYP_IPV4)) as [->|]; [|destruct (decide (atyp = ATYP_IPV6))
    as [->|]; [|destruct (decide (atyp = ATYP_DOMAIN)) as [->|]]].
  - destruct (decide (length b < 6)%nat) as [H|H].
    + right. unfold mbind, StM_mbind, buf_require. rewrite (proj2 (Nat.ltb_lt _ _) H).
      by eexists _, _.
    + left. destruct (array_port_split 4 b) as (v & hi & lo & r & ->); [lia|].
      rewrite encode_v4. eexists _, _. split; [apply ipv4_of_ok|done].
  - destruct (decide (length b < 18)%nat) as [H|H].
    + right. unfold mbind, StM_mbind, buf_require. rewrite (proj2 (Nat.ltb_lt _ _) H).
      by eexists _, _.
    + left. destruct (array_port_split 16 b) as (v & hi & lo & r & ->); [lia|].
      rewrite encode_v6. eexists _, _. split; [apply ipv6_of_ok|done].
  - destruct b as [|len b]; [right; by eexists _, _|].
    erewrite st_bind_ok by (apply buf_require_eq; simpl; lia).
    erewrite st_bind_ok by done. cbv zeta.
    destruct (Nat.eqb_spec (Z.to_nat (b2z len)) 0); [right; by eexists _, _|].
    destruct (decide (length b < Z.to_nat (b2z len) + 2)%nat) as [H|H].
    + right. unfold mbind, StM_mbind, buf_require. rewrite (proj2 (Nat.ltb_lt _ _) H).
      by eexists _, _.
    + left. destruct (bytes_port_split (Z.to_nat (b2z len)) b) as (d & hi & lo & r & Hd & ->);
        [lia|].
      rewrite (encode_domain _ _ _ _ _ Hd). eexists _, _. split; [|done].
      apply (domain_ok len); lia.
  - right. by eexists _, _.
Qed.

(** *** [read] *)

Lemma array_and_port_app {n} (v : vec byte n) hi lo :
  array_and_port n (vec_to_list v ++ [hi; lo]) = Some (v, u16_from_be hi lo).
Proof. unfold array_and_port. by rewrite take_vec_app. Qed.

Section reading.
Context {S : Type} `{AsyncStreamLaws S}.

Lemma read_exact_app' n l r s :
  length l = n → incoming s = l ++ r →
  ∃ s', read_exact n s = (Ok l, s') ∧ incoming s' = r ∧ outgoing s' = outgoing s.
Proof. intros <-. apply read_exact_app. Qed.

Lemma read_encode a r s :
  wire_ok a → incoming s = encode a [] ++ r →
  ∃ s', read s = (Ok a, s') ∧ incoming s' = r ∧ outgoing s' = outgoing s.
Proof.
  intros Ha E. unfold read.
  destruct (encode_inv a r Ha)
    as [(v & hi & lo & -> & E')|[(v & hi & lo & -> & E')
       |(len & d & hi & lo & -> & H1 & H2 & E')]]; rewrite E' in E.
  - destruct (read_u8_cons _ _ _ E) as (s1 & Hr & I1 & <-);
      rewrite (st_run_ok _ _ _ _ Hr); clear Hr.
    rewrite decide_True by done.
    destruct (read_exact_app' 6 (vec_to_list v ++ [hi; lo]) r s1)
      as (s2 & Hr & I2 & <-).
    { rewrite length_app, length_vec_to_list. done. }
    { by rewrite I1, <-app_assoc. }
    rewrite (st_run_ok _ _ _ _ Hr); clear Hr.
    rewrite array_and_port_app. by exists s2.
  - destruct (read_u8_cons _ _ _ E) as (s1 & Hr & I1 & <-);
      rewrite (st_run_ok _ _ _ _ Hr); clear Hr.
    rewrite decide_False, decide_True by done.
    destruct (read_exact_app' 18 (vec_to_list v ++ [hi; lo]) r s1)
      as (s2 & Hr & I2 & <-).
    { rewrite length_app, length_vec_to_list. done. }
    { by rewrite I1, <-app_assoc. }
    rewrite (st_run_ok _ _ _ _ Hr); clear Hr.
    rewrite array_and_port_app. by exists s2.
  - destruct (read_u8_cons _ _ _ E) as (s1 & Hr & I1 & <-);
      rewrite (st_run_ok _ _ _ _ Hr); clear Hr.
    rewrite !decide_False, decide_True by done.
    destruct (read_u8_cons _ _ _ I1) as (s2 & Hr & I2 & <-);
      rewrite (st_run_ok _ _ _ _ Hr); clear Hr.
    cbv zeta. rewrite <-H1. destruct (Nat.eqb_spec (length d) 0); [done|].
    destruct (read_exact_app' (length d + 2) (d ++ [hi; lo]) r s2)
      as (s3 & Hr & I3 & <-).
    { by rewrite length_app. }
    { by rewrite I2, <-app_assoc. }
    rewrite (st_run_ok _ _ _ _ Hr); clear Hr.
    rewrite drop_app_length, take_app_length. by exists s3.
Qed.

(** A short stream fails with [UnexpectedEof] and nothing was sent. *)
Lemma read_exact_bind_eof {B} n s (f : Bytes → StM S IoError B) :
  (length (incoming s) < n)%nat →
  ∃ e s', (read_exact n ≫= f) s = (Err e, s') ∧ kind e = UnexpectedEof
          ∧ outgoing s' = outgoing s.
Proof.
  intros Hl. destruct (read_exact_eof n s Hl) as (e & s' & Hr & Hk & Ho).
  exists e, s'. by rewrite (st_bind_err _ _ _ _ _ Hr).
Qed.

Lemma read_u8_bind_eof {B} s (f : byte → StM S IoError B) :
  incoming s = [] →
  ∃ e s', (read_u8 ≫= f) s = (Err e, s') ∧ kind e = UnexpectedEof
          ∧ outgoing s' = outgoing s.
Proof.
  intros Hl. destruct (read_u8_nil s Hl) as (e & s' & Hr & Hk & Ho).
  exists e, s'. by rewrite (st_bind_err _ _ _ _ _ Hr).
Qed.

(** Any other stream is refused, and nothing is sent. *)
Lemma read_fails s :
  (∀ a r, wire_ok a → incoming s ≠ encode a [] ++ r) →
  ∃ e s', read s = (Err e, s') ∧ (kind e = InvalidData ∨ kind e = UnexpectedEof)
          ∧ outgoing s' = outgoing s.
Proof.
  intros Hn.
  assert (∀ m : StM S IoError Address, (∃ e s', m s = (Err e, s')
      ∧ kind e = UnexpectedEof ∧ outgoing s' = outgoing s) →
    ∃ e s', m s = (Err e, s') ∧ (kind e = InvalidData ∨ kind e = UnexpectedEof)
            ∧ outgoing s' = outgoing s) as Heof by naive_solver.
  destruct (incoming s) as [|atyp b] eqn:E.
  { apply Heof, read_u8_bind_eof, E. }
  unfold read. destruct (read_u8_cons _ _ _ E) as (s1 & Hr & I1 & Ho);
      rewrite (st_run_ok _ _ _ _ Hr); clear Hr.
  rewrite <-Ho in *. clear Heof.
  assert (∀ m : StM S IoError Address, (∃ e s', m s1 = (Err e, s')
      ∧ kind e = UnexpectedEof ∧ outgoing s' = outgoing s1) →
    ∃ e s', m s1 = (Err e, s') ∧ (kind e = InvalidData ∨ kind e = UnexpectedEof)
            ∧ outgoing s' = outgoing s1) as Heof by naive_solver.
  destruct (decide (atyp = ATYP_IPV4)) as [->|]; [|destruct (decide (atyp = ATYP_IPV6))
    as [->|]; [|destruct (decide (atyp = ATYP_DOMAIN)) as [->|]]].
  - apply Heof, read_exact_bind_eof. rewrite I1.
    destruct (decide (length b < 6)%nat) as [|Hl]; [done|]. exfalso.
    destruct (array_port_split 4 b) as (v & hi & lo & r & ->); [lia|].
    apply (Hn (ipv4_of v (u16_from_be hi lo)) r (ipv4_of_ok _ _ _)).
    by rewrite encode_v4.
  - apply Heof, read_exact_bind_eof. rewrite I1.
    destruct (decide (length b < 18)%nat) as [|Hl]; [done|]. exfalso.
    destruct (array_port_split 16 b) as (v & hi & lo & r & ->); [lia|].
    apply (Hn (ipv6_of v (u16_from_be hi lo)) r (ipv6_of_ok _ _ _)).
    by rewrite encode_v6.
  - destruct b as [|len b]; [apply Heof, read_u8_bind_eof, I1|].
    destruct (read_u8_cons _ _ _ I1) as (s2 & Hr & I2 & <-);
      rewrite (st_run_ok _ _ _ _ Hr); clear Hr.
    cbv zeta. destruct (Nat.eqb_spec (Z.to_nat (b2z len)) 0) as [|Hz].
    { eexists _, s2. split; [done|]. by split; [left|]. }
    destruct (read_exact_bind_eof (Z.to_nat (b2z len) + 2) s2
      (λ buf, match drop (Z.to_nat (b2z len)) buf with
       | [hi; lo] => mret (Domain (take (Z.to_nat (b2z len)) buf) (u16_from_be hi lo))
       | _ => st_err early_eof end)) as (e & s' & -> & Hk & Ho2).
    { rewrite I2. destruct (decide (length b < Z.to_nat (b2z len) + 2)%nat) as [|Hl];
        [done|]. exfalso.
      destruct (bytes_port_split (Z.to_nat (b2z len)) b) as (d & hi & lo & r & Hd & ->);
        [lia|].
      apply (Hn (Domain d (u16_from_be hi lo)) r); [apply (domain_ok len); lia|].
      by rewrite (encode_domain _ _ _ _ _ Hd). }
    exists e, s'. by split; [|split; [right|]].
  - eexists _, s1. split; [done|]. by split; [left|].
Qed.
End reading.

(** *** Datagrams *)

Lemma udp_from_buf_cons r0 r1 f b :
  udp_from_buf (r0 :: r1 :: f :: b) =
    (a ← from_buf; d ← st_get; mret (mkUdp f a d)) b.
Proof. done. Qed.

Lemma udp_from_buf_encode a d :
  wire_ok a →
  fst (udp_from_buf (encode_unfragmented a d)) = Ok (mkUdp Byte.x00 a d).
Proof.
  intros Ha. unfold encode_unfragmented. rewrite encode_app, <-app_assoc.
  cbn [app]. rewrite udp_from_buf_cons.
  by rewrite (st_run_ok _ _ _ _ (from_buf_encode a d Ha)).
Qed.

Lemma udp_from_buf_err b :
  match fst (udp_from_buf b) with
  | Ok p => ∃ r0 r1, wire_ok (address p)
              ∧ b = r0 :: r1 :: frag p :: encode (address p) [] ++ data p
  | Err Panicked => False
  | Err (Failed e) => kind e = InvalidData
  end.
Proof.
  destruct b as [|r0 [|r1 [|f b]]]; [done..|]. rewrite udp_from_buf_cons.
  destruct (from_buf_cases b) as [(a & r & Ha & ->)|(e & b' & E & Hk)].
  - rewrite (st_run_ok _ _ _ _ (from_buf_encode a r Ha)). by exists r0, r1.
  - by rewrite (st_run_err _ _ _ _ E).
Qed.

(** ** Properties *)

Lemma length_encode a : wire_ok a → length (encode a []) = encoded_len a.
Proof.
  destruct a; simpl; rewrite !length_app; try (by rewrite length_vec_to_list).
  intros _. simpl. lia.
Qed.

(** C21. The buffer parser reads exactly the encodings: it never panics, and it
    returns an address and a rest just when the buffer is that address's
    encoding, of [encoded_len] bytes, followed by that rest, and the address
    is one the format can carry. Every other buffer is [InvalidData]. *)
Theorem from_buf_exact b :
  match from_buf b with
  | (Ok a, r) => wire_ok a ∧ b = encode a [] ++ r
                 ∧ length (encode a []) = encoded_len a
  | (Err Panicked, _) => False
  | (Err (Failed e), _) =>
      kind e = InvalidData ∧ ∀ a r, wire_ok a → b ≠ encode a [] ++ r
  end.
Proof.
  destruct (from_buf_cases b) as [(a & r & Ha & ->)|(e & b' & E & Hk)].
  - rewrite from_buf_encode by done. by auto using length_encode.
  - rewrite E. split; [done|]. intros a r Ha ->. by rewrite from_buf_encode in E.
Qed.

(** The stream parser and the buffer parser agree on what is an address:
    on any stream, [read] returns what [from_buf] returns on the bytes the
    stream will deliver and consumes the same bytes; where one fails the other
    does, and reading sends nothing. *)
Theorem read_agrees_from_buf {S} `{AsyncStreamLaws S} s :
  outgoing (snd (read s)) = outgoing s
  ∧ match from_buf (incoming s), read s with
    | (Ok a, r), (Ok a', s') => a' = a ∧ incoming s' = r
    | (Err _, _), (Err e, _) => kind e = InvalidData ∨ kind e = UnexpectedEof
    | _, _ => False
    end.
Proof.
  destruct (from_buf_cases (incoming s)) as [(a & r & Ha & E)|(e & b' & E & Hk)].
  - rewrite E, from_buf_encode by done.
    destruct (read_encode a r s Ha E) as (s' & -> & Hi & Ho). done.
  - rewrite E. destruct (read_fails s) as (e' & s' & -> & Hk' & Ho); [|done].
    intros a r Ha E'. by rewrite E', from_buf_encode in E.
Qed.

Lemma read_agrees_from_buf_witness :
  let s := mkMem (encode (Domain [Byte.x61] 80) [] ++ [Byte.x62]) [] 0 in
  outgoing (snd (read s)) = [].
Proof. intros s. exact (proj1 (read_agrees_from_buf (S := MemStream) s)). Defined.

(** An unfragmented UDP datagram comes back with its address and its
    whole payload, the parser of datagrams never panics, and a datagram it
    accepts is three header bytes, the address and the payload, in full. *)
Theorem socks_udp_round_trip :
  (∀ a d, wire_ok a →
     fst (udp_from_buf (encode_unfragmented a d)) = Ok (mkUdp Byte.x00 a d))
  ∧ (∀ b, match fst (udp_from_buf b) with
          | Ok p => ∃ r0 r1, wire_ok (address p)
                      ∧ b = r0 :: r1 :: frag p :: encode (address p) [] ++ data p
          | Err Panicked => False
          | Err (Failed e) => kind e = InvalidData
          end).
Proof. split; [apply udp_from_buf_encode|apply udp_from_buf_err]. Qed.

(** Which of the program's addresses survive the SOCKS5 format:
    [try_from] refuses only names over 255 bytes, but an accepted address is
    read back from its encoding exactly when the name is not empty and an IPv6
    address has no flow label and no scope. *)
Theorem socks_try_from_limits a :
  match try_from a with
  | Err e => kind e = InvalidData ∧ ∃ d p, a = Protocol.Domain d p ∧ (255 < length d)%nat
  | Ok s =>
    to_ombrac s = a
    ∧ (match a with
       | Protocol.SocketV4 x => in_width 16 (sa4_port x)
       | Protocol.SocketV6 x => in_width 16 (sa6_port x)
       | Protocol.Domain _ p => in_width 16 p
       end →
       fst (from_buf (encode s [])) = Ok s ↔
       match a with
       | Protocol.SocketV4 _ => True
       | Protocol.SocketV6 x => sa6_flowinfo x = 0 ∧ sa6_scope_id x = 0
       | Protocol.Domain d _ => d ≠ []
       end)
  end.
Proof.
  assert (∀ s, fst (from_buf (encode s [])) = Ok s → wire_ok s) as Hback.
  { intros s. destruct (from_buf_cases (encode s [])) as [(a' & r & Ha & E)|(e & b' & E & _)].
    - rewrite E, from_buf_encode by done. by intros [= <-].
    - by rewrite E. }
  assert (∀ s, wire_ok s → fst (from_buf (encode s [])) = Ok s) as Hfwd.
  { intros s Hs. rewrite <-(app_nil_r (encode s [])). by rewrite from_buf_encode. }
  destruct a as [x|x|d p]; cbn [try_from to_ombrac].
  - split; [done|]. intros Hp. split; [done|]. intros _. by apply Hfwd.
  - split; [by destruct x|]. intros Hp. split.
    + intros E. apply Hback in E. apply E.
    + intros [? ?]. by apply Hfwd.
  - destruct (Nat.ltb_spec 255 (length d)); [by eauto|].
    split; [done|]. intros Hp. split.
    + intros [E _]%Hback. by destruct d; [simpl in E; lia|].
    + intros Hd. apply Hfwd. split; [|done]. destruct d; [done|simpl in *; lia].
Qed.
