(* ===== verification/SocksServer.v ===== *)
(** The SOCKS5 server of the client
    (crates/ombrac-client/src/endpoint/socks/mod.rs). *)

From S2P Require Import Prelude Std Stream TransportIo.
From S2P Require Protocol.
From S2P Require Import SocksProtocol.

#[local] Open Scope Z_scope.

(** ** The control connection *)

Section server.
(** The accepted TCP stream; the tunnel stream [U] that the client opens for
    an address, and the copy between the two. *)
Context {S : Type} `{AsyncStream S} {U : Type}.
Context (open_bidirectional : Protocol.Address → io_result U).
Context (copy_bidirectional : U → S →
  Result (IoError * CopyBidirectionalStats) CopyBidirectionalStats * S).

(** [negotiate_method]. *)
Definition negotiate_method : StM S IoError unit :=
  header ← read_exact 2;
  match header with
  | [ver; nmethods] =>
    if decide (ver ≠ VERSION)
    then st_err (mkIoError InvalidData "unsupported SOCKS version") else
    let n := Z.to_nat (b2z nmethods) in
    methods ← read_exact n;
    if decide (NO_AUTHENTICATION ∈ methods)
    then write_all [VERSION; NO_AUTHENTICATION]
    else
      _ ← write_all [VERSION; NO_ACCEPTABLE_METHOD];
      st_err (mkIoError PermissionDenied "no acceptable authentication method")
  | _ => st_err early_eof
  end.

(** [reply_failure]. *)
Definition reply_failure (reply : Reply) : StM S IoError unit :=
  write_all (encode_reply reply UNSPECIFIED).

(** The end of [handle_connect]: the relay, whose byte counts are logged. *)
Definition relay_stream (upstream : U) : StM S IoError unit := fun s =>
  match copy_bidirectional upstream s with
  | (Ok _, s') => (Ok tt, s')
  | (Err (err, _), s') => (Err err, s')
  end.

(** [handle_connect]. *)
Definition handle_connect (address : Address) : StM S IoError unit :=
  match open_bidirectional (to_ombrac address) with
  | Err err =>
    _ ← reply_failure (from_connect_error err);
    st_err err
  | Ok upstream =>
    _ ← write_all (encode_reply Succeeded UNSPECIFIED);
    relay_stream upstream
  end.

(** [bind_addr_for]. *)
Definition bind_addr_for (ip : IpAddr) : SocketAddr :=
  socket_addr_new
    match ip with
    | IpV4 _ => IpV4 v4_unspecified
    | IpV6 _ => IpV6 v6_unspecified
    end 0.

(** What the sockets report and the relay loop, for [handle_associate]. *)
Context (peer_addr local_addr : io_result SocketAddr).
Context (bind : SocketAddr → io_result (io_result SocketAddr)).
Context (udp_relay : StM S IoError unit).

(** [handle_associate]. *)
Definition handle_associate : StM S IoError unit :=
  _ ← st_lift peer_addr;
  local ← st_lift local_addr;
  let local_ip := socket_addr_ip local in
  relay_socket ← st_lift (bind (bind_addr_for local_ip));
  relay_local ← st_lift relay_socket;
  let relay_addr := socket_addr_new local_ip (socket_addr_port relay_local) in
  _ ← write_all (encode_reply Succeeded (of_socket_addr relay_addr));
  udp_relay.

(** [handle_connection]. *)
Definition handle_connection : StM S IoError unit :=
  _ ← negotiate_method;
  request ← request_read;
  match request with
  | Connect address => handle_connect address
  | Associate _ => handle_associate
  | Bind _ => reply_failure CommandNotSupported
  end.
End server.

(** ** The UDP relay *)

(** What the [select!] of [udp_relay_loop] sees: a byte or the end of the
    control connection, a packet from the tunnel with the outcome of sending it
    on, or a datagram on the relay socket with the outcome of sending its
    payload into the tunnel. *)
Inductive RelayEvent :=
  | Control (r : io_result byte)
  | FromTunnel (data : Bytes) (from : Protocol.Address) (sent : io_result unit)
  | FromSocket (r : io_result (Bytes * SocketAddr)) (sent : io_result unit).

Inductive RelayOutput :=
  | ToSocket (packet : Bytes) (dest : SocketAddr)
  | ToTunnel (data : Bytes) (address : Protocol.Address).

(** How an iteration ends: the loop goes on, or the function returns. *)
Inductive RelayNext := Loop | Return (r : io_result unit).

Definition next_of (r : io_result unit) : RelayNext :=
  match r with Ok _ => Loop | Err e => Return (Err e) end.

(** One iteration of [udp_relay_loop]; the state is [client_addr]. The parser
    of datagrams never panics, so the [Panicked] branch is not taken. *)
Definition relay_step (client_addr : option SocketAddr) (ev : RelayEvent)
    : option SocketAddr * list RelayOutput * RelayNext :=
  match ev with
  | Control (Ok _) => (client_addr, [], Loop)
  | Control (Err _) => (client_addr, [], Return (Ok tt))
  | FromTunnel data from sent =>
    match client_addr with
    | Some dest =>
      match try_from from with
      | Ok from =>
        (client_addr, [ToSocket (encode_unfragmented from data) dest], next_of sent)
      | Err e => (client_addr, [], Return (Err e))
      end
    | None => (client_addr, [], Loop)
    end
  | FromSocket (Err e) _ => (client_addr, [], Return (Err e))
  | FromSocket (Ok (buf, src)) sent =>
    let client_addr := opt_or client_addr (Some src) in
    match fst (udp_from_buf buf) with
    | Err (Failed e) => (client_addr, [], Return (Err e))
    | Err Panicked => (client_addr, [], Return (Err (io_other "panic")))
    | Ok packet =>
      if decide (frag packet ≠ Byte.x00) then (client_addr, [], Loop)
      else (client_addr, [ToTunnel (data packet) (to_ombrac (address packet))],
            next_of sent)
    end
  end.

(** [udp_relay_loop]: the outputs in order, and the result once it returns. *)
Fixpoint udp_relay_loop (client_addr : option SocketAddr) (evs : list RelayEvent)
    : list RelayOutput * option (io_result unit) :=
  match evs with
  | [] => ([], None)
  | ev :: evs =>
    match relay_step client_addr ev with
    | (_, out, Return r) => (out, Some r)
    | (client_addr, out, Loop) =>
      let '(outs, r) := udp_relay_loop client_addr evs in (out ++ outs, r)
    end
  end.

(** ** Method negotiation *)

Section negotiation.
Context {S : Type} `{AsyncStreamLaws S} `{!ReliableWrites S}.

Lemma negotiate_ok ms rest s :
  (length ms ≤ 255)%nat →
  incoming s = [VERSION; z2b (Z.of_nat (length ms))] ++ ms ++ rest →
  NO_AUTHENTICATION ∈ ms →
  ∃ s', negotiate_method s = (Ok tt, s') ∧ incoming s' = rest
        ∧ outgoing s' = outgoing s ++ [VERSION; NO_AUTHENTICATION].
Proof.
  intros Hl E Hin. unfold negotiate_method.
  destruct (read_exact_app _ _ _ E) as (s1 & Hr & I1 & O1).
  rewrite (st_run_ok _ _ _ _ Hr). cbv beta iota. rewrite decide_False by auto.
  cbv zeta. rewrite b2z_z2b_small, Nat2Z.id by lia.
  destruct (read_exact_app _ _ _ I1) as (s2 & Hr2 & I2 & O2).
  rewrite (st_run_ok _ _ _ _ Hr2), decide_True by done.
  destruct (write_all_reliable_eq [VERSION; NO_AUTHENTICATION] s2)
    as (s3 & -> & I3 & O3).
  exists s3. by rewrite I3, O3, O2, O1.
Qed.

Lemma negotiate_refused ms rest s :
  (length ms ≤ 255)%nat →
  incoming s = [VERSION; z2b (Z.of_nat (length ms))] ++ ms ++ rest →
  NO_AUTHENTICATION ∉ ms →
  ∃ e s', negotiate_method s = (Err e, s') ∧ kind e = PermissionDenied
        ∧ outgoing s' = outgoing s ++ [VERSION; NO_ACCEPTABLE_METHOD].
Proof.
  intros Hl E Hin. unfold negotiate_method.
  destruct (read_exact_app _ _ _ E) as (s1 & Hr & I1 & O1).
  rewrite (st_run_ok _ _ _ _ Hr). cbv beta iota. rewrite decide_False by auto.
  cbv zeta. rewrite b2z_z2b_small, Nat2Z.id by lia.
  destruct (read_exact_app _ _ _ I1) as (s2 & Hr2 & I2 & O2).
  rewrite (st_run_ok _ _ _ _ Hr2), decide_False by done.
  destruct (write_all_reliable_eq [VERSION; NO_ACCEPTABLE_METHOD] s2)
    as (s3 & Hw & I3 & O3).
  rewrite (st_run_ok _ _ _ _ Hw). eexists _, s3.
  split_and!; [done|done|]. by rewrite O3, O2, O1.
Qed.

Lemma request_read_eq cmd rsv a rest s :
  wire_ok a → incoming s = [VERSION; cmd; rsv] ++ encode a [] ++ rest →
  ∃ s', outgoing s' = outgoing s ∧ incoming s' = rest
    ∧ request_read s =
        (if decide (cmd = CMD_CONNECT) then Ok (Connect a)
         else if decide (cmd = CMD_BIND) then Ok (Bind a)
         else if decide (cmd = CMD_ASSOCIATE) then Ok (Associate a)
         else Err (invalid_data "invalid request command: "), s').
Proof.
  intros Ha E. unfold request_read.
  destruct (read_exact_app [VERSION; cmd; rsv] _ _ E) as (s1 & Hr & I1 & O1).
  cbn [length] in Hr. rewrite (st_run_ok _ _ _ _ Hr). cbv beta iota.
  rewrite decide_False by auto.
  destruct (read_encode a rest s1 Ha I1) as (s2 & Hr2 & I2 & O2).
  rewrite (st_run_ok _ _ _ _ Hr2). exists s2. split_and!; [congruence|done|].
  by repeat destruct (decide _).
Qed.

(** A client that offers no authentication and asks for a connection. *)
Lemma connect_dialogue {U} (open : Protocol.Address → io_result U) copy peer local bnd udp
    (s : S) ms rsv a rest :
  (length ms ≤ 255)%nat → wire_ok a → NO_AUTHENTICATION ∈ ms →
  incoming s = [VERSION; z2b (Z.of_nat (length ms))] ++ ms
               ++ [VERSION; CMD_CONNECT; rsv] ++ encode a [] ++ rest →
  let run := handle_connection open copy peer local bnd udp s in
  let sent l := outgoing s ++ [VERSION; NO_AUTHENTICATION] ++ l in
  match open (to_ombrac a) with
  | Err e =>
    ∃ s', run = (Err e, s')
          ∧ outgoing s' = sent (encode_reply (from_connect_error e) UNSPECIFIED)
  | Ok u =>
    ∃ s1, run = relay_stream copy u s1 ∧ incoming s1 = rest
          ∧ outgoing s1 = sent (encode_reply Succeeded UNSPECIFIED)
  end.
Proof.
  intros Hl Ha Hy E run sent. unfold run, handle_connection.
  destruct (negotiate_ok _ _ _ Hl E Hy) as (s1 & Hr & I1 & O1).
  rewrite (st_run_ok _ _ _ _ Hr).
  destruct (request_read_eq _ _ _ _ _ Ha I1) as (s2 & O2 & I2 & Hq).
  rewrite decide_True in Hq by done. rewrite (st_run_ok _ _ _ _ Hq).
  unfold handle_connect. destruct (open (to_ombrac a)) as [u|e].
  - destruct (write_all_reliable_eq (encode_reply Succeeded UNSPECIFIED) s2)
      as (s3 & Hw & I3 & O3).
    rewrite (st_run_ok _ _ _ _ Hw). exists s3.
    split_and!; [done|congruence|]. unfold sent. by rewrite O3, O2, O1, <-app_assoc.
  - destruct (write_all_reliable_eq (encode_reply (from_connect_error e) UNSPECIFIED) s2)
      as (s3 & Hw & I3 & O3). unfold reply_failure.
    rewrite (st_run_ok _ _ _ _ Hw). exists s3. split; [done|].
    unfold sent. by rewrite O3, O2, O1, <-app_assoc.
Qed.
End negotiation.

(** A read that returns gives the next bytes. *)
Lemma read_exact_inv {S} `{AsyncStreamLaws S} n b s s' :
  read_exact n s = (Ok b, s') →
  length b = n ∧ incoming s = b ++ incoming s' ∧ outgoing s' = outgoing s.
Proof.
  intros E. destruct (decide (n ≤ length (incoming s))%nat) as [Hl|Hl].
  - destruct (read_exact_enough n s Hl) as (s1 & Hr & Hi & Ho).
    rewrite Hr in E. injection E as <- <-. rewrite Hi, Ho, length_take, take_drop.
    split_and!; [lia|done|done].
  - destruct (read_exact_eof n s) as (e & s1 & Hr & _); [lia|].
    by rewrite Hr in E.
Qed.

(** ** Properties *)

(** A connection gets past the handshake only by offering version 5 and
    the no-authentication method, and it is then told that this method was
    chosen: exactly the handshake is consumed and exactly two bytes are sent,
    whatever errors the stream can produce. *)
Theorem negotiate_method_sound {S} `{AsyncStreamLaws S} s s' :
  negotiate_method s = (Ok tt, s') →
  ∃ ms, incoming s = [VERSION; z2b (Z.of_nat (length ms))] ++ ms ++ incoming s'
    ∧ (length ms ≤ 255)%nat ∧ NO_AUTHENTICATION ∈ ms
    ∧ outgoing s' = outgoing s ++ [VERSION; NO_AUTHENTICATION].
Proof.
  unfold negotiate_method. unfold mbind at 1, StM_mbind at 1.
  destruct (read_exact 2 s) as [[h|] s1] eqn:E1; [|done].
  apply read_exact_inv in E1 as (Hl & Hi & Ho).
  destruct h as [|ver [|n [|]]]; try done. destruct (decide _) as [|Hv]; [done|].
  apply dec_stable in Hv as ->. cbv zeta. unfold mbind at 1, StM_mbind at 1.
  destruct (read_exact _ s1) as [[ms|] s2] eqn:E2; [|done].
  apply read_exact_inv in E2 as (Hl2 & Hi2 & Ho2). pose proof (b2z_range n).
  destruct (decide (NO_AUTHENTICATION ∈ ms)) as [Hin|].
  - intros [Hi3 Ho3]%write_all_ok. exists ms.
    rewrite Hl2, Z2Nat.id, z2b_b2z, Hi3, <-Hi2, <-Hi by lia.
    split_and!; [done|lia|done|by rewrite Ho3, Ho2, Ho].
  - unfold mbind, StM_mbind.
    by destruct (write_all [VERSION; NO_ACCEPTABLE_METHOD] s2) as [[]].
Qed.

Lemma negotiate_method_sound_witness :
  let s := mkMem [VERSION; Byte.x02; Byte.x02; Byte.x00; Byte.x61] [] 2 in
  let s' := mkMem [Byte.x61] [VERSION; NO_AUTHENTICATION] 0 in
  negotiate_method s = (Ok tt, s')
  ∧ ∃ ms, incoming s = [VERSION; z2b (Z.of_nat (length ms))] ++ ms ++ incoming s'
    ∧ (length ms ≤ 255)%nat ∧ NO_AUTHENTICATION ∈ ms
    ∧ outgoing s' = outgoing s ++ [VERSION; NO_AUTHENTICATION].
Proof.
  intros s s'. assert (negotiate_method s = (Ok tt, s')) as H by reflexivity.
  split; [exact H|]. exact (negotiate_method_sound s s' H).
Defined.

(** C20. The whole exchange of one client on a stream that accepts writes.
    CONNECT is answered once, after the tunnel stream is open or has failed:
    with success and then the relay, or with the reply code of the error, which
    is also returned. BIND is answered with "command not supported". A client
    that does not offer the no-authentication method gets 0xFF and nothing
    else of its input is acted on. *)
Theorem handle_connection_dialogue {S U} `{AsyncStreamLaws S} `{!ReliableWrites S}
    (open : Protocol.Address → io_result U) copy peer local bnd udp
    (s : S) ms rsv cmd a rest :
  (length ms ≤ 255)%nat → wire_ok a →
  incoming s = [VERSION; z2b (Z.of_nat (length ms))] ++ ms
               ++ [VERSION; cmd; rsv] ++ encode a [] ++ rest →
  let run := handle_connection open copy peer local bnd udp s in
  let sent l := outgoing s ++ [VERSION; NO_AUTHENTICATION] ++ l in
  (NO_AUTHENTICATION ∉ ms →
     ∃ e s', run = (Err e, s') ∧ kind e = PermissionDenied
             ∧ outgoing s' = outgoing s ++ [VERSION; NO_ACCEPTABLE_METHOD])
  ∧ (NO_AUTHENTICATION ∈ ms → cmd = CMD_CONNECT →
     match open (to_ombrac a) with
     | Err e =>
       ∃ s', run = (Err e, s')
             ∧ outgoing s' = sent (encode_reply (from_connect_error e) UNSPECIFIED)
     | Ok u =>
       ∃ s1, run = relay_stream copy u s1 ∧ incoming s1 = rest
             ∧ outgoing s1 = sent (encode_reply Succeeded UNSPECIFIED)
     end)
  ∧ (NO_AUTHENTICATION ∈ ms → cmd = CMD_BIND →
     ∃ s', run = (Ok tt, s')
           ∧ outgoing s' = sent (encode_reply CommandNotSupported UNSPECIFIED)).
Proof.
  intros Hl Ha E run sent. unfold run, handle_connection. split_and!.
  - intros Hn. destruct (negotiate_refused _ _ _ Hl E Hn) as (e & s' & Hr & Hk & Ho).
    exists e, s'. by rewrite (st_run_err _ _ _ _ Hr).
  - intros Hy ->. by apply (connect_dialogue open copy peer local bnd udp s ms rsv a rest).
  - intros Hy ->. destruct (negotiate_ok _ _ _ Hl E Hy) as (s1 & Hr & I1 & O1).
    rewrite (st_run_ok _ _ _ _ Hr).
    destruct (request_read_eq _ _ _ _ _ Ha I1) as (s2 & O2 & I2 & Hq).
    rewrite (st_run_ok _ _ _ _ Hq). unfold reply_failure.
    destruct (write_all_reliable_eq (encode_reply CommandNotSupported UNSPECIFIED) s2)
      as (s3 & Hw & I3 & O3).
    exists s3. split; [done|]. unfold sent. by rewrite O3, O2, O1, <-app_assoc.
Qed.

Lemma handle_connection_dialogue_witness :
  let refused := mkIoError ConnectionRefused "refused" in
  let a := Domain [Byte.x61] 80 in
  let s := mkPipe ([VERSION; Byte.x01] ++ [Byte.x00]
             ++ [VERSION; CMD_CONNECT; Byte.x00] ++ encode a [] ++ []) [] in
  ∃ s', handle_connection (U := unit) (λ _, Err refused) (λ _ s, (Ok (mkStats 0 0), s))
          (Err refused) (Err refused) (λ _, Err refused) (mret tt) s = (Err refused, s')
        ∧ outgoing s' = [] ++ [VERSION; NO_AUTHENTICATION]
                           ++ encode_reply ReplyConnectionRefused UNSPECIFIED.
Proof.
  intros refused a s.
  refine (proj1 (proj2 (handle_connection_dialogue (S := PipeStream) (U := unit)
    (λ _, Err refused) (λ _ s, (Ok (mkStats 0 0), s)) (Err refused) (Err refused)
    (λ _, Err refused) (mret tt) s [Byte.x00] Byte.x00 CMD_CONNECT a [] _ _ _)) _ _).
  - simpl. lia.
  - repeat split; simpl; lia.
  - reflexivity.
  - left.
  - reflexivity.
Defined.

(** *** The UDP relay *)

(** The source of the first datagram of a trace. *)
Fixpoint first_sender (evs : list RelayEvent) : option SocketAddr :=
  match evs with
  | [] => None
  | FromSocket (Ok (_, src)) _ :: _ => Some src
  | _ :: evs => first_sender evs
  end.

Lemma try_from_ok from a : try_from from = Ok a → to_ombrac a = from.
Proof.
  destruct from as [[]|[]|d p]; simpl; try (by intros [= <-]).
  destruct (Nat.ltb _ _); [done|]. by intros [= <-].
Qed.

(** Where an output of the relay comes from, [ca] being the client it knew. *)
Definition output_from (ca : option SocketAddr) (evs : list RelayEvent) (o : RelayOutput)
    : Prop :=
  match o with
  | ToSocket packet dest =>
    opt_or ca (first_sender evs) = Some dest
    ∧ ∃ d from sent a, FromTunnel d from sent ∈ evs ∧ try_from from = Ok a
        ∧ packet = encode_unfragmented a d
  | ToTunnel d addr =>
    ∃ b src sent a, FromSocket (Ok (b, src)) sent ∈ evs
      ∧ fst (udp_from_buf b) = Ok (mkUdp Byte.x00 a d) ∧ addr = to_ombrac a
  end.

Lemma relay_step_outputs ev evs ca ca' out nx o :
  relay_step ca ev = (ca', out, nx) → o ∈ out → output_from ca (ev :: evs) o.
Proof.
  unfold relay_step. destruct ev as [[]|d from sent|[[b src]|e] sent].
  1, 2, 5: intros [= <- <- <-]; by intros ?%elem_of_nil.
  - destruct ca as [dest|]; [|intros [= <- <- <-]; by intros ?%elem_of_nil].
    destruct (try_from from) as [a|] eqn:Ea;
      intros [= <- <- <-]; [|by intros ?%elem_of_nil].
    intros ->%list_elem_of_singleton. split; [done|].
    exists d, from, sent, a. split; [left|done].
  - destruct (fst (udp_from_buf b)) as [[f a d]|[|e]] eqn:Ep;
      try (intros [= <- <- <-]; by intros ?%elem_of_nil).
    cbn [frag address data]. destruct (decide (f ≠ Byte.x00)) as [|Hf];
      [intros [= <- <- <-]; by intros ?%elem_of_nil|].
    apply dec_stable in Hf as ->. intros [= <- <- <-].
    intros ->%list_elem_of_singleton. exists b, src, sent, a. split; [left|done].
Qed.

(** The client is the sender of the first datagram. *)
Lemma relay_step_client ev evs ca ca' out :
  relay_step ca ev = (ca', out, Loop) →
  opt_or ca' (first_sender evs) = opt_or ca (first_sender (ev :: evs)).
Proof.
  unfold relay_step. destruct ev as [[]|d from sent|[[b src]|e] sent]; try done.
  - by intros [= <- <-].
  - destruct ca; [destruct (try_from from)|]; by intros [= <- <-].
  - destruct (fst (udp_from_buf b)) as [p|[]]; [destruct (decide _)|..];
      intros [= <- <-]; by destruct ca.
Qed.

Lemma output_from_cons ev evs ca ca' out o :
  relay_step ca ev = (ca', out, Loop) → output_from ca' evs o → output_from ca (ev :: evs) o.
Proof.
  intros E%(relay_step_client _ evs). destruct o as [packet dest|d addr]; cbn -[first_sender].
  - rewrite E. intros [Hc (d & from & sent & a & Hin & H)]. split; [done|].
    exists d, from, sent, a. split; [by right|done].
  - intros (b & src & sent & a & Hin & H). exists b, src, sent, a. split; [by right|done].
Qed.

Lemma relay_loop_outputs evs ca o :
  o ∈ fst (udp_relay_loop ca evs) → output_from ca evs o.
Proof.
  revert ca. induction evs as [|ev evs IH]; intros ca; [by intros ?%elem_of_nil|].
  cbn [udp_relay_loop]. destruct (relay_step ca ev) as [[ca' out] [|r]] eqn:E;
    [|by apply (relay_step_outputs ev evs _ _ _ _ _ E)].
  specialize (IH ca'). destruct (udp_relay_loop ca' evs) as [outs r].
  intros [Ho|Ho]%elem_of_app; [by apply (relay_step_outputs ev evs _ _ _ _ _ E)|].
  by apply (output_from_cons _ _ _ _ _ _ E), IH.
Qed.

(** Everything the UDP relay sends comes from what it received: a
    datagram to the SOCKS side goes only to the sender of the first datagram of
    the association, and parses to the payload and source address of a packet
    from the tunnel; a packet into the tunnel is the payload and address of an
    unfragmented datagram from the socket. *)
Theorem udp_relay_sound evs o :
  o ∈ fst (udp_relay_loop None evs) →
  match o with
  | ToSocket packet dest =>
    first_sender evs = Some dest
    ∧ ∃ d from sent a, FromTunnel d from sent ∈ evs ∧ to_ombrac a = from
        ∧ packet = encode_unfragmented a d
        ∧ (wire_ok a → fst (udp_from_buf packet) = Ok (mkUdp Byte.x00 a d))
  | ToTunnel d addr =>
    ∃ b src sent a, FromSocket (Ok (b, src)) sent ∈ evs
      ∧ fst (udp_from_buf b) = Ok (mkUdp Byte.x00 a d) ∧ addr = to_ombrac a
  end.
Proof.
  intros Ho. pose proof (relay_loop_outputs _ _ _ Ho) as H.
  destruct o as [packet dest|d addr]; [|done].
  destruct H as [Hf (d & from & sent & a & Hin & Ht & ->)]. split; [done|].
  exists d, from, sent, a. split; [done|]. split; [by apply try_from_ok|].
  split; [done|]. intros Ha. by apply udp_from_buf_encode.
Qed.

Lemma udp_relay_sound_witness :
  let src := SockV4 (mkSA4 v4_unspecified 9) in
  let a := Domain [Byte.x61] 53 in
  let evs := [FromSocket (Ok (encode_unfragmented a [Byte.x01], src)) (Ok tt);
              FromTunnel [Byte.x02] (Protocol.Domain [Byte.x61] 53) (Ok tt)] in
  ToSocket (encode_unfragmented a [Byte.x02]) src ∈ fst (udp_relay_loop None evs)
  ∧ first_sender evs = Some src.
Proof.
  intros src a evs.
  assert (ToSocket (encode_unfragmented a [Byte.x02]) src
          ∈ fst (udp_relay_loop None evs)) as H by (right; left).
  split; [exact H|]. exact (proj1 (udp_relay_sound evs _ H)).
Defined.

(** One datagram that does not parse, from any sender, ends the whole
    association with [InvalidData], unlike a fragmented one, which is dropped. *)
Theorem udp_relay_malformed_ends ca b src sent evs :
  (match fst (udp_from_buf b) with
   | Err _ => ∃ e, kind e = InvalidData
       ∧ udp_relay_loop ca (FromSocket (Ok (b, src)) sent :: evs) = ([], Some (Err e))
   | Ok p => frag p ≠ Byte.x00 →
       udp_relay_loop ca (FromSocket (Ok (b, src)) sent :: evs)
       = udp_relay_loop (opt_or ca (Some src)) evs
   end).
Proof.
  cbn [udp_relay_loop relay_step].
  pose proof (udp_from_buf_err b) as Hb.
  destruct (fst (udp_from_buf b)) as [p|[|e]]; [|done|].
  - intros Hf. rewrite decide_True by done.
    by destruct (udp_relay_loop (opt_or ca (Some src)) evs).
  - by exists e.
Qed.
