(* ===== verification/HttpProxy.v ===== *)
(** The HTTP proxy endpoint (crates/ombrac-client/src/endpoint/http.rs): where a
    request is sent and with which status it is answered. The HTTP protocol
    itself is the [hyper] crate. *)

From S2P Require Import Prelude Std Parse Protocol.

#[local] Open Scope Z_scope.

(** What the code reads of a request: whether the method is CONNECT, and the
    host, port and scheme of the URI. *)
Record Request := mkRequest {
  is_connect : bool;
  uri_host : option Bytes;
  uri_port : option Z;
  uri_scheme : option Bytes
}.

(** The statuses the proxy makes up itself. *)
Inductive StatusCode := BAD_REQUEST | SERVICE_UNAVAILABLE | OK.

(** [extract_target_address]. *)
Definition extract_target_address (req : Request) : Result StatusCode Address :=
  match uri_host req with
  | None => Err BAD_REQUEST
  | Some host =>
    let port := default (if decide (uri_scheme req = Some (bytes_of "https")) then 443 else 80)
                  (uri_port req) in
    let addr_str := host ++ bytes_of ":" ++ display_u16 port in
    match address_try_from addr_str with
    | Ok addr => Ok addr
    | Err _ => Err BAD_REQUEST
    end
  end.

(** What becomes of a request: a response of the proxy's own, a tunnel between
    the upgraded connection and the stream, or the request sent on over it. *)
Inductive HttpOutcome (U : Type) :=
  | Responded (status : StatusCode)
  | Tunnelled (outbound : U)
  | Forwarded (outbound : U).
Arguments Responded {U} status.
Arguments Tunnelled {U} outbound.
Arguments Forwarded {U} outbound.

(** [proxy_handler]; also the address that was opened, if one was. The response
    to a CONNECT is an empty one with status 200. *)
Definition proxy_handler {U} (open : Address → io_result U) (req : Request)
    : HttpOutcome U * option Address :=
  match extract_target_address req with
  | Err status => (Responded status, None)
  | Ok target_addr =>
    match open target_addr with
    | Err _ => (Responded SERVICE_UNAVAILABLE, Some target_addr)
    | Ok outbound_conn =>
      (if is_connect req then Tunnelled outbound_conn else Forwarded outbound_conn,
       Some target_addr)
    end
  end.

(** ** The two handlers *)

(** A response: one of the proxy's own, or what came from the destination. *)
Inductive Response (R : Type) := Own (status : StatusCode) | Upstream (r : R).
Arguments Own {R} status.
Arguments Upstream {R} r.

Section handlers.
Context {U HyperError IO Sender R : Type}.
(** Of [hyper]: the upgrade of the connection of a request, the handshake of a
    client connection over a stream, and a request sent over that; and the copy of
    TransportIo.v between an upgraded connection and a stream. *)
Context (upgrade : Request → Result HyperError IO).
Context (handshake : U → Result HyperError Sender).
Context (send_request : Sender → Request → Result HyperError R).

(** [handle_connect]: the answer is given before the upgrade; the task it spawns
    joins the two connections, if there is an upgrade. *)
Definition handle_connect (req : Request) (dest_stream : U) : Response R * option (IO * U) :=
  (Own OK, match upgrade req with
           | Ok upgraded => Some (upgraded, dest_stream)
           | Err _ => None
           end).

(** [handle_http]. *)
Definition handle_http (req : Request) (outbound_conn : U) : Result HyperError (Response R) :=
  sender ← handshake outbound_conn;
  resp ← send_request sender req;
  Ok (Upstream resp).

(** [proxy_handler] with them: the answer, and the connections joined by a task;
    an error of [hyper] ends the client's connection. *)
Definition serve_request (open : Address → io_result U) (req : Request)
    : Result HyperError (Response R) * option (IO * U) :=
  match fst (proxy_handler open req) with
  | Responded status => (Ok (Own status), None)
  | Tunnelled outbound_conn => prod_map Ok id (handle_connect req outbound_conn)
  | Forwarded outbound_conn => (handle_http req outbound_conn, None)
  end.
End handlers.

(** ** Properties *)

(** Nothing is opened for a request without a host, or one that does not name a
    host and port; otherwise exactly one tunnel stream is opened, a failure is
    reported as 503, and the rest depends on the method alone. *)
Lemma proxy_handler_spec {U} (open : Address → io_result U) req :
  match proxy_handler open req with
  | (Responded BAD_REQUEST, a) => a = None ∧ is_ok (extract_target_address req) = false
  | (Responded SERVICE_UNAVAILABLE, a) =>
    ∃ t e, a = Some t ∧ extract_target_address req = Ok t ∧ open t = Err e
  | (Responded OK, _) => False
  | (Tunnelled u, a) =>
    is_connect req = true ∧ ∃ t, a = Some t ∧ extract_target_address req = Ok t ∧ open t = Ok u
  | (Forwarded u, a) =>
    is_connect req = false ∧ ∃ t, a = Some t ∧ extract_target_address req = Ok t ∧ open t = Ok u
  end.
Proof.
  unfold proxy_handler. destruct (extract_target_address req) as [t|s] eqn:E.
  - destruct (open t) as [u|e] eqn:Eo; [destruct (is_connect req)|]; eauto 10.
  - unfold extract_target_address in E. destruct (uri_host req); [|by injection E as <-].
    cbv zeta in E. destruct (address_try_from _); [done|by injection E as <-].
Qed.

(** A host name goes to the tunnel as it is, with the port of the URI, or 443
    for https and 80 for everything else. *)
Lemma extract_target_domain req host :
  uri_host req = Some host → (1 ≤ length host ≤ 255)%nat →
  (∀ p, uri_port req = Some p → in_width 16 p) →
  let port := default (if decide (uri_scheme req = Some (bytes_of "https")) then 443 else 80)
                (uri_port req) in
  parse_socket_addr (host ++ z2b 58 :: display_u16 port) = None →
  extract_target_address req = Ok (Domain host port).
Proof.
  intros Eh Hl Hp port Hn. unfold extract_target_address. rewrite Eh. fold port.
  cbv zeta. change (bytes_of ":") with [z2b 58]. cbn [app].
  rewrite (address_try_from_domain host port); [done|done| |done].
  unfold port. destruct (uri_port req) as [p|]; [by apply Hp|].
  cbn. destruct (decide _); width_lia.
Qed.

(** An IPv6 literal keeps its brackets in a URI, and is then read as an address. *)
Example extract_target_v6 :
  extract_target_address (mkRequest true (Some (bytes_of "[::1]")) (Some 443) None)
  = Ok (SocketV6 (mkSA6 (mkIpv6 (vreplicate 15 Byte.x00 +++ [#Byte.x01])) 443 0 0)).
Proof. vm_compute. reflexivity. Qed.

(** A request is answered by what its stream allows: 200 exactly when it is a
    CONNECT whose stream is open, and then nothing is joined but the upgraded
    connection and that stream; what the destination answers only when its stream
    is open; an error of [hyper] never without a stream. *)
Lemma serve_request_spec {U HE IO S R} upgrade handshake send_request
    (open : Address → io_result U) req :
  let '(r, joined) := serve_request (HyperError := HE) (IO := IO) (Sender := S) (R := R)
                        upgrade handshake send_request open req in
  (r = Ok (Own OK) ↔ is_connect req = true
     ∧ ∃ t u, extract_target_address req = Ok t ∧ open t = Ok u)
  ∧ (∀ i u, joined = Some (i, u) → r = Ok (Own OK) ∧ upgrade req = Ok i
       ∧ ∃ t, extract_target_address req = Ok t ∧ open t = Ok u)
  ∧ (∀ x, r = Ok (Upstream x) ∨ (∃ e, r = Err e) → is_connect req = false
       ∧ ∃ t u, extract_target_address req = Ok t ∧ open t = Ok u).
Proof.
  unfold serve_request. pose proof (proxy_handler_spec open req) as H. revert H.
  destruct (proxy_handler open req) as [[[]|u|u] a]; cbn.
  - intros [_ E]. assert (∀ t, extract_target_address req ≠ Ok t) as Hn.
    { intros t Ht. by rewrite Ht in E. }
    split_and!; naive_solver.
  - intros (t & e & _ & E1 & E2). assert (∀ t' u, extract_target_address req = Ok t' →
      open t' ≠ Ok u) as Hn by (intros; congruence).
    split_and!; naive_solver.
  - done.
  - intros (Ec & t & _ & E1 & E2). split_and!; [naive_solver| |naive_solver].
    intros i u'. destruct (upgrade req) eqn:Eu; [|done]. naive_solver.
  - intros (Ec & t & _ & E1 & E2). split_and!.
    + unfold handle_http. destruct (handshake u); cbn; [destruct (send_request _ _)|]; cbn;
        rewrite Ec; naive_solver.
    + done.
    + intros _ _. eauto.
Qed.
