(* ===== verification/ClientStream.v ===== *)
(** The stream handed to the application
    (crates/ombrac-client/src/connection/stream.rs): what the framing had
    buffered is read before the stream itself. *)

From S2P Require Import Prelude Std Stream.

Record BufferedStream (S : Type) := mkBuffered
  { stream : S; buffer : Bytes; buffer_pos : nat }.
Arguments mkBuffered {S} stream buffer buffer_pos.
Arguments stream {S} b.
Arguments buffer {S} b.
Arguments buffer_pos {S} b.

(** [BufferedStream::new], [without_buffer]. *)
Definition buffered_new {S} (s : S) (buf : Bytes) : BufferedStream S :=
  mkBuffered s buf 0.
Definition without_buffer {S} (s : S) : BufferedStream S := buffered_new s [].

(** [poll_read]. *)
Definition buffered_poll_read {S} `{PollRead S} (n : nat) (self : BufferedStream S)
    : Poll (io_result Bytes) * BufferedStream S :=
  if Nat.ltb (buffer_pos self) (length (buffer self)) then
    let remaining := drop (buffer_pos self) (buffer self) in
    let to_copy := Nat.min (length remaining) n in
    let buffer_pos' := (buffer_pos self + to_copy)%nat in
    (Ready (Ok (take to_copy remaining)),
     if Nat.leb (length (buffer self)) buffer_pos'
     then mkBuffered (stream self) [] 0
     else mkBuffered (stream self) (buffer self) buffer_pos')
  else
    let '(r, s') := poll_read n (stream self) in
    (r, mkBuffered s' (buffer self) (buffer_pos self)).

(** What a reader of the wrapper will get. *)
Definition buffered_readable {S} `{PollRead S} (self : BufferedStream S) : Bytes :=
  drop (buffer_pos self) (buffer self) ++ readable (stream self).

(** The wrapper is a reader itself. *)
#[export] Instance buffered_poll_read_inst S `{PollRead S} :
  PollRead (BufferedStream S) :=
  {| poll_read := buffered_poll_read; readable := buffered_readable |}.

Lemma buffered_new_readable {S} `{PollRead S} (s : S) buf :
  readable (buffered_new s buf) = buf ++ readable s.
Proof. done. Qed.

Lemma buffered_poll_read_ready {S} `{PollReadLaws S} n (self : BufferedStream S) b self' :
  poll_read n self = (Ready (Ok b), self') →
  (length b ≤ n)%nat ∧ readable self = b ++ readable self'
  ∧ (b = [] → (0 < n)%nat → readable self = []).
Proof.
  destruct self as [s buf pos].
  cbn [poll_read readable buffered_poll_read_inst]. unfold buffered_poll_read,
    buffered_readable. cbn [stream buffer buffer_pos].
  destruct (Nat.ltb_spec pos (length buf)) as [Hp|Hp].
  - intros [= <- <-].
    set (rem := drop pos buf). set (k := Nat.min (length rem) n).
    assert (length rem = length buf - pos)%nat as Hr by apply length_drop.
    assert (take k rem ++
      drop (buffer_pos (if Nat.leb (length buf) (pos + k) then mkBuffered s [] 0
              else mkBuffered s buf (pos + k)))
        (buffer (if Nat.leb (length buf) (pos + k) then mkBuffered s [] 0
              else mkBuffered s buf (pos + k))) = rem) as Hsplit.
    { destruct (Nat.leb_spec (length buf) (pos + k)); cbn [buffer buffer_pos].
      - simpl. rewrite app_nil_r. apply take_ge. lia.
      - rewrite <-drop_drop. apply take_drop. }
    split_and!.
    + list_lia.
    + rewrite <-Hsplit at 1. rewrite <-app_assoc. do 2 f_equal.
      by destruct (Nat.leb _ _).
    + intros E Hn. apply (f_equal length) in E. rewrite length_take in E.
      simpl in E. lia.
  - destruct (poll_read n s) as [r s'] eqn:E. intros [= -> <-].
    cbn [stream buffer buffer_pos].
    destruct (poll_read_ready _ _ _ _ E) as (H1 & H2 & H3).
    rewrite (drop_ge buf) by done. done.
Qed.

Lemma buffered_poll_read_other {S} `{PollReadLaws S} n (self : BufferedStream S) r self' :
  poll_read n self = (r, self') → (∀ b, r ≠ Ready (Ok b)) →
  readable self' = readable self.
Proof.
  destruct self as [s buf pos].
  cbn [poll_read readable buffered_poll_read_inst]. unfold buffered_poll_read,
    buffered_readable. cbn [stream buffer buffer_pos].
  destruct (Nat.ltb pos (length buf)).
  - intros [= <- <-] Hr. by destruct (Hr (take (length (drop pos buf) `min` n)
      (drop pos buf))).
  - destruct (poll_read n s) as [r' s'] eqn:E. intros [= -> <-] Hr.
    cbn [stream buffer buffer_pos]. by rewrite (poll_read_other _ _ _ _ E Hr).
Qed.

(** A reader over a lawful reader is lawful: clients of the wrapper are proved
    against [PollReadLaws] alone. *)
#[export] Instance buffered_poll_read_laws S `{PollReadLaws S} :
  PollReadLaws (BufferedStream S).
Proof. split; [apply buffered_poll_read_ready|apply buffered_poll_read_other]. Qed.

(** [poll_write], [poll_flush] and [poll_shutdown] pass through to the stream. *)
Definition on_stream {S A} (r : A * S) (self : BufferedStream S) : A * BufferedStream S :=
  (fst r, mkBuffered (snd r) (buffer self) (buffer_pos self)).

Definition buffered_poll_write {S} `{PollWrite S} (b : Bytes) (self : BufferedStream S)
    : Poll (io_result nat) * BufferedStream S :=
  on_stream (poll_write b (stream self)) self.
Definition buffered_poll_flush {S} `{PollWrite S} (self : BufferedStream S)
    : Poll (io_result unit) * BufferedStream S :=
  on_stream (poll_flush (stream self)) self.
Definition buffered_poll_shutdown {S} `{PollWrite S} (self : BufferedStream S)
    : Poll (io_result unit) * BufferedStream S :=
  on_stream (poll_shutdown (stream self)) self.

#[export] Instance buffered_poll_write_inst S `{PollWrite S} :
  PollWrite (BufferedStream S) :=
  {| poll_write := buffered_poll_write; poll_flush := buffered_poll_flush;
     poll_shutdown := buffered_poll_shutdown; written self := written (stream self) |}.

#[export] Instance buffered_poll_write_laws S `{PollWriteLaws S} :
  PollWriteLaws (BufferedStream S).
Proof.
  split; cbn [poll_write poll_flush poll_shutdown written buffered_poll_write_inst].
  - intros b [s buf pos] n self'. unfold buffered_poll_write, on_stream. cbn [stream].
    destruct (poll_write b s) as [r s'] eqn:E. intros [= -> <-].
    by apply (poll_write_ready _ _ _ _ E).
  - intros b [s buf pos] r self'. unfold buffered_poll_write, on_stream. cbn [stream].
    destruct (poll_write b s) as [r' s'] eqn:E. intros [= -> <-].
    by apply (poll_write_other _ _ _ _ E).
  - intros self. apply poll_flush_written.
  - intros self. apply poll_shutdown_written.
Qed.

#[export] Instance buffered_duplex_laws S `{PollRead S} `{PollWrite S} `{!DuplexLaws S} :
  DuplexLaws (BufferedStream S).
Proof.
  split; cbn [poll_read poll_write poll_flush poll_shutdown written readable
    buffered_poll_read_inst buffered_poll_write_inst];
    unfold buffered_poll_write, buffered_poll_flush, buffered_poll_shutdown, on_stream,
      buffered_readable; cbn [fst snd stream buffer buffer_pos].
  - intros n [s buf pos]. unfold buffered_poll_read. cbn [stream buffer buffer_pos].
    destruct (Nat.ltb pos (length buf)).
    + cbn [snd]. by destruct (Nat.leb _ _).
    + pose proof (poll_read_written n s) as Hw. by destruct (poll_read n s).
  - intros b self. by rewrite poll_write_readable.
  - intros self. by rewrite poll_flush_readable.
  - intros self. by rewrite poll_shutdown_readable.
Qed.

(** A sequence of reads, with the room each call has: the bytes read. *)
Fixpoint read_many {S} `{PollRead S} (ns : list nat) (s : S) : Bytes * S :=
  match ns with
  | [] => ([], s)
  | n :: ns =>
    let '(r, s1) := poll_read n s in
    let '(bs, s2) := read_many ns s1 in
    (match r with Ready (Ok b) => b ++ bs | _ => bs end, s2)
  end.

Lemma read_many_readable {S} `{PollReadLaws S} ns (s : S) :
  readable s = fst (read_many ns s) ++ readable (snd (read_many ns s)).
Proof.
  revert s. induction ns as [|n ns IH]; intros s; [done|]. cbn [read_many].
  destruct (poll_read n s) as [r s1] eqn:E. specialize (IH s1).
  destruct (read_many ns s1) as [bs s2]. cbn [fst snd] in *.
  destruct r as [[b|e]|].
  - destruct (poll_read_ready _ _ _ _ E) as (_ & -> & _).
    by rewrite <-app_assoc, <-IH.
  - by rewrite <-(poll_read_other _ _ _ _ E) by done.
  - by rewrite <-(poll_read_other _ _ _ _ E) by done.
Qed.

(** A reader in memory that delivers at most [chunk] bytes at a time and is
    pending before its [n]th read, for the witnesses. *)
Record ChunkReader := mkChunk { chunk_data : Bytes; chunk_max : nat }.

#[export] Instance chunk_poll_read : PollRead ChunkReader := {
  poll_read n s :=
    match chunk_max s with
    | O => (Pending, mkChunk (chunk_data s) 1)
    | _ => let k := Nat.min n (chunk_max s) in
           (Ready (Ok (take k (chunk_data s))), mkChunk (drop k (chunk_data s)) (chunk_max s))
    end;
  readable := chunk_data
}.

#[export] Instance chunk_poll_read_laws : PollReadLaws ChunkReader.
Proof.
  split; cbn [poll_read readable chunk_poll_read].
  - intros n [d m] b s'. cbn [chunk_data chunk_max]. destruct m as [|m]; [done|].
    intros [= <- <-]. cbn [chunk_data]. rewrite take_drop. split_and!; [|done|].
    + list_lia.
    + intros E Hn. apply (f_equal length) in E. rewrite length_take in E.
      simpl in E. destruct d; [done|]. simpl in E. lia.
  - intros n [d m] r s'. cbn [chunk_data chunk_max]. destruct m as [|m].
    + by intros [= <- <-].
    + intros [= <- <-] Hr. by destruct (Hr (take (n `min` S m) d)).
Qed.

(** ** Properties *)

(** However a reader sizes its reads, and wherever the stream is pending
    or fails in between, what it gets is the buffered bytes followed by the
    stream's bytes: a prefix of that sequence, the remainder still readable;
    and an empty read with room left only comes at its end. *)
Theorem buffered_stream_lossless {S} `{PollReadLaws S} (s : S) buf ns :
  let st := read_many ns (buffered_new s buf) in
  buf ++ readable s = fst st ++ readable (snd st)
  ∧ ∀ n b self, (0 < n)%nat →
      poll_read n (snd st) = (Ready (Ok b), self) → b = [] →
      fst st = buf ++ readable s.
Proof.
  intros st.
  pose proof (read_many_readable ns (buffered_new s buf)) as Hm. fold st in Hm.
  rewrite buffered_new_readable in Hm. split; [done|].
  intros n b self Hn E Hb. destruct (poll_read_ready _ _ _ _ E) as (_ & _ & He).
  by rewrite Hm, (He Hb Hn), app_nil_r.
Qed.

Lemma buffered_stream_lossless_witness :
  let s := mkChunk [Byte.x03; Byte.x04] 0 in
  let st := read_many [1; 5; 5; 5]%nat (buffered_new s [Byte.x01; Byte.x02]) in
  fst st = [Byte.x01; Byte.x02; Byte.x03]
  ∧ [Byte.x01; Byte.x02] ++ readable s = fst st ++ readable (snd st).
Proof.
  intros s st. split; [reflexivity|].
  exact (proj1 (buffered_stream_lossless (S := ChunkReader) s [Byte.x01; Byte.x02]
                  [1; 5; 5; 5]%nat)).
Defined.
