(* ===== verification/ClientConnection.v ===== *)
(** The client's connection to the server
    (crates/ombrac-client/src/connection/mod.rs): authentication, opening
    tunnel streams, retry and reconnection. *)

From S2P Require Import Prelude Std Stream Protocol Metrics ClientStream.

#[local] Open Scope Z_scope.

(** Durations and instants are nanoseconds. *)
Definition secs (n : Z) : Z := n * 10 ^ 9.
(** [Duration::as_secs]. *)
Definition as_secs (d : Z) : Z := d / 10 ^ 9.

Definition AUTH_TIMEOUT : Z := secs 10.
Definition INITIAL_RECONNECT_BACKOFF : Z := secs 1.
Definition MAX_RECONNECT_BACKOFF : Z := secs 60.

(** [is_connection_error]. *)
Definition is_connection_error (e : IoError) : bool :=
  match kind e with
  | ConnectionReset | ConnectionAborted | BrokenPipe | NotConnected | TimedOut
  | UnexpectedEof | NetworkUnreachable | NetworkDown => true
  | _ => false
  end.

(** [next_backoff]. The jittered duration is a product of [f64]s: [scale d n]
    is [d * (0.8 + n / 10^9 * 0.4)] as the floating-point unit rounds it, for
    [n] the sub-second nanoseconds of the clock. *)
Definition next_backoff (scale : Z → Z → Z) (nanos current : Z) : Z :=
  let doubled := Z.min (current * 2) MAX_RECONNECT_BACKOFF in
  let jittered := scale doubled nanos in
  Z.min jittered MAX_RECONNECT_BACKOFF.

(** ** Authentication *)

Section authenticate.
Context {C S F : Type} `{Framed S F} `{!Bincode ClientMessage}
  `{!Bincode ServerAuthResponse}.

(** [do_auth], with the outcome of each call on the transport. *)
Definition do_auth (connect : io_result C) (open : C → io_result S)
    (shutdown : S → io_result unit) (secret : Secret) (options : Bytes)
    : io_result C :=
  connection ← connect;
  stream ← open connection;
  encoded_bytes ← encode (MsgHello (mkHello PROTOCOL_VERSION secret options));
  let framed : F := framed_new stream in
  match framed_send encoded_bytes framed with
  | (Err e, _) => Err e
  | (Ok _, framed) =>
    match framed_next framed with
    | (Some (Ok payload), framed) =>
      response ← decode payload;
      match response with
      | AuthOk => _ ← shutdown (framed_inner framed); Ok connection
      | AuthErr => Err (io_other "authentication failed")
      end
    | (Some (Err e), _) => Err e
    | (None, _) =>
      Err (mkIoError UnexpectedEof
             "connection closed by server during authentication")
    end
  end.

(** [authenticate]: [elapsed] is the time [do_auth] takes, [None] when it
    never finishes. *)
Definition authenticate (elapsed : option Z) (connect : io_result C)
    (open : C → io_result S) (shutdown : S → io_result unit)
    (secret : Secret) (options : Bytes) : io_result C :=
  match elapsed with
  | Some t =>
    if t <=? AUTH_TIMEOUT then do_auth connect open shutdown secret options
    else Err (mkIoError TimedOut "client authentication timed out after ")
  | None => Err (mkIoError TimedOut "client authentication timed out after ")
  end.
End authenticate.

(** ** Opening a stream *)

(** The [io::ErrorKind] of a refused connect. *)
Definition error_kind_of (kind : ConnectErrorKind) : ErrorKind :=
  match kind with
  | CekConnectionRefused => ConnectionRefused
  | CekNetworkUnreachable => NetworkUnreachable
  | CekHostUnreachable => HostUnreachable
  | CekTimedOut => TimedOut
  | CekOther => OtherKind
  end.

Section open.
Context {S F : Type} `{Framed S F} `{!Bincode ClientMessage}
  `{!Bincode ServerMessage}.

(** [open_bidirectional] after [with_retry] gave it a stream; the counters
    are threaded. *)
Definition negotiate_stream (stream : S) (dest_addr : Address) (m : Counters)
    : io_result (BufferedStream S) * Counters :=
  let framed : F := framed_new stream in
  match encode (MsgConnect (mkConnect dest_addr)) with
  | Err e => (Err e, m)
  | Ok request =>
    match framed_send request framed with
    | (Err e, _) => (Err e, m)
    | (Ok _, framed) =>
      match framed_next framed with
      | (None, _) =>
        (Err (mkIoError UnexpectedEof
                "stream closed before receiving server response"), m)
      | (Some (Err _), _) =>
        (Err (mkIoError InvalidData "failed to read server response: "), m)
      | (Some (Ok payload), framed) =>
        match decode payload with
        | Err e => (Err e, m)
        | Ok (MsgConnectResponse response) =>
          if decide (write_buf framed ≠ []) then
            (Err (io_other "write buffer not empty after send: "), m)
          else
            match response with
            | ConnectOk =>
              (Ok (buffered_new (framed_inner framed) (read_buf framed)),
               fetch_add StreamsOpened 1 m)
            | ConnectErr kind message =>
              (Err (mkIoError (error_kind_of kind) message),
               fetch_add StreamsFailed 1 m)
            end
        end
      end
    end
  end.

(** [open_bidirectional]: [opened] is what [with_retry] returns. *)
Definition open_bidirectional (opened : io_result S) (dest_addr : Address)
    (m : Counters) : io_result (BufferedStream S) * Counters :=
  match opened with
  | Ok stream => negotiate_stream stream dest_addr m
  | Err e => (Err e, m)
  end.
End open.

(** ** Retry and reconnection *)

(** Tasks call [with_retry] concurrently on one [ClientConnection]. A task runs
    without interference between two accesses to shared state, so its accesses
    are the steps; what it waits for (the operation, the lock, the transport)
    is the input of the step. [C] is a connection and [R] the operation's
    result. *)

Section retry.
Context {C R : Type}.
Context (scale : Z → Z → Z).

(** The shared fields. [reconnect_lock] is a mutex: [locked], and the
    [ReconnectState] inside it. [replaced] records the [old_conn_id] of each
    reconnection that succeeded. *)
Record Shared := mkShared {
  connection : C;
  connection_id : Z;
  locked : bool;
  last_attempt : option Z;
  backoff : Z;
  metrics : Counters;
  replaced : list Z
}.

(** [ClientConnection::new], once the first authentication succeeded. *)
Definition shared_new (conn : C) : Shared :=
  mkShared conn 0 false None INITIAL_RECONNECT_BACKOFF metrics_new [].

(** Where a call of [with_retry] stands; [Cancelled] when its caller has dropped it. *)
Inductive Pc :=
  | LoadConnection
  | LoadId (c : C)
  | Operation (c : C) (old_conn_id : Z)
  | Locking (old_conn_id : Z)
  | Rebinding (old_conn_id : Z)
  | Authenticating (old_conn_id : Z)
  | Publishing (old_conn_id : Z)
  | Throttled (backoff_secs : Z)
  | Reload
  | Retrying (c : C)
  | Finished (r : io_result R)
  | Cancelled.

(** [Cancel] is the caller dropping the future: before its first poll, or at an
    await. *)
Inductive Input :=
  | Cancel
  | Tick
  | OpResult (r : io_result R)
  | LockAt (now : Z)
  | RebindResult (r : io_result unit) (nanos : Z)
  | AuthResult (r : io_result C) (nanos : Z).

Definition throttled_error : IoError := io_other "reconnect throttled".

(** Drops the lock's guard after a failed attempt, with the longer backoff. *)
Definition release_failed (nanos : Z) (s : Shared) : Shared :=
  mkShared (connection s) (connection_id s) false (last_attempt s)
    (next_backoff scale nanos (backoff s)) (metrics s) (replaced s).

(** Drops the lock's guard with a future that is dropped in mid-attempt: nothing of
    the state is put back. *)
Definition release_cancelled (s : Shared) : Shared :=
  mkShared (connection s) (connection_id s) false (last_attempt s) (backoff s) (metrics s)
    (replaced s).

(** [reconnect] from the acquisition of the lock to its first await: the
    state after it, and whether the caller goes on. *)
Definition enter_reconnect (old_conn_id now : Z) (s : Shared) : Shared * Pc :=
  if negb (connection_id s =? old_conn_id) then (s, Reload) else
  let attempt :=
    (mkShared (connection s) (connection_id s) true (Some now) (backoff s)
       (fetch_add ReconnectAttempts 1 (metrics s)) (replaced s),
     Rebinding old_conn_id) in
  match last_attempt s with
  | Some last =>
    let elapsed := Z.max 0 (now - last) in
    if elapsed <? backoff s then (s, Throttled (as_secs (backoff s))) else attempt
  | None => attempt
  end.

(** One step of [with_retry] and [reconnect]; [None] when the input does not
    fit the state. *)
Definition retry_step (s : Shared) (pc : Pc) (i : Input) : option (Shared * Pc) :=
  match pc, i with
  | LoadConnection, Tick => Some (s, LoadId (connection s))
  | LoadId c, Tick => Some (s, Operation c (connection_id s))
  | Operation _ old_conn_id, OpResult r =>
    match r with
    | Ok _ => Some (s, Finished r)
    | Err e => if is_connection_error e then Some (s, Locking old_conn_id)
               else Some (s, Finished r)
    end
  | Locking old_conn_id, LockAt now =>
    if locked s then None else Some (enter_reconnect old_conn_id now s)
  | Rebinding old_conn_id, RebindResult r nanos =>
    match r with
    | Err e => Some (release_failed nanos s, Finished (Err e))
    | Ok _ => Some (s, Authenticating old_conn_id)
    end
  | Authenticating old_conn_id, AuthResult r nanos =>
    match r with
    | Ok new_connection =>
      Some (mkShared new_connection (connection_id s) true None
              INITIAL_RECONNECT_BACKOFF (metrics s) (replaced s),
            Publishing old_conn_id)
    | Err e => Some (release_failed nanos s, Finished (Err e))
    end
  | Publishing old_conn_id, Tick =>
    Some (mkShared (connection s) (as_u64 (connection_id s + 1)) false
            (last_attempt s) (backoff s)
            (fetch_add ReconnectSucceeded 1 (metrics s))
            (replaced s ++ [old_conn_id]),
          Reload)
  | Throttled _, Tick => Some (s, Finished (Err throttled_error))
  | Reload, Tick => Some (s, Retrying (connection s))
  | Retrying _, OpResult r => Some (s, Finished r)
  | Rebinding _, Cancel | Authenticating _, Cancel => Some (release_cancelled s, Cancelled)
  | LoadConnection, Cancel | Operation _ _, Cancel | Locking _, Cancel | Throttled _, Cancel
  | Retrying _, Cancel => Some (s, Cancelled)
  | _, _ => None
  end.

(** The system: the shared state and one entry per call of [with_retry]. *)
Definition System : Type := Shared * list Pc.

Definition system_step (sys : System) (t : nat) (i : Input) : option System :=
  pc ← snd sys !! t;
  match retry_step (fst sys) pc i with
  | Some (s', pc') => Some (s', <[t := pc']> (snd sys))
  | None => None
  end.

Fixpoint system_run (sys : System) (inputs : list (nat * Input)) : option System :=
  match inputs with
  | [] => Some sys
  | (t, i) :: inputs => sys' ← system_step sys t i; system_run sys' inputs
  end.
End retry.
Arguments Shared C : clear implicits.
Arguments Pc C R : clear implicits.
Arguments Input C R : clear implicits.
Arguments System C R : clear implicits.

(** ** Invariant of the system *)

Section invariant.
Context {C R : Type} (scale : Z → Z → Z).

(** The product and its rounding stay within a nanosecond of the exact
    factor, which lies between 0.8 and 1.2. *)
Definition scale_ok : Prop := ∀ d n,
  0 ≤ d ≤ MAX_RECONNECT_BACKOFF → 0 ≤ n < 10 ^ 9 →
  8 * d - 10 ≤ 10 * scale d n ≤ 12 * d + 10.

Context (Hscale : scale_ok).

Lemma next_backoff_range n b :
  0 ≤ n < 10 ^ 9 → INITIAL_RECONNECT_BACKOFF ≤ b ≤ MAX_RECONNECT_BACKOFF →
  INITIAL_RECONNECT_BACKOFF ≤ next_backoff scale n b ≤ MAX_RECONNECT_BACKOFF
  ∧ Z.min (16 * b - 10) (8 * MAX_RECONNECT_BACKOFF - 10)
    ≤ 10 * next_backoff scale n b.
Proof.
  unfold next_backoff, INITIAL_RECONNECT_BACKOFF, MAX_RECONNECT_BACKOFF, secs in *.
  intros Hn Hb. specialize (Hscale (Z.min (b * 2) (60 * 10 ^ 9)) n).
  unfold MAX_RECONNECT_BACKOFF, secs in Hscale. lia.
Qed.

Definition input_ok (i : Input C R) : Prop :=
  match i with
  | RebindResult _ n | AuthResult _ n => 0 ≤ n < 10 ^ 9
  | _ => True
  end.

(** The task in the critical section, with the id it replaces. *)
Definition holder (pc : Pc C R) : option Z :=
  match pc with
  | Rebinding o | Authenticating o | Publishing o => Some o
  | _ => None
  end.

Definition ids (n : nat) : list Z := (λ k, as_u64 (Z.of_nat k)) <$> seq 0 n.

Definition shared_ok (s : Shared C) : Prop :=
  replaced s = ids (length (replaced s))
  ∧ connection_id s = as_u64 (Z.of_nat (length (replaced s)))
  ∧ reconnect_succeeded (metrics s) = as_u64 (Z.of_nat (length (replaced s)))
  ∧ INITIAL_RECONNECT_BACKOFF ≤ backoff s ≤ MAX_RECONNECT_BACKOFF.

(** The lock is taken exactly while one task is in the critical section, and
    that task is replacing the current connection. *)
Definition system_ok (sys : System C R) : Prop :=
  shared_ok (fst sys)
  ∧ omap holder (snd sys) =
      if locked (fst sys) then [connection_id (fst sys)] else [].

Lemma ids_S n : ids (S n) = ids n ++ [as_u64 (Z.of_nat n)].
Proof. unfold ids. by rewrite seq_S, fmap_app. Qed.

Lemma as_u64_S n : as_u64 (as_u64 (Z.of_nat n) + 1) = as_u64 (Z.of_nat (S n)).
Proof.
  unfold wrap. rewrite Zplus_mod_idemp_l. f_equal. lia.
Qed.

(** What a step does to the lock and to the holder. *)
Definition lock_ok (s s' : Shared C) (pc pc' : Pc C R) : Prop :=
  match holder pc, holder pc' with
  | None, None => locked s' = locked s ∧ connection_id s' = connection_id s
  | None, Some o =>
    locked s = false ∧ locked s' = true ∧ connection_id s' = o
    ∧ connection_id s = o
  | Some o, Some o' =>
    o' = o ∧ (locked s = true → locked s' = true)
    ∧ connection_id s' = connection_id s
  | Some _, None => locked s' = false
  end.

Lemma release_failed_ok n s :
  0 ≤ n < 10 ^ 9 → shared_ok s → shared_ok (release_failed scale n s).
Proof.
  intros Hn (H1 & H2 & H3 & H4). split_and!; try done;
    cbn [release_failed backoff]; by apply next_backoff_range.
Qed.

Lemma enter_reconnect_ok o now (s s' : Shared C) (pc' : Pc C R) :
  locked s = false → shared_ok s → enter_reconnect o now s = (s', pc') →
  shared_ok s' ∧ lock_ok s s' (Locking o) pc'.
Proof.
  intros Hl Hs. unfold enter_reconnect.
  destruct (Z.eqb_spec (connection_id s) o) as [E|E]; cbn [negb];
    [|intros [= <- <-]; by split].
  assert (∀ sp : Shared C * Pc C R, sp =
    (mkShared (connection s) (connection_id s) true (Some now) (backoff s)
       (fetch_add ReconnectAttempts 1 (metrics s)) (replaced s), Rebinding o) →
    sp = (s', pc') → shared_ok s' ∧ lock_ok s s' (Locking o) pc') as Hatt.
  { intros sp -> [= <- <-]. by split. }
  destruct (last_attempt s); [|by apply Hatt].
  destruct (_ <? _); [intros [= <- <-]; by split|by apply Hatt].
Qed.

Lemma retry_step_ok s pc i s' pc' :
  input_ok i → shared_ok s →
  (∀ o, holder pc = Some o → o = connection_id s) →
  retry_step scale s pc i = Some (s', pc') →
  shared_ok s' ∧ lock_ok s s' pc pc'.
Proof.
  intros Hi Hs Ho. unfold retry_step.
  destruct pc, i; try done; try (intros [= <- <-]; by split).
  - destruct r as [r|e]; [|destruct (is_connection_error e)];
      intros [= <- <-]; by split.
  - destruct (locked s) eqn:El; [done|].
    destruct (enter_reconnect old_conn_id now s) as [s1 pc1] eqn:E.
    intros [= -> ->]. by eapply enter_reconnect_ok.
  - destruct r as [r|e]; intros [= <- <-]; split; try done.
    by apply release_failed_ok.
  - destruct r as [c|e]; intros [= <- <-]; split; try done.
    + destruct Hs as (H1 & H2 & H3 & H4). split_and!; done.
    + by apply release_failed_ok.
  - intros [= <- <-]. split; [|done].
    destruct Hs as (H1 & H2 & H3 & H4). rewrite (Ho _ eq_refl).
    unfold shared_ok. cbn [replaced connection_id metrics backoff].
    rewrite length_app, Nat.add_comm. cbn [length Nat.add].
    split_and!; [|..|apply H4|apply H4].
    + by rewrite ids_S, <-H1, H2.
    + by rewrite H2, as_u64_S.
    + change (reconnect_succeeded ?m) with (load ReconnectSucceeded m).
      rewrite load_fetch_add_eq. cbn [load]. by rewrite H3, as_u64_S.
Qed.

Lemma omap_holder_insert (pcs : list (Pc C R)) t pc pc' :
  pcs !! t = Some pc →
  ∃ l1 l2, omap holder pcs = l1 ++ option_list (holder pc) ++ l2
    ∧ omap holder (<[t:=pc']> pcs) = l1 ++ option_list (holder pc') ++ l2.
Proof.
  intros Ht. exists (omap holder (take t pcs)), (omap holder (drop (S t) pcs)).
  assert (∀ p (l : list (Pc C R)), omap holder (p :: l)
            = option_list (holder p) ++ omap holder l) as Hc.
  { intros p l. simpl. by destruct (holder p). }
  split.
  - rewrite <-(take_drop_middle _ _ _ Ht) at 1. by rewrite omap_app, Hc.
  - rewrite insert_take_drop by (by eapply lookup_lt_Some).
    by rewrite omap_app, Hc.
Qed.

Lemma system_step_ok sys t i sys' :
  input_ok i → system_ok sys → system_step scale sys t i = Some sys' →
  system_ok sys'.
Proof.
  destruct sys as [s pcs]. intros Hi [Hs Hh]. unfold system_step.
  cbn [fst snd] in *. destruct (pcs !! t) as [pc|] eqn:Et; [|done]. cbn.
  destruct (retry_step scale s pc i) as [[s' pc']|] eqn:E; [|done].
  intros [= <-]. destruct (omap_holder_insert pcs t pc pc' Et) as (l1 & l2 & E1 & E2).
  destruct (retry_step_ok s pc i s' pc' Hi Hs) as [Hs' Hl]; [|done|].
  { intros o Ho. rewrite E1, Ho in Hh. destruct (locked s).
    - destruct l1 as [|x l1]; simpl in Hh; [by injection Hh|].
      by destruct l1.
    - by destruct l1. }
  split; [done|]. cbn [fst snd]. rewrite E2. rewrite E1 in Hh.
  unfold lock_ok in Hl.
  destruct (holder pc) as [o|], (holder pc') as [o'|]; cbn [option_list app] in *.
  - destruct Hl as (-> & Hl & ->). destruct (locked s); [by rewrite Hl|].
    by destruct l1.
  - rewrite Hl. destruct (locked s).
    + destruct l1 as [|x l1]; [by destruct l2|]. simpl in Hh. by destruct l1.
    + by destruct l1.
  - destruct Hl as (Hf & -> & -> & _). rewrite Hf in Hh.
    apply app_eq_nil in Hh as [-> Hh]. simpl in Hh. by rewrite Hh.
  - by destruct Hl as [-> ->].
Qed.

Lemma system_run_ok sys inputs sys' :
  Forall (λ ti, input_ok (snd ti)) inputs → system_ok sys →
  system_run scale sys inputs = Some sys' → system_ok sys'.
Proof.
  intros Hi. revert sys. induction Hi as [|[t i] inputs Hi _ IH]; intros sys Hs; cbn.
  - by intros [= <-].
  - destruct (system_step scale sys t i) as [sys1|] eqn:E; [|done]. cbn.
    apply IH. by eapply system_step_ok.
Qed.

Lemma system_new_ok c n : system_ok (shared_new c, replicate n LoadConnection).
Proof.
  split.
  - split_and!; done.
  - cbn. induction n; done.
Qed.
End invariant.

(** ** Termination measures *)

Section measures.
Context {C R : Type} (scale : Z → Z → Z).

Definition rank (pc : Pc C R) : nat :=
  match pc with
  | LoadConnection => 9 | LoadId _ => 8 | Operation _ _ => 7 | Locking _ => 6
  | Rebinding _ => 5 | Authenticating _ => 4 | Publishing _ => 3 | Reload => 2
  | Throttled _ => 1 | Retrying _ => 1 | Finished _ => 0 | Cancelled => 0
  end.

Definition operations_left (pc : Pc C R) : nat :=
  match pc with
  | LoadConnection | LoadId _ | Operation _ _ => 2
  | Finished _ | Throttled _ | Cancelled => 0
  | _ => 1
  end.

Definition is_op_result (i : Input C R) : nat :=
  match i with OpResult _ => 1 | _ => 0 end.

Lemma retry_step_measures s pc i s' pc' :
  retry_step scale s pc i = Some (s', pc') →
  (rank pc' < rank pc)%nat
  ∧ (operations_left pc' + is_op_result i ≤ operations_left pc)%nat.
Proof.
  destruct pc, i; simpl; try done; unfold enter_reconnect;
    repeat case_match; intros; simplify_eq/=; lia.
Qed.

(** The inputs a run gives to one task. *)
Definition inputs_of (t : nat) (inputs : list (nat * Input C R)) : list (Input C R) :=
  omap (λ ti, if decide (fst ti = t) then Some (snd ti) else None) inputs.

Lemma inputs_of_cons t t' i inputs :
  inputs_of t ((t', i) :: inputs) =
    (if decide (t' = t) then [i] else []) ++ inputs_of t inputs.
Proof. unfold inputs_of. cbn. by destruct (decide (t' = t)). Qed.

Lemma system_run_measures sys inputs sys' t pc :
  system_run scale sys inputs = Some sys' → snd sys !! t = Some pc →
  ∃ pc', snd sys' !! t = Some pc'
    ∧ (rank pc' + length (inputs_of t inputs) ≤ rank pc)%nat
    ∧ (operations_left pc' + sum_list_with is_op_result (inputs_of t inputs)
       ≤ operations_left pc)%nat.
Proof.
  revert sys pc. induction inputs as [|[t' i] inputs IH]; intros [s pcs] pc;
    cbn [system_run].
  - intros [= <-] Ht. exists pc. simpl. split_and!; [done|lia|lia].
  - unfold system_step. cbn [fst snd].
    destruct (pcs !! t') as [pc1|] eqn:Et; [|done].
    cbn [mbind option_bind].
    destruct (retry_step scale s pc1 i) as [[s' pc2]|] eqn:E; [|done].
    intros Hrun Ht. pose proof (retry_step_measures _ _ _ _ _ E) as [Hr Ho].
    destruct (decide (t' = t)) as [->|Hne].
    + assert (pc1 = pc) as -> by congruence.
      destruct (IH _ pc2 Hrun) as (pc' & H1 & H2 & H3).
      { cbn. apply list_lookup_insert_eq. by eapply lookup_lt_Some. }
      exists pc'. rewrite inputs_of_cons, decide_True by done. cbn.
      split_and!; [done|lia|lia].
    + destruct (IH _ pc Hrun) as (pc' & H1 & H2 & H3).
      { cbn. by rewrite list_lookup_insert_ne. }
      exists pc'. by rewrite inputs_of_cons, decide_False.
Qed.

Lemma retry_step_enabled s pc :
  rank pc ≠ 0%nat → (locked s = false ∨ ∀ o, pc ≠ Locking o) →
  ∃ i s' pc', i ≠ Cancel ∧ retry_step scale s pc i = Some (s', pc').
Proof.
  set (e := mkIoError OtherKind "").
  destruct pc; intros Hr Hl; try done.
  - by exists Tick; eexists _, _.
  - by exists Tick; eexists _, _.
  - exists (OpResult (Err e)). by eexists _, _.
  - destruct Hl as [Hl|Hl]; [|by edestruct Hl]. exists (LockAt 0). cbn. rewrite Hl.
    destruct (enter_reconnect old_conn_id 0 s) as [s' pc']. by exists s', pc'.
  - exists (RebindResult (Err e) 0). by eexists _, _.
  - exists (AuthResult (Err e) 0). by eexists _, _.
  - by exists Tick; eexists _, _.
  - by exists Tick; eexists _, _.
  - by exists Tick; eexists _, _.
  - exists (OpResult (Err e)). by eexists _, _.
Qed.
End measures.

(** ** Properties *)

(** C12. Any number of calls of [with_retry], interleaved in any way: at most
    one of them is inside the reconnection at a time, exactly when the lock is
    taken, and it is replacing the connection that is current; the connection
    ids replaced are 0, 1, 2, ... in order, each once, so callers that fail on
    the same id reconnect once; the id and the success counter count the
    replacements, and the backoff stays between 1 and 60 seconds. *)
Theorem reconnect_single_flight {C R} scale (c : C) n
    (inputs : list (nat * Input C R)) s pcs :
  scale_ok scale → Forall (λ ti, input_ok (snd ti)) inputs →
  system_run scale (shared_new c, replicate n LoadConnection) inputs = Some (s, pcs) →
  omap holder pcs = (if locked s then [connection_id s] else [])
  ∧ replaced s = ids (length (replaced s))
  ∧ connection_id s = as_u64 (Z.of_nat (length (replaced s)))
  ∧ reconnect_succeeded (metrics s) = connection_id s
  ∧ INITIAL_RECONNECT_BACKOFF ≤ backoff s ≤ MAX_RECONNECT_BACKOFF.
Proof.
  intros Hscale Hi Hrun.
  destruct (system_run_ok scale Hscale _ _ _ Hi (system_new_ok c n) Hrun)
    as [(H1 & H2 & H3 & H4) Hh].
  cbn [fst snd] in *. split_and!; [done..|congruence|lia|lia].
Qed.

Definition exact_scale (d n : Z) : Z := d * (8 * 10 ^ 9 + 4 * n) / 10 ^ 10.

Lemma exact_scale_ok : scale_ok exact_scale.
Proof.
  intros d n Hd Hn. unfold exact_scale, MAX_RECONNECT_BACKOFF, secs in *.
  Z.div_mod_to_equations. nia.
Qed.

Definition lost : IoError := mkIoError ConnectionReset "reset".

(** Two calls on a connection that is lost; both fail, one reconnects. *)
Definition demo_inputs : list (nat * Input nat nat) :=
  [(0, Tick); (0, Tick); (1, Tick); (1, Tick);
   (0, OpResult (Err lost)); (1, OpResult (Err lost));
   (0, LockAt 5); (0, RebindResult (Ok tt) 0); (0, AuthResult (Ok 7) 0);
   (0, Tick); (1, LockAt 9); (1, Tick); (1, OpResult (Ok 42))]%nat.

Definition demo_final : System nat nat :=
  default (shared_new 0%nat, [])
    (system_run exact_scale (shared_new 0%nat, replicate 2 LoadConnection) demo_inputs).

Lemma reconnect_single_flight_witness :
  system_run exact_scale (shared_new 0%nat, replicate 2 LoadConnection) demo_inputs
    = Some (fst demo_final, snd demo_final)
  ∧ snd demo_final = [Reload; Finished (Ok 42%nat)]
  ∧ replaced (fst demo_final) = ids (length (replaced (fst demo_final))).
Proof.
  assert (system_run exact_scale (shared_new 0%nat, replicate 2 LoadConnection)
            demo_inputs = Some (fst demo_final, snd demo_final)) as H
    by (vm_compute; reflexivity).
  split; [exact H|]. split; [vm_compute; reflexivity|].
  apply (reconnect_single_flight exact_scale 0%nat 2 demo_inputs _ (snd demo_final)).
  - exact exact_scale_ok.
  - repeat constructor; vm_compute; done.
  - exact H.
Defined.

(** C35. A call of [with_retry] ends: it takes at most nine steps, runs the
    operation at most twice, and as long as some call has neither finished nor been
    dropped by its caller some call can take a step, other than being dropped; the
    lock never blocks them all. *)
Theorem with_retry_terminates {C R} scale (c : C) n
    (inputs : list (nat * Input C R)) s pcs :
  scale_ok scale → Forall (λ ti, input_ok (snd ti)) inputs →
  system_run scale (shared_new c, replicate n LoadConnection) inputs = Some (s, pcs) →
  (∀ t, (t < n)%nat →
     (length (inputs_of t inputs) ≤ 9)%nat
     ∧ (sum_list_with is_op_result (inputs_of t inputs) ≤ 2)%nat)
  ∧ (Forall (λ pc, pc = Cancelled ∨ ∃ r, pc = Finished r) pcs
     ∨ ∃ t i sys', i ≠ Cancel ∧ system_step scale (s, pcs) t i = Some sys').
Proof.
  intros Hscale Hi Hrun. split.
  - intros t Ht.
    destruct (system_run_measures scale _ _ _ t LoadConnection Hrun)
      as (pc' & _ & H1 & H2); [by apply lookup_replicate_2|].
    simpl in H1, H2. lia.
  - destruct (system_run_ok scale Hscale _ _ _ Hi (system_new_ok c n) Hrun) as [_ Hh].
    cbn [fst snd] in Hh.
    assert (∀ t pc, pcs !! t = Some pc → rank pc ≠ 0%nat →
      (locked s = false ∨ ∀ o, pc ≠ Locking o) →
      ∃ t i sys', i ≠ Cancel ∧ system_step scale (s, pcs) t i = Some sys') as Hstep.
    { intros t pc Ht Hr Hl.
      destruct (retry_step_enabled scale s pc Hr Hl) as (i & s' & pc' & Hi' & E).
      exists t, i, (s', <[t:=pc']> pcs). split; [done|]. unfold system_step. cbn [fst snd].
      rewrite Ht. cbn. by rewrite E. }
    destruct (locked s) eqn:El.
    + right. assert (connection_id s ∈ omap holder pcs) as Hin by (rewrite Hh; left).
      apply list_elem_of_omap in Hin as (pc & Hpc & Ho).
      apply list_elem_of_lookup in Hpc as [t Ht].
      apply (Hstep t pc Ht); [by destruct pc|]. right. by destruct pc.
    + destruct (decide (Forall (λ pc, rank pc = 0%nat) pcs)) as [Hf|Hf].
      * left. eapply Forall_impl; [exact Hf|]. intros pc Hpc. destruct pc; try done;
          [right; by eexists|by left].
      * right. apply not_Forall_Exists, Exists_exists in Hf as (pc & Hpc & Hr);
          [|solve_decision].
        apply list_elem_of_lookup in Hpc as [t Ht]. apply (Hstep t pc Ht Hr). by left.
Qed.

Lemma with_retry_terminates_witness :
  Forall (λ ti, input_ok (C := nat) (R := nat) (snd ti)) demo_inputs
  ∧ (sum_list_with is_op_result (inputs_of 1 demo_inputs) ≤ 2)%nat.
Proof.
  assert (Forall (λ ti, input_ok (C := nat) (R := nat) (snd ti)) demo_inputs) as Hi
    by (repeat constructor; vm_compute; done).
  split; [exact Hi|].
  refine (proj2 (proj1 (with_retry_terminates exact_scale 0%nat 2 demo_inputs
    (fst demo_final) (snd demo_final) exact_scale_ok Hi _) 1%nat _)).
  - vm_compute. reflexivity.
  - lia.
Defined.

(** The backoff after a row of failed attempts, with the clock's nanoseconds at
    each. *)
Definition backoff_after (scale : Z → Z → Z) (ns : list Z) : Z :=
  fold_left (λ b n, next_backoff scale n b) ns INITIAL_RECONNECT_BACKOFF.

Lemma backoff_after_snoc scale ns n :
  backoff_after scale (ns ++ [n]) = next_backoff scale n (backoff_after scale ns).
Proof. unfold backoff_after. by rewrite fold_left_app. Qed.

(** Failed attempts back off exponentially: whatever the jitter, after
    [k] failures in a row the wait is at least the smaller of 1.5^k and 47
    seconds, and it never exceeds 60 seconds. *)
Theorem backoff_exponential scale ns :
  scale_ok scale → Forall (λ n, 0 ≤ n < 10 ^ 9) ns →
  let k := Z.of_nat (length ns) in
  INITIAL_RECONNECT_BACKOFF ≤ backoff_after scale ns ≤ MAX_RECONNECT_BACKOFF
  ∧ Z.min (3 ^ k * secs 1) (2 ^ k * secs 47) ≤ 2 ^ k * backoff_after scale ns.
Proof.
  intros Hs. induction ns as [|n ns IH] using rev_ind; intros Hf k.
  { subst k. unfold backoff_after, INITIAL_RECONNECT_BACKOFF, MAX_RECONNECT_BACKOFF, secs.
    simpl. lia. }
  apply Forall_app in Hf as [Hf [Hn _]%Forall_cons]. destruct (IH Hf) as [Hb Hk].
  subst k. rewrite backoff_after_snoc, length_app, Nat2Z.inj_add.
  change (Z.of_nat (length [n])) with 1. rewrite !Z.pow_add_r, !Z.pow_1_r by lia.
  pose proof (next_backoff_range scale Hs n _ Hn Hb) as [Hr Hg]. split; [done|].
  revert Hb Hk Hr Hg. generalize (backoff_after scale ns) as b.
  generalize (next_backoff scale n) as nb. intros nb b Hb Hk Hr Hg.
  unfold secs, INITIAL_RECONNECT_BACKOFF, MAX_RECONNECT_BACKOFF in *.
  set (k := Z.of_nat (length ns)) in *.
  assert (0 < 2 ^ k) as H2 by (apply Z.pow_pos_nonneg; lia).
  assert (0 < 3 ^ k) as H3 by (apply Z.pow_pos_nonneg; lia).
  unfold secs in *.
  assert (47 * 10 ^ 9 ≤ nb b ∨ 3 * b ≤ 2 * nb b) as [?|?] by lia; nia.
Qed.

Lemma backoff_exponential_witness :
  Forall (λ n, 0 ≤ n < 10 ^ 9) (replicate 10 500000000)
  ∧ Z.min (3 ^ 10 * secs 1) (2 ^ 10 * secs 47)
    ≤ 2 ^ 10 * backoff_after exact_scale (replicate 10 500000000).
Proof.
  assert (Forall (λ n, 0 ≤ n < 10 ^ 9) (replicate 10 500000000)) as H
    by (apply Forall_replicate; lia).
  split; [exact H|].
  exact (proj2 (backoff_exponential exact_scale (replicate 10 500000000)
                  exact_scale_ok H)).
Defined.

(** The schedule of the next theorem: task 0 loads the connection, task 1
    loses it and reconnects, and only then task 0 loads the id. *)
Definition race_inputs : list (nat * Input nat nat) :=
  [(0, Tick);
   (1, Tick); (1, Tick); (1, OpResult (Err lost)); (1, LockAt 5);
   (1, RebindResult (Ok tt) 0); (1, AuthResult (Ok 7) 0); (1, Tick);
   (0, Tick); (0, OpResult (Err lost)); (0, LockAt 6);
   (0, RebindResult (Ok tt) 0); (0, AuthResult (Ok 8) 0); (0, Tick)]%nat.

(** [with_retry] loads the connection before its id, so a call can pair
    the old connection with the id of its successor: in this schedule task 0
    runs its operation on the lost connection 0 under id 1, and when that fails
    it replaces connection 7, on which nothing has failed, although another
    task had already reconnected. *)
Theorem with_retry_stale_connection :
  ∃ sys, system_run exact_scale (shared_new 0%nat, replicate 2 LoadConnection)
           (take 9 race_inputs) = Some sys
    ∧ connection (fst sys) = 7%nat ∧ snd sys !! 0%nat = Some (Operation 0%nat 1)
    ∧ ∃ sys', system_run exact_scale (shared_new 0%nat, replicate 2 LoadConnection)
                race_inputs = Some sys'
        ∧ replaced (fst sys') = [0; 1] ∧ connection (fst sys') = 8%nat.
Proof.
  eexists. split; [vm_compute; reflexivity|]. split; [done|]. split; [done|].
  eexists. split; [vm_compute; reflexivity|]. done.
Qed.

(** *** Streams *)

(** Opening a stream against a server that answers: the result is the
    server's. On success the returned stream reads exactly the bytes that
    follow the server's frame, none lost to the framing buffer, and counts one
    opened stream; a refusal gives the kind and text the server sent and counts
    one failed stream. *)
Theorem open_bidirectional_outcome {S F} `{FramedLaws S F}
    `{!Bincode ClientMessage} `{!Bincode ServerMessage} `{!BincodeLaws ServerMessage}
    (s : S) dest m request sent payload resp rest :
  encode (MsgConnect (mkConnect dest)) = Ok request →
  framed_send request (framed_new s : F) = (Ok tt, sent) →
  encode (MsgConnectResponse resp) = Ok payload →
  Z.of_nat (length payload) ≤ MAX_CONTROL_FRAME_LENGTH →
  readable s = frame payload ++ rest →
  match open_bidirectional (F := F) (Ok s) dest m, resp with
  | (Ok bs, m'), ConnectOk => readable bs = rest ∧ m' = fetch_add StreamsOpened 1 m
  | (Err e, m'), ConnectErr k t =>
      e = mkIoError (error_kind_of k) t ∧ m' = fetch_add StreamsFailed 1 m
  | _, _ => False
  end.
Proof.
  intros Hreq Hsend Hpay Hlen Hread. unfold open_bidirectional, negotiate_stream.
  rewrite Hreq, Hsend.
  destruct (framed_send_flushes _ _ _ Hsend) as [Hw Hr].
  rewrite framed_new_readable, Hread in Hr.
  destruct (framed_next_frame _ _ _ Hr Hlen) as (f & -> & Hrest & Hwf).
  rewrite (decode_encode_same (MsgConnectResponse resp) payload eq_refl Hpay).
  rewrite decide_False by (rewrite Hwf, Hw; auto).
  destruct resp as [|k t]; [|done]. split; [|done]. exact Hrest.
Qed.

(** A serializer for the witnesses: one byte per message it knows. *)
#[local] Instance demo_client_bincode : Bincode ClientMessage :=
  {| encode_to_vec _ := Some [Byte.x07]; borrow_decode_from_slice _ := None |}.
#[local] Instance demo_server_bincode : Bincode ServerMessage := {|
  encode_to_vec m :=
    match m with MsgConnectResponse ConnectOk => Some [Byte.x00] | _ => None end;
  borrow_decode_from_slice b :=
    match b with [Byte.x00] => Some (MsgConnectResponse ConnectOk, 1%nat) | _ => None end
|}.
#[local] Instance demo_server_bincode_laws : BincodeLaws ServerMessage.
Proof. intros [[|]] b; [by intros [= <-]|done]. Qed.

Lemma open_bidirectional_outcome_witness :
  let s : Bytes := frame [Byte.x00] ++ [Byte.x61; Byte.x62] in
  ∃ bs m', open_bidirectional (S := Bytes) (F := MemFramed) (Ok s) (Domain [] 1) metrics_new
             = (Ok bs, m')
    ∧ (readable bs = [Byte.x61; Byte.x62] ∧ m' = fetch_add StreamsOpened 1 metrics_new).
Proof.
  intros s. eexists _, _. split; [reflexivity|].
  exact (open_bidirectional_outcome (S := Bytes) (F := MemFramed) s (Domain [] 1)
    metrics_new [Byte.x07] (mkFramed [] s [[Byte.x07]]) [Byte.x00] ConnectOk
    [Byte.x61; Byte.x62] eq_refl eq_refl eq_refl ltac:(done) eq_refl).
Defined.

(** Authentication succeeds only for a connection the transport made, on
    which the server answered [Ok] to this client's hello within ten seconds;
    a server that says nothing in time gives [TimedOut]. *)
Theorem authenticate_sound {C S F} `{Framed S F} `{!Bincode ClientMessage}
    `{!Bincode ServerAuthResponse} elapsed (connect : io_result C)
    (open : C → io_result S) shutdown secret options :
  match authenticate (F := F) elapsed connect open shutdown secret options with
  | Ok c =>
    connect = Ok c ∧ (∃ t, elapsed = Some t ∧ t ≤ AUTH_TIMEOUT)
    ∧ ∃ s hello f1 payload f2,
        open c = Ok s
        ∧ encode (MsgHello (mkHello PROTOCOL_VERSION secret options)) = Ok hello
        ∧ framed_send hello (framed_new s : F) = (Ok tt, f1)
        ∧ framed_next f1 = (Some (Ok payload), f2)
        ∧ decode payload = Ok AuthOk
  | Err e =>
    (∀ t, elapsed = Some t → AUTH_TIMEOUT < t) → kind e = TimedOut
  end.
Proof.
  unfold authenticate. destruct elapsed as [t|]; [|done].
  destruct (Z.leb_spec t AUTH_TIMEOUT) as [Ht|Ht]; [|done].
  assert (∀ e : IoError, (∀ t', Some t = Some t' → AUTH_TIMEOUT < t') → kind e = TimedOut)
    as Habs by (intros e He; specialize (He t eq_refl); lia).
  unfold do_auth. destruct connect as [c|e]; cbn [mbind Result_mbind]; [|by apply Habs].
  destruct (open c) as [s|e] eqn:Eo; cbn [mbind Result_mbind]; [|by apply Habs].
  destruct (encode _) as [hello|e] eqn:Ee; cbn [mbind Result_mbind]; [|by apply Habs].
  destruct (framed_send hello _) as [[[]|e] f1] eqn:Es; [|by apply Habs].
  destruct (framed_next f1) as [[[payload|e]|] f2] eqn:En; [|by apply Habs..].
  destruct (decode payload) as [[]|e] eqn:Ed; cbn [mbind Result_mbind]; [|by apply Habs..].
  destruct (shutdown _) as [|e]; cbn [mbind Result_mbind]; [|by apply Habs].
  split; [done|]. split; [by exists t|]. by exists s, hello, f1, payload, f2.
Qed.
