(* ===== verification/ReconnectLog.v ===== *)
(** What the client logs when its connection is lost and replaced
    (crates/ombrac-client/src/connection/mod.rs, "Error Handling" and the calls
    in [with_retry] and [reconnect]). *)

From S2P Require Import Prelude Std Metrics ClientConnection.

#[local] Open Scope Z_scope.

(** [ErrorContext]. *)
Record ErrorContext := mkContext { operation : string; details : option string }.

Definition error_context_new (operation : string) : ErrorContext := mkContext operation None.
Definition with_details (details : string) (self : ErrorContext) : ErrorContext :=
  mkContext (operation self) (Some details).

(** The three records. *)
Inductive LogRecord :=
  | ConnectionErrorDetected (ctx : ErrorContext) (err : IoError)
  | ReconnectThrottled (operation : string) (backoff_secs : option Z)
  | ReconnectionFailed (ctx : ErrorContext) (err : IoError) (backoff_secs : option Z).

Definition log_connection_error (ctx : ErrorContext) (err : IoError) : list LogRecord :=
  if is_connection_error err then [ConnectionErrorDetected ctx err] else [].

(** The throttling is recognised by the text of its error. *)
Definition is_throttled_error (err : IoError) : bool :=
  bool_decide (kind err = OtherKind)
  && bool_decide (msg err = "reconnect throttled"%string).

Definition log_reconnect_error (ctx : ErrorContext) (err : IoError)
    (backoff_secs : option Z) : list LogRecord :=
  if is_throttled_error err then [ReconnectThrottled (operation ctx) backoff_secs]
  else [ReconnectionFailed ctx err backoff_secs].

Section log.
Context {C R : Type} (scale : Z → Z → Z).

(** What a step of [with_retry] logs. *)
Definition step_log (s : Shared C) (pc : Pc C R) (i : Input C R) : list LogRecord :=
  let failed_backoff nanos := Some (as_secs (backoff (release_failed scale nanos s))) in
  match pc, i with
  | Operation _ _, OpResult (Err e) =>
    if is_connection_error e then
      log_connection_error
        (with_details "attempting to reconnect" (error_context_new "with_retry")) e
    else []
  | Throttled backoff_secs, Tick =>
    log_reconnect_error (error_context_new "reconnect") throttled_error (Some backoff_secs)
  | Rebinding _, RebindResult (Err e) nanos =>
    log_reconnect_error
      (with_details "transport rebind failed" (error_context_new "reconnect")) e
      (failed_backoff nanos)
  | Authenticating _, AuthResult (Err e) nanos =>
    log_reconnect_error
      (with_details "authentication failed" (error_context_new "reconnect")) e
      (failed_backoff nanos)
  | _, _ => []
  end.

(** The log of a run, each record with the call that wrote it. *)
Fixpoint run_log (sys : System C R) (inputs : list (nat * Input C R))
    : list (nat * LogRecord) :=
  match inputs with
  | [] => []
  | (t, i) :: inputs =>
    match snd sys !! t, system_step scale sys t i with
    | Some pc, Some sys' => ((t,.) <$> step_log (fst sys) pc i) ++ run_log sys' inputs
    | _, _ => []
    end
  end.

Definition log_of (t : nat) (log : list (nat * LogRecord)) : list LogRecord :=
  omap (λ r, if decide (fst r = t) then Some (snd r) else None) log.

Definition is_failure (r : LogRecord) : nat :=
  match r with ReconnectionFailed _ _ _ => 1 | _ => 0 end.
Definition failures (log : list (nat * LogRecord)) : nat :=
  sum_list_with (λ r, is_failure (snd r)) log.

(** The record of a lost connection. *)
Definition detected (l : list LogRecord) : Prop :=
  ∃ e, is_connection_error e = true ∧
    l = [ConnectionErrorDetected
           (with_details "attempting to reconnect" (error_context_new "with_retry")) e].

(** What a call has logged, by where it stands. *)
Definition log_shape (pc : Pc C R) (l : list LogRecord) : Prop :=
  match pc with
  | LoadConnection | LoadId _ | Operation _ _ => l = []
  | Cancelled => l = [] ∨ detected l
  | Finished r =>
    l = [] ∧ (∀ e, r = Err e → is_connection_error e = false)
    ∨ detected l
    ∨ ∃ d ctx e b, detected d ∧ operation ctx = "reconnect"%string ∧ r = Err e
        ∧ l = d ++ log_reconnect_error ctx e (Some b)
  | _ => detected l
  end.

(** The attempts of a run that their caller dropped. *)
Definition abandons (pc : Pc C R) (i : Input C R) : nat :=
  match pc, i with
  | Rebinding _, Cancel | Authenticating _, Cancel => 1
  | _, _ => 0
  end.
Fixpoint abandoned (sys : System C R) (inputs : list (nat * Input C R)) : nat :=
  match inputs with
  | [] => 0
  | (t, i) :: inputs =>
    match snd sys !! t, system_step scale sys t i with
    | Some pc, Some sys' => abandons pc i + abandoned sys' inputs
    | _, _ => 0
    end
  end.

(** Errors of the transport that do not look like the throttling. *)
Definition plain_input (i : Input C R) : Prop :=
  match i with
  | RebindResult (Err e) _ | AuthResult (Err e) _ => is_throttled_error e = false
  | _ => True
  end.

(** ** One step *)

Lemma log_shape_failed l ctx e b :
  detected l → operation ctx = "reconnect"%string →
  log_shape (Finished (Err e)) (l ++ log_reconnect_error ctx e (Some b)).
Proof. intros Hl Hc. right. right. by exists l, ctx, e, b. Qed.

Lemma step_log_shape s pc i s' pc' l :
  log_shape pc l → retry_step scale s pc i = Some (s', pc') →
  log_shape pc' (l ++ step_log s pc i).
Proof.
  destruct pc, i; intros Hl E; cbn [retry_step] in E; try done;
    unfold enter_reconnect in E; repeat case_match; simplify_eq;
    cbn [step_log]; rewrite ?app_nil_r; try done.
  all: try exact (or_introl Hl); try exact (or_intror Hl).
  all: try (by apply log_shape_failed).
  all: try (by right; left).
  - left. split; [done|]. by intros e.
  - cbn in Hl. subst l. unfold log_connection_error. case_match; [by eexists|congruence].
  - cbn in Hl. subst l. case_match; [congruence|]. left. split; [done|]. by intros ? [= <-].
Qed.

Lemma holders_insert (pcs : list (Pc C R)) t pc pc' :
  pcs !! t = Some pc →
  (length (omap holder (<[t:=pc']> pcs)) + length (option_list (holder pc)) =
   length (omap holder pcs) + length (option_list (holder pc')))%nat.
Proof.
  intros Ht. destruct (omap_holder_insert pcs t pc pc' Ht) as (l1 & l2 & -> & ->).
  rewrite !length_app. lia.
Qed.

(** The attempts a step begins, ends with success and ends with a failure. *)
Definition begins (pc pc' : Pc C R) : nat :=
  match holder pc, holder pc' with None, Some _ => 1 | _, _ => 0 end.

Lemma log_failed_once ctx e b :
  is_throttled_error e = false →
  sum_list_with is_failure (log_reconnect_error ctx e b) = 1%nat.
Proof. intros He. unfold log_reconnect_error. by rewrite He. Qed.

Lemma step_attempts s pc i s' pc' :
  plain_input i → retry_step scale s pc i = Some (s', pc') →
  load ReconnectAttempts (metrics s') =
    (match begins pc pc' with
     | O => load ReconnectAttempts (metrics s)
     | S _ => as_u64 (load ReconnectAttempts (metrics s) + 1)
     end)
  ∧ (length (replaced s') + length (option_list (holder pc'))
     + sum_list_with is_failure (step_log s pc i) + abandons pc i =
     length (replaced s) + length (option_list (holder pc)) + begins pc pc')%nat.
Proof.
  destruct pc, i; intros Hi E; cbn [retry_step] in E; try done;
    unfold enter_reconnect in E;
    repeat match type of E with context [match ?x with _ => _ end] => destruct x eqn:? end;
    simplify_eq/=; unfold begins; cbn [holder];
    rewrite ?log_failed_once by done; try (split; [done|lia]).
  - split; [done|]. unfold log_connection_error. case_match; cbn; lia.
  - split; [done|]. case_match; [congruence|cbn; lia].
  - split; [done|]. rewrite length_app. cbn. lia.
Qed.

(** ** Runs *)

Lemma log_of_app t l1 l2 : log_of t (l1 ++ l2) = log_of t l1 ++ log_of t l2.
Proof. apply omap_app. Qed.

Lemma log_of_own t t' l : log_of t ((t',.) <$> l) = if decide (t' = t) then l else [].
Proof.
  unfold log_of. induction l as [|r l IH]; cbn; [by case_decide|].
  case_decide; [by rewrite IH|done].
Qed.

Lemma failures_own t l : failures ((t,.) <$> l) = sum_list_with is_failure l.
Proof. unfold failures. induction l as [|r l IH]; cbn; [done|]. by rewrite IH. Qed.

Lemma run_log_shape inputs sys sys' t pc l :
  system_run scale sys inputs = Some sys' → snd sys !! t = Some pc → log_shape pc l →
  ∃ pc', snd sys' !! t = Some pc' ∧ log_shape pc' (l ++ log_of t (run_log sys inputs)).
Proof.
  revert sys pc l. induction inputs as [|[t' i] inputs IH]; intros [s pcs] pc l;
    cbn [system_run run_log].
  { intros [= <-] Ht Hl. exists pc. cbn. by rewrite app_nil_r. }
  unfold system_step. cbn [fst snd]. destruct (pcs !! t') as [pc1|] eqn:Et; [|done].
  cbn [mbind option_bind].
  destruct (retry_step scale s pc1 i) as [[s1 pc2]|] eqn:E; [|done]. cbn [mbind option_bind].
  intros Hrun Ht Hl. rewrite log_of_app, log_of_own, app_assoc. case_decide as Heq.
  - subst t'. assert (pc1 = pc) as -> by congruence.
    eapply IH; [exact Hrun| |by eapply step_log_shape].
    cbn. apply list_lookup_insert_eq. by eapply lookup_lt_Some.
  - rewrite app_nil_r. eapply IH; [exact Hrun| |exact Hl]. cbn. by rewrite list_lookup_insert_ne.
Qed.

(** The attempts of the counter are those that succeeded, those that failed or were
    dropped, here [k], and those under way. *)
Definition attempts_ok (k : nat) (sys : System C R) : Prop :=
  load ReconnectAttempts (metrics (fst sys)) =
  as_u64 (Z.of_nat (length (replaced (fst sys)) + k + length (omap holder (snd sys)))).

Lemma run_attempts inputs sys sys' k :
  Forall (λ ti, plain_input (snd ti)) inputs → system_run scale sys inputs = Some sys' →
  attempts_ok k sys →
  attempts_ok (k + failures (run_log sys inputs) + abandoned sys inputs) sys'.
Proof.
  intros Hi. revert sys k. induction Hi as [|[t i] inputs Hi _ IH]; intros [s pcs] k;
    cbn [system_run run_log abandoned].
  { intros [= <-]. cbn. by rewrite !Nat.add_0_r. }
  unfold system_step. cbn [fst snd]. destruct (pcs !! t) as [pc|] eqn:Et; [|done].
  cbn [mbind option_bind].
  destruct (retry_step scale s pc i) as [[s1 pc1]|] eqn:E; [|done]. cbn [mbind option_bind].
  intros Hrun Ha.
  unfold failures. rewrite sum_list_with_app. fold (failures ((t,.) <$> step_log s pc i)).
  rewrite failures_own.
  replace (k + _ + _)%nat with (k + (sum_list_with is_failure (step_log s pc i) + abandons pc i)
    + failures (run_log (s1, <[t:=pc1]> pcs) inputs)
    + abandoned (s1, <[t:=pc1]> pcs) inputs)%nat by (unfold failures; lia).
  apply (IH _ _ Hrun).
  destruct (step_attempts s pc i s1 pc1 Hi E) as [H1 H2].
  pose proof (holders_insert pcs t pc pc1 Et) as H3.
  unfold attempts_ok in *. cbn [fst snd] in *. rewrite H1, Ha.
  destruct (begins pc pc1) as [|k'] eqn:Eb; [f_equal; lia|].
  assert (k' = 0)%nat as ->
    by (unfold begins in Eb; destruct (holder pc), (holder pc1); congruence).
  rewrite wrap_add_l. f_equal. lia.
Qed.
End log.

(** ** Properties *)

(** C36. The log accounts for the reconnections, in any interleaving of any number of
    calls of [with_retry], any of which its caller may drop at an await, as long as
    no error of the transport has the kind and the text by which the log recognises
    its own throttling. A call logs nothing unless its first attempt lost the
    connection; then it logs that once, first, and at most one record more, which
    comes when the reconnection was refused or failed and carries the error the call
    returns; a call that was dropped has logged no more than the lost connection.
    The counter of the attempts is the sum of those that succeeded, of the failures
    in the log, of those whose caller was dropped in mid-attempt, which leave no
    other trace, and of the one under way. *)
Theorem reconnect_logged {C R} scale (c : C) n (inputs : list (nat * Input C R)) s pcs :
  Forall (λ ti, plain_input (snd ti)) inputs →
  system_run scale (shared_new c, replicate n LoadConnection) inputs = Some (s, pcs) →
  let log := run_log scale (shared_new c, replicate n LoadConnection) inputs in
  let dropped := abandoned scale (shared_new c, replicate n LoadConnection) inputs in
  (∀ t, (t < n)%nat → ∃ pc, pcs !! t = Some pc ∧ log_shape pc (log_of t log))
  ∧ reconnect_attempts (metrics s) =
      as_u64 (Z.of_nat (length (replaced s) + failures log + dropped + length (omap holder pcs))).
Proof.
  intros Hi Hrun log dropped. split.
  - intros t Ht. by apply (run_log_shape scale inputs _ (s, pcs) t LoadConnection [] Hrun);
      [apply lookup_replicate_2|].
  - assert (attempts_ok 0 (shared_new c, replicate n (@LoadConnection C R))) as H0.
    { unfold attempts_ok. cbn [fst snd].
      assert (omap holder (replicate n (@LoadConnection C R)) = []) as -> by
        (clear; induction n; [done|by cbn]).
      done. }
    pose proof (run_attempts scale inputs _ (s, pcs) 0 Hi Hrun H0) as H.
    unfold attempts_ok in H. cbn [fst snd] in H.
    change (load ReconnectAttempts (metrics s)) with (reconnect_attempts (metrics s)) in H.
    rewrite H. do 2 f_equal. unfold log, dropped. lia.
Qed.

(** Three calls lose the connection; the first fails to reconnect, the second is
    refused, and the third is dropped while it authenticates. *)
Definition refused : IoError := mkIoError ConnectionRefused "refused".
Definition failed_inputs : list (nat * Input nat nat) :=
  [(0, Tick); (0, Tick); (1, Tick); (1, Tick); (2, Tick); (2, Tick);
   (0, OpResult (Err lost)); (1, OpResult (Err lost)); (0, LockAt 5);
   (0, RebindResult (Ok tt) 0); (0, AuthResult (Err refused) 0);
   (1, LockAt 6); (1, Tick);
   (2, OpResult (Err lost)); (2, LockAt (10 ^ 12)); (2, RebindResult (Ok tt) 0); (2, Cancel)]%nat.

Lemma reconnect_logged_witness :
  let start := (shared_new 0%nat, replicate 3 LoadConnection) in
  let log := run_log exact_scale start failed_inputs in
  snd <$> log =
    [ConnectionErrorDetected (mkContext "with_retry" (Some "attempting to reconnect")) lost;
     ConnectionErrorDetected (mkContext "with_retry" (Some "attempting to reconnect")) lost;
     ReconnectionFailed (mkContext "reconnect" (Some "authentication failed")) refused (Some 1);
     ReconnectThrottled "reconnect" (Some 1);
     ConnectionErrorDetected (mkContext "with_retry" (Some "attempting to reconnect")) lost]%string
  ∧ abandoned exact_scale start failed_inputs = 1%nat
  ∧ ∃ s pcs,
    system_run exact_scale start failed_inputs = Some (s, pcs)
    ∧ reconnect_attempts (metrics s) =
        as_u64 (Z.of_nat (length (replaced s) + failures log
          + abandoned exact_scale start failed_inputs + length (omap holder pcs))).
Proof.
  intros start log. split; [vm_compute; reflexivity|]. split; [vm_compute; reflexivity|].
  destruct (system_run exact_scale start failed_inputs) as [[s pcs]|] eqn:E;
    [|vm_compute in E; discriminate E].
  exists s, pcs. split; [reflexivity|].
  apply (reconnect_logged exact_scale 0%nat 3 failed_inputs s pcs); [|exact E].
  repeat constructor.
Defined.
