(* ===== verification/ClientDatagram.v ===== *)
(** UDP sessions on the client
    (crates/ombrac-client/src/connection/datagram.rs, and the session ids of
    client.rs). *)

From S2P Require Import Prelude Std Protocol Reassembly.

#[local] Open Scope Z_scope.

Definition DATAGRAM_INITIAL_DELAY : Z := 10 ^ 9.
Definition DATAGRAM_MAX_DELAY : Z := 60 * 10 ^ 9.
Definition UDP_SESSION_CHANNEL_BUFFER_SIZE : nat := 128.

(** ** Reading *)

(** [read_datagram]: the outcomes of the [with_retry] calls are given in
    order; the result is [None] when they run out before it returns. *)
Fixpoint read_datagram `{!Bincode UdpPacket} (reassembler : UdpReassembler)
    (reads : list (io_result Bytes))
    : option (io_result (Z * Address * Bytes)) * UdpReassembler :=
  match reads with
  | [] => (None, reassembler)
  | Err e :: _ => (Some (Err e), reassembler)
  | Ok packet_bytes :: reads =>
    match decode packet_bytes with
    | Err _ => read_datagram reassembler reads
    | Ok packet =>
      match process reassembler packet with
      | (Ok (Some r), reassembler) => (Some (Ok r), reassembler)
      | (Ok None, reassembler) | (Err _, reassembler) =>
        read_datagram reassembler reads
      end
    end
  end.

(** The delay of [run] after a failed or a successful read. *)
Definition next_delay (current_delay : Z) (ok : bool) : Z :=
  if ok then DATAGRAM_INITIAL_DELAY else Z.min (current_delay * 2) DATAGRAM_MAX_DELAY.

(** [send_datagram]: what is handed to [with_retry]. *)
Definition send_datagram `{!Bincode UdpPacket} (session_id : Z) (dest_addr : Address)
    (data : Bytes) : io_result Bytes :=
  encode (Unfragmented session_id dest_addr data).

(** ** Dispatching *)

(** The queue of a session, [mpsc::channel(128)]. *)
Abbreviation Item := (Bytes * Address)%type.

(** The dispatcher and the sessions. [dispatch_map] is a [DashMap]: [dispatch]
    keeps a reference into it while it waits for room in a full queue
    ([waiting]), and a [remove] of that key blocks its thread as long as the
    reference lives ([dropping]: sessions whose [drop] is blocked there, before
    their receiver is gone). [received] is what each session has taken out, and
    [dispatched] what arrived for it since it was registered. *)
Record UdpDispatcher := mkDispatcher {
  dispatch_map : gmap Z (list Item);
  session_id_counter : Z;
  waiting : option (Z * Item);
  dropping : gset Z;
  received : gmap Z (list Item);
  dispatched : gmap Z (list Item)
}.

(** [UdpDispatcher::new], with the counter of [Client::new]. *)
Definition dispatcher_new : UdpDispatcher := mkDispatcher ∅ 1 None ∅ ∅ ∅.

(** [register_session]. *)
Definition register_session (session_id : Z) (self : UdpDispatcher) : UdpDispatcher :=
  mkDispatcher (<[session_id := []]> (dispatch_map self)) (session_id_counter self)
    (waiting self) (dropping self) (<[session_id := []]> (received self))
    (<[session_id := []]> (dispatched self)).

(** [Client::open_associate]: the counter is a [u64]. *)
Definition open_associate (self : UdpDispatcher) : Z * UdpDispatcher :=
  let session_id := session_id_counter self in
  (session_id,
   register_session session_id
     (mkDispatcher (dispatch_map self) (as_u64 (session_id + 1)) (waiting self)
        (dropping self) (received self) (dispatched self))).

Definition push (m : gmap Z (list Item)) (session_id : Z) (x : Item)
    : gmap Z (list Item) :=
  <[session_id := default [] (m !! session_id) ++ [x]]> m.

(** [dispatch], up to where it returns or waits for room. *)
Definition dispatch (session_id : Z) (data : Bytes) (address : Address)
    (self : UdpDispatcher) : UdpDispatcher :=
  match dispatch_map self !! session_id with
  | None => self
  | Some q =>
    let x := (data, address) in
    let dispatched' := push (dispatched self) session_id x in
    if Nat.ltb (length q) UDP_SESSION_CHANNEL_BUFFER_SIZE then
      mkDispatcher (push (dispatch_map self) session_id x) (session_id_counter self)
        None (dropping self) (received self) dispatched'
    else
      mkDispatcher (dispatch_map self) (session_id_counter self)
        (Some (session_id, x)) (dropping self) (received self) dispatched'
  end.

(** [UdpSession::recv_from] on a queue that holds an item; a [dispatch] that
    waits on this queue then finds room and returns. *)
Definition recv_from (session_id : Z) (self : UdpDispatcher)
    : option Item * UdpDispatcher :=
  match dispatch_map self !! session_id with
  | Some (x :: q) =>
    let received' := push (received self) session_id x in
    match waiting self with
    | Some (sid, y) =>
      if decide (sid = session_id) then
        (Some x,
         mkDispatcher (<[session_id := q ++ [y]]> (dispatch_map self))
           (session_id_counter self) None (dropping self) received' (dispatched self))
      else
        (Some x,
         mkDispatcher (<[session_id := q]> (dispatch_map self))
           (session_id_counter self) (waiting self) (dropping self) received'
           (dispatched self))
    | None =>
      (Some x,
       mkDispatcher (<[session_id := q]> (dispatch_map self))
         (session_id_counter self) None (dropping self) received' (dispatched self))
    end
  | _ => (None, self)
  end.

(** [unregister_session], when it does not block. *)
Definition unregister_session (session_id : Z) (self : UdpDispatcher) : UdpDispatcher :=
  mkDispatcher (delete session_id (dispatch_map self)) (session_id_counter self)
    (waiting self) (dropping self) (received self) (dispatched self).

(** The drop of a [UdpSession]: [unregister_session], which blocks while
    [dispatch] holds a reference to the entry. *)
Definition drop_session (session_id : Z) (self : UdpDispatcher) : UdpDispatcher :=
  let blocked := mkDispatcher (dispatch_map self) (session_id_counter self)
                   (waiting self) ({[session_id]} ∪ dropping self) (received self)
                   (dispatched self) in
  match waiting self with
  | Some (sid, _) =>
    if decide (sid = session_id) then blocked else unregister_session session_id self
  | None => unregister_session session_id self
  end.

(** The dispatcher task runs only while it is not waiting; a session whose drop
    is blocked does nothing else. *)
Inductive session_step : UdpDispatcher → UdpDispatcher → Prop :=
  | step_dispatch sid data addr self :
      waiting self = None →
      session_step self (dispatch sid data addr self)
  | step_recv sid self :
      sid ∉ dropping self → session_step self (snd (recv_from sid self))
  | step_drop sid self :
      sid ∉ dropping self → is_Some (dispatch_map self !! sid) →
      session_step self (drop_session sid self).

(** The states reached after [n] sessions were opened. *)
Inductive dispatcher_reach : nat → UdpDispatcher → Prop :=
  | reach_start : dispatcher_reach 0 dispatcher_new
  | reach_open n self :
      dispatcher_reach n self → dispatcher_reach (S n) (snd (open_associate self))
  | reach_step n self self' :
      dispatcher_reach n self → session_step self self' → dispatcher_reach n self'.

(** ** Invariant *)

(** The item that waits for room in a session's queue. *)
Definition waiting_for (sid : Z) (self : UdpDispatcher) : list Item :=
  match waiting self with
  | Some (s, x) => if decide (s = sid) then [x] else []
  | None => []
  end.

Definition queues_ok (self : UdpDispatcher) : Prop :=
  (∀ sid q, dispatch_map self !! sid = Some q →
     (length q ≤ UDP_SESSION_CHANNEL_BUFFER_SIZE)%nat
     ∧ default [] (received self !! sid) ++ q ++ waiting_for sid self
       = default [] (dispatched self !! sid))
  ∧ (∀ sid x, waiting self = Some (sid, x) →
     ∃ q, dispatch_map self !! sid = Some q ∧ q ≠ []).

Lemma push_eq m sid x : default [] (push m sid x !! sid) = default [] (m !! sid) ++ [x].
Proof. unfold push. by rewrite lookup_insert_eq. Qed.

Lemma push_ne m sid sid' x : sid ≠ sid' → push m sid x !! sid' = m !! sid'.
Proof. intros. unfold push. by rewrite lookup_insert_ne. Qed.

Lemma push_lookup m sid x q : m !! sid = Some q → push m sid x = <[sid := q ++ [x]]> m.
Proof. unfold push. by intros ->. Qed.

Lemma queues_ok_ext self self' :
  dispatch_map self' = dispatch_map self → waiting self' = waiting self →
  received self' = received self → dispatched self' = dispatched self →
  queues_ok self → queues_ok self'.
Proof.
  intros E1 E2 E3 E4 [Hq Hw]. split.
  - intros sid q. rewrite E1, E3, E4. unfold waiting_for. rewrite E2. apply Hq.
  - intros sid x. rewrite E2, E1. apply Hw.
Qed.

Lemma open_associate_ok self :
  queues_ok self →
  (∀ sid, is_Some (dispatch_map self !! sid) → sid ≠ session_id_counter self) →
  queues_ok (snd (open_associate self)).
Proof.
  intros [Hq Hw] Hfresh. split; cbn.
  - intros s q. destruct (decide (session_id_counter self = s)) as [<-|Hne].
    + rewrite !lookup_insert_eq. intros [= <-]. cbn. split; [lia|].
      unfold waiting_for. cbn. destruct (waiting self) as [[s x]|] eqn:E; [|done].
      rewrite decide_False; [done|]. apply Hfresh.
      destruct (Hw s x eq_refl) as (q & -> & _). by eexists.
    + rewrite !lookup_insert_ne by done. apply Hq.
  - intros s x E. destruct (Hw s x E) as (q & Hl & Hne). exists q.
    split; [|done]. rewrite lookup_insert_ne; [done|].
    intros <-. apply (Hfresh (session_id_counter self)); [|done]. rewrite Hl. by eexists.
Qed.

Lemma dispatch_ok sid data addr self :
  waiting self = None → queues_ok self → queues_ok (dispatch sid data addr self).
Proof.
  intros Hn [Hq Hw].
  unfold dispatch. destruct (dispatch_map self !! sid) as [q|] eqn:E; [|by split].
  assert (∀ s, waiting_for s self = []) as Hwf by (intros; unfold waiting_for; by rewrite Hn).
  destruct (Hq sid q E) as [Hl Hlog]. rewrite Hwf, app_nil_r in Hlog.
  destruct (Nat.ltb_spec (length q) UDP_SESSION_CHANNEL_BUFFER_SIZE); split; cbn; try done.
  + intros s q'. destruct (decide (sid = s)) as [<-|Hne].
    * rewrite (push_lookup _ _ _ q), lookup_insert_eq by done. intros [= <-].
      rewrite length_app, push_eq, <-Hlog, app_nil_r. simpl.
      split; [lia|]. by rewrite (assoc_L (++)).
    * rewrite !push_ne by done. intros Hs. destruct (Hq s q' Hs) as [? Hlog'].
      by rewrite Hwf in Hlog'.
  + intros s q' Hs. destruct (Hq s q' Hs) as [Hl' Hlog']. rewrite Hwf in Hlog'.
    split; [done|]. unfold waiting_for. cbn. destruct (decide (sid = s)) as [<-|Hne].
    * rewrite push_eq. assert (q' = q) as -> by congruence.
      by rewrite <-Hlog, (assoc_L (++)).
    * by rewrite push_ne.
  + intros s x [= <- <-]. exists q. split; [done|]. intros ->.
    unfold UDP_SESSION_CHANNEL_BUFFER_SIZE in *. simpl in *. lia.
Qed.

Lemma recv_from_ok sid self : queues_ok self → queues_ok (snd (recv_from sid self)).
Proof.
  intros [Hq Hw].
  unfold recv_from. destruct (dispatch_map self !! sid) as [[|x q]|] eqn:E;
    [by split| |by split].
  destruct (Hq sid _ E) as [Hl Hlog]. simpl in Hl.
  assert (∀ w m, (∀ s, s ≠ sid → waiting_for s (mkDispatcher m 0 w ∅ ∅ ∅) = waiting_for s self) →
    ∀ s q', s ≠ sid → dispatch_map self !! s = Some q' →
    (length q' ≤ UDP_SESSION_CHANNEL_BUFFER_SIZE)%nat
    ∧ default [] (push (received self) sid x !! s) ++ q'
        ++ waiting_for s (mkDispatcher m 0 w ∅ ∅ ∅)
      = default [] (dispatched self !! s)) as Hother.
  { intros w m Hsame s q' Hne Hs. rewrite Hsame, push_ne by done. by apply Hq. }
  unfold waiting_for in Hlog.
  destruct (waiting self) as [[s0 y]|] eqn:Ew; [destruct (decide (s0 = sid)) as [->|Hne0]|].
  all: split; cbn [snd dispatch_map received dispatched waiting].
  + intros s q'. destruct (decide (sid = s)) as [<-|Hne].
    * rewrite lookup_insert_eq. intros [= <-].
      rewrite length_app, push_eq, <-Hlog. simpl. split; [lia|].
      by rewrite app_nil_r, <-app_assoc.
    * rewrite lookup_insert_ne by done. intros Hs.
      refine (Hother None ∅ _ s q' _ Hs); [|done].
      intros s1 H1. unfold waiting_for. cbn. rewrite Ew. by rewrite decide_False.
  + done.
  + intros s q'. destruct (decide (sid = s)) as [<-|Hne].
    * rewrite lookup_insert_eq. intros [= <-]. unfold waiting_for.
      cbn [waiting]. rewrite decide_False by done.
      rewrite push_eq, <-Hlog. split; [lia|].
      by rewrite <-app_assoc.
    * rewrite lookup_insert_ne by done. intros Hs.
      refine (Hother (Some (s0, y)) ∅ _ s q' _ Hs); [|done].
      intros s1 H1. unfold waiting_for. cbn. by rewrite Ew.
  + intros s z [= <- <-]. destruct (Hw s0 y eq_refl) as (q' & Hl' & Hn').
    exists q'. by rewrite lookup_insert_ne.
  + intros s q'. destruct (decide (sid = s)) as [<-|Hne].
    * rewrite lookup_insert_eq. intros [= <-].
      rewrite push_eq, <-Hlog. split; [lia|]. by rewrite <-app_assoc.
    * rewrite lookup_insert_ne by done. intros Hs.
      refine (Hother None ∅ _ s q' _ Hs); [|done].
      intros s1 H1. unfold waiting_for. cbn. by rewrite Ew.
  + done.
Qed.

Lemma drop_session_ok sid self : queues_ok self → queues_ok (drop_session sid self).
Proof.
  intros [Hq Hw].
  unfold drop_session, unregister_session. destruct (waiting self) as [[s x]|] eqn:Ew;
    [destruct (decide (s = sid)) as [->|Hne]|].
  + apply (queues_ok_ext self); cbn; [done|by rewrite Ew|done..|].
    split; [done|]. by rewrite Ew.
  + split; cbn [dispatch_map received dispatched waiting].
    * intros s' q [_ Hs]%lookup_delete_Some. destruct (Hq s' q Hs) as [? H2].
      split; [done|]. unfold waiting_for in *. by rewrite Ew in H2.
    * intros s' x' [= <- <-]. destruct (Hw s x eq_refl) as (q & Hl & Hn).
      exists q. by rewrite lookup_delete_ne.
  + split; cbn [dispatch_map received dispatched waiting]; [|done].
    intros s' q [_ Hs]%lookup_delete_Some. destruct (Hq s' q Hs) as [? H2].
    split; [done|]. unfold waiting_for in *. by rewrite Ew in H2.
Qed.

Lemma session_step_ok self self' :
  queues_ok self → session_step self self' → queues_ok self'.
Proof.
  intros Hok Hs. destruct Hs; [by apply dispatch_ok|by apply recv_from_ok|by apply drop_session_ok].
Qed.

(** Session ids are handed out in order and none is in use twice. *)
Definition ids_ok (n : nat) (self : UdpDispatcher) : Prop :=
  session_id_counter self = as_u64 (1 + Z.of_nat n)
  ∧ ∀ sid, is_Some (dispatch_map self !! sid) → 0 < sid ≤ Z.of_nat n.

Lemma session_step_ids n self self' :
  ids_ok n self → session_step self self' → ids_ok n self'.
Proof.
  intros [Hc Hi] Hs.
  assert (session_id_counter self' = session_id_counter self
    ∧ ∀ sid, is_Some (dispatch_map self' !! sid) → is_Some (dispatch_map self !! sid))
    as [E Hsub].
  { destruct Hs as [sid data addr self Hn|sid self Hd|sid self Hd Hsome].
    - unfold dispatch. destruct (dispatch_map self !! sid) as [q|] eqn:E; [|done].
      destruct (Nat.ltb _ _); split; try done. cbn. intros s.
      rewrite (push_lookup _ _ _ q) by done.
      destruct (decide (sid = s)) as [<-|]; [by rewrite E|by rewrite lookup_insert_ne].
    - unfold recv_from. destruct (dispatch_map self !! sid) as [[|x q]|] eqn:E; try done.
      destruct (waiting self) as [[s0 y]|]; [case_decide|]; (split; [done|]); cbn;
        intros s; (destruct (decide (sid = s)) as [<-|];
          [by rewrite E|by rewrite lookup_insert_ne]).
    - unfold drop_session, unregister_session.
      assert (∀ s, is_Some (delete sid (dispatch_map self) !! s) →
                is_Some (dispatch_map self !! s)) as Hdel.
      { intros s [q [_ Hq]%lookup_delete_Some]. by exists q. }
      destruct (waiting self) as [[s0 y]|]; [case_decide|]; done. }
  split; [congruence|]. intros sid Hs'. by apply Hi, Hsub.
Qed.

Lemma dispatcher_reach_ok n self :
  dispatcher_reach n self → Z.of_nat n < 2 ^ 64 - 1 → queues_ok self ∧ ids_ok n self.
Proof.
  induction 1 as [|n self Hr IH|n self self' Hr IH Hs]; intros Hn.
  - split; [by split|]. split; [done|]. intros sid [q Hq]. done.
  - destruct IH as [Hq [Hc Hi]]; [lia|].
    rewrite wrap_small in Hc by width_lia. split.
    + apply open_associate_ok; [done|]. intros sid Hs. specialize (Hi sid Hs). lia.
    + split; cbn.
      * rewrite Hc. f_equal. lia.
      * intros sid. destruct (decide (session_id_counter self = sid)) as [<-|Hne].
        -- intros _. lia.
        -- rewrite lookup_insert_ne by done. intros Hs. specialize (Hi sid Hs). lia.
  - destruct (IH Hn) as [Hq Hi]. split; [by eapply session_step_ok|].
    by eapply session_step_ids.
Qed.

(** ** Properties *)

(** Packets reach their own session, in order and without loss: in every
    state of the dispatcher, what a live session has received, then its queue,
    then the packet that waits for room in it, are exactly the packets that
    arrived for it since it was opened. Queues hold at most 128, and a new
    session never gets the id of a live one. *)
Theorem dispatch_fifo n self sid q :
  dispatcher_reach n self → Z.of_nat n < 2 ^ 64 - 1 →
  dispatch_map self !! sid = Some q →
  default [] (received self !! sid) ++ q ++ waiting_for sid self
    = default [] (dispatched self !! sid)
  ∧ (length q ≤ UDP_SESSION_CHANNEL_BUFFER_SIZE)%nat
  ∧ fst (open_associate self) ≠ sid.
Proof.
  intros Hr Hn Hs. destruct (dispatcher_reach_ok n self Hr Hn) as [[Hq _] [Hc Hi]].
  destruct (Hq sid q Hs) as [Hl Hlog]. split_and!; [done..|].
  cbn. rewrite Hc, wrap_small by width_lia.
  assert (0 < sid ≤ Z.of_nat n); [|lia]. apply Hi. by eexists.
Qed.

Lemma dispatch_fifo_witness :
  let self := dispatch 1 [Byte.x61] (Domain [] 1) (snd (open_associate dispatcher_new)) in
  dispatcher_reach 1 self ∧ fst (open_associate self) ≠ 1.
Proof.
  intros self. assert (dispatcher_reach 1 self) as H.
  { eapply reach_step; [apply reach_open, reach_start|]. by constructor. }
  split; [exact H|].
  exact (proj2 (proj2 (dispatch_fifo 1 self 1 [([Byte.x61], Domain [] 1)] H
    ltac:(lia) eq_refl))).
Defined.

(** A dispatcher that waits on a session whose drop is blocked. *)
Definition deadlocked (sid : Z) (self : UdpDispatcher) : Prop :=
  (∃ x, waiting self = Some (sid, x)) ∧ sid ∈ dropping self.

Lemma deadlocked_stays sid self self' :
  deadlocked sid self → session_step self self' → deadlocked sid self'.
Proof.
  intros [[x Hw] Hd] Hs.
  destruct Hs as [s data addr self Hn|s self Hr|s self Hr Hsome]; [congruence|..].
  - unfold recv_from. destruct (dispatch_map self !! s) as [[|y q]|] eqn:E;
      [by split; [exists x|]| |by split; [exists x|]].
    rewrite Hw. rewrite decide_False by congruence. split; [by exists x|done].
  - unfold drop_session, unregister_session. rewrite Hw. case_decide; (split; [by exists x|]); cbn;
      [set_solver|done].
Qed.

Fixpoint fill (n : nat) (self : UdpDispatcher) : UdpDispatcher :=
  match n with
  | O => self
  | S n => dispatch 1 [] (Domain [] 0) (fill n self)
  end.

(** C33. Dropping a session while its queue is full and another packet for it
    waits blocks both sides for good: the drop waits for the dispatcher's
    reference, the dispatcher for room that only the dropped session could
    make. The state is reached after one session and 129 packets, and no later
    step of any session leads out of it, so no session gets another packet. *)
Theorem dispatcher_deadlock :
  dispatcher_reach 1
    (drop_session 1 (fill 129 (snd (open_associate dispatcher_new))))
  ∧ deadlocked 1 (drop_session 1 (fill 129 (snd (open_associate dispatcher_new))))
  ∧ ∀ sid self self', deadlocked sid self → rtc session_step self self' →
      deadlocked sid self' ∧ waiting self' = waiting self.
Proof.
  assert (∀ n, (n < 129)%nat →
    waiting (fill n (snd (open_associate dispatcher_new))) = None) as Hn.
  { assert (forallb (λ n, bool_decide
      (waiting (fill n (snd (open_associate dispatcher_new))) = None)) (seq 0 129) = true)
      as H by (vm_compute; reflexivity).
    intros n Hl. rewrite forallb_forall in H.
    eapply bool_decide_eq_true, H. apply in_seq. lia. }
  assert (∀ n, (n ≤ 129)%nat →
    dispatcher_reach 1 (fill n (snd (open_associate dispatcher_new)))) as Hreach.
  { induction n as [|n IH]; intros Hl; [apply reach_open, reach_start|].
    eapply reach_step; [apply IH; lia|]. cbn [fill]. apply step_dispatch, Hn. lia. }
  split_and!.
  - eapply reach_step; [by apply (Hreach 129%nat)|]. apply step_drop.
    + decide_now.
    + decide_now.
  - split; [eexists; vm_compute; reflexivity|]. decide_now.
  - intros sid self self' Hd Hr. induction Hr as [|x y z Hs _ IH]; [done|].
    pose proof (deadlocked_stays _ _ _ Hd Hs) as Hd'. destruct (IH Hd') as [H1 H2].
    split; [done|]. rewrite H2. clear -Hd Hs. destruct Hd as [[i Hw] Hin].
    destruct Hs as [s data addr self Hn|s self Hr|s self Hr Hsome]; [congruence|..].
    + unfold recv_from. destruct (dispatch_map self !! s) as [[|w q]|]; try done.
      rewrite Hw, decide_False by congruence. by rewrite <-Hw.
    + unfold drop_session, unregister_session. rewrite Hw. by case_decide.
Qed.
