(* ===== verification/FakeDns.v ===== *)
(** The fake name server of the tun endpoint
    (crates/ombrac-client/src/endpoint/tun.rs, module [fakedns]): it answers
    each A query with an address of its pool and remembers the name, so that a
    connection to that address can be sent to the name. *)

From S2P Require Import Prelude Std.

#[local] Open Scope Z_scope.

Definition DNS_RESPONSE_TTL : Z := 5.
(** Seconds. *)
Definition CACHE_TTL : Z := DNS_RESPONSE_TTL + 7 * 24 * 60 * 60.

(** A domain name, an IPv4 address as a [u32]. *)
Abbreviation Name := Bytes.
Abbreviation Ip := Z.

(** ** Messages of the [hickory] crate, as far as the code looks at them *)

Inductive QueryType := TypeA | TypeOther.
Record Question := mkQuestion { question_name : Name; query_type : QueryType }.
Inductive MessageType := Query | Response.
Inductive ResponseCode := NoError | Refused.
Record Answer := mkAnswer { answer_name : Name; answer_ttl : Z; answer_ip : Ip }.
Record Message := mkMessage {
  message_type : MessageType;
  response_code : ResponseCode;
  queries : list Question;
  answers : list Answer
}.

(** ** State *)

(** [FakeDns]. The caches are [moka] caches: an entry can expire between two calls,
    and [domain_to_ip] and [ip_to_domain] hold the entries that a lookup sees.
    [pending] are the queries that have been allocated an address, [inserting]
    those of them that have entered it in [ip_to_domain] and not yet in
    [domain_to_ip]; [expiring] are the entries of [ip_to_domain] that lookups no
    longer see and whose eviction listener has not run, [invalidated] the addresses
    whose listener has forgotten the name and not yet recycled the address. *)
Record FakeDns := mkFakeDns {
  network : Z;
  max_hosts : Z;
  domain_to_ip : gmap Name Ip;
  ip_to_domain : gmap Ip Name;
  recycled_ips : list Ip;
  cursor : Z;
  pending : list (Name * Ip);
  inserting : list (Name * Ip);
  expiring : list (Ip * Name);
  invalidated : list Ip
}.

(** [FakeDns::new]: [network] and the number of host addresses come from the
    [ipnet] crate. *)
Definition fakedns_new (network max_hosts : Z) : FakeDns :=
  mkFakeDns network max_hosts ∅ ∅ [] 2 [] [] [] [].

Section updates.
Context (self : FakeDns).
Definition set_domains (d : gmap Name Ip) : FakeDns :=
  mkFakeDns (network self) (max_hosts self) d (ip_to_domain self) (recycled_ips self)
    (cursor self) (pending self) (inserting self) (expiring self) (invalidated self).
Definition set_pool (recycled : list Ip) (cursor : Z) : FakeDns :=
  mkFakeDns (network self) (max_hosts self) (domain_to_ip self) (ip_to_domain self) recycled
    cursor (pending self) (inserting self) (expiring self) (invalidated self).
Definition set_queries (pending inserting : list (Name * Ip)) : FakeDns :=
  mkFakeDns (network self) (max_hosts self) (domain_to_ip self) (ip_to_domain self)
    (recycled_ips self) (cursor self) pending inserting (expiring self) (invalidated self).
Definition set_ips (i : gmap Ip Name) (expiring : list (Ip * Name)) (invalidated : list Ip)
    : FakeDns :=
  mkFakeDns (network self) (max_hosts self) (domain_to_ip self) i (recycled_ips self)
    (cursor self) (pending self) (inserting self) expiring invalidated.
End updates.

(** [allocate_unique_ip]: the compare-and-exchange makes taking the cursor one
    step. The sums are [u32] additions. *)
Definition allocate_unique_ip (self : FakeDns) : option Ip * FakeDns :=
  match recycled_ips self with
  | ip :: rest => (Some ip, set_pool self rest (cursor self))
  | [] =>
    let current := cursor self in
    if current >=? max_hosts self then (None, self)
    else
      (Some (as_u32 (as_u32 (network self + 1) + current)),
       set_pool self [] (as_u32 (current + 1)))
  end.

(** What [handle_dns_query] answers for an address. *)
Definition answer_with (query : Message) (name : Name) (ip : Ip) : Message :=
  mkMessage Response NoError (queries query)
    (answers query ++ [mkAnswer name DNS_RESPONSE_TTL ip]).

(** The first part of [handle_dns_query], up to the insertions: a response, or
    the name that was allocated an address, or nothing. *)
Inductive QueryOutcome :=
  | Respond (m : Message)
  | Allocated (name : Name) (ip : Ip)
  | NoResponse.

Definition begin_dns_query (parsed : option Message) (self : FakeDns)
    : QueryOutcome * FakeDns :=
  match parsed with
  | None => (NoResponse, self)
  | Some query =>
    match queries query with
    | [] => (NoResponse, self)
    | question :: _ =>
      let domain_name := question_name question in
      match query_type question with
      | TypeOther =>
        (Respond (mkMessage Response Refused (queries query) (answers query)), self)
      | TypeA =>
        match domain_to_ip self !! domain_name with
        | Some ip => (Respond (answer_with query domain_name ip), self)
        | None =>
          match allocate_unique_ip self with
          | (None, self) => (NoResponse, self)
          | (Some new_ip, self) =>
            (Allocated domain_name new_ip,
             set_queries self ((domain_name, new_ip) :: pending self) (inserting self))
          end
        end
      end
    end
  end.

(** The insertions of [handle_dns_query], each an await of its own: the [i]th pending
    query enters its address in [ip_to_domain], *)
Definition insert_ip (i : nat) (self : FakeDns) : FakeDns :=
  match pending self !! i with
  | None => self
  | Some (domain_name, new_ip) =>
    set_queries
      (set_ips self (<[new_ip := domain_name]> (ip_to_domain self)) (expiring self)
         (invalidated self))
      (delete i (pending self)) ((domain_name, new_ip) :: inserting self)
  end.

(** and the [i]th of those that did enters its name in [domain_to_ip]. *)
Definition insert_domain (i : nat) (self : FakeDns) : FakeDns :=
  match inserting self !! i with
  | None => self
  | Some (domain_name, new_ip) =>
    set_queries (set_domains self (<[domain_name := new_ip]> (domain_to_ip self)))
      (pending self) (delete i (inserting self))
  end.

(** [handle_dns_query], when nothing runs between its awaits. *)
Definition handle_dns_query (parsed : option Message) (self : FakeDns)
    : option Message * FakeDns :=
  match begin_dns_query parsed self with
  | (Respond m, self) => (Some m, self)
  | (NoResponse, self) => (None, self)
  | (Allocated name ip, self) =>
    (match parsed with Some query => Some (answer_with query name ip) | None => None end,
     insert_domain 0 (insert_ip 0 self))
  end.

(** An entry of [ip_to_domain] expires: lookups no longer see it, *)
Definition expire_ip (ip : Ip) (self : FakeDns) : FakeDns :=
  match ip_to_domain self !! ip with
  | None => self
  | Some name =>
    set_ips self (delete ip (ip_to_domain self)) ((ip, name) :: expiring self) (invalidated self)
  end.

(** some time later the cache removes it and runs the eviction listener, which
    first forgets the name, *)
Definition listener_invalidate (i : nat) (self : FakeDns) : FakeDns :=
  match expiring self !! i with
  | None => self
  | Some (ip, name) =>
    set_ips (set_domains self (delete name (domain_to_ip self))) (ip_to_domain self)
      (delete i (expiring self)) (ip :: invalidated self)
  end.

(** and then recycles the address. *)
Definition listener_recycle (i : nat) (self : FakeDns) : FakeDns :=
  match invalidated self !! i with
  | None => self
  | Some ip =>
    set_pool (set_ips self (ip_to_domain self) (expiring self) (delete i (invalidated self)))
      (recycled_ips self ++ [ip]) (cursor self)
  end.

(** The expiry of a name. *)
Definition expire_domain (name : Name) (self : FakeDns) : FakeDns :=
  set_domains self (delete name (domain_to_ip self)).

(** [get_domain_by_ip]: [None] for an IPv6 address. *)
Definition get_domain_by_ip (ip : option Ip) (self : FakeDns) : option Name :=
  ip ← ip; ip_to_domain self !! ip.

(** An entry of [ip_to_domain] expires a week after its last use, so not while the
    query that made it is between its two insertions. *)
Inductive fakedns_step : FakeDns → FakeDns → Prop :=
  | step_begin parsed self : fakedns_step self (snd (begin_dns_query parsed self))
  | step_insert_ip i self : fakedns_step self (insert_ip i self)
  | step_insert_domain i self : fakedns_step self (insert_domain i self)
  | step_expire_ip ip self :
      ip ∉ (inserting self).*2 → fakedns_step self (expire_ip ip self)
  | step_invalidate i self : fakedns_step self (listener_invalidate i self)
  | step_recycle i self : fakedns_step self (listener_recycle i self)
  | step_expire_domain name self : fakedns_step self (expire_domain name self).

(** ** Invariant *)

(** The addresses that were taken from the pool, wherever they are now. *)
Definition taken_ips (self : FakeDns) : list Ip :=
  (map_to_list (ip_to_domain self)).*1 ++ (expiring self).*1 ++ invalidated self
  ++ recycled_ips self ++ (pending self).*2.

(** The pool: the addresses after the first two hosts, to the last host. *)
Definition in_pool (self : FakeDns) (ip : Ip) : Prop :=
  network self + 3 ≤ ip < network self + 1 + cursor self.

(** What a query would be answered, and a query about to enter its name, point to a
    live entry of that name, or (the first) to one whose eviction is under way. *)
Definition names_ok (self : FakeDns) : Prop :=
  (∀ name ip, domain_to_ip self !! name = Some ip →
     ip_to_domain self !! ip = Some name ∨ (ip, name) ∈ expiring self)
  ∧ (∀ name ip, (name, ip) ∈ inserting self → ip_to_domain self !! ip = Some name).

Definition fakedns_ok (self : FakeDns) : Prop :=
  0 ≤ network self ∧ network self + max_hosts self < 2 ^ 32
  ∧ 2 ≤ cursor self ≤ Z.max 2 (max_hosts self)
  ∧ NoDup (taken_ips self)
  ∧ Forall (in_pool self) (taken_ips self)
  ∧ names_ok self.

(** Moving addresses between the places keeps them the same addresses. *)
Lemma fakedns_ok_perm self self' :
  fakedns_ok self → network self' = network self → max_hosts self' = max_hosts self →
  cursor self' = cursor self → taken_ips self' ≡ₚ taken_ips self → names_ok self' →
  fakedns_ok self'.
Proof.
  intros (H1 & H2 & H3 & H4 & H5 & _) E1 E2 E3 Hp H6.
  unfold fakedns_ok, in_pool. rewrite E1, E2, E3, Hp. done.
Qed.

Lemma live_elem self ip :
  ip ∈ (map_to_list (ip_to_domain self)).*1 ↔ is_Some (ip_to_domain self !! ip).
Proof.
  rewrite list_elem_of_fmap. split.
  - intros ([i n] & -> & H%elem_of_map_to_list). by eexists.
  - intros [n H]. exists (ip, n). split; [done|]. by apply elem_of_map_to_list.
Qed.

Lemma elem_of_taken self ip :
  ip ∈ taken_ips self ↔
  is_Some (ip_to_domain self !! ip) ∨ ip ∈ (expiring self).*1 ∨ ip ∈ invalidated self
  ∨ ip ∈ recycled_ips self ∨ ip ∈ (pending self).*2.
Proof. unfold taken_ips. by rewrite !elem_of_app, live_elem. Qed.

(** An address that nobody has. *)
Definition free_ip (self : FakeDns) (ip : Ip) : Prop :=
  ip_to_domain self !! ip = None ∧ ip ∉ (expiring self).*1 ∧ ip ∉ invalidated self
  ∧ ip ∉ recycled_ips self ∧ ip ∉ (pending self).*2.

Lemma free_not_taken self ip : free_ip self ip ↔ ip ∉ taken_ips self.
Proof.
  unfold free_ip. rewrite elem_of_taken, eq_None_not_Some. tauto.
Qed.

(** What [allocate_unique_ip] gives: an address that nobody has, and that is
    charged to the caller. *)
Lemma allocate_ok self ip self' :
  fakedns_ok self → allocate_unique_ip self = (Some ip, self') →
  (∃ r c, self' = set_pool self r c) ∧ free_ip self' ip ∧ in_pool self' ip
  ∧ ∀ name, fakedns_ok (set_queries self' ((name, ip) :: pending self') (inserting self')).
Proof.
  intros Hok. pose proof Hok as (H1 & H2 & H3 & H4 & H5 & H6).
  unfold allocate_unique_ip. destruct (recycled_ips self) as [|ip0 rest] eqn:Er.
  - destruct (Z.geb_spec (cursor self) (max_hosts self)) as [|Hc]; [done|].
    intros [= <- <-].
    assert (as_u32 (as_u32 (network self + 1) + cursor self)
              = network self + 1 + cursor self) as ->.
    { rewrite wrap_add_l. apply wrap_small. width_lia. }
    rewrite (wrap_small 32 (cursor self + 1)) by width_lia.
    assert (network self + 1 + cursor self ∉ taken_ips self) as Hn.
    { intros Hin. rewrite Forall_forall in H5. specialize (H5 _ Hin).
      unfold in_pool in H5. lia. }
    split_and!; [by eexists _, _| |unfold in_pool; cbn; lia|].
    + apply free_not_taken. unfold taken_ips in *. cbn. by rewrite Er in Hn.
    + intros name. set (self' := set_queries _ _ _).
      assert (taken_ips self' ≡ₚ (network self + 1 + cursor self) :: taken_ips self) as Hp.
      { unfold taken_ips, self'. cbn. rewrite Er. cbn. by rewrite <-!Permutation_middle. }
      split_and!; cbn; [done|done|lia|lia| | |by apply H6..].
      * rewrite Hp. by constructor.
      * rewrite Hp. constructor; [unfold in_pool; cbn; lia|].
        eapply Forall_impl; [exact H5|]. unfold in_pool. cbn. lia.
  - intros [= <- <-].
    assert (taken_ips self ≡ₚ ip0 :: taken_ips (set_pool self rest (cursor self))) as Hp.
    { unfold taken_ips. cbn. rewrite Er. cbn. by rewrite <-!Permutation_middle. }
    rewrite Hp in H4, H5. apply NoDup_cons in H4 as [Hn _].
    split_and!; [by eexists _, _|by apply free_not_taken|by apply Forall_inv in H5|].
    intros name. apply (fakedns_ok_perm self); try done. rewrite Hp.
    unfold taken_ips. cbn. by rewrite <-!Permutation_middle.
Qed.

Lemma begin_dns_query_ok parsed self :
  fakedns_ok self → fakedns_ok (snd (begin_dns_query parsed self)).
Proof.
  intros Hok. unfold begin_dns_query. destruct parsed as [query|]; [|done].
  destruct (queries query) as [|q qs]; [done|].
  destruct (query_type q); [|done].
  destruct (domain_to_ip self !! question_name q); [done|].
  destruct (allocate_unique_ip self) as [[ip|] self'] eqn:E.
  - destruct (allocate_ok self ip self' Hok E) as (_ & _ & _ & H). apply H.
  - unfold allocate_unique_ip in E. destruct (recycled_ips self); [|done].
    destruct (_ >=? _); [|done]. by injection E as <-.
Qed.

Lemma delete_Permutation_cons {A} (l : list A) i x : l !! i = Some x → l ≡ₚ x :: delete i l.
Proof.
  intros H. rewrite <-(take_drop_middle _ _ _ H) at 1.
  rewrite delete_take_drop. by rewrite <-Permutation_middle.
Qed.

Lemma insert_ip_ok i self : fakedns_ok self → fakedns_ok (insert_ip i self).
Proof.
  intros Hok. pose proof Hok as (_ & _ & _ & H4 & _ & [H6 H7]).
  unfold insert_ip. destruct (pending self !! i) as [[d ip]|] eqn:E; [|done].
  pose proof (fmap_Permutation snd _ _ (delete_Permutation_cons _ _ _ E)) as Hp. cbn in Hp.
  unfold taken_ips in H4. rewrite Hp, <-!Permutation_middle in H4.
  apply NoDup_cons in H4 as [Hn _]. rewrite !elem_of_app, live_elem in Hn.
  assert (ip_to_domain self !! ip = None) as Hlive by (apply eq_None_not_Some; tauto).
  apply (fakedns_ok_perm self); try done; cbn.
  - unfold taken_ips. cbn. rewrite map_to_list_insert, fmap_cons, Hp by done. cbn.
    by rewrite <-!Permutation_middle.
  - split; cbn.
    + intros name ip' Hd. destruct (H6 _ _ Hd) as [Hi|]; [left|by right].
      rewrite lookup_insert_ne; [done|congruence].
    + intros name ip' [[= -> ->]|Hin]%elem_of_cons; [by rewrite lookup_insert_eq|].
      specialize (H7 _ _ Hin). rewrite lookup_insert_ne; [done|congruence].
Qed.

Lemma insert_domain_ok i self : fakedns_ok self → fakedns_ok (insert_domain i self).
Proof.
  intros Hok. pose proof Hok as (_ & _ & _ & _ & _ & [H6 H7]).
  unfold insert_domain. destruct (inserting self !! i) as [[d ip]|] eqn:E; [|done].
  apply (fakedns_ok_perm self); try done. split; cbn.
  - intros name ip' [[<- <-]|[_ Hd]]%lookup_insert_Some; [left|by apply H6].
    apply H7. by eapply list_elem_of_lookup_2.
  - intros name ip' Hin. apply H7. rewrite (delete_Permutation_cons _ _ _ E). by right.
Qed.

Lemma expire_ip_ok ip self :
  ip ∉ (inserting self).*2 → fakedns_ok self → fakedns_ok (expire_ip ip self).
Proof.
  intros Hni Hok. pose proof Hok as (_ & _ & _ & _ & _ & [H6 H7]).
  unfold expire_ip. destruct (ip_to_domain self !! ip) as [d|] eqn:E; [|done].
  apply (fakedns_ok_perm self); try done; cbn.
  - unfold taken_ips. cbn. rewrite <-(insert_delete_id _ _ _ E) at 2.
    rewrite map_to_list_insert, fmap_cons by apply lookup_delete_eq. cbn.
    by rewrite <-!Permutation_middle.
  - split; cbn.
    + intros name ip' Hd. destruct (H6 _ _ Hd) as [Hi|Hx]; [|right; by right].
      destruct (decide (ip' = ip)) as [->|Hne].
      * right. replace d with name by congruence. left.
      * left. by rewrite lookup_delete_ne.
    + intros name ip' Hin. rewrite lookup_delete_ne; [by apply H7|].
      intros ->. apply Hni. apply list_elem_of_fmap. by exists (name, ip').
Qed.

Lemma listener_invalidate_ok i self :
  fakedns_ok self → fakedns_ok (listener_invalidate i self).
Proof.
  intros Hok. pose proof Hok as (_ & _ & _ & _ & _ & [H6 H7]).
  unfold listener_invalidate. destruct (expiring self !! i) as [[ip d]|] eqn:E; [|done].
  pose proof (delete_Permutation_cons _ _ _ E) as Hp.
  pose proof (fmap_Permutation fst _ _ Hp) as Hp1. cbn in Hp1.
  apply (fakedns_ok_perm self); try done; cbn.
  - unfold taken_ips. cbn. rewrite Hp1. cbn. by rewrite <-!Permutation_middle.
  - split; cbn; [|done]. intros name ip' [Hne Hd]%lookup_delete_Some.
    destruct (H6 _ _ Hd) as [|Hx]; [by left|right]. rewrite Hp in Hx.
    apply elem_of_cons in Hx as [[= _ ->]|Hx]; done.
Qed.

Lemma listener_recycle_ok i self : fakedns_ok self → fakedns_ok (listener_recycle i self).
Proof.
  intros Hok. pose proof Hok as (_ & _ & _ & _ & _ & H6).
  unfold listener_recycle. destruct (invalidated self !! i) as [ip|] eqn:E; [|done].
  pose proof (delete_Permutation_cons _ _ _ E) as Hp.
  apply (fakedns_ok_perm self); try done; cbn.
  unfold taken_ips. cbn. revert Hp. generalize (delete i (invalidated self)) as l. intros l ->.
  rewrite <-(assoc_L (++) (recycled_ips self)). cbn. by rewrite <-!Permutation_middle.
Qed.

Lemma expire_domain_ok name self : fakedns_ok self → fakedns_ok (expire_domain name self).
Proof.
  intros Hok. pose proof Hok as (_ & _ & _ & _ & _ & [H6 H7]).
  apply (fakedns_ok_perm self); try done. split; [|done]. cbn.
  intros name' ip' [_ Hd]%lookup_delete_Some. by apply H6.
Qed.

Lemma fakedns_step_ok self self' :
  fakedns_ok self → fakedns_step self self' → fakedns_ok self'.
Proof.
  intros Hok Hs. destruct Hs;
    [by apply begin_dns_query_ok|by apply insert_ip_ok|by apply insert_domain_ok
    |by apply expire_ip_ok|by apply listener_invalidate_ok|by apply listener_recycle_ok
    |by apply expire_domain_ok].
Qed.

Lemma fakedns_new_ok network max_hosts :
  0 ≤ network → network + max_hosts < 2 ^ 32 → fakedns_ok (fakedns_new network max_hosts).
Proof.
  intros H1 H2. split_and!; cbn; [lia|lia|lia|lia|constructor|constructor|].
  split; cbn; [done|]. by intros ?? ?%elem_of_nil.
Qed.

Lemma fakedns_reach_ok network max_hosts self :
  0 ≤ network → network + max_hosts < 2 ^ 32 →
  rtc fakedns_step (fakedns_new network max_hosts) self → fakedns_ok self.
Proof.
  intros H1 H2 Hr. pose proof (fakedns_new_ok network max_hosts H1 H2) as H0.
  revert H0. induction Hr as [|x y z Hs _ IH]; [done|]. intros H0.
  apply IH. by eapply fakedns_step_ok.
Qed.

Lemma fakedns_params self self' :
  rtc fakedns_step self self' →
  network self' = network self ∧ max_hosts self' = max_hosts self.
Proof.
  induction 1 as [|x y z Hs _ [IH1 IH2]]; [done|]. rewrite IH1, IH2. clear -Hs.
  destruct Hs as [parsed self|i self|i self|ip self _|i self|i self|name self].
  - unfold begin_dns_query, allocate_unique_ip. by repeat case_match; simplify_eq.
  - unfold insert_ip. by repeat case_match.
  - unfold insert_domain. by repeat case_match.
  - unfold expire_ip. by repeat case_match.
  - unfold listener_invalidate. by repeat case_match.
  - unfold listener_recycle. by repeat case_match.
  - done.
Qed.

(** All the addresses in use are fewer than the pool has. *)
Lemma taken_bound self : fakedns_ok self → Z.of_nat (length (taken_ips self)) ≤ cursor self - 2.
Proof.
  intros (_ & _ & Hc & Hnd & Hp & _).
  assert (taken_ips self ⊆+ seqZ (network self + 3) (cursor self - 2)) as Hs.
  { apply NoDup_submseteq; [done|]. intros ip Hip. rewrite Forall_forall in Hp.
    specialize (Hp ip Hip). unfold in_pool in Hp. apply elem_of_seqZ. lia. }
  apply submseteq_length in Hs. rewrite length_seqZ in Hs. lia.
Qed.

(** ** Properties *)

(** C26. No address stands for two names, however queries, expiries and evictions
    interleave, as long as no query is held up for the week between its two
    insertions after which the first of them expires. Each name that a query would
    be answered for maps to an address that maps back to that name, so that a
    connection to it is sent to the name; or the entry of that address has expired,
    and until its eviction has forgotten the name the address maps to nothing, never
    to another name. An address newly given out is a host of the configured network
    that maps to no name and that no name maps to, that no other query is being
    given and no eviction has in hand. The cache of addresses never has as many
    entries as its capacity, the hosts of the network, so it evicts none for want of
    room. *)
Theorem fakedns_consistent net hosts self :
  0 ≤ net → net + hosts < 2 ^ 32 → 1 ≤ hosts →
  rtc fakedns_step (fakedns_new net hosts) self →
  (∀ name ip, domain_to_ip self !! name = Some ip →
     get_domain_by_ip (Some ip) self = Some name
     ∨ get_domain_by_ip (Some ip) self = None ∧ (ip, name) ∈ expiring self)
  ∧ (∀ ip self', allocate_unique_ip self = (Some ip, self') →
       net + 3 ≤ ip ≤ net + hosts
       ∧ get_domain_by_ip (Some ip) self = None
       ∧ (∀ name, domain_to_ip self !! name ≠ Some ip)
       ∧ ip ∉ (pending self).*2 ∧ ip ∉ (inserting self).*2
       ∧ ip ∉ (expiring self).*1 ∧ ip ∉ invalidated self ∧ ip ∉ recycled_ips self')
  ∧ Z.of_nat (size (ip_to_domain self) + length (expiring self)) < hosts.
Proof.
  intros H1 H2 Hh Hr. pose proof (fakedns_reach_ok _ _ _ H1 H2 Hr) as Hok.
  destruct (fakedns_params _ _ Hr) as [En Em]. cbn in En, Em.
  pose proof Hok as (_ & _ & Hc & Hnd & _ & [H6 H7]). split_and!.
  - intros name ip Hd. destruct (H6 _ _ Hd) as [Hi|Hx]; [by left|right]. split; [|done].
    cbn. destruct (ip_to_domain self !! ip) eqn:Ei; [|done]. exfalso.
    apply NoDup_app in Hnd as (_ & Hd' & _). apply (Hd' ip); [by apply live_elem; eexists|].
    apply elem_of_app. left. apply list_elem_of_fmap. by exists (ip, name).
  - intros ip self' Ha. destruct (allocate_ok self ip self' Hok Ha) as ((r & c & ->) & Hf & Hp & Hok').
    destruct Hf as (F1 & F2 & F3 & F4 & F5). destruct (Hok' []) as (_ & _ & Hc' & _).
    unfold in_pool in Hp. cbn in *. split_and!; try done; [lia|lia| |].
    + intros name Hd. destruct (H6 _ _ Hd) as [Hi|Hx]; [congruence|].
      apply F2. apply list_elem_of_fmap. by exists (ip, name).
    + intros ([name ip'] & -> & Hin)%list_elem_of_fmap. cbn in *.
      by rewrite (H7 _ _ Hin) in F1.
  - pose proof (taken_bound self Hok) as Hb. unfold taken_ips in Hb.
    rewrite !length_app, !length_fmap, length_map_to_list in Hb. lia.
Qed.

Definition demo_query (name : Name) : option Message :=
  Some (mkMessage Query NoError [mkQuestion name TypeA] []).

(** The default pool, 198.18.0.0/16. *)
Definition demo_net : Z := 198 * 2 ^ 24 + 18 * 2 ^ 16.

(** A name that was asked for, whose address has expired since. *)
Definition demo_expired : FakeDns :=
  expire_ip (demo_net + 3)
    (snd (handle_dns_query (demo_query [Byte.x61]) (fakedns_new demo_net 65534))).

Lemma demo_expired_reach : rtc fakedns_step (fakedns_new demo_net 65534) demo_expired.
Proof.
  eapply rtc_l; [apply (step_begin (demo_query [Byte.x61]))|].
  eapply rtc_l; [apply (step_insert_ip 0)|]. eapply rtc_l; [apply (step_insert_domain 0)|].
  eapply rtc_l; [apply (step_expire_ip (demo_net + 3)); decide_now|]. apply rtc_refl.
Qed.

Lemma fakedns_consistent_witness :
  domain_to_ip demo_expired !! [Byte.x61] = Some (demo_net + 3)
  ∧ (get_domain_by_ip (Some (demo_net + 3)) demo_expired = Some [Byte.x61]
     ∨ get_domain_by_ip (Some (demo_net + 3)) demo_expired = None
       ∧ (demo_net + 3, [Byte.x61]) ∈ expiring demo_expired).
Proof.
  assert (domain_to_ip demo_expired !! [Byte.x61] = Some (demo_net + 3)) as Hd
    by (vm_compute; reflexivity).
  split; [exact Hd|].
  refine (proj1 (fakedns_consistent demo_net 65534 demo_expired _ _ _ demo_expired_reach) _ _ Hd);
    unfold demo_net; lia.
Defined.

(** Queries use the entry of the name and not that of its address, which can so
    expire while the name is asked for: the query is then answered with an address
    that maps to nothing. *)
Lemma stale_answer :
  ∃ self query m ip, rtc fakedns_step (fakedns_new demo_net 65534) self
    ∧ begin_dns_query (Some query) self = (Respond m, self)
    ∧ map answer_ip (answers m) = [ip] ∧ get_domain_by_ip (Some ip) self = None.
Proof.
  eexists demo_expired, (mkMessage Query NoError [mkQuestion [Byte.x61] TypeA] []), _, _.
  split; [apply demo_expired_reach|]. split_and!; vm_compute; reflexivity.
Qed.

(** The address of an answer stands for the name asked for, if no eviction is under
    way. *)
Lemma answer_maps_back name self m self' :
  fakedns_ok self → expiring self = [] →
  handle_dns_query (Some (mkMessage Query NoError [mkQuestion name TypeA] [])) self
    = (Some m, self') →
  ∃ ip, answers m = [mkAnswer name DNS_RESPONSE_TTL ip]
    ∧ get_domain_by_ip (Some ip) self' = Some name.
Proof.
  intros (_ & _ & _ & _ & _ & [H6 _]) Hx. unfold handle_dns_query, begin_dns_query.
  cbn [queries question_name query_type].
  destruct (domain_to_ip self !! name) as [ip|] eqn:Ed.
  - intros [= <- <-]. exists ip. split; [done|].
    destruct (H6 _ _ Ed) as [|Hin]; [done|]. rewrite Hx in Hin. by apply elem_of_nil in Hin.
  - destruct (allocate_unique_ip self) as [[ip|] self1]; [|done].
    intros [= <- <-]. exists ip. split; [done|].
    unfold insert_domain, insert_ip. cbn. apply lookup_insert_eq.
Qed.

(** A name keeps its address: while no entry has expired, asking for
    it again gives the same address, whatever else is asked in between; only a
    name that is not known costs an address, and there is no answer exactly
    when the pool is used up. *)
Theorem handle_dns_query_spec name self :
  fakedns_ok self → expiring self = [] →
  let query := mkMessage Query NoError [mkQuestion name TypeA] [] in
  match handle_dns_query (Some query) self with
  | (Some m, self') =>
    ∃ ip, answers m = [mkAnswer name DNS_RESPONSE_TTL ip]
      ∧ response_code m = NoError
      ∧ domain_to_ip self' !! name = Some ip
      ∧ get_domain_by_ip (Some ip) self' = Some name
      ∧ (is_Some (domain_to_ip self !! name) → self' = self)
      ∧ (∀ other, other ≠ name → domain_to_ip self' !! other = domain_to_ip self !! other)
  | (None, self') =>
    self' = self ∧ domain_to_ip self !! name = None ∧ recycled_ips self = []
    ∧ max_hosts self ≤ cursor self
  end.
Proof.
  intros Hok Hx query. pose proof Hok as (_ & _ & _ & _ & _ & [H6 _]).
  unfold handle_dns_query, begin_dns_query. cbn [queries query].
  cbn [question_name query_type].
  destruct (domain_to_ip self !! name) as [ip|] eqn:Ed.
  { exists ip. split_and!; [done..| |done|done].
    destruct (H6 _ _ Ed) as [|Hin]; [done|]. rewrite Hx in Hin. by apply elem_of_nil in Hin. }
  destruct (allocate_unique_ip self) as [[ip|] self'] eqn:Ea.
  - destruct (allocate_ok self ip self' Hok Ea) as ((r & c & ->) & _).
    exists ip. unfold insert_domain, insert_ip. cbn.
    split_and!; [done|done|by rewrite lookup_insert_eq|by rewrite lookup_insert_eq| |].
    + by intros [].
    + intros other Hne. by rewrite lookup_insert_ne.
  - unfold allocate_unique_ip in Ea. destruct (recycled_ips self); [|done].
    destruct (Z.geb_spec (cursor self) (max_hosts self)); [|done].
    by injection Ea as <-.
Qed.

Lemma handle_dns_query_spec_witness :
  fakedns_ok (fakedns_new demo_net 65534)
  ∧ ∃ ip, domain_to_ip (snd (handle_dns_query (demo_query [Byte.x61])
              (fakedns_new demo_net 65534))) !! [Byte.x61] = Some ip.
Proof.
  assert (fakedns_ok (fakedns_new demo_net 65534)) as H
    by (apply fakedns_new_ok; unfold demo_net; lia).
  split; [exact H|]. destruct (handle_dns_query_spec [Byte.x61] _ H eq_refl)
    as (ip & _ & _ & Hd & _).
  exists ip. exact Hd.
Defined.
