(* ===== verification/NetTcp.v ===== *)
(** TCP connections of the userspace network stack
    (crates/ombrac-netstack/src/tcp.rs): the application's [TcpStream] and the
    worker that moves bytes between it and a [smoltcp] socket, through two
    ring buffers. *)

From S2P Require Import Prelude Std Stream.

#[local] Open Scope Z_scope.

(** ** The socket *)

(** A [smoltcp] TCP socket, with the calls the worker makes. [recv] hands the
    closure a contiguous buffer and dequeues as many bytes as it says; [send]
    offers [send_room] bytes of room. [rx_taken] and [tx_given] are the bytes
    dequeued and enqueued so far. *)
Class TcpSocket (K : Type) := {
  can_recv : K → bool;
  can_send : K → bool;
  is_open : K → bool;
  is_active : K → bool;
  recv_buffer : K → option Bytes;
  recv_consume : nat → K → K;
  send_room : K → option nat;
  send_enqueue : Bytes → K → K;
  socket_abort : K → K;
  socket_close : K → K;
  rx_taken : K → Bytes;
  tx_given : K → Bytes
}.

Class TcpSocketLaws (K : Type) `{TcpSocket K} := {
  recv_consume_rx k b n :
    recv_buffer k = Some b → rx_taken (recv_consume n k) = rx_taken k ++ take n b;
  recv_consume_tx k n : tx_given (recv_consume n k) = tx_given k;
  send_enqueue_rx b k : rx_taken (send_enqueue b k) = rx_taken k;
  send_enqueue_tx b k : tx_given (send_enqueue b k) = tx_given k ++ b;
  socket_close_rx k : rx_taken (socket_close k) = rx_taken k;
  socket_close_tx k : tx_given (socket_close k) = tx_given k;
  socket_abort_rx k : rx_taken (socket_abort k) = rx_taken k;
  socket_abort_tx k : tx_given (socket_abort k) = tx_given k
}.

(** ** The shared state of a connection *)

(** The ring buffers with their capacities, and [SharedState]. *)
Record TcpConn := mkConn {
  recv_rb : Bytes;
  recv_cap : nat;
  send_rb : Bytes;
  send_cap : nat;
  read_closed : bool;
  write_closed : bool;
  socket_dropped : bool
}.

(** What [accept_new_connection] sets up. *)
Definition conn_new (recv_size send_size : nat) : TcpConn :=
  mkConn [] recv_size [] send_size false false false.

Definition with_recv_rb (b : Bytes) (c : TcpConn) : TcpConn :=
  mkConn b (recv_cap c) (send_rb c) (send_cap c) (read_closed c) (write_closed c)
    (socket_dropped c).
Definition with_send_rb (b : Bytes) (c : TcpConn) : TcpConn :=
  mkConn (recv_rb c) (recv_cap c) b (send_cap c) (read_closed c) (write_closed c)
    (socket_dropped c).
Definition with_read_closed (c : TcpConn) : TcpConn :=
  mkConn (recv_rb c) (recv_cap c) (send_rb c) (send_cap c) true (write_closed c)
    (socket_dropped c).
Definition with_write_closed (c : TcpConn) : TcpConn :=
  mkConn (recv_rb c) (recv_cap c) (send_rb c) (send_cap c) (read_closed c) true
    (socket_dropped c).
Definition with_socket_dropped (c : TcpConn) : TcpConn :=
  mkConn (recv_rb c) (recv_cap c) (send_rb c) (send_cap c) (read_closed c)
    (write_closed c) true.

(** ** The application's side *)

(** Where a [poll_read] stands between its looks at what it shares with the worker:
    before the first, or after it saw an empty ring buffer, or after it saw that the
    read side is open and registered its waker. *)
Inductive PollPc := Outside | SawEmpty | SawOpen.

(** One look of [TcpStream::poll_read] with [n] bytes of room: what it returns, if it
    does, and where it stands. *)
Definition tcp_poll_read (n : nat) (pc : PollPc) (c : TcpConn)
    : option (Poll (io_result Bytes)) * PollPc * TcpConn :=
  let pop := (Some (Ready (Ok (take n (recv_rb c)))), Outside,
              with_recv_rb (drop n (recv_rb c)) c) in
  match pc with
  | Outside => match recv_rb c with [] => (None, SawEmpty, c) | _ => pop end
  | SawEmpty => if read_closed c then (Some (Ready (Ok [])), Outside, c) else (None, SawOpen, c)
  | SawOpen => match recv_rb c with [] => (Some Pending, Outside, c) | _ => pop end
  end.

(** The three without the worker in between. *)
Definition poll_read_alone (n : nat) (c : TcpConn) : Poll (io_result Bytes) :=
  match recv_rb c with
  | [] => if read_closed c then Ready (Ok []) else Pending
  | _ => Ready (Ok (take n (recv_rb c)))
  end.

Lemma poll_read_alone_spec n c :
  let '(r1, pc1, c1) := tcp_poll_read n Outside c in
  let '(r2, pc2, c2) := tcp_poll_read n pc1 c1 in
  let '(r3, _, _) := tcp_poll_read n pc2 c2 in
  opt_or r1 (opt_or r2 r3) = Some (poll_read_alone n c).
Proof.
  unfold tcp_poll_read, poll_read_alone. destruct (recv_rb c) eqn:E.
  - destruct (read_closed c); cbn; rewrite E; done.
  - cbn. by repeat (case_match; simplify_eq/=).
Qed.

(** [TcpStream::poll_write]: how many bytes of [buf] were taken. The worker only makes
    room, so what it does between the looks of this and of the next two calls could as
    well come before them: each is one step. *)
Definition tcp_poll_write (buf : Bytes) (c : TcpConn) : Poll (io_result nat) * TcpConn :=
  if socket_dropped c || write_closed c then
    (Ready (Err (mkIoError BrokenPipe "Socket is closing")), c)
  else if Nat.leb (send_cap c) (length (send_rb c)) then (Pending, c)
  else
    let n := Nat.min (send_cap c - length (send_rb c)) (length buf) in
    (Ready (Ok n), with_send_rb (send_rb c ++ take n buf) c).

(** [TcpStream::poll_flush]. *)
Definition tcp_poll_flush (c : TcpConn) : Poll (io_result unit) * TcpConn :=
  match send_rb c with [] => (Ready (Ok tt), c) | _ => (Pending, c) end.

(** [TcpStream::poll_shutdown]. *)
Definition tcp_poll_shutdown (c : TcpConn) : Poll (io_result unit) * TcpConn :=
  match tcp_poll_flush c with
  | (Ready (Ok _), c) => (Ready (Ok tt), with_write_closed c)
  | r => r
  end.

(** [Drop for TcpStream]. *)
Definition tcp_drop (c : TcpConn) : TcpConn := with_socket_dropped c.

(** ** The worker's side *)

Section worker.
Context {K : Type} `{TcpSocket K}.

(** The read half of [handle_socket_io]: also whether the reader is woken,
    and the count of bytes moved. *)
Definition io_recv (k : K) (c : TcpConn) : K * TcpConn * bool * nat :=
  if can_recv k then
    match recv_buffer k with
    | Some buffer =>
      let n := Nat.min (recv_cap c - length (recv_rb c)) (length buffer) in
      (recv_consume n k, with_recv_rb (recv_rb c ++ take n buffer) c,
       Nat.ltb 0 (length buffer), n)
    | None => (k, with_read_closed c, true, O)
    end
  else (k, c, false, O).

(** The check for a closed socket. *)
Definition io_check_open (k : K) (c : TcpConn) : TcpConn * bool :=
  if negb (is_open k) && negb (read_closed c)
  then (with_read_closed c, true) else (c, false).

(** The [while] of the write half: each round empties as much of the ring
    buffer as the socket offers room for, and adds the room offered to the
    count. The fuel is the length of the buffer: a round that goes on moves
    at least one byte. *)
Fixpoint io_send (fuel : nat) (k : K) (c : TcpConn) : K * TcpConn * nat :=
  match fuel with
  | O => (k, c, O)
  | S fuel =>
    match can_send k, send_rb c with
    | true, _ :: _ =>
      match send_room k with
      | Some (S _ as room) =>
        let n := Nat.min room (length (send_rb c)) in
        let '(k', c', written) :=
          io_send fuel (send_enqueue (take n (send_rb c)) k)
            (with_send_rb (drop n (send_rb c)) c) in
        (k', c', (room + written)%nat)
      | _ => (k, c, O)
      end
    | _, _ => (k, c, O)
    end
  end.

(** [handle_socket_io]: also whether the reader and the writer are woken. *)
Definition handle_socket_io (k : K) (c : TcpConn)
    : K * TcpConn * (bool * bool) * (nat * nat) :=
  let '(k, c, notify_recv, bytes_read) := io_recv k c in
  let '(c, notify_closed) := io_check_open k c in
  let '(k, c, bytes_written) := io_send (length (send_rb c)) k c in
  (k, c, (notify_recv || notify_closed, Nat.ltb 0 bytes_written),
   (bytes_read, bytes_written)).

(** What [prune_sockets] does with one socket. *)
Inductive Pruned := Removed (k : K) | Kept (k : K).

Definition prune_socket (k : K) (c : TcpConn) : Pruned :=
  if socket_dropped c then Removed (socket_abort k)
  else
    let k := if write_closed c && match send_rb c with [] => true | _ => false end
             then socket_close k else k in
    if negb (is_active k) then Removed k else Kept k.

(** The pass of [accept_loop] over one socket: skipped once it is dropped. *)
Definition worker_io (k : K) (c : TcpConn) : K * TcpConn :=
  if socket_dropped c then (k, c)
  else let '(k, c, _, _) := handle_socket_io k c in (k, c).
End worker.
Arguments Pruned K : clear implicits.

(** ** The connection as a transition system *)

(** Where the worker's pass over the socket stands: between two passes, or before one
    of the three parts of [handle_socket_io]. *)
Inductive PassPc := Between | Receiving | Checking | Sending.

(** The application, the worker and the network take turns; the application and the
    worker are on different threads and are cut at their accesses to the ring buffers
    and the flags. [live] says whether the worker still holds the socket; [app_read]
    and [app_written] are what the application got and what its writes accepted, and
    [looked] what had been dequeued from the socket when the last read saw an empty
    ring buffer. *)
Record TcpSystem (K : Type) := mkSystem
  { socket : K; live : bool; conn : TcpConn; polling : PollPc; passing : PassPc;
    looked : Bytes; app_read : Bytes; app_written : Bytes }.
Arguments mkSystem {K}.
Arguments socket {K} t.
Arguments live {K} t.
Arguments conn {K} t.
Arguments polling {K} t.
Arguments passing {K} t.
Arguments looked {K} t.
Arguments app_read {K} t.
Arguments app_written {K} t.

Section system.
Context {K : Type} `{TcpSocketLaws K}.

Definition tcp_new (k : K) (recv_size send_size : nat) : TcpSystem K :=
  mkSystem k true (conn_new recv_size send_size) Outside Between [] [] [].

Definition got (r : option (Poll (io_result Bytes))) : Bytes :=
  match r with Some (Ready (Ok b)) => b | _ => [] end.

Definition accepted (buf : Bytes) (r : Poll (io_result nat)) : Bytes :=
  match r with Ready (Ok n) => take n buf | _ => [] end.

(** The operations as functions on the system. *)
Definition sys_read (n : nat) (s : TcpSystem K) : TcpSystem K :=
  let '(r, pc, c) := tcp_poll_read n (polling s) (conn s) in
  mkSystem (socket s) (live s) c pc (passing s)
    (match pc with SawEmpty => rx_taken (socket s) | _ => looked s end)
    (app_read s ++ got r) (app_written s).

Definition sys_write (buf : Bytes) (s : TcpSystem K) : TcpSystem K :=
  let '(r, c) := tcp_poll_write buf (conn s) in
  mkSystem (socket s) (live s) c (polling s) (passing s) (looked s) (app_read s)
    (app_written s ++ accepted buf r).

Definition sys_conn (c : TcpConn) (s : TcpSystem K) : TcpSystem K :=
  mkSystem (socket s) (live s) c (polling s) (passing s) (looked s) (app_read s)
    (app_written s).

Definition sys_socket (k : K) (l : bool) (c : TcpConn) (pc : PassPc) (s : TcpSystem K)
    : TcpSystem K :=
  mkSystem k l c (polling s) pc (looked s) (app_read s) (app_written s).

(** The worker's next access: a pass begins unless the stream was dropped; the bytes
    from the socket, the check for a closed one, and a round of the loop that writes,
    until one moves nothing. *)
Definition sys_worker (s : TcpSystem K) : TcpSystem K :=
  let k := socket s in
  let c := conn s in
  match passing s with
  | Between =>
    if live s && negb (socket_dropped c) then sys_socket k (live s) c Receiving s else s
  | Receiving => let '(k, c, _, _) := io_recv k c in sys_socket k (live s) c Checking s
  | Checking => sys_socket k (live s) (fst (io_check_open k c)) Sending s
  | Sending =>
    let '(k, c, n) := io_send 1 k c in
    sys_socket k (live s) c (if Nat.ltb 0 n then Sending else Between) s
  end.

(** The passes of [prune_sockets] come between those of [handle_socket_io]. *)
Definition sys_prune (s : TcpSystem K) : TcpSystem K :=
  match passing s, live s with
  | Between, true =>
    match prune_socket (socket s) (conn s) with
    | Kept k => sys_socket k true (conn s) Between s
    | Removed k => sys_socket k false (conn s) Between s
    end
  | _, _ => s
  end.

(** The network changes the socket between two passes, when the worker polls the
    interface; it dequeues and enqueues nothing on the worker's side. *)
Inductive tcp_step : TcpSystem K → TcpSystem K → Prop :=
  | step_read n s : tcp_step s (sys_read n s)
  | step_write buf s : tcp_step s (sys_write buf s)
  | step_shutdown s : tcp_step s (sys_conn (snd (tcp_poll_shutdown (conn s))) s)
  | step_drop s : tcp_step s (sys_conn (tcp_drop (conn s)) s)
  | step_worker s : tcp_step s (sys_worker s)
  | step_prune s : tcp_step s (sys_prune s)
  | step_network s k :
      live s = true → passing s = Between →
      rx_taken k = rx_taken (socket s) → tx_given k = tx_given (socket s) →
      tcp_step s (sys_socket k true (conn s) Between s).

(** Bytes are neither lost nor reordered between the application and the
    socket, and the ring buffers keep to their capacities; and what a read that saw
    an empty buffer had not got is what was dequeued since. *)
Record tcp_ok (rx0 tx0 : Bytes) (s : TcpSystem K) : Prop := {
  ok_rx : rx_taken (socket s) = rx0 ++ app_read s ++ recv_rb (conn s);
  ok_tx : tx0 ++ app_written s = tx_given (socket s) ++ send_rb (conn s);
  ok_recv_cap : (length (recv_rb (conn s)) ≤ recv_cap (conn s))%nat;
  ok_send_cap : (length (send_rb (conn s)) ≤ send_cap (conn s))%nat;
  ok_shut : write_closed (conn s) = true → send_rb (conn s) = [];
  ok_looked : polling s ≠ Outside → looked s = rx0 ++ app_read s;
  ok_live : passing s ≠ Between → live s = true
}.

Lemma io_recv_spec k c :
  let '(k', c', _, _) := io_recv k c in
  ∃ b, recv_rb c' = recv_rb c ++ b ∧ rx_taken k' = rx_taken k ++ b
  ∧ tx_given k' = tx_given k
  ∧ (length (recv_rb c) ≤ recv_cap c → length (recv_rb c') ≤ recv_cap c)%nat
  ∧ send_rb c' = send_rb c ∧ recv_cap c' = recv_cap c ∧ send_cap c' = send_cap c
  ∧ write_closed c' = write_closed c.
Proof.
  unfold io_recv. destruct (can_recv k); [|by exists []; rewrite !app_nil_r].
  destruct (recv_buffer k) as [b|] eqn:Eb; [|by exists []; rewrite !app_nil_r].
  eexists. cbn [with_recv_rb recv_rb send_rb recv_cap send_cap write_closed].
  split_and!; [done|by apply recv_consume_rx|by apply recv_consume_tx| |done..].
  list_lia.
Qed.

Lemma io_check_open_spec k c :
  let c' := fst (io_check_open k c) in
  recv_rb c' = recv_rb c ∧ send_rb c' = send_rb c ∧ recv_cap c' = recv_cap c
  ∧ send_cap c' = send_cap c ∧ write_closed c' = write_closed c.
Proof. unfold io_check_open. by destruct (_ && _). Qed.

Lemma io_send_spec fuel k c :
  let '(k', c', _) := io_send fuel k c in
  rx_taken k' = rx_taken k ∧ tx_given k' ++ send_rb c' = tx_given k ++ send_rb c
  ∧ c' = with_send_rb (send_rb c') c ∧ (length (send_rb c') ≤ length (send_rb c))%nat.
Proof.
  assert (∀ c, c = with_send_rb (send_rb c) c) as Hid by (by intros []).
  revert k c. induction fuel as [|fuel IH]; intros k c; cbn [io_send]; [by auto|].
  destruct (can_send k); [|by auto].
  destruct (send_rb c) as [|x b] eqn:Eb; [by rewrite Eb, <-Eb; auto|].
  rewrite <-Eb. destruct (send_room k) as [[|room]|]; [by auto| |by auto].
  set (n := Nat.min (S room) (length (send_rb c))).
  specialize (IH (send_enqueue (take n (send_rb c)) k) (with_send_rb (drop n (send_rb c)) c)).
  destruct (io_send fuel _ _) as [[k' c'] w]. destruct IH as (H1 & H2 & H3 & H4).
  rewrite send_enqueue_rx in H1. rewrite send_enqueue_tx in H2.
  cbn [send_rb with_send_rb] in H2, H3, H4. rewrite length_drop in H4.
  split_and!; [done| |done|lia].
  by rewrite H2, <-app_assoc, take_drop.
Qed.

(** The loop empties the buffer as far as the socket goes: when it stops with
    bytes left, the socket takes no more. *)
Lemma io_send_exhausts fuel k c :
  (length (send_rb c) ≤ fuel)%nat →
  let '(k', c', _) := io_send fuel k c in
  send_rb c' = [] ∨ can_send k' = false ∨ send_room k' = None ∨ send_room k' = Some O.
Proof.
  revert k c. induction fuel as [|fuel IH]; intros k c Hf; cbn [io_send].
  { left. by destruct (send_rb c); [|simpl in Hf; lia]. }
  destruct (can_send k) eqn:Ec; [|by auto].
  destruct (send_rb c) as [|x b] eqn:Eb; [by auto|]. rewrite <-Eb in *.
  destruct (send_room k) as [[|room]|] eqn:Er; [by auto| |by auto].
  set (n := Nat.min (S room) (length (send_rb c))).
  specialize (IH (send_enqueue (take n (send_rb c)) k) (with_send_rb (drop n (send_rb c)) c)).
  destruct (io_send fuel _ _) as [[k' c'] w]. apply IH. cbn [with_send_rb send_rb].
  rewrite length_drop. assert (length (send_rb c) ≠ O) by (by rewrite Eb). lia.
Qed.

Lemma sys_worker_ok rx0 tx0 s : tcp_ok rx0 tx0 s → tcp_ok rx0 tx0 (sys_worker s).
Proof.
  intros [H1 H2 H3 H4 H5 H6 H7]. destruct s as [k l c pc pp lk ar aw].
  cbn [socket conn app_read app_written polling passing looked live] in *.
  unfold sys_worker, sys_socket.
  cbn [passing socket conn live polling looked app_read app_written]. destruct pp.
  - destruct (l && negb (socket_dropped c)) eqn:E; [|by split].
    apply andb_true_iff in E as [-> _]. by split.
  - pose proof (io_recv_spec k c) as Hr. destruct (io_recv k c) as [[[k1 c1] nr] br].
    destruct Hr as (b & R1 & R2 & R3 & R4 & R5 & R6 & R7 & R8). specialize (R4 H3).
    split; cbn; rewrite ?R2, ?R3, ?R1, ?R5, ?R6, ?R7, ?R8, ?H1, <-?app_assoc; try done.
    + by rewrite <-R1.
    + intros _. by apply H7.
  - pose proof (io_check_open_spec k c) as (C1 & C2 & C3 & C4 & C5).
    destruct (io_check_open k c) as [c2 nc]. cbn [fst] in *.
    split; cbn; rewrite ?C1, ?C2, ?C3, ?C4, ?C5; try done. intros _. by apply H7.
  - pose proof (io_send_spec 1 k c) as Hs. destruct (io_send 1 k c) as [[k3 c3] w].
    destruct Hs as (S1 & S2 & S3 & S4). rewrite S3.
    split; unfold with_send_rb; cbn; rewrite ?S1, ?S2; try done.
    + lia.
    + intros E. rewrite (H5 E) in S4. by destruct (send_rb c3); [|simpl in S4; lia].
    + intros _. by apply H7.
Qed.

Lemma sys_read_ok rx0 tx0 n s : tcp_ok rx0 tx0 s → tcp_ok rx0 tx0 (sys_read n s).
Proof.
  intros [H1 H2 H3 H4 H5 H6 H7]. destruct s as [k l c pc pp lk ar aw].
  cbn [socket conn app_read app_written polling passing looked live] in *.
  unfold sys_read, tcp_poll_read.
  cbn [passing socket conn live polling looked app_read app_written].
  assert (∀ x b, recv_rb c = x :: b → tcp_ok rx0 tx0
    (mkSystem k l (with_recv_rb (drop n (recv_rb c)) c) Outside pp lk
       (ar ++ take n (recv_rb c)) aw)) as Hpop.
  { intros x b _. split; unfold with_recv_rb; cbn; try done.
    - by rewrite H1, <-app_assoc, take_drop.
    - list_lia. }
  destruct pc.
  - destruct (recv_rb c) as [|x b] eqn:E; [|by eapply Hpop].
    split; cbn; rewrite ?app_nil_r, ?E; try done. by rewrite H1, app_nil_r.
  - destruct (read_closed c); split; cbn; rewrite ?app_nil_r; try done.
    intros _. by apply H6.
  - destruct (recv_rb c) as [|x b] eqn:E; [|by eapply Hpop].
    split; cbn; rewrite ?app_nil_r, ?E; done.
Qed.

Lemma tcp_step_ok rx0 tx0 s s' :
  tcp_ok rx0 tx0 s → tcp_step s s' → tcp_ok rx0 tx0 s'.
Proof.
  intros Hok Hs. destruct Hs as [n s|buf s|s|s|s|s|s k Hl Hp Hr Ht];
    [by apply sys_read_ok| | | |by apply sys_worker_ok|..];
    destruct s as [k0 l c pc pp lk ar aw].
  - destruct Hok as [H1 H2 H3 H4 H5 H6 H7]. unfold sys_write, tcp_poll_write.
    cbn [socket live conn app_read app_written polling passing looked] in *.
    destruct (socket_dropped c || write_closed c) eqn:Ec.
    { cbn [accepted]. by rewrite app_nil_r. }
    apply orb_false_iff in Ec as [_ Ec].
    destruct (Nat.leb_spec (send_cap c) (length (send_rb c))); cbn [accepted];
      [by rewrite app_nil_r|].
    split; unfold with_send_rb; cbn -[take]; try done.
    + by rewrite (assoc_L (++)), H2, <-app_assoc.
    + list_lia.
    + congruence.
  - destruct Hok as [H1 H2 H3 H4 H5 H6 H7]. unfold tcp_poll_shutdown, tcp_poll_flush.
    cbn [socket live conn app_read app_written polling passing looked] in *.
    destruct (send_rb c) as [|x b] eqn:E; cbn [snd]; split; cbn; rewrite ?E; done.
  - by destruct Hok; split.
  - unfold sys_prune, sys_socket. cbn [live passing]. destruct pp, l; try done.
    cbn [socket conn polling looked app_read app_written].
    destruct Hok as [H1 H2 H3 H4 H5 H6 H7]. unfold prune_socket.
    cbn [socket live conn app_read app_written polling passing looked] in *.
    destruct (socket_dropped c).
    { split; cbn; by rewrite ?socket_abort_rx, ?socket_abort_tx. }
    destruct (_ && _), (negb _); split; cbn; by rewrite ?socket_close_rx, ?socket_close_tx.
  - destruct Hok as [H1 H2 H3 H4 H5 H6 H7]. split; cbn in *; by rewrite ?Hr, ?Ht.
Qed.

Lemma tcp_new_ok k rs ws : tcp_ok (rx_taken k) (tx_given k) (tcp_new k rs ws).
Proof. split; cbn; rewrite ?app_nil_r; try done; lia. Qed.

Lemma tcp_reachable_ok rx0 tx0 s s' :
  tcp_ok rx0 tx0 s → rtc tcp_step s s' → tcp_ok rx0 tx0 s'.
Proof. intros Hok Hr. induction Hr; eauto using tcp_step_ok. Qed.

(** A worker that is not interrupted in its pass does what [worker_io] says. *)
Lemma sending_alone k c pc lk ar aw :
  let '(k', c', _) := io_send (length (send_rb c)) k c in
  rtc tcp_step (mkSystem k true c pc Sending lk ar aw) (mkSystem k' true c' pc Between lk ar aw).
Proof.
  assert (∀ fuel k c, (length (send_rb c) ≤ fuel)%nat →
    let '(k', c', _) := io_send fuel k c in
    rtc tcp_step (mkSystem k true c pc Sending lk ar aw)
      (mkSystem k' true c' pc Between lk ar aw)) as Hall; [|by apply Hall].
  clear k c. intros fuel. induction fuel as [|fuel IH]; intros k c Hf.
  - assert (send_rb c = []) as E by (by destruct (send_rb c); [|simpl in Hf; lia]).
    pose proof (step_worker (mkSystem k true c pc Sending lk ar aw)) as Hst. revert Hst.
    unfold sys_worker. cbn [passing socket conn io_send live]. rewrite E.
    destruct (can_send k); intros Hst; by apply rtc_once.
  - assert (tcp_step (mkSystem k true c pc Sending lk ar aw)
      (sys_worker (mkSystem k true c pc Sending lk ar aw))) as Hst by apply step_worker.
    revert Hst. unfold sys_worker. cbn [passing socket conn live]. cbn [io_send].
    destruct (can_send k); [|intros Hst; by eapply rtc_once].
    destruct (send_rb c) as [|x b] eqn:E; [intros Hst; by eapply rtc_once|]. rewrite <-E in *.
    destruct (send_room k) as [[|room]|]; [intros Hst; by eapply rtc_once| |
      intros Hst; by eapply rtc_once].
    set (n := Nat.min (S room) (length (send_rb c))). cbn [Nat.ltb Nat.leb Nat.add]. intros Hst.
    specialize (IH (send_enqueue (take n (send_rb c)) k) (with_send_rb (drop n (send_rb c)) c)).
    destruct (io_send fuel _ _) as [[k' c'] w]. eapply rtc_l; [exact Hst|]. apply IH.
    cbn [with_send_rb send_rb]. rewrite length_drop.
    assert (length (send_rb c) ≠ O) by (by rewrite E). lia.
Qed.

Lemma pass_alone k c pc lk ar aw :
  let '(k', c') := worker_io k c in
  rtc tcp_step (mkSystem k true c pc Between lk ar aw) (mkSystem k' true c' pc Between lk ar aw).
Proof.
  unfold worker_io. destruct (socket_dropped c) eqn:Ed; [apply rtc_refl|].
  unfold handle_socket_io. destruct (io_recv k c) as [[[k1 c1] nr] br] eqn:E1.
  destruct (io_check_open k1 c1) as [c2 nc] eqn:E2.
  pose proof (sending_alone k1 c2 pc lk ar aw) as Hs.
  destruct (io_send (length (send_rb c2)) k1 c2) as [[k3 c3] w].
  pose proof (step_worker (mkSystem k true c pc Between lk ar aw)) as S1.
  unfold sys_worker in S1. cbn in S1. rewrite Ed in S1. cbn in S1.
  pose proof (step_worker (mkSystem k true c pc Receiving lk ar aw)) as S2.
  unfold sys_worker in S2. cbn in S2. rewrite E1 in S2.
  pose proof (step_worker (mkSystem k1 true c1 pc Checking lk ar aw)) as S3.
  unfold sys_worker in S3. cbn in S3. rewrite E2 in S3.
  eapply rtc_l; [exact S1|]. eapply rtc_l; [exact S2|]. eapply rtc_l; [exact S3|]. exact Hs.
Qed.

Lemma removed_step s s' :
  live s = false ∧ passing s = Between → tcp_step s s' →
  (live s' = false ∧ passing s' = Between)
  ∧ app_read s' ++ recv_rb (conn s') = app_read s ++ recv_rb (conn s)
  ∧ read_closed (conn s') = read_closed (conn s).
Proof.
  intros [Hl Hp] Hs. destruct Hs as [n s|buf s|s|s|s|s|s k Hl' _ _];
    [..|congruence]; destruct s as [k0 l c pc pp lk ar aw]; cbn [live passing] in Hl, Hp;
    subst l pp.
  - unfold sys_read, tcp_poll_read. cbn.
    destruct pc, (recv_rb c) as [|x b] eqn:E, (read_closed c) eqn:Er; cbn;
      rewrite ?app_nil_r, ?E, ?app_nil_r, ?Er; try done;
      by rewrite <-app_assoc, <-E, take_drop.
  - unfold sys_write, tcp_poll_write. cbn [conn].
    destruct (socket_dropped c || write_closed c); [done|].
    by destruct (Nat.leb (send_cap c) (length (send_rb c))).
  - unfold tcp_poll_shutdown, tcp_poll_flush. cbn. by destruct (send_rb c).
  - done.
  - done.
  - done.
Qed.

Lemma removed_forever s s' :
  live s = false ∧ passing s = Between → rtc tcp_step s s' →
  app_read s' ++ recv_rb (conn s') = app_read s ++ recv_rb (conn s)
  ∧ read_closed (conn s') = read_closed (conn s).
Proof.
  intros Hl Hr. induction Hr as [s|s s1 s2 Hs Hr IH]; [done|].
  destruct (removed_step _ _ Hl Hs) as (Hl1 & E1 & R1).
  destruct (IH Hl1) as (E2 & R2). split; congruence.
Qed.

(** C15. Whatever the application, the worker and the network do, in every
    interleaving of the accesses to what they share: what the application read,
    followed by what is still in the ring buffer, is exactly what the worker dequeued
    from the socket; what its writes accepted is exactly what the worker enqueued,
    followed by what is still buffered; the buffers keep to their capacities; and a
    flush succeeds only once everything accepted has been handed to the socket. An end
    of file is reported only by a read that found the ring buffer empty, when
    everything dequeued up to then had been read; what was dequeued since, between the
    two looks of that read, is in the ring buffer, and if there is nothing in it
    everything dequeued has been read. *)
Theorem tcp_stream_fifo k rs ws s :
  rtc tcp_step (tcp_new k rs ws) s →
  rx_taken (socket s) = rx_taken k ++ app_read s ++ recv_rb (conn s)
  ∧ tx_given k ++ app_written s = tx_given (socket s) ++ send_rb (conn s)
  ∧ (length (recv_rb (conn s)) ≤ recv_cap (conn s))%nat
  ∧ (length (send_rb (conn s)) ≤ send_cap (conn s))%nat
  ∧ (∀ n, fst (fst (tcp_poll_read (S n) (polling s) (conn s))) = Some (Ready (Ok [])) →
      polling s = SawEmpty ∧ looked s = rx_taken k ++ app_read s
      ∧ rx_taken (socket s) = looked s ++ recv_rb (conn s))
  ∧ (fst (tcp_poll_flush (conn s)) = Ready (Ok tt) →
      tx_given (socket s) = tx_given k ++ app_written s).
Proof.
  intros Hr. pose proof (tcp_reachable_ok _ _ _ _ (tcp_new_ok k rs ws) Hr) as Hok.
  destruct Hok as [H1 H2 H3 H4 _ H6 _]. split_and!; [done..| |].
  - intros n E. assert (polling s = SawEmpty) as Hp.
    { revert E. unfold tcp_poll_read. destruct (polling s); [|done|];
        by destruct (recv_rb (conn s)). }
    specialize (H6 ltac:(congruence)). split_and!; [done..|].
    by rewrite H6, H1, <-app_assoc.
  - unfold tcp_poll_flush. destruct (send_rb (conn s)) as [|x b]; [|done].
    intros _. by rewrite H2, app_nil_r.
Qed.

(** [prune_sockets] removes a socket that is no longer active without looking
    at what is left in its receive buffer: from then on the application can get
    what is in the ring buffer and nothing else, and, the read side being
    marked closed, every read of the drained buffer is an end of file. *)
Theorem prune_truncates s s' :
  live s = true → passing s = Between →
  socket_dropped (conn s) = false → write_closed (conn s) = false →
  is_active (socket s) = false → read_closed (conn s) = true →
  rtc tcp_step (sys_prune s) s' →
  app_read s' ++ recv_rb (conn s') = app_read s ++ recv_rb (conn s)
  ∧ (recv_rb (conn s') = [] → ∀ n, poll_read_alone n (conn s') = Ready (Ok [])).
Proof.
  intros Hl Hp Hd Hw Ha Hc Hr.
  assert (sys_prune s = sys_socket (socket s) false (conn s) Between s) as E.
  { unfold sys_prune, prune_socket. rewrite Hl, Hp, Hd, Hw. cbn [andb]. by rewrite Ha. }
  rewrite E in Hr. apply removed_forever in Hr as (H1 & H2); [|done].
  split; [done|]. intros He n. unfold poll_read_alone. cbn in H2. by rewrite He, H2, Hc.
Qed.
End system.

(** ** A socket to run the model on *)

Record DemoSocket := mkDemo
  { d_rx : Bytes; d_room : nat; d_state_open : bool; d_state_active : bool;
    d_taken : Bytes; d_given : Bytes }.

#[local] Instance demo_socket : TcpSocket DemoSocket := {
  can_recv k := negb (Nat.eqb (length (d_rx k)) 0);
  can_send k := d_state_open k && negb (Nat.eqb (d_room k) 0);
  is_open := d_state_open;
  is_active := d_state_active;
  recv_buffer k := Some (d_rx k);
  recv_consume n k := mkDemo (drop n (d_rx k)) (d_room k) (d_state_open k)
    (d_state_active k) (d_taken k ++ take n (d_rx k)) (d_given k);
  send_room k := Some (d_room k);
  send_enqueue b k := mkDemo (d_rx k) (d_room k - length b) (d_state_open k)
    (d_state_active k) (d_taken k) (d_given k ++ b);
  socket_abort k := mkDemo (d_rx k) (d_room k) false false (d_taken k) (d_given k);
  socket_close k := k;
  rx_taken := d_taken;
  tx_given := d_given
}.

#[local] Instance demo_socket_laws : TcpSocketLaws DemoSocket.
Proof.
  split; try done. intros k b n E. cbn in *. by injection E as <-.
Qed.

(** Two bytes arrive, the application reads them and answers three, of which
    the socket takes two. *)
Definition demo_conn : TcpConn := mkConn [] 4 [Byte.x03] 4 false false false.
Definition demo_end : TcpSystem DemoSocket :=
  mkSystem (mkDemo [] 0 true true [Byte.x07; Byte.x08] [Byte.x01; Byte.x02]) true
    demo_conn Outside Between [] [Byte.x07; Byte.x08] [Byte.x01; Byte.x02; Byte.x03].

Lemma demo_reachable :
  rtc tcp_step (tcp_new (mkDemo [] 2 true true [] []) 4 4) demo_end.
Proof.
  apply (rtc_l _ _ (sys_socket (mkDemo [Byte.x07; Byte.x08] 2 true true [] []) true
    (conn_new 4 4) Between (tcp_new (mkDemo [] 2 true true [] []) 4 4))).
  { by apply (step_network (tcp_new (mkDemo [] 2 true true [] []) 4 4)
       (mkDemo [Byte.x07; Byte.x08] 2 true true [] [])). }
  do 4 (eapply rtc_l; [apply step_worker|]). eapply rtc_l; [apply (step_read 16)|].
  eapply rtc_l; [apply (step_write [Byte.x01; Byte.x02; Byte.x03])|].
  do 5 (eapply rtc_l; [apply step_worker|]). vm_compute. apply rtc_refl.
Qed.

Lemma tcp_stream_fifo_witness :
  rtc tcp_step (tcp_new (mkDemo [] 2 true true [] []) 4 4) demo_end
  ∧ rx_taken (socket demo_end) = [] ++ app_read demo_end ++ recv_rb (conn demo_end).
Proof.
  split; [apply demo_reachable|].
  exact (proj1 (tcp_stream_fifo _ 4 4 _ demo_reachable)).
Defined.

(** With a ring buffer of two bytes and three received, the worker moves two
    and prunes the socket that went to TIME-WAIT: the third is lost. *)
Lemma prune_truncates_witness :
  let s := mkSystem (mkDemo [Byte.x03] 4 false false [Byte.x01; Byte.x02] []) true
    (mkConn [Byte.x01; Byte.x02] 2 [] 4 true false false) Outside Between [] [] [] in
  worker_io (mkDemo [Byte.x01; Byte.x02; Byte.x03] 4 false false [] []) (conn_new 2 4)
    = (socket s, conn s)
  ∧ app_read (sys_read 8 (sys_prune s)) = [Byte.x01; Byte.x02]
  ∧ poll_read_alone 8 (conn (sys_read 8 (sys_prune s))) = Ready (Ok []).
Proof.
  intros s. split; [vm_compute; reflexivity|]. split; [vm_compute; reflexivity|].
  apply (prune_truncates s (sys_read 8 (sys_prune s))); try reflexivity.
  apply rtc_once, step_read.
Defined.
