(* ===== verification/NetWake.v ===== *)
(** Waking the application of a TCP stream
    (crates/ombrac-netstack/src/tcp.rs). [NetTcp] takes a poll and a pass of the
    worker as one step each; the two run on different threads, and this file cuts
    them at the accesses to what they share, to see who is woken when. *)

From S2P Require Import Prelude Std NetTcp.

#[local] Open Scope Z_scope.

(** ** Reading *)

(** Where the task that reads is: outside of [poll_read], or inside it after it saw
    an empty buffer, after it saw that the read side is open, or after it
    registered its waker; or suspended on [Pending]. *)
Inductive ReaderPc := ReaderOut | SawEmpty | SawOpen | Registered | ReaderParked.

(** Where the worker is in [handle_socket_io]: outside, or past the read from the
    socket, or past the check for a closed socket, with [notify_read]. *)
Inductive WorkerPc := WorkerOut | Received (notify_read : bool) | Checked (notify_read : bool).

(** The ring buffer, the flag, the waker (set or not), whether the suspended task
    has been woken, what the socket has received, whether it is open and still in
    the worker's map; and what the reads returned: the bytes and the number of ends
    of file. *)
Record ReadState := mkRead {
  rb : Bytes;
  rb_cap : nat;
  rd_closed : bool;
  recv_waker : bool;
  woken : bool;
  reader : ReaderPc;
  worker : WorkerPc;
  rx : Bytes;
  sock_open : bool;
  sock_live : bool;
  delivered : Bytes;
  eofs : nat
}.

Definition read_new (cap : nat) : ReadState :=
  mkRead [] cap false false false ReaderOut WorkerOut [] true true [] 0.

Section updates.
Context (s : ReadState).
Definition with_reader (p : ReaderPc) : ReadState :=
  mkRead (rb s) (rb_cap s) (rd_closed s) (recv_waker s) (woken s) p (worker s) (rx s)
    (sock_open s) (sock_live s) (delivered s) (eofs s).
Definition with_worker (p : WorkerPc) : ReadState :=
  mkRead (rb s) (rb_cap s) (rd_closed s) (recv_waker s) (woken s) (reader s) p (rx s)
    (sock_open s) (sock_live s) (delivered s) (eofs s).
(** [pop_slice] into [n] bytes, and [Ready]. *)
Definition pop_read (n : nat) : ReadState :=
  mkRead (drop n (rb s)) (rb_cap s) (rd_closed s) (recv_waker s) (woken s) ReaderOut (worker s)
    (rx s) (sock_open s) (sock_live s) (delivered s ++ take n (rb s)) (eofs s).
Definition end_of_file : ReadState :=
  mkRead (rb s) (rb_cap s) (rd_closed s) (recv_waker s) (woken s) ReaderOut (worker s) (rx s)
    (sock_open s) (sock_live s) (delivered s) (S (eofs s)).
(** [AtomicWaker::register]. *)
Definition register : ReadState :=
  mkRead (rb s) (rb_cap s) (rd_closed s) true (woken s) Registered (worker s) (rx s)
    (sock_open s) (sock_live s) (delivered s) (eofs s).
(** [AtomicWaker::wake]: it takes the waker. *)
Definition wake_reader : ReadState :=
  mkRead (rb s) (rb_cap s) (rd_closed s) false (woken s || recv_waker s) (reader s) WorkerOut
    (rx s) (sock_open s) (sock_live s) (delivered s) (eofs s).
End updates.

(** One access of [poll_read] with [S n] bytes of room; a suspended task goes on
    only when it was woken, and starts over. *)
Definition reader_step (n : nat) (s : ReadState) : ReadState :=
  match reader s with
  | ReaderOut => match rb s with [] => with_reader s SawEmpty | _ => pop_read s (S n) end
  | SawEmpty => if rd_closed s then end_of_file s else with_reader s SawOpen
  | SawOpen => register s
  | Registered => match rb s with [] => with_reader s ReaderParked | _ => pop_read s (S n) end
  | ReaderParked =>
    if woken s then
      mkRead (rb s) (rb_cap s) (rd_closed s) (recv_waker s) false ReaderOut (worker s) (rx s)
        (sock_open s) (sock_live s) (delivered s) (eofs s)
    else s
  end.

(** One access of the read half of [handle_socket_io]: the bytes go from the
    socket to the ring buffer; then [read_closed] is set if the socket is closed;
    then the waker is called. The worker looks only at sockets of its map. *)
Definition worker_step (s : ReadState) : ReadState :=
  match worker s with
  | WorkerOut =>
    if sock_live s then
      match rx s with
      | [] => with_worker s (Received false)
      | _ =>
        let n := Nat.min (rb_cap s - length (rb s)) (length (rx s)) in
        mkRead (rb s ++ take n (rx s)) (rb_cap s) (rd_closed s) (recv_waker s) (woken s)
          (reader s) (Received true) (drop n (rx s)) (sock_open s) (sock_live s) (delivered s)
          (eofs s)
      end
    else s
  | Received notify_read =>
    if negb (sock_open s) && negb (rd_closed s) then
      mkRead (rb s) (rb_cap s) true (recv_waker s) (woken s) (reader s) (Checked true) (rx s)
        (sock_open s) (sock_live s) (delivered s) (eofs s)
    else with_worker s (Checked notify_read)
  | Checked true => wake_reader s
  | Checked false => with_worker s WorkerOut
  end.

(** What the network does to the socket when the worker polls the interface, so
    between two passes: data for an open socket, or the end of it; and
    [prune_sockets], which takes a socket that is not open off the map. *)
Definition arrive (b : Bytes) (s : ReadState) : ReadState :=
  match worker s, sock_open s with
  | WorkerOut, true =>
    mkRead (rb s) (rb_cap s) (rd_closed s) (recv_waker s) (woken s) (reader s) WorkerOut
      (rx s ++ b) true (sock_live s) (delivered s) (eofs s)
  | _, _ => s
  end.

Definition close_socket (s : ReadState) : ReadState :=
  match worker s with
  | WorkerOut =>
    mkRead (rb s) (rb_cap s) (rd_closed s) (recv_waker s) (woken s) (reader s) WorkerOut
      (rx s) false (sock_live s) (delivered s) (eofs s)
  | _ => s
  end.

Definition prune (s : ReadState) : ReadState :=
  match worker s with
  | WorkerOut =>
    if sock_open s then s
    else mkRead (rb s) (rb_cap s) (rd_closed s) (recv_waker s) (woken s) (reader s) WorkerOut
           (rx s) false false (delivered s) (eofs s)
  | _ => s
  end.

Inductive ReadInput := Reader (n : nat) | Worker | Arrive (b : Bytes) | CloseSocket | Prune.

Definition read_step (i : ReadInput) (s : ReadState) : ReadState :=
  match i with
  | Reader n => reader_step n s
  | Worker => worker_step s
  | Arrive b => arrive b s
  | CloseSocket => close_socket s
  | Prune => prune s
  end.

Definition read_run (inputs : list ReadInput) (s : ReadState) : ReadState :=
  foldl (flip read_step) s inputs.

(** A wake-up for data is on its way. *)
Definition wake_coming (w : WorkerPc) : bool :=
  match w with Received b | Checked b => b | WorkerOut => false end.

(** The states [read_new] leads to. *)
Record read_ok (s : ReadState) : Prop := {
  r_parked : reader s = ReaderParked → woken s = false →
             recv_waker s = true ∧ (rb s = [] ∨ wake_coming (worker s) = true);
  r_registered : reader s = Registered → recv_waker s = true ∨ woken s = true
}.

(** ** Writing *)

(** Where the task that writes is: outside of [poll_write], or inside it after it
    saw a full buffer, or after it registered its waker; or suspended. *)
Inductive WriterPc := WriterOut | SawFull | WriterRegistered | WriterParked.

(** The ring buffer to the socket, the waker, and the rest as for reading;
    [send_wake] is [notify_write] between the loop and the wake-up. *)
Record WriteState := mkWrite {
  sb : Bytes;
  sb_cap : nat;
  send_waker : bool;
  w_woken : bool;
  writer : WriterPc;
  send_wake : bool;
  tx : Bytes;
  w_live : bool;
  w_accepted : Bytes
}.

Definition write_new (cap : nat) : WriteState :=
  mkWrite [] cap false false WriterOut false [] true [].

Definition is_full (s : WriteState) : bool := Nat.leb (sb_cap s) (length (sb s)).

(** [push_slice] of the bytes to write, and [Ready]. *)
Definition push_write (buf : Bytes) (s : WriteState) : WriteState :=
  let n := Nat.min (sb_cap s - length (sb s)) (length buf) in
  mkWrite (sb s ++ take n buf) (sb_cap s) (send_waker s) (w_woken s) WriterOut (send_wake s)
    (tx s) (w_live s) (w_accepted s ++ take n buf).

Definition with_writer (p : WriterPc) (s : WriteState) : WriteState :=
  mkWrite (sb s) (sb_cap s) (send_waker s) (w_woken s) p (send_wake s) (tx s) (w_live s)
    (w_accepted s).

(** One access of [poll_write]; the stream has not been shut down nor dropped. *)
Definition writer_step (buf : Bytes) (s : WriteState) : WriteState :=
  match writer s with
  | WriterOut => if is_full s then with_writer SawFull s else push_write buf s
  | SawFull =>
    mkWrite (sb s) (sb_cap s) true (w_woken s) WriterRegistered (send_wake s) (tx s) (w_live s)
      (w_accepted s)
  | WriterRegistered =>
    if is_full s then with_writer WriterParked s else push_write buf s
  | WriterParked =>
    if w_woken s then
      mkWrite (sb s) (sb_cap s) (send_waker s) false WriterOut (send_wake s) (tx s) (w_live s)
        (w_accepted s)
    else s
  end.

(** The write half of [handle_socket_io]: [n] bytes go to the socket; then the
    waker is called. *)
Definition sender_step (n : nat) (s : WriteState) : WriteState :=
  if send_wake s then
    mkWrite (sb s) (sb_cap s) false (w_woken s || send_waker s) (writer s) false (tx s) (w_live s)
      (w_accepted s)
  else if w_live s then
    mkWrite (drop n (sb s)) (sb_cap s) (send_waker s) (w_woken s) (writer s)
      (Nat.ltb 0 (Nat.min n (length (sb s)))) (tx s ++ take n (sb s)) true (w_accepted s)
  else s.

(** [prune_sockets] on a socket that is no longer active. *)
Definition prune_write (s : WriteState) : WriteState :=
  if send_wake s then s
  else mkWrite (sb s) (sb_cap s) (send_waker s) (w_woken s) (writer s) false (tx s) false
         (w_accepted s).

Inductive WriteInput := Writer (buf : Bytes) | Sender (n : nat) | PruneWrite.

Definition write_step (i : WriteInput) (s : WriteState) : WriteState :=
  match i with
  | Writer buf => writer_step buf s
  | Sender n => sender_step n s
  | PruneWrite => prune_write s
  end.

Definition write_run (inputs : list WriteInput) (s : WriteState) : WriteState :=
  foldl (flip write_step) s inputs.

(** A wake-up for room in the buffer is on its way. *)
Record write_ok (s : WriteState) : Prop := {
  w_parked : writer s = WriterParked → w_woken s = false →
             send_waker s = true ∧ (is_full s = true ∨ send_wake s = true);
  w_registered : writer s = WriterRegistered → send_waker s = true ∨ w_woken s = true
}.

(** ** Wake-ups that arrive *)

(** Nothing happens to the waker, and the buffer does not fill. *)
#[local] Ltac waker_kept :=
  match goal with
  | H1 : _ → _ → _ ∧ _ |- _ =>
    intros Hp Hw; destruct (H1 Hp Hw) as [? [?|?]]; (done || auto)
  end.

Lemma read_step_ok i s : read_ok s → read_ok (read_step i s).
Proof.
  intros [H1 H2]. destruct s as [b cap cl wk wo rd w x op lv dl eo].
  cbn [reader woken recv_waker rb worker] in *.
  destruct i as [n| |d| |]; cbn [read_step].
  - unfold reader_step. cbn [reader rb rd_closed woken].
    destruct rd; [destruct b|destruct cl| |destruct b|destruct wo];
      split; cbn; try done; auto.
    intros _ Ew. destruct (H2 eq_refl); [auto|congruence].
  - unfold worker_step. cbn [worker sock_live rx sock_open rd_closed].
    destruct w as [|nr|[]]; [destruct lv; [destruct x|]|destruct (_ && _)| |];
      split; cbn; try done; try waker_kept.
    + intros Hp [Ewo Ewk]%orb_false_elim. destruct (H1 Hp Ewo). congruence.
    + intros Hp. destruct (H2 Hp) as [-> | ->]; rewrite ?orb_true_r; auto.
  - unfold arrive. cbn [worker sock_open]. destruct w, op; by split.
  - unfold close_socket. cbn [worker]. destruct w; by split.
  - unfold prune. cbn [worker sock_open]. destruct w, op; by split.
Qed.

Lemma read_run_ok inputs s : read_ok s → read_ok (read_run inputs s).
Proof.
  revert s. induction inputs as [|i l IH]; intros s Hs; [done|]. by apply IH, read_step_ok.
Qed.

Lemma read_new_ok cap : read_ok (read_new cap).
Proof. by split. Qed.

(** C31. Data never waits for a reader that sleeps: in every interleaving of the
    reads, the passes of the worker and the network, when the reader is suspended
    and not woken although the ring buffer has bytes, the worker is between its
    [push_slice] and its [wake], and wakes the reader within its next two steps. *)
Theorem data_wakes_reader cap inputs :
  let s := read_run inputs (read_new cap) in
  reader s = ReaderParked → woken s = false → rb s ≠ [] →
  wake_coming (worker s) = true
  ∧ (woken (worker_step s) = true ∨ woken (worker_step (worker_step s)) = true).
Proof.
  intros s Hp Hw Hb. destruct (read_run_ok inputs _ (read_new_ok cap)) as [H1 _].
  fold s in H1. destruct (H1 Hp Hw) as [Hwk [?|Hc]]; [done|]. split; [done|].
  destruct (worker s) as [|nr|nr] eqn:Ew; cbn in Hc; [done|subst nr|subst nr].
  - right. unfold worker_step at 2. rewrite Ew.
    destruct (negb (sock_open s) && negb (rd_closed s)); cbn; by rewrite Hwk, orb_true_r.
  - left. unfold worker_step. rewrite Ew. cbn. by rewrite Hwk, orb_true_r.
Qed.

(** A reader that sleeps with nothing to read, on a socket that was found closed,
    sleeps for ever: the flag is set, so it is not set again, and no data comes. *)
Definition asleep (s : ReadState) : Prop :=
  reader s = ReaderParked ∧ woken s = false ∧ rx s = [] ∧ sock_open s = false
  ∧ rd_closed s = true ∧ wake_coming (worker s) = false.

Lemma asleep_step i s : asleep s → asleep (read_step i s) ∧ eofs (read_step i s) = eofs s.
Proof.
  unfold asleep. destruct s as [b cap cl wk wo rd w x op lv dl eo]. cbn.
  intros (-> & -> & -> & -> & -> & Hw).
  destruct i as [n| |d| |]; cbn [read_step].
  - done.
  - unfold worker_step. cbn. destruct w as [|nr|nr]; cbn in Hw; subst;
      [destruct lv|..]; done.
  - unfold arrive. cbn. by destruct w.
  - unfold close_socket. cbn. by destruct w.
  - unfold prune. cbn. by destruct w.
Qed.

Lemma asleep_forever inputs s :
  asleep s → asleep (read_run inputs s) ∧ eofs (read_run inputs s) = eofs s.
Proof.
  revert s. induction inputs as [|i l IH]; intros s Hs; [done|].
  destruct (asleep_step i s Hs) as [H1 H2]. destruct (IH _ H1) as [H3 H4].
  split; [exact H3|]. etrans; [exact H4|done].
Qed.

(** The end of a stream can be missed: [poll_read] looks at [read_closed]
    before it registers its waker and not again after. When the worker, in between,
    finds the socket closed, sets the flag and calls a waker that is not there yet,
    the reader registers, sees an empty buffer, and is suspended; nothing the
    worker, the network or the reader does later wakes it, and it never learns that
    the stream has ended. *)
Theorem eof_wakeup_lost s n m inputs :
  reader s = SawOpen → worker s = WorkerOut → recv_waker s = false → woken s = false →
  rb s = [] → rx s = [] → sock_open s = false → sock_live s = true → rd_closed s = false →
  let s' := read_run inputs (read_run [Worker; Worker; Worker; Reader n; Reader m] s) in
  reader s' = ReaderParked ∧ woken s' = false ∧ rd_closed s' = true ∧ eofs s' = eofs s.
Proof.
  destruct s as [b cap cl wk wo rd w x op lv dl eo]. cbn [reader worker recv_waker woken rb rx
    sock_open sock_live rd_closed]. intros -> -> -> -> -> -> -> -> ->. cbv zeta.
  set (s := read_run [Worker; Worker; Worker; Reader n; Reader m] _).
  assert (asleep s) as Hs by done. assert (eofs s = eo) as He by done.
  destruct (asleep_forever inputs s Hs) as [(H1 & H2 & _ & _ & H3 & _) H4].
  split_and!; [done..|]. cbn [eofs]. congruence.
Qed.

(** The end of a stream can come before its last bytes: [poll_read] samples the
    length of the ring buffer first and [read_closed] second. When the worker, in
    between, moves the last bytes of a closed socket to the ring buffer and sets the
    flag, the read reports an end of file while those bytes are in the buffer. *)
Theorem eof_before_data s n :
  reader s = SawEmpty → worker s = WorkerOut → rb s = [] → rx s ≠ [] → (0 < rb_cap s)%nat →
  sock_open s = false → sock_live s = true → rd_closed s = false →
  let s' := read_run [Worker; Worker; Reader n] s in
  eofs s' = S (eofs s) ∧ delivered s' = delivered s ∧ rb s' ≠ []
  ∧ prefix (rb s') (rx s).
Proof.
  destruct s as [b cap cl wk wo rd w x op lv dl eo].
  cbn [reader worker recv_waker woken rb rx rb_cap sock_open sock_live rd_closed eofs delivered].
  intros -> -> -> Hx Hc -> -> ->. destruct x as [|y x]; [done|].
  unfold read_run. cbn [foldl flip read_step].
  unfold worker_step at 2. cbn. destruct cap as [|cap]; [lia|].
  cbn. split_and!; [done..|]. apply prefix_cons, prefix_take.
Qed.

(** ** Writing *)

Lemma write_step_ok i s : write_ok s → write_ok (write_step i s).
Proof.
  intros [H1 H2]. destruct s as [b cap wk wo wr sw x lv ac].
  cbn [writer w_woken send_waker send_wake is_full sb sb_cap] in *.
  destruct i as [buf|n|]; cbn [write_step].
  - unfold writer_step. cbn [writer w_woken]. unfold is_full. cbn [sb sb_cap].
    destruct wr; [destruct (Nat.leb cap (length b)) eqn:Ef| |
      destruct (Nat.leb cap (length b)) eqn:Ef|destruct wo]; split; cbn; try done; auto.
    intros _ Ew. destruct (H2 eq_refl) as [?|?]; [|congruence].
    unfold is_full. cbn. auto.
  - unfold sender_step. cbn [send_wake w_live]. destruct sw.
    + split; cbn.
      * intros Hp [Ewo Ewk]%orb_false_elim. destruct (H1 Hp Ewo). congruence.
      * intros Hp. destruct (H2 Hp) as [-> | ->]; rewrite ?orb_true_r; auto.
    + destruct lv; [|by split].
      split; cbn; [|done]. intros Hp Ew. destruct (H1 Hp Ew) as [Hk [Hf|?]]; [|done].
      split; [done|]. unfold is_full in *. cbn [sb sb_cap] in *.
      destruct (Nat.min n (length b)) eqn:Em; [left|by right].
      apply Nat.leb_le in Hf. apply Nat.leb_le. rewrite length_drop. lia.
  - unfold prune_write. cbn [send_wake]. destruct sw; [by split|]. split; cbn; [|done].
    intros Hp Ew. destruct (H1 Hp Ew) as [? [?|?]]; [|done]. auto.
Qed.

Lemma write_run_ok inputs s : write_ok s → write_ok (write_run inputs s).
Proof.
  revert s. induction inputs as [|i l IH]; intros s Hs; [done|]. by apply IH, write_step_ok.
Qed.

(** A writer that sleeps does so for want of room, or is about to be woken: as
    long as the worker still has the socket no wake-up for room in the ring buffer
    is lost. But once the socket has been taken off the worker's map, a writer that
    sleeps is never woken again, and what is written gets nowhere, although
    [poll_write] goes on accepting it while the buffer has room. *)
Theorem writer_woken_while_live cap inputs :
  let s := write_run inputs (write_new cap) in
  (writer s = WriterParked → w_woken s = false →
     is_full s = true ∨ ∀ n, w_woken (sender_step n s) = true)
  ∧ (w_live s = false → ∀ inputs',
       let s' := write_run inputs' s in
       tx s' = tx s
       ∧ (writer s = WriterParked → w_woken s = false → send_wake s = false →
            writer s' = WriterParked ∧ w_woken s' = false ∧ w_accepted s' = w_accepted s)).
Proof.
  intros s. assert (write_ok s) as [H1 _] by (apply write_run_ok; by split). split.
  - intros Hp Hw. destruct (H1 Hp Hw) as [Hk [?|Hs]]; [by left|right].
    intros n. unfold sender_step. rewrite Hs. cbn. by rewrite Hk, orb_true_r.
  - clear H1. generalize s. clear s inputs. intros s Hl inputs'. revert s Hl.
    induction inputs' as [|i l IH]; intros s Hl; [by cbn|].
    destruct s as [b c wk wo wr sw x lv ac]. cbn [w_live] in Hl. subst lv.
    set (s := mkWrite b c wk wo wr sw x false ac).
    assert (w_live (write_step i s) = false ∧ tx (write_step i s) = x
      ∧ (wr = WriterParked → wo = false → sw = false →
         writer (write_step i s) = WriterParked ∧ w_woken (write_step i s) = false
         ∧ send_wake (write_step i s) = false ∧ w_accepted (write_step i s) = ac))
      as (L1 & L2 & L3).
    { unfold s. destruct i as [buf|n|]; cbn [write_step].
      - unfold writer_step. cbn [writer w_woken].
        destruct wr; [destruct (is_full _)| |destruct (is_full _)|destruct wo];
          (split_and!; [done|done|by intros]).
      - unfold sender_step. cbn [send_wake w_live].
        destruct sw; (split_and!; [done|done|by intros]).
      - unfold prune_write. cbn [send_wake].
        destruct sw; (split_and!; [done|done|by intros]). }
    destruct (IH _ L1) as [I1 I2]. cbn [write_run foldl flip].
    unfold write_run in *. split; [by rewrite I1|].
    intros Hp Hw Hsw. destruct (L3 Hp Hw Hsw) as (A1 & A2 & A3 & A4).
    destruct (I2 A1 A2 A3) as (B1 & B2 & B3). split_and!; [done..|]. by rewrite B3.
Qed.

(** ** Runs *)

(** The first byte arrives while the reader is going to sleep. *)
Lemma data_wakes_reader_witness :
  let s := read_run [Reader 0; Reader 0; Reader 0; Reader 0; Arrive [Byte.x07]; Worker]
             (read_new 4) in
  rb s = [Byte.x07]
  ∧ (woken (worker_step s) = true ∨ woken (worker_step (worker_step s)) = true).
Proof.
  intros s. split; [vm_compute; reflexivity|].
  refine (proj2 (data_wakes_reader 4
    [Reader 0; Reader 0; Reader 0; Reader 0; Arrive [Byte.x07]; Worker] _ _ _));
    vm_compute; done.
Defined.

(** The connection is reset between the two looks of the reader. *)
Lemma eof_wakeup_lost_witness :
  let s := read_run [Reader 0; Reader 0; CloseSocket] (read_new 4) in
  let s' := read_run [Prune; Reader 0; Worker; Reader 0]
              (read_run [Worker; Worker; Worker; Reader 0; Reader 0] s) in
  reader s' = ReaderParked ∧ woken s' = false ∧ rd_closed s' = true ∧ eofs s' = eofs s.
Proof.
  intros s s'.
  apply (eof_wakeup_lost s 0 0 [Prune; Reader 0; Worker; Reader 0]);
    vm_compute; reflexivity.
Defined.

Lemma eof_before_data_witness :
  let s := read_run [Reader 0; Arrive [Byte.x07]; CloseSocket] (read_new 4) in
  let s' := read_run [Worker; Worker; Reader 0] s in
  rb s' = [Byte.x07] ∧ eofs s' = S (eofs s).
Proof.
  intros s s'. split; [vm_compute; reflexivity|].
  apply (eof_before_data s 0); (vm_compute; reflexivity) || (vm_compute; done) || (vm_compute; lia).
Defined.

(** Two bytes fill the buffer, the writer sleeps, and the connection is reset. *)
Lemma writer_woken_while_live_witness :
  let buf := [Byte.x01; Byte.x02; Byte.x03] in
  let s := write_run [Writer buf; Writer buf; Writer buf; Writer buf; PruneWrite] (write_new 2) in
  let s' := write_run [Sender 2; Writer buf; Sender 2] s in
  tx s' = tx s
  ∧ (writer s = WriterParked → w_woken s = false → send_wake s = false →
     writer s' = WriterParked ∧ w_woken s' = false ∧ w_accepted s' = w_accepted s).
Proof.
  intros buf s s'.
  apply (proj2 (writer_woken_while_live 2
    [Writer buf; Writer buf; Writer buf; Writer buf; PruneWrite])); vm_compute; reflexivity.
Defined.
