(* ===== verification/NetStack.v ===== *)
(** The packet side of the userspace network stack
    (crates/ombrac-netstack/src: stack.rs, device.rs, buffer.rs, udp.rs, and the
    dispatcher and acceptor of tcp.rs): the sink that routes IP packets to the
    UDP and the TCP half, the UDP half itself, the buffer pool, the device the
    TCP workers poll, and how a worker is chosen and takes a new connection. *)

From S2P Require Import Prelude Std.

#[local] Open Scope Z_scope.

(** ** Packets on the wire *)

(** The protocols the code names. *)
Inductive IpProtocol := Tcp | Udp | Icmp | Icmpv6 | OtherProtocol (n : Z).

#[export] Instance IpProtocol_eq_dec : EqDecision IpProtocol.
Proof. solve_decision. Defined.

Inductive IpVersion := Ipv4 | Ipv6.

Definition IPV6_HEADER_LEN : nat := 40.
Definition UDP_HEADER_LEN : nat := 8.

(** What the code asks of [smoltcp::wire] about a packet; [None] where
    [new_checked] fails. [tcp_checked] gives the ports and the SYN and ACK flags
    of a segment, [udp_checked] the ports and the length of the payload. *)
Class SmolWire := {
  version_of_packet : Bytes → option IpVersion;
  ipv4_checked : Bytes → bool;
  ipv6_checked : Bytes → bool;
  ipv4_header_len : Bytes → nat;
  ipv4_src : Bytes → Ipv4Addr;
  ipv4_dst : Bytes → Ipv4Addr;
  ipv4_next_header : Bytes → IpProtocol;
  ipv4_payload : Bytes → Bytes;
  ipv6_src : Bytes → Ipv6Addr;
  ipv6_dst : Bytes → Ipv6Addr;
  ipv6_next_header : Bytes → IpProtocol;
  ipv6_payload : Bytes → Bytes;
  tcp_checked : Bytes → option (Z * Z * bool * bool);
  udp_checked : Bytes → option (Z * Z * nat)
}.

(** [IpPacket]. *)
Inductive IpPacket := PacketV4 (b : Bytes) | PacketV6 (b : Bytes).

Section packet.
Context `{SmolWire}.

(** [IpPacket::new_checked]. *)
Definition new_checked (packet : Bytes) : option IpPacket :=
  match version_of_packet packet with
  | None => None
  | Some Ipv4 => if ipv4_checked packet then Some (PacketV4 packet) else None
  | Some Ipv6 => if ipv6_checked packet then Some (PacketV6 packet) else None
  end.

Definition src_addr (p : IpPacket) : IpAddr :=
  match p with PacketV4 b => IpV4 (ipv4_src b) | PacketV6 b => IpV6 (ipv6_src b) end.

Definition dst_addr (p : IpPacket) : IpAddr :=
  match p with PacketV4 b => IpV4 (ipv4_dst b) | PacketV6 b => IpV6 (ipv6_dst b) end.

Definition protocol (p : IpPacket) : IpProtocol :=
  match p with PacketV4 b => ipv4_next_header b | PacketV6 b => ipv6_next_header b end.

Definition payload (p : IpPacket) : Bytes :=
  match p with PacketV4 b => ipv4_payload b | PacketV6 b => ipv6_payload b end.
End packet.

(** ** Bounded channels *)

(** [mpsc::channel]: [waiters] are the tasks registered to be woken when there
    is room. *)
Record Chan (A : Type) := mkChan
  { items : list A; capacity : nat; rx_open : bool; waiters : list nat }.
Arguments mkChan {A}.
Arguments items {A} c.
Arguments capacity {A} c.
Arguments rx_open {A} c.
Arguments waiters {A} c.

Section chan.
Context {A : Type}.

Definition chan_new (n : nat) : Chan A := mkChan [] n true [].

Definition has_room (c : Chan A) : bool := Nat.ltb (length (items c)) (capacity c).

Definition chan_push (x : A) (c : Chan A) : Chan A :=
  mkChan (items c ++ [x]) (capacity c) (rx_open c) (waiters c).

(** [try_send], [try_reserve] and [send]: whether the item went in. *)
Definition try_send (x : A) (c : Chan A) : bool * Chan A :=
  if rx_open c && has_room c then (true, chan_push x c) else (false, c).

(** A poll of [reserve()]: it registers the task when there is no room, *)
Definition reserve_poll (task : nat) (c : Chan A) : Poll (Result unit unit) * Chan A :=
  if negb (rx_open c) then (Ready (Err tt), c)
  else if has_room c then (Ready (Ok tt), c)
  else (Pending, mkChan (items c) (capacity c) (rx_open c) (waiters c ++ [task])).

(** and dropping the future before it is ready takes the task off again. *)
Definition reserve_drop (task : nat) (c : Chan A) : Chan A :=
  mkChan (items c) (capacity c) (rx_open c) (filter (λ t, t ≠ task) (waiters c)).

(** The receiver takes an item; the task at the head of the line is woken. *)
Definition chan_recv (c : Chan A) : option A * option nat * Chan A :=
  match items c with
  | [] => (None, None, c)
  | x :: l => (Some x, head (waiters c), mkChan l (capacity c) (rx_open c) (tail (waiters c)))
  end.

(** The receiver is dropped: the channel closes, what is queued is dropped with
    it, and the tasks in the line are woken. *)
Definition chan_close (c : Chan A) : Chan A := mkChan [] (capacity c) false [].
End chan.

(** ** The sink *)

Abbreviation Packet := Bytes.

(** [StackSplitSink]. *)
Record StackSplitSink := mkSink {
  udp_inbound : Chan Packet;
  tcp_inbound : Chan Packet;
  packet_container : option (Packet * IpProtocol)
}.

Definition sink_new (udp tcp : Chan Packet) : StackSplitSink := mkSink udp tcp None.

(** The task that polls the sink. *)
Definition SINK_TASK : nat := 0.

(** A poll of [reserve] that ends with the future dropped, and the item sent
    when it was ready. *)
Definition reserve_once (item : Packet) (c : Chan Packet)
    : Poll (Result unit unit) * Chan Packet :=
  match reserve_poll SINK_TASK c with
  | (Ready (Ok _), c) => (Ready (Ok tt), chan_push item c)
  | (Ready (Err _), c) => (Ready (Err tt), c)
  | (Pending, c) => (Pending, reserve_drop SINK_TASK c)
  end.

Definition closed_error : IoError :=
  mkIoError BrokenPipe "Failed to send packet: channel closed for protocol ".

(** [poll_flush]. *)
Definition poll_flush (self : StackSplitSink) : Poll (io_result unit) * StackSplitSink :=
  match packet_container self with
  | None => (Ready (Ok tt), self)
  | Some (item, proto) =>
    let finish (r : Poll (Result unit unit)) (udp tcp : Chan Packet) :=
      match r with
      | Ready (Ok _) => (Ready (Ok tt), mkSink udp tcp None)
      | Ready (Err _) => (Ready (Err closed_error), mkSink udp tcp None)
      | Pending => (Pending, mkSink udp tcp (Some (item, proto)))
      end in
    match proto with
    | Udp =>
      let '(r, udp) := reserve_once item (udp_inbound self) in
      finish r udp (tcp_inbound self)
    | Tcp | Icmp | Icmpv6 =>
      let '(r, tcp) := reserve_once item (tcp_inbound self) in
      finish r (udp_inbound self) tcp
    | OtherProtocol _ =>
      (Ready (Ok tt), mkSink (udp_inbound self) (tcp_inbound self) None)
    end
  end.

(** [poll_ready]. *)
Definition poll_ready (self : StackSplitSink) : Poll (io_result unit) * StackSplitSink :=
  match packet_container self with
  | Some _ => poll_flush self
  | None => (Ready (Ok tt), self)
  end.

(** [start_send]. *)
Definition start_send `{SmolWire} (item : Packet) (self : StackSplitSink)
    : io_result unit * StackSplitSink :=
  match item with
  | [] => (Ok tt, self)
  | _ =>
    match new_checked item with
    | None => (Err (mkIoError InvalidData "wire error"), self)
    | Some packet =>
      let proto := protocol packet in
      (Ok tt,
       match proto with
       | Tcp | Udp | Icmp | Icmpv6 =>
         mkSink (udp_inbound self) (tcp_inbound self) (Some (item, proto))
       | OtherProtocol _ => self
       end)
    end
  end.

(** [SinkExt::send] respects the contract of a sink: [start_send] only after
    [poll_ready]. The receivers take packets at any time, and are dropped when
    their half ends; [udp_got], [tcp_got] are what they took, [offered] the
    packets [start_send] accepted. *)
Record SinkSystem := mkSinkSys
  { sink : StackSplitSink; offered : list Packet; udp_got : list Packet; tcp_got : list Packet }.

Section sink_system.
Context `{SmolWire}.

(** Where a packet goes. *)
Definition goes_to_udp (item : Packet) : bool :=
  match item, new_checked item with
  | _ :: _, Some p => match protocol p with Udp => true | _ => false end
  | _, _ => false
  end.

Definition goes_to_tcp (item : Packet) : bool :=
  match item, new_checked item with
  | _ :: _, Some p => match protocol p with Tcp | Icmp | Icmpv6 => true | _ => false end
  | _, _ => false
  end.

Inductive sink_step : SinkSystem → SinkSystem → Prop :=
  | sink_send item s1 s2 s :
      poll_ready (sink s) = (Ready (Ok tt), s1) →
      start_send item s1 = (Ok tt, s2) →
      sink_step s (mkSinkSys s2 (offered s ++ [item]) (udp_got s) (tcp_got s))
  | sink_flush s :
      sink_step s (mkSinkSys (snd (poll_flush (sink s))) (offered s) (udp_got s) (tcp_got s))
  | udp_take x w c s :
      chan_recv (udp_inbound (sink s)) = (Some x, w, c) →
      sink_step s (mkSinkSys (mkSink c (tcp_inbound (sink s)) (packet_container (sink s)))
        (offered s) (udp_got s ++ [x]) (tcp_got s))
  | tcp_take x w c s :
      chan_recv (tcp_inbound (sink s)) = (Some x, w, c) →
      sink_step s (mkSinkSys (mkSink (udp_inbound (sink s)) c (packet_container (sink s)))
        (offered s) (udp_got s) (tcp_got s ++ [x]))
  | udp_close s :
      sink_step s (mkSinkSys (mkSink (chan_close (udp_inbound (sink s))) (tcp_inbound (sink s))
        (packet_container (sink s))) (offered s) (udp_got s) (tcp_got s))
  | tcp_close s :
      sink_step s (mkSinkSys (mkSink (udp_inbound (sink s)) (chan_close (tcp_inbound (sink s)))
        (packet_container (sink s))) (offered s) (udp_got s) (tcp_got s)).

(** The packet held, by destination. *)
Definition held (f : Packet → bool) (self : StackSplitSink) : list Packet :=
  match packet_container self with
  | Some (item, _) => if f item then [item] else []
  | None => []
  end.

(** A queue and its account: what was offered to it was taken, was [lost] with the
    receiver, is in the queue or is held; nothing waits in a closed queue, nothing
    is lost of an open one, and nobody stands in line between two polls. *)
Record queue_ok (got lost held offered : list Packet) (c : Chan Packet) : Prop := {
  q_all : got ++ lost ++ items c ++ held = offered;
  q_room : (length (items c) ≤ capacity c)%nat;
  q_open : rx_open c = true → lost = [];
  q_closed : rx_open c = false → items c = [];
  q_idle : waiters c = []
}.

Record sink_ok (udp_lost tcp_lost : list Packet) (s : SinkSystem) : Prop := {
  sk_udp : queue_ok (udp_got s) udp_lost (held goes_to_udp (sink s))
             (List.filter goes_to_udp (offered s)) (udp_inbound (sink s));
  sk_tcp : queue_ok (tcp_got s) tcp_lost (held goes_to_tcp (sink s))
             (List.filter goes_to_tcp (offered s)) (tcp_inbound (sink s));
  sk_held : ∀ item proto, packet_container (sink s) = Some (item, proto) →
            item ≠ [] ∧ ∃ p, new_checked item = Some p ∧ protocol p = proto
                             ∧ ∀ n, proto ≠ OtherProtocol n
}.

Lemma queue_recv got lost h off c x w c' :
  chan_recv c = (Some x, w, c') → queue_ok got lost h off c →
  queue_ok (got ++ [x]) lost h off c' ∧ w = None.
Proof.
  unfold chan_recv. intros E [H1 H2 H3 H4 H5].
  destruct (items c) as [|y l] eqn:Ei; [done|]. injection E as -> <- <-.
  rewrite H5. split; [|done]. destruct (rx_open c) eqn:Eo; [|by specialize (H4 eq_refl)].
  rewrite (H3 eq_refl) in *. cbn [length] in H2.
  split; cbn [items capacity rx_open waiters]; rewrite <-?app_assoc; (done || lia || auto).
Qed.

Lemma queue_close got lost h off c :
  queue_ok got lost h off c → queue_ok got (lost ++ items c) h off (chan_close c).
Proof.
  intros [H1 H2 H3 H4 H5]. split; cbn; [|lia|done..]. by rewrite <-H1, <-!app_assoc.
Qed.

(** What a queue loses with its receiver is what it held. *)
Lemma queue_closed_length got lost h off c k :
  queue_ok got lost h off c → (length lost ≤ k)%nat → (capacity c ≤ k)%nat →
  (length (lost ++ items c) ≤ k)%nat.
Proof.
  intros [H1 H2 H3 H4 H5] Hl Hk. rewrite length_app. destruct (rx_open c).
  - rewrite H3 by done. cbn. lia.
  - rewrite H4 by done. cbn. lia.
Qed.

Lemma reserve_once_spec got lost item off c :
  queue_ok got lost [item] off c →
  let '(r, c') := reserve_once item c in
  capacity c' = capacity c
  ∧ ((r = Ready (Ok tt) ∧ queue_ok got lost [] off c')
     ∨ (r = Pending ∧ c' = c ∧ rx_open c = true ∧ has_room c = false)
     ∨ (r = Ready (Err tt) ∧ rx_open c = false ∧ queue_ok got (lost ++ [item]) [] off c')).
Proof.
  intros [H1 H2 H3 H4 H5]. unfold reserve_once, reserve_poll.
  destruct (rx_open c) eqn:Eo; cbn [negb].
  - destruct (has_room c) eqn:Er; cbn [chan_push reserve_drop capacity]; split; try done.
    + left. split; [done|]. unfold has_room in Er. apply Nat.ltb_lt in Er.
      split; cbn; rewrite ?length_app, ?app_nil_r; (done || (cbn; lia) || congruence || auto).
    + right. left. destruct c as [l n b ws]. cbn in *. subst ws b.
      done.
  - split; [done|]. right. right. split_and!; [done..|]. rewrite H4 in * by done.
    split; rewrite ?H4; cbn in *; (done || lia || auto).
    + by rewrite <-H1, app_nil_r.
    + congruence.
Qed.

(** The half a held packet goes to. *)
Definition inbound (proto : IpProtocol) (self : StackSplitSink) : Chan Packet :=
  match proto with Udp => udp_inbound self | _ => tcp_inbound self end.

(** A flush delivers the packet held, finds its queue full and changes nothing, or
    finds the receiver gone, loses the packet and says so. *)
Lemma poll_flush_ok lu lt s off u t :
  sink_ok lu lt (mkSinkSys s off u t) →
  let '(r, s') := poll_flush s in
  capacity (udp_inbound s') = capacity (udp_inbound s)
  ∧ capacity (tcp_inbound s') = capacity (tcp_inbound s)
  ∧ ((r = Ready (Ok tt) ∧ packet_container s' = None ∧ sink_ok lu lt (mkSinkSys s' off u t))
   ∨ (r = Pending ∧ s' = s)
   ∨ (r = Ready (Err closed_error) ∧ packet_container s' = None
      ∧ sink_ok (lu ++ held goes_to_udp s) (lt ++ held goes_to_tcp s) (mkSinkSys s' off u t))).
Proof.
  intros Hok. unfold poll_flush.
  destruct (packet_container s) as [[item proto]|] eqn:Ec; [|by auto 10].
  destruct Hok as [H1 H2 H3]. cbn [sink offered udp_got tcp_got] in *.
  destruct (H3 _ _ Ec) as (Hne & p & Hp & Hproto & Hno).
  assert (goes_to_udp item = match proto with Udp => true | _ => false end
    ∧ goes_to_tcp item = match proto with Tcp | Icmp | Icmpv6 => true | _ => false end)
    as [Gu Gt].
  { unfold goes_to_udp, goes_to_tcp. destruct item; [done|]. by rewrite Hp, Hproto. }
  unfold held in *. rewrite Ec, Gu in *. rewrite Gt in *.
  destruct proto as [| | | |n]; [| | | |by destruct (Hno n)];
    match goal with H : queue_ok _ _ [item] _ ?c |- context [reserve_once item ?c] =>
      pose proof (reserve_once_spec _ _ _ _ _ H) as Hr;
      destruct (reserve_once item c) as [r c'];
      destruct Hr as (Hcap & [(-> & Hq)|[(-> & -> & _)|(-> & _ & Hq)]]) end;
    (split; [done|]); (split; [done|]).
  all: try (left; split; [done|]; split; [done|]; by split).
  all: try (right; left; split; [done|]; destruct s; cbn in *; congruence).
  all: right; right; split; [done|]; split; [done|]; rewrite ?app_nil_r; by split.
Qed.

Lemma start_send_cons item self :
  item ≠ [] →
  start_send item self =
    match new_checked item with
    | None => (Err (mkIoError InvalidData "wire error"), self)
    | Some packet =>
      (Ok tt,
       match protocol packet with
       | OtherProtocol _ => self
       | proto => mkSink (udp_inbound self) (tcp_inbound self) (Some (item, proto))
       end)
    end.
Proof.
  intros Hn. unfold start_send. destruct item; [done|].
  destruct (new_checked _) as [p|]; [|done]. by destruct (protocol p).
Qed.

Lemma start_send_ok lu lt item s s' off u t :
  packet_container s = None → start_send item s = (Ok tt, s') →
  sink_ok lu lt (mkSinkSys s off u t) → sink_ok lu lt (mkSinkSys s' (off ++ [item]) u t)
  ∧ udp_inbound s' = udp_inbound s ∧ tcp_inbound s' = tcp_inbound s.
Proof.
  intros Ec Es [H1 H2 H3]. cbn [sink offered udp_got tcp_got] in *.
  assert (∀ got lost off h x c, queue_ok got lost [] off c → x = off ++ h →
    queue_ok got lost h x c) as Hadd.
  { intros got lost o h x c [Q1 Q2 Q3 Q4 Q5] ->. split; try done.
    rewrite <-Q1, app_nil_r. by rewrite <-!app_assoc. }
  unfold held in H1, H2. rewrite Ec in H1, H2.
  destruct (decide (item = [])) as [->|Hne].
  { injection Es as <-. split; [|done]. split; unfold held; cbn [sink offered udp_got tcp_got];
      rewrite ?Ec; [apply (Hadd _ _ _ _ _ _ H1)|apply (Hadd _ _ _ _ _ _ H2)|done];
      by rewrite List.filter_app. }
  rewrite start_send_cons in Es by done.
  assert (goes_to_udp item = match new_checked item with Some p =>
      match protocol p with Udp => true | _ => false end | None => false end
    ∧ goes_to_tcp item = match new_checked item with Some p =>
      match protocol p with Tcp | Icmp | Icmpv6 => true | _ => false end | None => false end)
    as [Gu Gt].
  { unfold goes_to_udp, goes_to_tcp. by destruct item. }
  destruct (new_checked item) as [p|] eqn:Ep; [|done].
  injection Es as <-. split; [|by destruct (protocol p)].
  destruct (protocol p) as [| | | |n] eqn:Epr; split; unfold held;
    cbn [sink offered udp_got tcp_got udp_inbound tcp_inbound packet_container];
    rewrite ?Ec, ?Gu, ?Gt.
  all: try (eapply Hadd; [eassumption|]; rewrite List.filter_app; cbn [List.filter];
            rewrite ?Gu, ?Gt; done).
  all: intros ?? E; (congruence || (injection E as <- <-; split; [done|eauto])).
Qed.

Lemma sink_step_ok lu lt s s' :
  sink_ok lu lt s → sink_step s s' → ∃ lu' lt', sink_ok lu' lt' s'.
Proof.
  intros Hok Hs. destruct Hs as [item s1 s2 s Er Es|s|x w c s E|x w c s E|s|s].
  - destruct s as [s0 off u t]. cbn [sink] in *.
    assert (sink_ok lu lt (mkSinkSys s1 off u t) ∧ packet_container s1 = None) as [H1 H2].
    { unfold poll_ready in Er. destruct (packet_container s0) eqn:Ec.
      - pose proof (poll_flush_ok _ _ _ _ _ _ Hok) as Hf. rewrite Er in Hf.
        by destruct Hf as (_ & _ & [(_ & ? & ?)|[[? _]|[? _]]]).
      - by injection Er as <-. }
    exists lu, lt. by apply (start_send_ok _ _ _ _ _ _ _ _ H2 Es).
  - destruct s as [s0 off u t]. pose proof (poll_flush_ok _ _ _ _ _ _ Hok) as Hf.
    cbn [sink offered udp_got tcp_got].
    destruct (poll_flush s0) as [r s1]; destruct Hf as (_ & _ & [(_ & _ & ?)|[[_ ->]|(_ & _ & ?)]]);
      eauto.
  - destruct Hok as [H1 H2 H3]. exists lu, lt. split; [|done..]. by destruct (queue_recv _ _ _ _ _ _ _ _ E H1).
  - destruct Hok as [H1 H2 H3]. exists lu, lt. split; [done| |done]. by destruct (queue_recv _ _ _ _ _ _ _ _ E H2).
  - destruct Hok as [H1 H2 H3]. eexists _, lt. split; [by apply queue_close|done..].
  - destruct Hok as [H1 H2 H3]. eexists lu, _. split; [done|by apply queue_close|done].
Qed.

Definition sink_start (n m : nat) : SinkSystem :=
  mkSinkSys (sink_new (chan_new n) (chan_new m)) [] [] [].

Lemma sink_start_ok n m : sink_ok [] [] (sink_start n m).
Proof. split; [split; cbn; done || lia..|done]. Qed.

Lemma sink_reach_ok n m s : rtc sink_step (sink_start n m) s → ∃ lu lt, sink_ok lu lt s.
Proof.
  intros Hr. cut (∀ lu lt s0, sink_ok lu lt s0 → rtc sink_step s0 s → ∃ lu lt, sink_ok lu lt s).
  { intros Hc. exact (Hc _ _ _ (sink_start_ok n m) Hr). }
  intros lu lt s0 H0 H1. revert lu lt H0. induction H1 as [|s0 s1 s2 Hs _ IH]; [eauto|].
  intros lu lt H0. destruct (sink_step_ok _ _ _ _ H0 Hs) as (lu' & lt' & H1). eauto.
Qed.

(** Whatever is offered and whenever the receivers take packets, the UDP
    half gets the UDP packets offered and the TCP half the TCP and ICMP ones, each
    in the order they were offered, and as long as its receiver lives none is
    lost or duplicated; packets of other protocols and empty ones go nowhere; and
    the queues keep to their capacities. *)
Theorem sink_routes_in_order n m s :
  rtc sink_step (sink_start n m) s →
  ∃ udp_lost tcp_lost,
    udp_got s ++ udp_lost ++ items (udp_inbound (sink s)) ++ held goes_to_udp (sink s)
      = List.filter goes_to_udp (offered s)
    ∧ tcp_got s ++ tcp_lost ++ items (tcp_inbound (sink s)) ++ held goes_to_tcp (sink s)
      = List.filter goes_to_tcp (offered s)
    ∧ (rx_open (udp_inbound (sink s)) = true → udp_lost = [])
    ∧ (rx_open (tcp_inbound (sink s)) = true → tcp_lost = [])
    ∧ (length (items (udp_inbound (sink s))) ≤ capacity (udp_inbound (sink s)))%nat
    ∧ (length (items (tcp_inbound (sink s))) ≤ capacity (tcp_inbound (sink s)))%nat.
Proof.
  intros Hr. destruct (sink_reach_ok _ _ _ Hr) as (lu & lt & [[] [] _]). by exists lu, lt.
Qed.

(** A malformed packet is refused with [InvalidData] and nothing is queued;
    the caller ([forward_packets_from_tun_to_stack]) stops at the first error. *)
Lemma start_send_malformed item self :
  item ≠ [] → new_checked item = None →
  start_send item self = (Err (mkIoError InvalidData "wire error"), self).
Proof. intros Hn E. by rewrite start_send_cons, E. Qed.

(** C34. A flush can be left waiting for ever. [poll_flush] polls a fresh [reserve]
    future and drops it on return, which takes the task off the line of the
    channel: whatever the protocol of the packet held, when the queue of its half
    is full the flush is pending and has changed nothing, so the task stands in no
    line, and a receiver that then takes a packet and makes room wakes no task of
    either queue. *)
Theorem flush_lost_wakeup n m s item proto :
  rtc sink_step (sink_start n m) s →
  packet_container (sink s) = Some (item, proto) →
  rx_open (inbound proto (sink s)) = true → has_room (inbound proto (sink s)) = false →
  poll_flush (sink s) = (Pending, sink s)
  ∧ waiters (udp_inbound (sink s)) = [] ∧ waiters (tcp_inbound (sink s)) = []
  ∧ ∀ x w c, chan_recv (inbound proto (sink s)) = (Some x, w, c) → w = None ∧ has_room c = true.
Proof.
  intros Hr Ec Ho Hroom. destruct (sink_reach_ok _ _ _ Hr) as (lu & lt & [H1 H2 H3]).
  destruct (H3 _ _ Ec) as (_ & _ & _ & _ & Hno).
  assert (reserve_once item (inbound proto (sink s)) = (Pending, inbound proto (sink s))) as E.
  { unfold reserve_once, reserve_poll. rewrite Ho, Hroom. cbn [negb].
    assert (waiters (inbound proto (sink s)) = []) as Hw by (destruct proto; apply H1 || apply H2).
    destruct (inbound proto (sink s)) as [l k b ws]. cbn in *. subst ws b.
    done. }
  split.
  { unfold poll_flush. rewrite Ec. destruct (sink s) as [cu ct pc]. cbn in *. subst pc.
    destruct proto as [| | | |k]; [..|by destruct (Hno k)]; cbn in *; by rewrite E. }
  split; [apply H1|]. split; [apply H2|]. intros x w c Hx.
  assert (∃ got lost h off, queue_ok got lost h off (inbound proto (sink s)))
    as (got & lost & h & off & Hq) by (destruct proto; eauto).
  destruct (queue_recv _ _ _ _ _ _ _ _ Hx Hq) as [_ ->]. split; [done|].
  destruct Hq as [_ Q _ _ _]. revert Hx Q. unfold chan_recv, has_room.
  destruct (items (inbound proto (sink s))) as [|y l]; [done|]. intros [= _ _ <-]. cbn.
  intros Q. apply Nat.ltb_lt. lia.
Qed.
End sink_system.

(** ** The UDP half *)

(** [UdpPacket]. *)
Record UdpPacket := mkUdp { data : Bytes; src : SocketAddr; dst : SocketAddr }.

(** What the code asks of [etherparse::PacketBuilder]: the packet for two
    addresses of one family, a TTL and a payload, or the error of [write]. *)
Class PacketBuilder := {
  build_v4 : Bytes → Bytes → Z → Z → Z → Bytes → io_result Bytes;
  build_v6 : Bytes → Bytes → Z → Z → Z → Bytes → io_result Bytes
}.

Section udp.
Context `{SmolWire}.

(** [SplitRead::recv] on a packet taken from the channel. *)
Definition split_read (original_bytes : Bytes) : option UdpPacket :=
  match new_checked original_bytes with
  | None => None
  | Some packet =>
    let ip_header_len := match packet with
                         | PacketV4 p => ipv4_header_len p
                         | PacketV6 _ => IPV6_HEADER_LEN
                         end in
    let src_ip := src_addr packet in
    let dst_ip := dst_addr packet in
    if Nat.ltb (length original_bytes) (ip_header_len + UDP_HEADER_LEN) then None
    else
      match udp_checked (drop ip_header_len original_bytes) with
      | None => None
      | Some (src_port, dst_port, payload_len) =>
        let payload_start := (ip_header_len + UDP_HEADER_LEN)%nat in
        let payload_end := (payload_start + payload_len)%nat in
        if Nat.ltb (length original_bytes) payload_end then None
        else Some (mkUdp (take payload_len (drop payload_start original_bytes))
               (socket_addr_new src_ip src_port) (socket_addr_new dst_ip dst_port))
      end
  end.

(** [SplitRead::recv]: [None] when the channel is closed and empty, and also
    when the packet does not parse. *)
Definition udp_recv (recv : list Packet) : option UdpPacket * list Packet :=
  match recv with
  | [] => (None, [])
  | p :: recv => (split_read p, recv)
  end.

(** [SplitWrite::send]: the packet put on the channel. *)
Definition split_write `{PacketBuilder} (ttl : Z) (chan_open : bool) (packet : UdpPacket)
    : io_result Packet :=
  let built :=
    match src packet, dst packet with
    | SockV4 a, SockV4 b =>
      build_v4 (v4_octets (sa4_ip a)) (v4_octets (sa4_ip b)) ttl (sa4_port a)
        (sa4_port b) (data packet)
    | SockV6 a, SockV6 b =>
      build_v6 (v6_octets (sa6_ip a)) (v6_octets (sa6_ip b)) ttl (sa6_port a)
        (sa6_port b) (data packet)
    | _, _ => Err (mkIoError InvalidInput "UDP socket only supports IPv4 and IPv6")
    end in
  match built with
  | Err e => Err e
  | Ok final_bytes =>
    if chan_open then Ok final_bytes else Err (io_other "send error: channel closed")
  end.
End udp.

(** What the two crates promise about a UDP packet that one built and the other
    reads: an IP header that is recognised, with the addresses, then a UDP header
    with the ports and the length, then the payload. *)
Class WireLaws `{SmolWire} `{PacketBuilder} := {
  build_v4_ok s d ttl sp dp b f :
    build_v4 (vec_to_list (v4_octets s)) (vec_to_list (v4_octets d)) ttl sp dp b = Ok f →
    ∃ ih uh, f = ih ++ uh ++ b ∧ length uh = UDP_HEADER_LEN
      ∧ version_of_packet f = Some Ipv4 ∧ ipv4_checked f = true
      ∧ ipv4_header_len f = length ih ∧ ipv4_src f = s ∧ ipv4_dst f = d
      ∧ ipv4_next_header f = Udp
      ∧ udp_checked (uh ++ b) = Some (sp, dp, length b);
  build_v6_ok s d ttl sp dp b f :
    build_v6 (vec_to_list (v6_octets s)) (vec_to_list (v6_octets d)) ttl sp dp b = Ok f →
    ∃ ih uh, f = ih ++ uh ++ b ∧ length uh = UDP_HEADER_LEN
      ∧ version_of_packet f = Some Ipv6 ∧ ipv6_checked f = true
      ∧ length ih = IPV6_HEADER_LEN ∧ ipv6_src f = s ∧ ipv6_dst f = d
      ∧ ipv6_next_header f = Udp
      ∧ udp_checked (uh ++ b) = Some (sp, dp, length b)
}.

(** An address without flow label and scope, as the reader makes them. *)
Definition plain_addr (a : SocketAddr) : SocketAddr :=
  socket_addr_new (socket_addr_ip a) (socket_addr_port a).

Section udp_props.
Context `{WireLaws}.

(** The arithmetic of [split_read] on a packet in three parts. *)
Lemma split_parts (ih uh b : Bytes) :
  length uh = UDP_HEADER_LEN →
  Nat.ltb (length (ih ++ uh ++ b)) (length ih + UDP_HEADER_LEN) = false
  ∧ drop (length ih) (ih ++ uh ++ b) = uh ++ b
  ∧ Nat.ltb (length (ih ++ uh ++ b)) (length ih + UDP_HEADER_LEN + length b) = false
  ∧ take (length b) (drop (length ih + UDP_HEADER_LEN) (ih ++ uh ++ b)) = b.
Proof.
  intros Hu. rewrite !length_app, Hu. split_and!.
  - apply Nat.ltb_ge. lia.
  - apply drop_app_length.
  - apply Nat.ltb_ge. lia.
  - rewrite <-Hu, <-drop_drop, drop_app_length, drop_app_length.
    by rewrite take_ge.
Qed.

(** A UDP packet that the writer accepts is a packet the sink routes to the
    UDP half, and the reader gets from it the same payload between the same
    addresses and ports; a packet between two families is refused, with
    [InvalidInput]. *)
Theorem udp_wire_round_trip ttl p :
  match split_write ttl true p with
  | Ok f =>
    split_read f = Some (mkUdp (data p) (plain_addr (src p)) (plain_addr (dst p)))
    ∧ (∃ q, new_checked f = Some q ∧ protocol q = Udp)
  | Err e =>
    match src p, dst p with
    | SockV4 a, SockV4 b =>
      build_v4 (v4_octets (sa4_ip a)) (v4_octets (sa4_ip b)) ttl (sa4_port a)
        (sa4_port b) (data p) = Err e
    | SockV6 a, SockV6 b =>
      build_v6 (v6_octets (sa6_ip a)) (v6_octets (sa6_ip b)) ttl (sa6_port a)
        (sa6_port b) (data p) = Err e
    | _, _ => kind e = InvalidInput
    end
  end.
Proof.
  destruct p as [b sa da]. unfold split_write. cbn [src dst data].
  destruct sa as [[s sp]|[s sp fl sc]], da as [[d dp]|[d dp fl' sc']]; try done;
    cbn [sa4_ip sa4_port sa6_ip sa6_port].
  - destruct (build_v4 _ _ _ _ _ _) as [f|] eqn:E; [|done].
    apply build_v4_ok in E as (ih & uh & -> & Hu & V & C & L & S & D & P & U).
    destruct (split_parts ih uh b Hu) as (A1 & A2 & A3 & A4).
    assert (new_checked (ih ++ uh ++ b) = Some (PacketV4 (ih ++ uh ++ b))) as Ep
      by (unfold new_checked; by rewrite V, C).
    split; [|by exists (PacketV4 (ih ++ uh ++ b))].
    unfold split_read. rewrite Ep. cbv zeta. rewrite L, A1, A2, U, A3, A4.
    cbn [src_addr dst_addr]. by rewrite S, D.
  - destruct (build_v6 _ _ _ _ _ _) as [f|] eqn:E; [|done].
    apply build_v6_ok in E as (ih & uh & -> & Hu & V & C & L & S & D & P & U).
    destruct (split_parts ih uh b Hu) as (A1 & A2 & A3 & A4).
    assert (new_checked (ih ++ uh ++ b) = Some (PacketV6 (ih ++ uh ++ b))) as Ep
      by (unfold new_checked; by rewrite V, C).
    split; [|by exists (PacketV6 (ih ++ uh ++ b))].
    unfold split_read. rewrite Ep. cbv zeta. rewrite <-L, A1, A2, U, A3, A4.
    cbn [src_addr dst_addr]. by rewrite S, D.
Qed.
End udp_props.

(** ** The buffer pool *)

(** A [BytesMut], by its length and capacity. *)
Record BytesMut := mkBytesMut { len : nat; cap : nat }.

(** What [BytesMut::reserve] leaves as the capacity. *)
Class Reserve := reserve_cap : nat → BytesMut → nat.

(** Documented: the capacity then covers the length plus what was asked for, and
    a buffer that has the room already is left alone. *)
Class ReserveLaws `{Reserve} := {
  reserve_enough n b : (len b + n ≤ reserve_cap n b)%nat;
  reserve_noop n b : (len b + n ≤ cap b)%nat → reserve_cap n b = cap b
}.

Record BufferPool := mkPool
  { pool : list BytesMut; max_pool_size : nat; default_buffer_size : nat }.

Section buffer.
Context `{Reserve}.

(** [BufferPool::get]. *)
Definition pool_get (capacity : nat) (self : BufferPool) : BytesMut * BufferPool :=
  let required_capacity := Nat.max capacity (default_buffer_size self) in
  let '(buffer, rest) := match pool self with
                         | b :: rest => (b, rest)
                         | [] => (mkBytesMut 0 required_capacity, [])
                         end in
  let buffer := if Nat.ltb (cap buffer) required_capacity
                then mkBytesMut (len buffer) (reserve_cap (required_capacity - cap buffer) buffer)
                else buffer in
  (mkBytesMut 0 (cap buffer), mkPool rest (max_pool_size self) (default_buffer_size self)).

(** [release]. *)
Definition pool_release (buffer : BytesMut) (self : BufferPool) : BufferPool :=
  if Nat.ltb (length (pool self)) (max_pool_size self)
  then mkPool (pool self ++ [buffer]) (max_pool_size self) (default_buffer_size self)
  else self.

(** The capacity asked for is met when the pool is empty or its buffer comes
    back full. *)
Lemma pool_get_full `{!ReserveLaws} n self :
  match pool self with [] => True | b :: _ => len b = cap b end →
  (Nat.max n (default_buffer_size self) ≤ cap (fst (pool_get n self)))%nat.
Proof.
  intros Hf. unfold pool_get. destruct (pool self) as [|b rest]; cbn [cap len fst].
  - by rewrite Nat.ltb_irrefl.
  - destruct (Nat.ltb_spec (cap b) (Nat.max n (default_buffer_size self))); cbn; [|lia].
    pose proof (reserve_enough (Nat.max n (default_buffer_size self) - cap b) b). lia.
Qed.

(** [reserve] counts from the length, not from the capacity: a buffer that
    comes back empty with at least half the room is handed out with less than
    was asked for. *)
Theorem pool_get_short `{!ReserveLaws} n self b rest :
  pool self = b :: rest → len b = 0%nat → (cap b < n)%nat → (n ≤ 2 * cap b)%nat →
  (default_buffer_size self ≤ n)%nat →
  cap (fst (pool_get n self)) = cap b ∧ (cap b < n)%nat.
Proof.
  intros Hp Hl Hc H2 Hd. split; [|done]. unfold pool_get. rewrite Hp.
  rewrite Nat.max_l by done. destruct (Nat.ltb_spec (cap b) n); [|lia]. cbn.
  apply reserve_noop. lia.
Qed.

Lemma pool_release_bound b self :
  (length (pool self) ≤ max_pool_size self)%nat →
  (length (pool (pool_release b self)) ≤ max_pool_size self)%nat.
Proof.
  intros Hl. unfold pool_release.
  destruct (Nat.ltb_spec (length (pool self)) (max_pool_size self)); [|done].
  cbn. list_lia.
Qed.
End buffer.

(** ** The device *)

(** [NetstackDevice::receive]: the packet for the stack, when there is room for
    an answer. *)
Definition device_receive (tx_sender : Chan Packet) (rx_queue : list Packet)
    : option Packet * list Packet :=
  match rx_queue with
  | [] => (None, [])
  | packet :: rx_queue =>
    if rx_open tx_sender && has_room tx_sender then (Some packet, rx_queue)
    else (None, rx_queue)
  end.

(** [NetstackDevice::transmit]. *)
Definition device_transmit (tx_sender : Chan Packet) : bool :=
  rx_open tx_sender && has_room tx_sender.

(** A poll while the outbound queue is full takes a packet off the inbound one
    and drops it. *)
Lemma device_receive_drops tx packet rx :
  has_room tx = false → device_receive tx (packet :: rx) = (None, rx).
Proof. intros E. unfold device_receive. by rewrite E, andb_false_r. Qed.

(** ** Dispatching to the workers *)

(** The order of [SocketAddr]: version 4 before version 6, then the address, the
    port, the flow label and the scope. *)
Definition addr_key (a : SocketAddr) : list Z :=
  match a with
  | SockV4 a => [0] ++ map b2z (v4_octets (sa4_ip a)) ++ [sa4_port a]
  | SockV6 a => [1] ++ map b2z (v6_octets (sa6_ip a))
                ++ [sa6_port a; sa6_flowinfo a; sa6_scope_id a]
  end.

Fixpoint key_gt (k l : list Z) : bool :=
  match k, l with
  | x :: k, y :: l => if x >? y then true else if x <? y then false else key_gt k l
  | _ :: _, [] => true
  | [], _ => false
  end.

Definition addr_gt (a b : SocketAddr) : bool := key_gt (addr_key a) (addr_key b).

Section dispatch.
Context `{SmolWire}.

(** The hash of two addresses, [XxHash64] with seed 0, a [u64]. *)
Context (xxhash : SocketAddr → SocketAddr → Z).

(** The worker of [distribute_packets] for a packet. *)
Definition worker_index (num_workers : nat) (packet : Packet) : nat :=
  match new_checked packet with
  | None => 0
  | Some ip_packet =>
    if decide (protocol ip_packet = Tcp) then
      match tcp_checked (payload ip_packet) with
      | None => 0
      | Some (src_port, dst_port, _, _) =>
        let addr1 := socket_addr_new (src_addr ip_packet) src_port in
        let addr2 := socket_addr_new (dst_addr ip_packet) dst_port in
        let '(addr1, addr2) := if addr_gt addr1 addr2 then (addr2, addr1)
                               else (addr1, addr2) in
        Z.to_nat (xxhash addr1 addr2 mod Z.of_nat num_workers)
      end
    else 0
  end.

Lemma key_gt_antisym k l :
  key_gt k l = true → key_gt l k = false.
Proof.
  revert l. induction k as [|x k IH]; intros [|y l]; cbn; try done.
  rewrite !Z.gtb_ltb. destruct (Z.ltb_spec y x), (Z.ltb_spec x y); try done; [lia|apply IH].
Qed.

Lemma key_gt_total k l :
  key_gt k l = false → key_gt l k = false → k = l.
Proof.
  revert l. induction k as [|x k IH]; intros [|y l]; cbn; try done.
  rewrite !Z.gtb_ltb. destruct (Z.ltb_spec y x), (Z.ltb_spec x y); try done.
  intros. f_equal; [lia|by apply IH].
Qed.

Lemma map_b2z_inj n (v w : vec byte n) r s :
  map b2z v ++ r = map b2z w ++ s → v = w ∧ r = s.
Proof.
  intros E. apply app_inj_1 in E as [E Hr]; [|by rewrite !length_map, !length_vec_to_list].
  split; [|done]. apply vec_to_list_inj2.
  revert E. generalize (vec_to_list v) (vec_to_list w). intros l.
  induction l as [|x l IH]; intros [|y l']; cbn; try done.
  intros [= E1 E2]. f_equal; [|by apply IH].
  rewrite <-(z2b_b2z x), <-(z2b_b2z y). by rewrite E1.
Qed.

Lemma addr_key_inj a b : addr_key a = addr_key b → a = b.
Proof.
  destruct a as [[[i] p]|[[i] p fl sc]], b as [[[j] q]|[[j] q fl' sc']];
    unfold addr_key; cbn [sa4_ip sa4_port sa6_ip sa6_port v4_octets v6_octets
      sa6_flowinfo sa6_scope_id]; intros E; try done;
    apply app_inj_1 in E as [_ E]; try done; apply map_b2z_inj in E as [-> E];
    by simplify_eq.
Qed.

(** The two directions of a connection are handled by the same worker, which
    is one of those there are. *)
Theorem worker_index_symmetric n f g p q sp dp a b a' b' :
  (0 < n)%nat →
  new_checked f = Some p → new_checked g = Some q →
  protocol p = Tcp → protocol q = Tcp →
  src_addr p = dst_addr q → dst_addr p = src_addr q →
  tcp_checked (payload p) = Some (sp, dp, a, b) →
  tcp_checked (payload q) = Some (dp, sp, a', b') →
  worker_index n f = worker_index n g ∧ (worker_index n f < n)%nat.
Proof.
  intros Hn Ef Eg Pf Pg Hs Hd Tf Tg. unfold worker_index.
  rewrite Ef, Eg, !decide_True, Tf, Tg, Hs, Hd by done. cbv zeta.
  set (x := socket_addr_new (dst_addr q) sp). set (y := socket_addr_new (src_addr q) dp).
  assert (∀ z, Z.to_nat (z mod Z.of_nat n) < n)%nat as Hb.
  { intros z. pose proof (Z.mod_pos_bound z (Z.of_nat n)). lia. }
  unfold addr_gt. destruct (key_gt (addr_key x) (addr_key y)) eqn:E1.
  - by rewrite (key_gt_antisym _ _ E1).
  - destruct (key_gt (addr_key y) (addr_key x)) eqn:E2; [done|].
    by rewrite (addr_key_inj x y (key_gt_total _ _ E1 E2)).
Qed.
End dispatch.

(** ** A new connection *)

(** What a worker holds, as far as taking a connection goes: the injector of its
    device, the channel of new streams to the application (each with its two
    addresses), and the sockets in its map with the address they listen on. *)
Record Worker := mkWorker {
  device_injector : Chan Packet;
  socket_stream_emitter : Chan (SocketAddr * SocketAddr);
  socket_maps : list SocketAddr
}.

Section accept.
Context `{SmolWire} (listen : SocketAddr → io_result unit).

(** [accept_new_connection]. *)
Definition accept_new_connection (ip_packet : IpPacket) (src_port dst_port : Z)
    (self : Worker) : io_result unit * Worker :=
  let src_addr := socket_addr_new (src_addr ip_packet) src_port in
  let dst_addr := socket_addr_new (dst_addr ip_packet) dst_port in
  match listen dst_addr with
  | Err e => (Err e, self)
  | Ok _ =>
    (Ok tt,
     match try_send (src_addr, dst_addr) (socket_stream_emitter self) with
     | (true, emitter) =>
       mkWorker (device_injector self) emitter (socket_maps self ++ [dst_addr])
     | (false, emitter) => mkWorker (device_injector self) emitter (socket_maps self)
     end)
  end.

(** The segment that opens a connection. *)
Definition opens_connection (frame : Packet) : option (IpPacket * Z * Z) :=
  match new_checked frame with
  | None => None
  | Some ip_packet =>
    if decide (protocol ip_packet = Tcp) then
      match tcp_checked (payload ip_packet) with
      | Some (src_port, dst_port, true, false) => Some (ip_packet, src_port, dst_port)
      | _ => None
      end
    else None
  end.

(** The frame goes to the device. *)
Definition inject_frame (frame : Packet) (self : Worker) : io_result unit * Worker :=
  let '(sent, injector) := try_send frame (device_injector self) in
  (if sent then Ok tt else Err (io_other "no available capacity"),
   mkWorker injector (socket_stream_emitter self) (socket_maps self)).

(** [process_inbound_frame]. *)
Definition process_inbound_frame (frame : Packet) (self : Worker)
    : io_result unit * Worker :=
  match opens_connection frame with
  | None => inject_frame frame self
  | Some (ip_packet, src_port, dst_port) =>
    match accept_new_connection ip_packet src_port dst_port self with
    | (Err e, self) => (Err e, self)
    | (Ok _, self) => inject_frame frame self
    end
  end.

(** What a step of accepting does to the sockets and the streams: they grow
    by the same connections. *)
Definition grows_by (l : list (SocketAddr * SocketAddr)) (self self' : Worker) : Prop :=
  socket_maps self' = socket_maps self ++ map snd l
  ∧ items (socket_stream_emitter self') = items (socket_stream_emitter self) ++ l.

Lemma grows_by_nil self self' :
  socket_maps self' = socket_maps self →
  socket_stream_emitter self' = socket_stream_emitter self → grows_by [] self self'.
Proof. intros E1 E2. unfold grows_by. cbn. by rewrite E1, E2, !app_nil_r. Qed.

Lemma accept_spec p sp dp self :
  let '(r, self') := accept_new_connection p sp dp self in
  device_injector self' = device_injector self
  ∧ ∃ l, grows_by l self self' ∧ (length l ≤ 1)%nat.
Proof.
  unfold accept_new_connection. destruct (listen _) as [[]|e].
  - unfold try_send. destruct (_ && _); (split; [done|]).
    + exists [(socket_addr_new (src_addr p) sp, socket_addr_new (dst_addr p) dp)].
      split; [by split|cbn; lia].
    + exists []. split; [by apply grows_by_nil|cbn; lia].
  - split; [done|]. exists []. split; [by apply grows_by_nil|cbn; lia].
Qed.

Lemma inject_spec frame self :
  let '(r, self') := inject_frame frame self in
  socket_maps self' = socket_maps self
  ∧ socket_stream_emitter self' = socket_stream_emitter self
  ∧ (r = Ok tt ∧ items (device_injector self') = items (device_injector self) ++ [frame]
     ∨ r ≠ Ok tt ∧ device_injector self' = device_injector self).
Proof.
  unfold inject_frame, try_send. destruct (_ && _); (split_and!; [done|done|]);
    [left|right]; done.
Qed.

(** Every frame either reaches the device of the worker, or an error says it
    did not; only a SYN without ACK opens a connection, and then a socket is
    added exactly when its stream was handed to the application. *)
Theorem process_inbound_frame_spec frame self r self' :
  process_inbound_frame frame self = (r, self') →
  (r = Ok tt ∧ items (device_injector self') = items (device_injector self) ++ [frame]
   ∨ r ≠ Ok tt ∧ device_injector self' = device_injector self)
  ∧ (opens_connection frame = None → grows_by [] self self')
  ∧ ∃ l, grows_by l self self' ∧ (length l ≤ 1)%nat.
Proof.
  unfold process_inbound_frame.
  destruct (opens_connection frame) as [[[p sp] dp]|] eqn:Eo.
  - pose proof (accept_spec p sp dp self) as Ha.
    destruct (accept_new_connection p sp dp self) as [[[]|e] w].
    + destruct Ha as (Hi & l & [G1 G2] & Hl). intros E.
      pose proof (inject_spec frame w) as Hj. rewrite E in Hj.
      destruct Hj as (J1 & J2 & J3). rewrite Hi in J3.
      split; [done|]. split; [done|]. exists l. split; [|done].
      unfold grows_by. by rewrite J1, J2.
    + destruct Ha as (Hi & Ha). intros [= <- <-]. split; [by right|]. done.
  - intros E. pose proof (inject_spec frame self) as Hj. rewrite E in Hj.
    destruct Hj as (J1 & J2 & J3). pose proof (grows_by_nil _ _ J1 J2).
    split; [done|]. split; [done|]. exists []. split; [done|cbn; lia].
Qed.

(** A connection request that comes twice is accepted twice: the map of sockets
    is not consulted, and a second stream goes to the application. *)
Theorem retransmitted_syn_second_stream frame p sp dp self :
  opens_connection frame = Some (p, sp, dp) →
  listen (socket_addr_new (dst_addr p) dp) = Ok tt →
  rx_open (socket_stream_emitter self) = true →
  (length (items (socket_stream_emitter self)) + 2
     ≤ capacity (socket_stream_emitter self))%nat →
  has_room (device_injector self) = true → rx_open (device_injector self) = true →
  let '(_, self1) := process_inbound_frame frame self in
  let '(_, self2) := process_inbound_frame frame self1 in
  let conn := (socket_addr_new (src_addr p) sp, socket_addr_new (dst_addr p) dp) in
  items (socket_stream_emitter self2)
    = items (socket_stream_emitter self) ++ [conn; conn].
Proof.
  intros Eo El Ho Hl Hr Hd.
  assert (∀ w, rx_open (socket_stream_emitter w) = true →
    has_room (socket_stream_emitter w) = true →
    ∃ r w', process_inbound_frame frame w = (r, w')
      ∧ socket_stream_emitter w' = chan_push
          (socket_addr_new (src_addr p) sp, socket_addr_new (dst_addr p) dp)
          (socket_stream_emitter w)) as Hstep.
  { intros w Hw1 Hw2. unfold process_inbound_frame, accept_new_connection.
    rewrite Eo, El. unfold try_send. rewrite Hw1, Hw2. cbn [andb].
    pose proof (inject_spec frame (mkWorker (device_injector w)
      (chan_push (socket_addr_new (src_addr p) sp, socket_addr_new (dst_addr p) dp)
         (socket_stream_emitter w))
      (socket_maps w ++ [socket_addr_new (dst_addr p) dp]))) as Hj.
    destruct (inject_frame _ _) as [r w']. exists r, w'. by destruct Hj as (_ & -> & _). }
  destruct (Hstep self) as (r1 & w1 & -> & E1); [done|apply Nat.ltb_lt; lia|].
  destruct (Hstep w1) as (r2 & w2 & -> & E2).
  - by rewrite E1.
  - rewrite E1. apply Nat.ltb_lt. cbn. list_lia.
  - rewrite E2, E1. cbn. by rewrite <-app_assoc.
Qed.
End accept.

(** ** Packets to run the model on *)

(** Enough of the IP, UDP and TCP headers for the laws to hold. *)
Definition demo_addr4 (b : Bytes) : Ipv4Addr :=
  match take_vec 4 b with Some (v, _) => mkIpv4 v | None => v4_unspecified end.

Definition demo_addr6 (b : Bytes) : Ipv6Addr :=
  match take_vec 16 b with Some (v, _) => mkIpv6 v | None => v6_unspecified end.

Definition demo_proto (b : Bytes) : IpProtocol :=
  match b with
  | Byte.x06 :: _ => Tcp
  | Byte.x11 :: _ => Udp
  | Byte.x01 :: _ => Icmp
  | Byte.x3a :: _ => Icmpv6
  | _ => OtherProtocol 0
  end.

#[local] Instance demo_wire : SmolWire := {
  version_of_packet b :=
    match b with Byte.x45 :: _ => Some Ipv4 | Byte.x60 :: _ => Some Ipv6 | _ => None end;
  ipv4_checked b := Nat.leb 20 (length b);
  ipv6_checked b := Nat.leb 40 (length b);
  ipv4_header_len _ := 20%nat;
  ipv4_src b := demo_addr4 (drop 12 b);
  ipv4_dst b := demo_addr4 (drop 16 b);
  ipv4_next_header b := demo_proto (drop 9 b);
  ipv4_payload b := drop 20 b;
  ipv6_src b := demo_addr6 (drop 8 b);
  ipv6_dst b := demo_addr6 (drop 24 b);
  ipv6_next_header b := demo_proto (drop 6 b);
  ipv6_payload b := drop 40 b;
  tcp_checked b :=
    match b with
    | s1 :: s2 :: d1 :: d2 :: flags :: _ =>
      Some (u16_from_be s1 s2, u16_from_be d1 d2, Z.testbit (b2z flags) 1,
            Z.testbit (b2z flags) 4)
    | _ => None
    end;
  udp_checked b :=
    match b with
    | s1 :: s2 :: d1 :: d2 :: l1 :: l2 :: _ :: _ :: r =>
      Some (u16_from_be s1 s2, u16_from_be d1 d2,
            Z.to_nat (u16_from_be l1 l2 - 8))
    | _ => None
    end
}.

Definition demo_udp_header (sp dp : Z) (b : Bytes) : Bytes :=
  u16_to_be sp ++ u16_to_be dp ++ u16_to_be (Z.of_nat (length b) + 8) ++ [Byte.x00; Byte.x00].

Definition demo_header4 (ttl : Z) (s d : Bytes) : Bytes :=
  [Byte.x45] ++ replicate 7 Byte.x00 ++ [z2b ttl; Byte.x11; Byte.x00; Byte.x00] ++ s ++ d.

Definition demo_header6 (ttl : Z) (s d : Bytes) : Bytes :=
  [Byte.x60] ++ replicate 5 Byte.x00 ++ [Byte.x11; z2b ttl] ++ s ++ d.

Definition demo_fits (sp dp : Z) (b : Bytes) : bool :=
  bool_decide (in_width 16 sp) && bool_decide (in_width 16 dp)
  && (Z.of_nat (length b) + 8 <? 2 ^ 16).

#[local] Instance demo_builder : PacketBuilder := {
  build_v4 s d ttl sp dp b :=
    if demo_fits sp dp b then
      Ok (demo_header4 ttl s d ++ demo_udp_header sp dp b ++ b)
    else Err (io_other "too long");
  build_v6 s d ttl sp dp b :=
    if demo_fits sp dp b then
      Ok (demo_header6 ttl s d ++ demo_udp_header sp dp b ++ b)
    else Err (io_other "too long")
}.

Lemma demo_udp_checked sp dp b :
  demo_fits sp dp b = true →
  udp_checked (demo_udp_header sp dp b ++ b) = Some (sp, dp, length b).
Proof.
  intros [[H1%bool_decide_eq_true H2%bool_decide_eq_true]%andb_prop H3%Z.ltb_lt]%andb_prop.
  unfold demo_udp_header, u16_to_be. cbn [udp_checked demo_wire app].
  pose proof (u16_from_to_be _ H1) as E1. pose proof (u16_from_to_be _ H2) as E2.
  assert (in_width 16 (Z.of_nat (length b) + 8)) as H4 by width_lia.
  pose proof (u16_from_to_be _ H4) as E3. unfold u16_to_be in *.
  rewrite E1, E2, E3. do 2 f_equal. lia.
Qed.

Lemma demo_addr4_app (v : vec byte 4) r : demo_addr4 (v ++ r) = mkIpv4 v.
Proof. unfold demo_addr4. by rewrite take_vec_app. Qed.

Lemma demo_addr6_app (v : vec byte 16) r : demo_addr6 (v ++ r) = mkIpv6 v.
Proof. unfold demo_addr6. by rewrite take_vec_app. Qed.

Lemma drop_vec {n} (v : vec byte n) r : drop n (v ++ r) = r.
Proof. by rewrite <-(length_vec_to_list v) at 1; apply drop_app_length. Qed.

#[local] Instance demo_wire_laws : WireLaws.
Proof.
  split.
  - intros [s] [d] ttl sp dp b f. cbn [build_v4 demo_builder v4_octets].
    destruct (demo_fits sp dp b) eqn:Ef; [|done]. intros E.
    exists (demo_header4 ttl s d), (demo_udp_header sp dp b).
    assert (f = demo_header4 ttl s d ++ demo_udp_header sp dp b ++ b) as -> by congruence.
    split_and!; try done; try (by rewrite demo_udp_checked).
    + apply Nat.leb_le. unfold demo_header4.
      list_lia.
    + unfold demo_header4. by rewrite !length_app, !length_vec_to_list.
    + unfold demo_header4. rewrite <-!app_assoc. apply demo_addr4_app.
    + unfold demo_header4. rewrite <-!app_assoc. cbn [ipv4_dst demo_wire].
      change 16%nat with (12 + 4)%nat. rewrite <-drop_drop.
      rewrite <-(demo_addr4_app d (demo_udp_header sp dp b ++ b)). f_equal.
      apply (drop_vec s).
  - intros [s] [d] ttl sp dp b f. cbn [build_v6 demo_builder v6_octets].
    destruct (demo_fits sp dp b) eqn:Ef; [|done]. intros E.
    exists (demo_header6 ttl s d), (demo_udp_header sp dp b).
    assert (f = demo_header6 ttl s d ++ demo_udp_header sp dp b ++ b) as -> by congruence.
    split_and!; try done; try (by rewrite demo_udp_checked).
    + apply Nat.leb_le. unfold demo_header6.
      list_lia.
    + unfold demo_header6. by rewrite !length_app, !length_vec_to_list.
    + unfold demo_header6. rewrite <-!app_assoc. apply demo_addr6_app.
    + unfold demo_header6. rewrite <-!app_assoc. cbn [ipv6_dst demo_wire].
      change 24%nat with (8 + 16)%nat. rewrite <-drop_drop.
      rewrite <-(demo_addr6_app d (demo_udp_header sp dp b ++ b)). f_equal.
      apply (drop_vec s).
Qed.

(** A UDP packet and a TCP segment, as [split_write] and a peer would send. *)
Definition demo_ip (x : byte) : Ipv4Addr := mkIpv4 [#Byte.x0a; Byte.x00; Byte.x00; x].

Definition demo_udp_packet : UdpPacket :=
  mkUdp [Byte.x68; Byte.x69] (SockV4 (mkSA4 (demo_ip Byte.x01) 5000))
    (SockV4 (mkSA4 (demo_ip Byte.x02) 53)).

Definition demo_udp_frame : Packet :=
  demo_header4 64 (v4_octets (demo_ip Byte.x01)) (v4_octets (demo_ip Byte.x02))
  ++ demo_udp_header 5000 53 [Byte.x68; Byte.x69] ++ [Byte.x68; Byte.x69].

Definition demo_tcp_frame (s d : byte) (sp dp : Z) (flags : byte) : Packet :=
  [Byte.x45] ++ replicate 7 Byte.x00 ++ [Byte.x40; Byte.x06; Byte.x00; Byte.x00]
  ++ v4_octets (demo_ip s) ++ v4_octets (demo_ip d)
  ++ u16_to_be sp ++ u16_to_be dp ++ [flags].

Lemma udp_wire_round_trip_witness :
  split_write 64 true demo_udp_packet = Ok demo_udp_frame
  ∧ split_read demo_udp_frame = Some demo_udp_packet.
Proof.
  assert (split_write 64 true demo_udp_packet = Ok demo_udp_frame) as E
    by (vm_compute; reflexivity).
  split; [exact E|].
  pose proof (udp_wire_round_trip 64 demo_udp_packet) as H. rewrite E in H.
  exact (proj1 H).
Defined.

Definition demo_syn : Packet := demo_tcp_frame Byte.x01 Byte.x02 1000 80 Byte.x02.

(** Two TCP packets and queues of one: the first in the queue, the second held. *)
Definition demo_full : SinkSystem :=
  mkSinkSys (mkSink (chan_new 1) (mkChan [demo_syn] 1 true []) (Some (demo_syn, Tcp)))
    [demo_syn; demo_syn] [] [].

Lemma demo_full_reach : rtc sink_step (sink_start 1 1) demo_full.
Proof.
  eapply rtc_l; [apply (sink_send demo_syn (sink (sink_start 1 1))
    (mkSink (chan_new 1) (chan_new 1) (Some (demo_syn, Tcp)))); vm_compute; reflexivity|].
  eapply rtc_l; [apply sink_flush|].
  eapply rtc_l; [apply (sink_send demo_syn
    (mkSink (chan_new 1) (mkChan [demo_syn] 1 true []) None)
    (mkSink (chan_new 1) (mkChan [demo_syn] 1 true []) (Some (demo_syn, Tcp))));
    vm_compute; reflexivity|].
  vm_compute. apply rtc_refl.
Qed.

(** The TCP half ends with a packet in its queue: that packet is lost. *)
Lemma sink_routes_in_order_witness :
  let s := mkSinkSys (mkSink (chan_new 1) (chan_close (mkChan [demo_syn] 1 true []))
             (Some (demo_syn, Tcp))) [demo_syn; demo_syn] [] [] in
  ∃ lost, tcp_got s ++ lost ++ items (tcp_inbound (sink s)) ++ held goes_to_tcp (sink s)
          = List.filter goes_to_tcp (offered s).
Proof.
  intros s. destruct (sink_routes_in_order 1 1 s) as (_ & lost & _ & H & _); [|by exists lost].
  eapply rtc_r; [apply demo_full_reach|apply (tcp_close demo_full)].
Defined.

Lemma flush_lost_wakeup_witness :
  poll_flush (sink demo_full) = (Pending, sink demo_full)
  ∧ chan_recv (tcp_inbound (sink demo_full)) = (Some demo_syn, None, chan_new 1).
Proof.
  split; [|vm_compute; reflexivity].
  exact (proj1 (flush_lost_wakeup 1 1 demo_full demo_syn Tcp demo_full_reach
    eq_refl eq_refl eq_refl)).
Defined.

#[local] Instance demo_reserve : Reserve := λ n b,
  if Nat.leb (len b + n) (cap b) then cap b else (len b + n)%nat.

#[local] Instance demo_reserve_laws : ReserveLaws.
Proof.
  split; intros n b; unfold reserve_cap, demo_reserve;
    destruct (Nat.leb_spec (len b + n) (cap b)); lia.
Qed.

(** A pooled buffer of 2048 bytes, asked for 3000. *)
Lemma pool_get_short_witness :
  let self := mkPool [mkBytesMut 0 2048] 32 2048 in
  cap (fst (pool_get 3000 self)) = 2048%nat ∧ (2048 < 3000)%nat.
Proof.
  intros self.
  apply (pool_get_short 3000 self (mkBytesMut 0 2048) []); cbn; lia || reflexivity.
Defined.

Lemma worker_index_symmetric_witness :
  let f := demo_tcp_frame Byte.x01 Byte.x02 1000 80 Byte.x02 in
  let g := demo_tcp_frame Byte.x02 Byte.x01 80 1000 Byte.x12 in
  let hash a b := socket_addr_port a * 65536 + socket_addr_port b in
  worker_index hash 4 f = worker_index hash 4 g ∧ (worker_index hash 4 f < 4)%nat.
Proof.
  intros f g hash.
  apply (worker_index_symmetric hash 4 f g (PacketV4 f) (PacketV4 g) 1000 80
    true false true true); [lia|vm_compute; reflexivity..].
Defined.

Definition demo_worker : Worker := mkWorker (chan_new 4) (chan_new 4) [].

Lemma process_inbound_frame_spec_witness :
  let f := demo_tcp_frame Byte.x01 Byte.x02 1000 80 Byte.x02 in
  let r := process_inbound_frame (λ _, Ok tt) f demo_worker in
  socket_maps (snd r) = [SockV4 (mkSA4 (demo_ip Byte.x02) 80)]
  ∧ ∃ l, grows_by l demo_worker (snd r) ∧ (length l ≤ 1)%nat.
Proof.
  intros f r. split; [vm_compute; reflexivity|].
  exact (proj2 (proj2 (process_inbound_frame_spec (λ _, Ok tt) f demo_worker (fst r) (snd r)
    (surjective_pairing r)))).
Defined.

Lemma retransmitted_syn_second_stream_witness :
  let f := demo_tcp_frame Byte.x01 Byte.x02 1000 80 Byte.x02 in
  let self2 := snd (process_inbound_frame (λ _, Ok tt) f
                 (snd (process_inbound_frame (λ _, Ok tt) f demo_worker))) in
  length (items (socket_stream_emitter self2)) = 2%nat
  ∧ let '(_, self1) := process_inbound_frame (λ _, Ok tt) f demo_worker in
    let '(_, self2) := process_inbound_frame (λ _, Ok tt) f self1 in
    let conn := (SockV4 (mkSA4 (demo_ip Byte.x01) 1000), SockV4 (mkSA4 (demo_ip Byte.x02) 80)) in
    items (socket_stream_emitter self2) = [conn; conn].
Proof.
  intros f self2. split; [vm_compute; reflexivity|].
  exact (retransmitted_syn_second_stream (λ _, Ok tt) f (PacketV4 f) 1000 80 demo_worker
    eq_refl eq_refl eq_refl ltac:(vm_compute; lia) eq_refl eq_refl).
Defined.
