(* ===== verification/NetDevice.v ===== *)
(** The buffers of the network stack with their bytes, and the tokens of its device
    (crates/ombrac-netstack/src/buffer.rs and device.rs). NetStack.v has the pool by
    lengths and capacities; here a pooled buffer also keeps what it held, so that
    "no packet carries bytes of an earlier one" is a statement about the code. *)

From S2P Require Import Prelude Std NetStack.

#[local] Open Scope Z_scope.

(** ** Buffers *)

(** A [BytesMut] with its bytes and its capacity. *)
Record Buffer := mkBuffer { bytes : Bytes; room : nat }.

(** The pool of NetStack.v, with such buffers. *)
Record Buffers := mkBuffers { free : list Buffer; max_free : nat; default_room : nat }.

(** [BufferPool::new]. *)
Definition pool_new (max_pool_size default_buffer_size : nat) : Buffers :=
  mkBuffers [] max_pool_size default_buffer_size.

Definition shape (b : Buffer) : BytesMut := mkBytesMut (length (bytes b)) (room b).
Definition shapes (p : Buffers) : BufferPool :=
  mkPool (map shape (free p)) (max_free p) (default_room p).

Section buffers.
Context `{Reserve}.

(** [BytesMut::reserve], [clear], [resize] and [put_slice]; the last two make the
    room they need. *)
Definition reserve (additional : nat) (b : Buffer) : Buffer :=
  mkBuffer (bytes b) (reserve_cap additional (shape b)).
Definition clear (b : Buffer) : Buffer := mkBuffer [] (room b).
Definition resize (new_len : nat) (value : byte) (b : Buffer) : Buffer :=
  if Nat.leb new_len (length (bytes b)) then mkBuffer (take new_len (bytes b)) (room b)
  else
    let b := reserve (new_len - length (bytes b)) b in
    mkBuffer (bytes b ++ replicate (new_len - length (bytes b)) value) (room b).
Definition put_slice (src : Bytes) (b : Buffer) : Buffer :=
  let b := reserve (length src) b in mkBuffer (bytes b ++ src) (room b).

(** [split]: everything written, and what is left of the capacity. *)
Definition split (b : Buffer) : Bytes * Buffer :=
  (bytes b, mkBuffer [] (room b - length (bytes b))).

(** [BufferPool::get]. *)
Definition get (capacity : nat) (self : Buffers) : Buffer * Buffers :=
  let required_capacity := Nat.max capacity (default_room self) in
  let '(buffer, rest) := match free self with
                         | b :: rest => (b, rest)
                         | [] => (mkBuffer [] required_capacity, [])
                         end in
  let buffer := if Nat.ltb (room buffer) required_capacity
                then reserve (required_capacity - room buffer) buffer else buffer in
  (clear buffer, mkBuffers rest (max_free self) (default_room self)).

(** [release], which is called by [Drop for PooledBytesMut] with the buffer as it is:
    the pool is a lock-free queue that the threads share, and the look at its length
    and the push are two steps. *)
Definition release_check (self : Buffers) : bool := Nat.ltb (length (free self)) (max_free self).
Definition release_push (buffer : Buffer) (self : Buffers) : Buffers :=
  mkBuffers (free self ++ [buffer]) (max_free self) (default_room self).

(** The two, when no other thread comes between them. *)
Definition drop_buffer (buffer : Buffer) (self : Buffers) : Buffers :=
  if release_check self then release_push buffer self else self.

(** [io::Write for PooledBytesMut]. *)
Definition write (buf : Bytes) (b : Buffer) : io_result nat * Buffer :=
  (Ok (length buf), put_slice buf b).

(** ** Users of the pool *)

(** What [SplitWrite::send] does with a buffer: the parts the builder writes, the
    bytes handed to the queue, and the buffer it then drops. *)
Definition fill_packet (size : nat) (parts : list Bytes) (self : Buffers)
    : Bytes * Buffer * Buffers :=
  let '(buffer, self) := get size self in
  let buffer := foldl (λ b p, snd (write p b)) buffer parts in
  let '(final_bytes, buffer) := split buffer in
  (final_bytes, buffer, self).

Definition build_packet (size : nat) (parts : list Bytes) (self : Buffers) : Bytes * Buffers :=
  let '(final_bytes, buffer, self) := fill_packet size parts self in
  (final_bytes, drop_buffer buffer self).

(** [NetstackDevice], with the pool it shares. *)
Record Device := mkDevice {
  rx_queue : list Packet;
  tx_sender : Chan Packet;
  buffer_pool : Buffers
}.

(** [RxToken::consume]. *)
Definition rx_consume {R} (packet : Packet) (f : Bytes → R) : R := f packet.

(** [TxToken::consume] up to its end, where the buffer is dropped; the permit was
    reserved by [receive] or [transmit]. The function is given the bytes of the
    buffer and what it leaves there is the packet. *)
Definition tx_fill {R} (len : nat) (f : Bytes → R * Bytes) (self : Device)
    : R * Buffer * Device :=
  let '(buffer, pool) := get len (buffer_pool self) in
  let buffer := if Nat.ltb (room buffer) len then reserve (len - room buffer) buffer else buffer in
  let buffer := resize len Byte.x00 buffer in
  let '(result, written) := f (bytes buffer) in
  let data_packet := written in
  (result, mkBuffer written (room buffer),
   mkDevice (rx_queue self) (chan_push data_packet (tx_sender self)) pool).

(** [TxToken::consume], when no other thread releases a buffer meanwhile. *)
Definition tx_consume {R} (len : nat) (f : Bytes → R * Bytes) (self : Device) : R * Device :=
  let '(result, buffer, self) := tx_fill len f self in
  (result, mkDevice (rx_queue self) (tx_sender self) (drop_buffer buffer (buffer_pool self))).

(** [NetstackDevice::receive] with both tokens consumed, as the interface does when
    it answers a packet: the answer is computed from the packet. *)
Definition answer {R} (reply : Bytes → option (nat * (Bytes → R * Bytes))) (self : Device)
    : option R * Device :=
  match device_receive (tx_sender self) (rx_queue self) with
  | (None, rx) => (None, mkDevice rx (tx_sender self) (buffer_pool self))
  | (Some packet, rx) =>
    let self := mkDevice rx (tx_sender self) (buffer_pool self) in
    match rx_consume packet reply with
    | None => (None, self)
    | Some (len, f) => let '(r, self) := tx_consume len f self in (Some r, self)
    end
  end.

(** ** The pool among its threads *)

(** The pool, and per thread (the workers and the UDP half) the buffer that it is
    about to push after [release] found room. *)
Record SharedPool := mkSharedPool { buffers : Buffers; pushing : list (option Buffer) }.

(** A thread takes a buffer; one that releases a buffer looks at the length, and
    pushes later or drops the buffer. *)
Inductive pool_step : SharedPool → SharedPool → Prop :=
  | step_get n p : pool_step p (mkSharedPool (snd (get n (buffers p))) (pushing p))
  | step_release_check t b p :
      pushing p !! t = Some None →
      pool_step p
        (if release_check (buffers p)
         then mkSharedPool (buffers p) (<[t := Some b]> (pushing p)) else p)
  | step_release_push t b p :
      pushing p !! t = Some (Some b) →
      pool_step p (mkSharedPool (release_push b (buffers p)) (<[t := None]> (pushing p))).

Definition shared_new (max_pool_size default_buffer_size threads : nat) : SharedPool :=
  mkSharedPool (pool_new max_pool_size default_buffer_size) (replicate threads None).

(** ** The two models of the pool *)

(** Forgetting the bytes, this is the pool of NetStack.v. *)
Lemma get_refines capacity self :
  pool_get capacity (shapes self) = prod_map shape shapes (get capacity self).
Proof.
  unfold pool_get, get. destruct self as [[|b rest] m d];
    cbn [shapes pool free map default_buffer_size default_room cap room shape].
  - by rewrite !Nat.ltb_irrefl.
  - by destruct (Nat.ltb (room b) (Nat.max capacity d)).
Qed.

Lemma drop_refines b self : pool_release (shape b) (shapes self) = shapes (drop_buffer b self).
Proof.
  unfold pool_release, drop_buffer, release_check, release_push. destruct self as [fr m d].
  cbn [shapes pool free max_pool_size max_free]. rewrite length_map.
  destruct (Nat.ltb (length fr) m); [|done]. unfold shapes. cbn. by rewrite map_app.
Qed.

(** ** Laws *)

Lemma get_clear capacity self : bytes (fst (get capacity self)) = [].
Proof. unfold get. by destruct (free self). Qed.

Lemma get_bounds capacity self :
  max_free (snd (get capacity self)) = max_free self
  ∧ (length (free (snd (get capacity self))) ≤ length (free self))%nat.
Proof. unfold get. destruct (free self); cbn; auto with lia. Qed.

Lemma resize_clear n v b : bytes b = [] → bytes (resize n v b) = replicate n v.
Proof.
  intros Hb. unfold resize. rewrite Hb. destruct n as [|n]; cbn; [done|].
  by rewrite Hb.
Qed.

Lemma reserve_bytes n b : bytes (reserve n b) = bytes b.
Proof. done. Qed.

Lemma resize_room `{!ReserveLaws} n v b : bytes b = [] → (n ≤ room (resize n v b))%nat.
Proof.
  intros Hb. unfold resize. rewrite Hb. cbn [length]. destruct (Nat.leb_spec n 0); cbn; [lia|].
  pose proof (reserve_enough (n - 0) (shape b)). lia.
Qed.

Lemma write_all parts b :
  bytes (foldl (λ b p, snd (write p b)) b parts) = bytes b ++ concat parts.
Proof.
  revert b. induction parts as [|p parts IH]; intros b; cbn; [by rewrite app_nil_r|].
  rewrite IH. cbn. by rewrite <-app_assoc.
Qed.

Lemma fill_packet_bytes size parts self : fst (fst (fill_packet size parts self)) = concat parts.
Proof.
  unfold fill_packet. pose proof (get_clear size self) as Hg.
  destruct (get size self) as [b p]. cbn in *. by rewrite write_all, Hg.
Qed.

(** A buffer that is pushed found room when it was checked: together, those in the
    pool and those about to be pushed are at most the bound and one per thread but
    one. *)
Definition pool_ok (max threads : nat) (p : SharedPool) : Prop :=
  length (pushing p) = threads ∧ max_free (buffers p) = max
  ∧ (length (free (buffers p)) + length (omap id (pushing p)) ≤ max + (threads - 1))%nat.

Lemma omap_insert_length (l : list (option Buffer)) t x y :
  l !! t = Some x →
  (length (omap id (<[t := y]> l)) + length (option_list x)
   = length (omap id l) + length (option_list y))%nat.
Proof.
  intros Ht. assert (∀ x l, omap id (x :: l) = option_list x ++ omap id l :> list Buffer) as Hc
    by (by intros [] ?).
  rewrite <-(take_drop_middle _ _ _ Ht) at 2.
  rewrite insert_take_drop by (by eapply lookup_lt_Some).
  rewrite !omap_app, !Hc, !length_app. lia.
Qed.

Lemma omap_length (l : list (option Buffer)) : (length (omap id l) ≤ length l)%nat.
Proof. induction l as [|[] l IH]; cbn; lia. Qed.

Lemma pool_step_ok max threads p p' :
  pool_step p p' → pool_ok max threads p → pool_ok max threads p'.
Proof.
  intros Hs (Hl & Hm & Hb). destruct Hs as [n p|t b p Ht|t b p Ht].
  - destruct (get_bounds n (buffers p)) as [Hm' Hk].
    split_and!; cbn; [done|by rewrite Hm'|lia].
  - destruct (release_check (buffers p)) eqn:Ec; [|by split_and!].
    apply Nat.ltb_lt in Ec. pose proof (omap_insert_length _ _ _ (Some b) Ht) as Hi.
    cbn in Hi. split_and!; cbn; [by rewrite length_insert|done|].
    (* at most [threads] releases are under way *)
    assert (length (omap id (<[t:=Some b]> (pushing p))) ≤ threads)%nat by
      (rewrite <-Hl, <-(length_insert (pushing p) t (Some b)); apply omap_length).
    lia.
  - pose proof (omap_insert_length _ _ _ None Ht) as Hi. cbn in Hi.
    split_and!; cbn; [by rewrite length_insert|done|]. rewrite length_app. cbn. lia.
Qed.

Lemma pool_reach_ok max def threads p :
  rtc pool_step (shared_new max def threads) p → pool_ok max threads p.
Proof.
  assert (pool_ok max threads (shared_new max def threads)) as H0.
  { split_and!; cbn; [by rewrite length_replicate|done|].
    assert (omap id (replicate threads (@None Buffer)) = []) as ->
      by (induction threads; cbn; done). cbn. lia. }
  revert H0. generalize (shared_new max def threads). induction 2; eauto using pool_step_ok.
Qed.

(** ** Properties *)

(** C40. A packet made in a pooled buffer carries only what was written for it, at any
    moment in the life of a pool that any number of threads take buffers from and
    give them back to: the device hands its user a buffer of exactly the length
    asked for, all zeros, whatever the pool's buffers held or how large they are,
    queues what the user left there, and gives back a buffer with at least that
    length of room; the UDP half queues the parts it wrote, one after the other. The
    pool has at most as many buffers as its bound and one less than there are
    threads: with one thread it keeps the bound, with more, releases that overlap
    can exceed it. *)
Theorem packets_fresh `{!ReserveLaws} {R} n (f : Bytes → R * Bytes) parts d max def threads ws :
  (∀ l, length (snd (f l)) = length l) →
  rtc pool_step (shared_new max def threads) (mkSharedPool (buffer_pool d) ws) →
  let zeros := replicate n Byte.x00 in
  let '(r, b, d') := tx_fill n f d in
  r = fst (f zeros)
  ∧ items (tx_sender d') = items (tx_sender d) ++ [snd (f zeros)]
  ∧ length (snd (f zeros)) = n ∧ (n ≤ room b)%nat
  ∧ fst (fst (fill_packet n parts (buffer_pool d))) = concat parts
  ∧ (length (free (buffer_pool d)) ≤ max + (threads - 1))%nat.
Proof.
  intros Hf Hr zeros. destruct (pool_reach_ok _ _ _ _ Hr) as (_ & _ & Hb). cbn in Hb.
  unfold tx_fill. pose proof (get_clear n (buffer_pool d)) as Hc.
  destruct (get n (buffer_pool d)) as [b p]. cbn [fst snd] in *.
  set (b1 := if Nat.ltb (room b) n then reserve (n - room b) b else b).
  assert (bytes b1 = []) as Hb1 by (unfold b1; by destruct (Nat.ltb (room b) n)).
  rewrite (resize_clear n Byte.x00 b1 Hb1). fold zeros.
  pose proof (Hf zeros) as Hz. destruct (f zeros) as [r w] eqn:Ef. cbn [fst snd] in *.
  split_and!; [done|done| |by apply resize_room|apply fill_packet_bytes|lia].
  rewrite Hz. apply length_replicate.
Qed.

(** Two threads that release a buffer at the same time, in a pool of one place: both
    find room, and the pool has two. *)
Lemma pool_overfull :
  ∃ p, rtc pool_step (shared_new 1 64 2) p ∧ max_free (buffers p) = 1%nat
    ∧ length (free (buffers p)) = 2%nat.
Proof.
  set (b := mkBuffer [] 64). eexists. split.
  - eapply rtc_l; [by apply (step_release_check 0 b)|].
    eapply rtc_l; [by apply (step_release_check 1 b)|].
    eapply rtc_l; [by apply (step_release_push 0 b)|].
    eapply rtc_l; [by apply (step_release_push 1 b)|]. apply rtc_refl.
  - by vm_compute.
Qed.
End buffers.

(** ** A run *)

#[local] Instance demo_reserve : Reserve := λ n b,
  if Nat.leb (len b + n) (cap b) then cap b else (len b + n)%nat.
#[local] Instance demo_reserve_laws : ReserveLaws.
Proof.
  split; intros n b; unfold reserve_cap, demo_reserve;
    destruct (Nat.leb_spec (len b + n) (cap b)); lia.
Qed.

(** A pool with one buffer that still holds an earlier packet, and a user that
    fills in the first byte only. *)
Definition demo_pool : Buffers := mkBuffers [mkBuffer [Byte.x73; Byte.x65; Byte.x63] 3] 2 2.
Definition demo_device : Device := mkDevice [] (chan_new 4) demo_pool.
Definition demo_fill (l : Bytes) : unit * Bytes :=
  (tt, match l with [] => [] | _ :: l => Byte.x01 :: l end).

Lemma packets_fresh_witness :
  items (tx_sender (snd (tx_fill 4 demo_fill demo_device)))
  = [[Byte.x01; Byte.x00; Byte.x00; Byte.x00]]
  ∧ fst (fst (fill_packet 4 [[Byte.x61]; [Byte.x62]] demo_pool)) = [Byte.x61; Byte.x62].
Proof.
  assert (rtc pool_step (shared_new 2 2 1) (mkSharedPool demo_pool [None])) as Hr.
  { eapply rtc_l; [by apply (step_release_check 0 (mkBuffer [Byte.x73; Byte.x65; Byte.x63] 3))|].
    eapply rtc_l; [by apply (step_release_push 0 (mkBuffer [Byte.x73; Byte.x65; Byte.x63] 3))|].
    apply rtc_refl. }
  destruct (packets_fresh 4 demo_fill [[Byte.x61]; [Byte.x62]] demo_device 2 2 1 [None])
    as (_ & H1 & _ & _ & H2 & _).
  - by intros [|? ?].
  - exact Hr.
  - split; [exact H1|exact H2].
Defined.
