(* ===== verification/Tun.v ===== *)
(** The tun endpoint of the client (crates/ombrac-client/src/endpoint/tun.rs):
    where a connection or a packet of the device is sent, and the UDP flows. The
    name server is in [FakeDns], the stack behind the device in [NetStack] and
    [NetTcp]. *)

From S2P Require Import Prelude Std Protocol FakeDns NetStack.

#[local] Open Scope Z_scope.

(** ** Addresses that are not tunnelled *)

(** The methods of [Ipv4Addr] the code calls, on the four octets. *)
Definition is_private (a b c d : Z) : bool :=
  (a =? 10) || ((a =? 172) && (16 <=? b) && (b <=? 31)) || ((a =? 192) && (b =? 168)).
Definition is_loopback (a b c d : Z) : bool := a =? 127.
Definition is_link_local (a b c d : Z) : bool := (a =? 169) && (b =? 254).
Definition is_multicast (a b c d : Z) : bool := (224 <=? a) && (a <=? 239).
Definition is_broadcast (a b c d : Z) : bool :=
  (a =? 255) && (b =? 255) && (c =? 255) && (d =? 255).
Definition is_documentation (a b c d : Z) : bool :=
  ((a =? 192) && (b =? 0) && (c =? 2)) || ((a =? 198) && (b =? 51) && (c =? 100))
  || ((a =? 203) && (b =? 0) && (c =? 113)).

(** The patterns on the octets. *)
Definition reserved_octets (a b c d : Z) : bool :=
  (a =? 0)
  || ((a =? 100) && (64 <=? b) && (b <=? 127))
  || ((a =? 192) && (b =? 0) && (c =? 0))
  || ((a =? 198) && (b =? 18)) || ((a =? 198) && (b =? 19))
  || (a =? 240).

(** [Ipv6Addr::segments]: the first two, and all of the octets as numbers. *)
Definition segment (i : nat) (v6 : Ipv6Addr) : Z :=
  match drop (2 * i) (vec_to_list (v6_octets v6)) with
  | hi :: lo :: _ => u16_from_be hi lo
  | _ => 0
  end.

Definition v6_is_loopback (v6 : Ipv6Addr) : bool :=
  bool_decide (vec_to_list (v6_octets v6) = replicate 15 Byte.x00 ++ [Byte.x01]).
Definition v6_is_unspecified (v6 : Ipv6Addr) : bool :=
  bool_decide (vec_to_list (v6_octets v6) = replicate 16 Byte.x00).
Definition v6_is_multicast (v6 : Ipv6Addr) : bool :=
  Z.land (segment 0 v6) 0xff00 =? 0xff00.

(** [Tun::is_private_or_reserved]. *)
Definition is_private_or_reserved (ip : IpAddr) : bool :=
  match ip with
  | IpV4 v4 =>
    match map b2z (v4_octets v4) with
    | [a; b; c; d] =>
      is_private a b c d || is_loopback a b c d || is_link_local a b c d
      || is_multicast a b c d || is_broadcast a b c d || is_documentation a b c d
      || reserved_octets a b c d
    | _ => false
    end
  | IpV6 v6 =>
    v6_is_loopback v6 || v6_is_unspecified v6 || v6_is_multicast v6
    || (Z.land (segment 0 v6) 0xfe00 =? 0xfc00)
    || (Z.land (segment 0 v6) 0xffc0 =? 0xfe80)
    || ((segment 0 v6 =? 0x2001) && (segment 1 v6 =? 0xdb8))
    || (segment 0 v6 =? 0x100)
  end.

(** [Tun::should_skip_address]. *)
Definition should_skip_address (addr : Address) : bool :=
  match addr with
  | SocketV4 sock => is_private_or_reserved (IpV4 (sa4_ip sock))
  | SocketV6 sock => is_private_or_reserved (IpV6 (sa6_ip sock))
  | Domain _ _ => false
  end.

(** [u32::from] of an [Ipv4Addr], the form in which the name server keeps it. *)
Definition v4_to_u32 (a : Ipv4Addr) : Z :=
  fold_left (λ n b, n * 256 + b2z b) (vec_to_list (v4_octets a)) 0.




(** The prefix lengths that occur, on the octets. *)
Section blocks.
Context (a b c d : Z).
Context (Ha : 0 ≤ a < 256) (Hb : 0 ≤ b < 256) (Hc : 0 ≤ c < 256) (Hd : 0 ≤ d < 256).







End blocks.
















(** ** Where a flow is sent *)

Section target.
(** [Ipv4Net::contains] of the configured range, and [Name::to_utf8]. *)
Context (cidr_contains : Ipv4Addr → bool) (to_utf8 : Name → Bytes).

(** The key of the name server for an address. *)
Definition fakedns_key (ip : IpAddr) : option Ip :=
  match ip with IpV4 a => Some (v4_to_u32 a) | IpV6 _ => None end.

(** The first part of [relay_tcp_stream] and of [handle_udp_data_packet]. *)
Definition target_addr (fakedns : FakeDns) (fake_remote_addr : SocketAddr)
    : io_result Address :=
  let target :=
    match get_domain_by_ip (fakedns_key (socket_addr_ip fake_remote_addr)) fakedns with
    | Some domain =>
      Ok (address_from_pair (to_utf8 domain, socket_addr_port fake_remote_addr))
    | None =>
      match fake_remote_addr with
      | SockV4 addr =>
        if cidr_contains (sa4_ip addr) then Err (io_other "dns cache miss: ")
        else Ok (address_from fake_remote_addr)
      | SockV6 _ => Ok (address_from fake_remote_addr)
      end
    end in
  match target with
  | Err e => Err e
  | Ok t =>
    if should_skip_address t then Err (io_other "skipping private/reserved address: ")
    else Ok t
  end.

(** [relay_tcp_stream]: [open] is [Client::open_bidirectional], [copy] is
    [copy_bidirectional] on the two streams. *)
Definition relay_tcp_stream {U} (open : Address → io_result U)
    (copy : U → io_result (Z * Z)) (fakedns : FakeDns) (fake_remote_addr : SocketAddr)
    : io_result unit :=
  match target_addr fakedns fake_remote_addr with
  | Err e => Err e
  | Ok target =>
    match open target with
    | Err e => Err e
    | Ok remote_stream =>
      match copy remote_stream with Ok _ => Ok tt | Err e => Err e end
    end
  end.


(** Reserved addresses outside the blocks are let through: the rest of 240.0.0.0/4,
    and a private IPv4 address mapped into IPv6. *)
Lemma reserved_let_through :
  should_skip_address (SocketV4 (mkSA4 (mkIpv4 [#Byte.xf1; Byte.x00; Byte.x00; Byte.x01]) 80))
    = false
  ∧ should_skip_address (SocketV6 (mkSA6 (mkIpv6 [#Byte.x00; Byte.x00; Byte.x00; Byte.x00;
      Byte.x00; Byte.x00; Byte.x00; Byte.x00; Byte.x00; Byte.x00; Byte.xff; Byte.xff;
      Byte.x0a; Byte.x00; Byte.x00; Byte.x01]) 80 0 0)) = false.
Proof. split; vm_compute; reflexivity. Qed.

(** The names the name server gave out are where the traffic goes: after the
    answer to a query for [name], while no address has expired, a connection to the address of the answer is
    opened to [name] with the port of that connection. *)
Theorem dns_then_connect name fakedns m fakedns' a port :
  fakedns_ok fakedns → expiring fakedns = [] →
  FakeDns.handle_dns_query (Some (mkMessage Query NoError [mkQuestion name TypeA] [])) fakedns
    = (Some m, fakedns') →
  map answer_ip (answers m) = [v4_to_u32 a] →
  target_addr fakedns' (SockV4 (mkSA4 a port)) = Ok (Domain (to_utf8 name) port).
Proof.
  intros Hok Hx E Ha. destruct (answer_maps_back name fakedns m fakedns' Hok Hx E) as (ip & Hm & Hd).
  rewrite Hm in Ha. cbn in Ha. injection Ha as ->.
  unfold target_addr. cbn [socket_addr_ip fakedns_key sa4_ip]. by rewrite Hd.
Qed.
End target.

(** ** UDP *)

(** A flow of one local address: the address the first packet was sent to, its
    queue to [relay_udp_flow], and whether that still has its receiver. *)
Record Flow := mkFlow {
  flow_local : SocketAddr;
  fake_remote : SocketAddr;
  queue : list (Bytes * Address);
  receiver_open : bool
}.

(** The state of [process_incoming_udp_packets]: the name server, and
    [active_sessions], a map from the local address. *)
Record TunUdp := mkTunUdp { fakedns : FakeDns; active_sessions : list Flow }.

(** What leaves the loop: a packet to the stack, an error in the log. *)
Inductive UdpOutput := ToStack (p : UdpPacket) | LogError (e : IoError) | Dropped443.

Definition find_flow (a : SocketAddr) (l : list Flow) : option Flow :=
  List.find (λ f, bool_decide (flow_local f = a)) l.

Definition push_flow (a : SocketAddr) (x : Bytes * Address) (l : list Flow) : list Flow :=
  map (λ f, if decide (flow_local f = a)
            then mkFlow (flow_local f) (fake_remote f) (queue f ++ [x]) (receiver_open f)
            else f) l.

Definition remove_flow (a : SocketAddr) (l : list Flow) : list Flow :=
  filter (λ f, flow_local f ≠ a) l.

Section udp.
Context `{SmolWire} (cidr_contains : Ipv4Addr → bool) (to_utf8 : Name → Bytes).
(** [Message::from_vec] and [to_vec]. *)
Context (from_vec : Bytes → option Message) (to_vec : Message → option Bytes).
Context (disable_udp_443 : bool).

(** [handle_dns_query_packet]. *)
Definition handle_dns_query_packet (packet : UdpPacket) (self : TunUdp)
    : list UdpOutput * TunUdp :=
  let '(response, fd) := FakeDns.handle_dns_query (from_vec (data packet)) (fakedns self) in
  (match response with
   | Some m =>
     match to_vec m with
     | Some b => [ToStack (mkUdp b (dst packet) (src packet))]
     | None => []
     end
   | None => []
   end, mkTunUdp fd (active_sessions self)).

(** [handle_udp_data_packet], with room in the queue of the flow. *)
Definition handle_udp_data_packet (packet : UdpPacket) (self : TunUdp)
    : io_result unit * TunUdp :=
  match target_addr cidr_contains to_utf8 (fakedns self) (dst packet) with
  | Err e => (Err e, self)
  | Ok target =>
    let x := (data packet, target) in
    (Ok tt,
     mkTunUdp (fakedns self)
       match find_flow (src packet) (active_sessions self) with
       | Some f =>
         if receiver_open f then push_flow (src packet) x (active_sessions self)
         else remove_flow (src packet) (active_sessions self)
       | None => active_sessions self ++ [mkFlow (src packet) (dst packet) [x] true]
       end)
  end.

(** One turn of the loop on a packet. *)
Definition udp_packet_step (packet : UdpPacket) (self : TunUdp)
    : list UdpOutput * TunUdp :=
  if socket_addr_port (dst packet) =? 53 then handle_dns_query_packet packet self
  else if disable_udp_443 && (socket_addr_port (dst packet) =? 443) then ([Dropped443], self)
  else
    match handle_udp_data_packet packet self with
    | (Ok _, self) => ([], self)
    | (Err e, self) => ([LogError e], self)
    end.

(** [process_incoming_udp_packets] on the packets the stack gives it: also
    those it leaves. *)
Fixpoint process_incoming_udp_packets (recv : list Packet) (self : TunUdp)
    : list UdpOutput * list Packet * TunUdp :=
  match recv with
  | [] => ([], [], self)
  | p :: rest =>
    match split_read p with
    | None => ([], rest, self)
    | Some packet =>
      let '(out, self) := udp_packet_step packet self in
      let '(outs, remaining, self) := process_incoming_udp_packets rest self in
      (out ++ outs, remaining, self)
    end
  end.

(** The events of [relay_udp_flow]: an item of its queue, a packet of its
    session, the idle timeout. [stack_open] is whether the stack still takes
    packets. *)
Inductive FlowEvent :=
  | FromApp (item : Bytes * Address)
  | FromTunnel (packet_data : Bytes) (source_addr : Address)
  | IdleTimeout.

Inductive FlowOutput := SendTo (packet_data : Bytes) (addr : Address) | Reply (p : UdpPacket).

Definition flow_step (stack_open : bool) (f : Flow) (ev : FlowEvent)
    : list FlowOutput * bool :=
  match ev with
  | FromApp (packet_data, addr) => ([SendTo packet_data addr], true)
  | FromTunnel packet_data _ =>
    if stack_open then ([Reply (mkUdp packet_data (fake_remote f) (flow_local f))], true)
    else ([], false)
  | IdleTimeout => ([], false)
  end.

(** [relay_udp_flow]: what it sends, and whether it ended. *)
Fixpoint relay_udp_flow (stack_open : bool) (f : Flow) (evs : list FlowEvent)
    : list FlowOutput * bool :=
  match evs with
  | [] => ([], false)
  | ev :: evs =>
    match flow_step stack_open f ev with
    | (out, true) => let '(outs, r) := relay_udp_flow stack_open f evs in (out ++ outs, r)
    | (out, false) => (out, true)
    end
  end.
End udp.

(** ** Properties of the UDP side *)

(** The flows have different local addresses. *)
Definition flows_ok (self : TunUdp) : Prop := NoDup (map flow_local (active_sessions self)).

Lemma find_flow_None a l : find_flow a l = None ↔ a ∉ map flow_local l.
Proof.
  induction l as [|f l IH]; cbn; [split; [intros _; apply not_elem_of_nil|done]|].
  destruct (bool_decide_reflect (flow_local f = a)) as [<-|Hn].
  - split; [done|]. intros Hi. destruct Hi. left.
  - fold (find_flow a l). rewrite IH, not_elem_of_cons. naive_solver.
Qed.

Lemma push_flow_locals a x l : map flow_local (push_flow a x l) = map flow_local l.
Proof.
  unfold push_flow. rewrite List.map_map. apply List.map_ext. intros f. by destruct (decide _).
Qed.

Lemma remove_flow_locals a l :
  map flow_local (remove_flow a l) = filter (λ b, b ≠ a) (map flow_local l).
Proof.
  unfold remove_flow. induction l as [|f l IH]; [done|].
  rewrite filter_cons. cbn [map]. rewrite filter_cons.
  destruct (decide (flow_local f ≠ a)); cbn [map]; by rewrite IH.
Qed.

Lemma find_push_flow a x l f :
  find_flow a l = Some f →
  find_flow a (push_flow a x l)
    = Some (mkFlow a (fake_remote f) (queue f ++ [x]) (receiver_open f)).
Proof.
  induction l as [|g l IH]; cbn; [done|].
  destruct (bool_decide_reflect (flow_local g = a)) as [<-|Hn].
  - intros [= <-]. rewrite decide_True by done. cbn. by rewrite bool_decide_true.
  - intros E. rewrite decide_False by done. rewrite bool_decide_false by done. by apply IH.
Qed.

Section udp_props.
Context `{SmolWire} (cidr_contains : Ipv4Addr → bool) (to_utf8 : Name → Bytes).
Context (from_vec : Bytes → option Message) (to_vec : Message → option Bytes).
Context (disable_udp_443 : bool).

#[local] Abbreviation step :=
  (udp_packet_step cidr_contains to_utf8 from_vec to_vec disable_udp_443).
#[local] Abbreviation loop :=
  (process_incoming_udp_packets cidr_contains to_utf8 from_vec to_vec disable_udp_443).

Lemma udp_step_flows packet self :
  flows_ok self → flows_ok (snd (step packet self)).
Proof.
  intros Hok. unfold udp_packet_step. destruct (_ =? 53).
  { unfold handle_dns_query_packet. by destruct (FakeDns.handle_dns_query _ _). }
  destruct (_ && _); [done|]. unfold handle_udp_data_packet.
  destruct (target_addr _ _ _ _) as [t|e]; [|done]. unfold flows_ok. cbn.
  destruct (find_flow (src packet) (active_sessions self)) as [f|] eqn:Ef.
  - destruct (receiver_open f); [by rewrite push_flow_locals|].
    rewrite remove_flow_locals. by apply NoDup_filter.
  - rewrite List.map_app. cbn. apply NoDup_app. split_and!; [done| |apply NoDup_singleton].
    intros x Hx ->%list_elem_of_singleton. by apply find_flow_None in Ef.
Qed.

(** Each local address has one flow, whatever packets come; the payload of a
    packet that is let through is queued at the end of the flow of its sender
    for the destination [target_addr] gives, a new flow being made only for a
    sender that has none and a flow whose task is gone being forgotten; a DNS
    query is never queued and its answer goes back to the sender from the
    address it asked; and nothing else changes the flows. *)
Theorem udp_packet_step_spec packet self out self' :
  flows_ok self → step packet self = (out, self') →
  flows_ok self'
  ∧ (socket_addr_port (dst packet) = 53 →
       active_sessions self' = active_sessions self
       ∧ Forall (λ o, ∃ b, o = ToStack (mkUdp b (dst packet) (src packet))) out)
  ∧ (socket_addr_port (dst packet) ≠ 53 →
       fakedns self' = fakedns self
       ∧ (out = [] →
          ∃ t, target_addr cidr_contains to_utf8 (fakedns self) (dst packet) = Ok t
            ∧ match find_flow (src packet) (active_sessions self) with
              | Some f =>
                find_flow (src packet) (active_sessions self')
                  = if receiver_open f
                    then Some (mkFlow (src packet) (fake_remote f)
                                 (queue f ++ [(data packet, t)]) true)
                    else None
              | None =>
                active_sessions self' = active_sessions self
                  ++ [mkFlow (src packet) (dst packet) [(data packet, t)] true]
              end)
       ∧ (out ≠ [] → self' = self)).
Proof.
  intros Hok E. pose proof (udp_step_flows packet self Hok) as Hok'. rewrite E in Hok'.
  split; [done|]. unfold udp_packet_step in E.
  destruct (Z.eqb_spec (socket_addr_port (dst packet)) 53) as [Hp|Hp]; (split; [|]); try done.
  - intros _. unfold handle_dns_query_packet in E.
    destruct (FakeDns.handle_dns_query _ _) as [r fd]. injection E as <- <-.
    split; [done|]. destruct r as [m|]; [|done]. destruct (to_vec m); [|done]. eauto.
  - intros _. destruct (_ && _); [by injection E as <- <-|].
    unfold handle_udp_data_packet in E.
    destruct (target_addr _ _ _ _) as [t|e] eqn:Et; [|by injection E as <- <-].
    injection E as <- <-. split; [done|]. split; [|done]. intros _. exists t.
    split; [done|]. cbn [active_sessions].
    destruct (find_flow (src packet) (active_sessions self)) as [f|] eqn:Ef; [|done].
    destruct (receiver_open f) eqn:Er; [by rewrite <-Er; apply find_push_flow|].
    apply find_flow_None. rewrite remove_flow_locals.
    by intros [Hne _]%list_elem_of_filter.
Qed.

(** A packet that does not parse as UDP ends the loop, for the reader
    reports it as the end of the channel: nothing after it is handled. *)
Theorem malformed_packet_ends_udp good bad rest self out self' :
  Forall (λ p, is_Some (split_read p)) good → split_read bad = None →
  loop good self = (out, [], self') →
  loop (good ++ bad :: rest) self = (out, rest, self').
Proof.
  intros Hg Hb. revert self out. induction Hg as [|p good [q Hq] _ IH]; intros self out.
  - intros [= <- <-]. cbn. by rewrite Hb.
  - cbn. rewrite Hq. destruct (step q self) as [o1 self1].
    destruct (loop good self1) as [[o2 l2] self2] eqn:E2. intros [= <- -> ->].
    by rewrite (IH _ _ E2).
Qed.

(** What [relay_udp_flow] sends: every item of the queue goes to the address it
    came with; a reply goes to the local address of the flow, and is labelled
    with the address of the first packet of the flow, whatever it came from. *)
Theorem relay_udp_flow_labels stack_open f evs :
  Forall (λ o, match o with
               | SendTo d a => FromApp (d, a) ∈ evs
               | Reply p => src p = fake_remote f ∧ dst p = flow_local f
                            ∧ ∃ source, FromTunnel (data p) source ∈ evs
               end) (fst (relay_udp_flow stack_open f evs))
  ∧ (stack_open = true → IdleTimeout ∉ evs →
     length (fst (relay_udp_flow stack_open f evs)) = length evs).
Proof.
  induction evs as [|ev evs [IH1 IH2]]; [done|]. cbn [relay_udp_flow].
  assert (Forall (λ o, match o with
               | SendTo d a => FromApp (d, a) ∈ ev :: evs
               | Reply p => src p = fake_remote f ∧ dst p = flow_local f
                            ∧ ∃ source, FromTunnel (data p) source ∈ ev :: evs
               end) (fst (relay_udp_flow stack_open f evs))) as IH1'.
  { eapply Forall_impl; [exact IH1|]. intros [d a|p]; [by right|].
    intros (? & ? & source & Hs). split_and!; [done..|]. exists source. by right. }
  destruct ev as [[d a]|d source|]; cbn [flow_step].
  - destruct (relay_udp_flow stack_open f evs) as [outs r]. cbn [fst app] in *. split.
    + constructor; [left|done].
    + intros Ho Hn. cbn. f_equal. apply IH2; [done|]. intros Hi. apply Hn. by right.
  - destruct stack_open; [|by split].
    destruct (relay_udp_flow true f evs) as [outs r]. cbn [fst app] in *. split.
    + constructor; [|done]. cbn. split_and!; [done..|]. exists source. left.
    + intros Ho Hn. cbn. f_equal. apply IH2; [done|]. intros Hi. apply Hn. by right.
  - split; [done|]. intros _ Hn. destruct Hn. left.
Qed.
End udp_props.

(** ** Instances *)

#[local] Existing Instance demo_wire.

(** 198.18.0.0/16, the default range. *)
Definition demo_cidr (a : Ipv4Addr) : bool := v4_to_u32 a / 2 ^ 16 =? demo_net / 2 ^ 16.

Definition demo_fake (x : byte) : Ipv4Addr := mkIpv4 [#Byte.xc6; Byte.x12; Byte.x00; x].

(** The name server after it was asked for the name "a". *)
Definition demo_fakedns : FakeDns :=
  snd (FakeDns.handle_dns_query (demo_query [Byte.x61]) (fakedns_new demo_net 65534)).


Lemma dns_then_connect_witness :
  let query := mkMessage Query NoError [mkQuestion [Byte.x61] TypeA] [] in
  let m := answer_with query [Byte.x61] (demo_net + 3) in
  FakeDns.handle_dns_query (Some query) (fakedns_new demo_net 65534) = (Some m, demo_fakedns)
  ∧ target_addr demo_cidr id demo_fakedns (SockV4 (mkSA4 (demo_fake Byte.x03) 443))
    = Ok (Domain [Byte.x61] 443).
Proof.
  intros query m.
  assert (FakeDns.handle_dns_query (Some query) (fakedns_new demo_net 65534)
          = (Some m, demo_fakedns)) as E by (vm_compute; reflexivity).
  split; [exact E|].
  apply (dns_then_connect demo_cidr id [Byte.x61] (fakedns_new demo_net 65534) m
    demo_fakedns (demo_fake Byte.x03) 443); [|done|exact E|vm_compute; reflexivity].
  apply fakedns_new_ok; unfold demo_net; lia.
Defined.

Definition demo_from_vec (b : Bytes) : option Message :=
  Some (mkMessage Query NoError [mkQuestion b TypeA] []).
Definition demo_to_vec (m : Message) : option Bytes :=
  Some (concat (map answer_name (answers m))).

Definition demo_tun : TunUdp := mkTunUdp demo_fakedns [].

(** A packet to the fake address of "a", port 4433. *)
Definition demo_quic : UdpPacket :=
  mkUdp [Byte.x01] (SockV4 (mkSA4 (demo_ip Byte.x01) 5000))
    (SockV4 (mkSA4 (demo_fake Byte.x03) 4433)).

Lemma udp_packet_step_spec_witness :
  let step := udp_packet_step demo_cidr id demo_from_vec demo_to_vec true in
  let self' := mkTunUdp demo_fakedns
    [mkFlow (src demo_quic) (dst demo_quic) [([Byte.x01], Domain [Byte.x61] 4433)] true] in
  step demo_quic demo_tun = ([], self') ∧ flows_ok self'.
Proof.
  intros step self'.
  assert (step demo_quic demo_tun = ([], self')) as E by (vm_compute; reflexivity).
  split; [exact E|].
  apply (udp_packet_step_spec demo_cidr id demo_from_vec demo_to_vec true
    demo_quic demo_tun [] self'); [|exact E].
  apply NoDup_nil_2.
Defined.

(** A DNS query, three bytes that are no packet, and the query again. *)
Lemma malformed_packet_ends_udp_witness :
  let bad := [Byte.xff; Byte.xff; Byte.xff] in
  let reply := ToStack (mkUdp [Byte.x68; Byte.x69] (dst demo_udp_packet) (src demo_udp_packet)) in
  ∃ self', process_incoming_udp_packets demo_cidr id demo_from_vec demo_to_vec true
    [demo_udp_frame; bad; demo_udp_frame] demo_tun = ([reply], [demo_udp_frame], self').
Proof.
  intros bad reply.
  exists (snd (process_incoming_udp_packets demo_cidr id demo_from_vec demo_to_vec true
    [demo_udp_frame] demo_tun)).
  apply (malformed_packet_ends_udp demo_cidr id demo_from_vec demo_to_vec true
    [demo_udp_frame] bad [demo_udp_frame]).
  - constructor; [by exists demo_udp_packet|constructor].
  - reflexivity.
  - vm_compute. reflexivity.
Defined.
