(* ===== verification/NetWorker.v ===== *)
(** The worker of the network stack's TCP half: [accept_loop] of
    [TcpConnectionWorker] (crates/ombrac-netstack/src/tcp.rs), which works until a
    whole round finds nothing to do, and then waits. *)

From S2P Require Import Prelude Std NetTcp NetStack.

#[local] Open Scope Z_scope.

(** What the worker relies on beyond [NetTcp]: taking received bytes does not touch
    the send half, and [rx_pending] bounds what can still be received. *)
Class SocketHalves (K : Type) `{TcpSocket K} := {
  rx_pending : K → nat;
  can_send_consume k n : can_send (recv_consume n k) = can_send k;
  send_room_consume k n : send_room (recv_consume n k) = send_room k;
  pending_consume k b n :
    recv_buffer k = Some b → (n ≤ length b)%nat →
    (rx_pending (recv_consume n k) + n ≤ rx_pending k)%nat;
  pending_enqueue k b : (rx_pending (send_enqueue b k) ≤ rx_pending k)%nat;
  pending_close k : (rx_pending (socket_close k) ≤ rx_pending k)%nat
}.

(** The worker: the packets waiting in its channel, the injector of its device, the
    channel of new streams, and its sockets with what they listen on and the
    buffers they share with their stream. *)
Record WorkerState (K : Type) := mkState {
  inbound : list Packet;
  injector : Chan Packet;
  emitter : Chan (SocketAddr * SocketAddr);
  socks : list (SocketAddr * (K * TcpConn))
}.
Arguments mkState {K}.
Arguments inbound {K} w.
Arguments injector {K} w.
Arguments emitter {K} w.
Arguments socks {K} w.

(** ** One round *)

Section worker.
Context {K : Type} `{TcpSocket K} `{SmolWire}.

(** A socket that listens on an address, or the error of [listen]; the sizes of the
    ring buffers; and [Interface::poll] on the device and the sockets, with whether
    it did something. *)
Context (listen : SocketAddr → io_result unit) (new_socket : SocketAddr → K).
Context (recv_size send_size : nat).
Context (iface_poll : Z → Chan Packet → list K → bool * Chan Packet * list K).

(** [process_inbound_frame], with the sockets it adds. *)
Definition process_frame (w : WorkerState K) (frame : Packet) : WorkerState K :=
  let '(_, w') := process_inbound_frame listen frame
                    (mkWorker (injector w) (emitter w) (map fst (socks w))) in
  mkState (inbound w) (device_injector w') (socket_stream_emitter w')
    (socks w ++ map (λ a, (a, (new_socket a, conn_new recv_size send_size)))
                  (drop (length (socks w)) (socket_maps w'))).

(** [while let Ok(packet) = self.inbound.try_recv()]. *)
Definition drain_inbound (w : WorkerState K) : WorkerState K :=
  let w' := foldl process_frame w (inbound w) in
  mkState [] (injector w') (emitter w') (socks w').

(** [self.iface.poll(now, ..)]. *)
Definition poll_iface (now : Z) (w : WorkerState K) : bool * WorkerState K :=
  let '(progress, inj, ks) := iface_poll now (injector w) (map (λ s, fst (snd s)) (socks w)) in
  (progress, mkState (inbound w) inj (emitter w)
     (zip_with (λ s k, (fst s, (k, snd (snd s)))) (socks w) ks)).

(** The I/O of one socket, with the bytes counted; a dropped one is skipped. *)
Definition io_socket (s : SocketAddr * (K * TcpConn)) : (SocketAddr * (K * TcpConn)) * nat :=
  let '(a, (k, c)) := s in
  if socket_dropped c then (s, O)
  else let '(k, c, _, (read, written)) := handle_socket_io k c in
       ((a, (k, c)), (read + written)%nat).

Definition io_sockets (w : WorkerState K) : nat * WorkerState K :=
  let l := map io_socket (socks w) in
  (sum_list (map snd l), mkState (inbound w) (injector w) (emitter w) (map fst l)).

(** [prune_sockets] keeps or removes each socket. *)
Definition keep_socket (s : SocketAddr * (K * TcpConn)) : option (SocketAddr * (K * TcpConn)) :=
  let '(a, (k, c)) := s in
  match prune_socket k c with Kept k => Some (a, (k, c)) | Removed _ => None end.

Definition prune_sockets (w : WorkerState K) : bool * WorkerState K :=
  let l := omap keep_socket (socks w) in
  (negb (Nat.eqb (length (socks w)) (length l)), mkState (inbound w) (injector w) (emitter w) l).

(** The body of [while progress]: whether it found something to do. [now] is the
    time at the two polls. *)
Definition drain_round (now : Z * Z) (w : WorkerState K) : bool * WorkerState K :=
  let received := match inbound w with [] => false | _ => true end in
  let w := drain_inbound w in
  let '(polled, w) := poll_iface (fst now) w in
  let '(total_bytes_processed, w) := io_sockets w in
  let '(pruned, w) := prune_sockets w in
  let '(polled_again, w) := poll_iface (snd now) w in
  (received || polled || Nat.ltb 0 total_bytes_processed || pruned || polled_again, w).

(** [while progress], with fuel; the number of rounds and the state when it ended. *)
Fixpoint drain_loop (fuel : nat) (clock : nat → Z * Z) (i : nat) (w : WorkerState K)
    : option (nat * WorkerState K) :=
  match fuel with
  | O => None
  | S fuel =>
    let '(progress, w) := drain_round (clock i) w in
    if progress then drain_loop fuel clock (S i) w else Some (S i, w)
  end.

(** ** Waiting *)

(** What the [select!] of stage 2 can see. *)
Inductive IdleEvent :=
  | ShutdownSignal
  | InboundPacket (maybe_packet : option Packet)
  | Notified
  | Elapsed (time : Z).

(** Out of the loop, back to work, or asleep. *)
Inductive IdleNext := Exit | Work (w : WorkerState K) | Asleep.

(** Stage 2, [smoltcp_delay] being what [poll_delay] gives. *)
Definition idle (smoltcp_delay : option Z) (ev : IdleEvent) (w : WorkerState K) : IdleNext :=
  match ev with
  | ShutdownSignal => Exit
  | InboundPacket (Some packet) => Work (process_frame w packet)
  | InboundPacket None => Exit
  | Notified => Work w
  | Elapsed time =>
    match smoltcp_delay with
    | Some delay => if (0 <? delay) && (delay <=? time) then Work w else Asleep
    | None => Asleep
    end
  end.
End worker.
Arguments IdleNext K : clear implicits.

(** ** Properties *)

Section rounds.
Context {K : Type} `{TcpSocket K} `{!SocketHalves K} `{SmolWire}.
Context (listen : SocketAddr → io_result unit) (new_socket : SocketAddr → K).
Context (recv_size send_size : nat).
Context (iface_poll : Z → Chan Packet → list K → bool * Chan Packet * list K).

(** Documented of [PollResult::None]: the state of the sockets has not changed. *)
Context (poll_none : ∀ now c ks c' ks', iface_poll now c ks = (false, c', ks') → ks' = ks).

#[local] Abbreviation round := (drain_round listen new_socket recv_size send_size iface_poll).

(** Nothing can be moved from the socket to the application, *)
Definition nothing_to_receive (k : K) (c : TcpConn) : Prop :=
  can_recv k = false ∨ recv_buffer k = None ∨ recv_buffer k = Some []
  ∨ (recv_cap c ≤ length (recv_rb c))%nat.

(** nor from the application to the socket. *)
Definition nothing_to_send (k : K) (c : TcpConn) : Prop :=
  can_send k = false ∨ send_rb c = [] ∨ send_room k = None ∨ send_room k = Some O.

Lemma zip_with_self {A} (l : list (SocketAddr * (K * A))) :
  zip_with (λ s k, (fst s, (k, snd (snd s)))) l (map (λ s, fst (snd s)) l) = l.
Proof. induction l as [|[a [k c]] l IH]; cbn; [done|]. by rewrite IH. Qed.

Lemma poll_iface_none now (w w' : WorkerState K) :
  poll_iface iface_poll now w = (false, w') → socks w' = socks w.
Proof.
  unfold poll_iface. destruct (iface_poll _ _ _) as [[p inj] ks] eqn:E.
  intros [= -> <-]. rewrite (poll_none _ _ _ _ _ E). apply zip_with_self.
Qed.

Lemma io_recv_zero (k : K) c :
  let '(k', c', _, n) := io_recv k c in
  n = O → nothing_to_receive k c ∧ can_send k' = can_send k ∧ send_room k' = send_room k
          ∧ send_rb c' = send_rb c.
Proof.
  unfold io_recv, nothing_to_receive. destruct (can_recv k); [|auto].
  destruct (recv_buffer k) as [b|]; [|auto 6].
  intros Hn. rewrite can_send_consume, send_room_consume. split; [|done].
  destruct b as [|x b]; [auto|]. right; right; right. cbn [length] in Hn. lia.
Qed.

Lemma io_send_zero fuel (k : K) c :
  (length (send_rb c) ≤ fuel)%nat → snd (io_send fuel k c) = O → nothing_to_send k c.
Proof.
  unfold nothing_to_send. destruct fuel as [|fuel]; cbn [io_send].
  { intros Hl _. destruct (send_rb c); [auto|simpl in Hl; lia]. }
  intros _. destruct (can_send k); [|auto]. destruct (send_rb c) as [|x b]; [auto|].
  destruct (send_room k) as [[|room]|]; [auto 6| |auto].
  destruct (io_send fuel _ _) as [[k' c'] n]. cbn. lia.
Qed.

Lemma io_socket_zero a (k : K) c :
  snd (io_socket (a, (k, c))) = O → socket_dropped c = false →
  nothing_to_receive k c ∧ nothing_to_send k c.
Proof.
  unfold io_socket. intros Hz Hd. rewrite Hd in Hz. unfold handle_socket_io in Hz.
  pose proof (io_recv_zero k c) as Hr. destruct (io_recv k c) as [[[k1 c1] nr] br].
  pose proof (io_check_open_spec k1 c1) as Ho.
  destruct (io_check_open k1 c1) as [c2 nc]. cbn [fst] in Ho. destruct Ho as (_ & Ho & _).
  pose proof (io_send_zero (length (send_rb c2)) k1 c2 (le_n _)) as Hs.
  destruct (io_send _ k1 c2) as [[k3 c3] w]. cbn [snd] in Hz, Hs.
  destruct Hr as (H1 & H2 & H3 & H4); [lia|]. split; [done|].
  destruct (Hs ltac:(lia)) as [?|[?|[?|?]]]; unfold nothing_to_send;
    rewrite <-?H2, <-?H3, <-?H4, <-?Ho; auto.
Qed.

Lemma lookup_map {A B} (f : A → B) l i : map f l !! i = f <$> l !! i.
Proof. apply list_lookup_fmap. Qed.

Lemma sum_list_zero l : sum_list l = O → Forall (λ n, n = O) l.
Proof.
  induction l as [|n l IH]; cbn; [constructor|]. intros E. constructor; [lia|]. apply IH. lia.
Qed.

Lemma omap_length_le {A B} (f : A → option B) l : (length (omap f l) ≤ length l)%nat.
Proof. induction l as [|x l IH]; cbn; [lia|]. destruct (f x); cbn; lia. Qed.

Lemma omap_length_eq {A B} (f : A → option B) l :
  length (omap f l) = length l → Forall (λ x, is_Some (f x)) l.
Proof.
  induction l as [|x l IH]; cbn; [constructor|]. pose proof (omap_length_le f l).
  destruct (f x) as [y|] eqn:E; cbn; [|lia]. intros. constructor; [by eexists|]. apply IH. lia.
Qed.

Lemma drain_inbound_nil w :
  inbound w = [] →
  drain_inbound listen new_socket recv_size send_size w = w.
Proof. intros E. unfold drain_inbound. rewrite E. cbn. destruct w. cbn in E. by rewrite <-E. Qed.

(** C16. A round of [accept_loop] that reports no progress, after which the worker goes
    to sleep, had nothing to do for its channel and its connections: no packet was
    waiting in the channel, no stream had been dropped by the application, and for no
    socket could a byte have been moved in either direction: what the socket received
    is empty or the ring buffer to the application full, and what the application
    wrote is gone or the socket takes no more. (The timers of the stack itself are
    another matter, see [idle_wakes].) *)
Theorem idle_is_quiescent now w w' :
  round now w = (false, w') →
  inbound w = []
  ∧ ∀ a k c, (a, (k, c)) ∈ socks w →
      socket_dropped c = false ∧ nothing_to_receive k c ∧ nothing_to_send k c.
Proof.
  unfold drain_round. destruct (inbound w) as [|p l] eqn:Ei.
  2: { repeat (case_match; try done); by intros [= ?]. }
  rewrite drain_inbound_nil by done.
  destruct (poll_iface iface_poll (fst now) w) as [polled w1] eqn:E1.
  destruct (io_sockets w1) as [total w2] eqn:E2.
  destruct (prune_sockets w2) as [pruned w3] eqn:E3.
  destruct (poll_iface iface_poll (snd now) w3) as [polled2 w4].
  intros [= Hp _]. cbn [orb] in Hp.
  apply orb_false_elim in Hp as [[[-> Ht]%orb_false_elim Hpr]%orb_false_elim _].
  apply poll_iface_none in E1 as E1. split; [done|]. intros a k c Hin.
  injection E2 as Etot <-. injection E3 as Epr _. cbn [socks] in Epr. rewrite E1 in *.
  rewrite Hpr in Epr. apply negb_false_iff, Nat.eqb_eq, eq_sym, omap_length_eq in Epr.
  apply Nat.ltb_ge in Ht. apply list_elem_of_lookup in Hin as [i Hi].
  assert (snd (io_socket (a, (k, c))) = O) as Hz.
  { assert (Forall (λ n, n = O) (map snd (map io_socket (socks w)))) as Hz
      by (apply sum_list_zero; lia).
    apply (Forall_lookup_1 _ _ i _ Hz).
    by rewrite !lookup_map, Hi. }
  assert (socket_dropped c = false) as Hd.
  { destruct (socket_dropped c) eqn:Hd; [|done].
    assert (is_Some (keep_socket (fst (io_socket (a, (k, c)))))) as [s Hs].
    { apply (Forall_lookup_1 _ _ i _ Epr). by rewrite !lookup_map, Hi. }
    unfold io_socket in Hs. rewrite Hd in Hs. cbn in Hs. unfold prune_socket in Hs.
    by rewrite Hd in Hs. }
  split; [done|]. by eapply io_socket_zero.
Qed.

(** Asleep, the worker is woken by an inbound packet, by a stream, by the
    shutdown or the end of its channel, and by the timer exactly when [poll_delay]
    gave a positive delay that has passed: a timer that is due at once is not
    waited for at all, so that work the stack itself still has is left until one of
    the other events. *)
Theorem idle_wakes delay w (ev : IdleEvent) :
  idle listen new_socket recv_size send_size delay ev w = Asleep ↔
    ∃ t, ev = Elapsed t ∧ (delay = None ∨ ∃ d, delay = Some d ∧ (d ≤ 0 ∨ t < d)).
Proof.
  unfold idle. split.
  - destruct ev as [|[p|]| |t]; try done. intros E. exists t. split; [done|].
    destruct delay as [d|]; [right; exists d|by left]. split; [done|].
    destruct (Z.ltb_spec 0 d); cbn in E; [|lia]. destruct (Z.leb_spec d t); [done|lia].
  - intros (t & -> & [->|(d & -> & Hd)]); [done|].
    destruct (Z.ltb_spec 0 d); cbn; [|done]. by destruct (Z.leb_spec d t); [lia|].
Qed.
End rounds.

(** ** The work ends *)

Section termination.
Context {K : Type} `{TcpSocket K} `{!SocketHalves K} `{SmolWire}.
Context (listen : SocketAddr → io_result unit) (new_socket : SocketAddr → K).
Context (recv_size send_size : nat).

(** The bytes a socket still has to move. *)
Definition socket_work (s : SocketAddr * (K * TcpConn)) : nat :=
  (rx_pending (fst (snd s)) + length (send_rb (snd (snd s))))%nat.

Definition work (w : WorkerState K) : nat :=
  (sum_list (map socket_work (socks w)) + length (socks w))%nat.

Lemma io_recv_work (k : K) c :
  let '(k', c', _, n) := io_recv k c in
  (rx_pending k' + n ≤ rx_pending k)%nat ∧ send_rb c' = send_rb c.
Proof.
  unfold io_recv. destruct (can_recv k); [|by split; [lia|]].
  destruct (recv_buffer k) as [b|] eqn:E; [|by split; [cbn; lia|]].
  split; [|done]. apply (pending_consume k b); [done|lia].
Qed.

Lemma io_send_work fuel (k : K) c :
  let '(k', c', written) := io_send fuel k c in
  (rx_pending k' ≤ rx_pending k ∧ length (send_rb c') ≤ length (send_rb c)
   ∧ (0 < written → length (send_rb c') < length (send_rb c)))%nat.
Proof.
  revert k c. induction fuel as [|fuel IH]; intros k c; cbn [io_send]; [lia|].
  destruct (can_send k); [|lia]. destruct (send_rb c) as [|x b] eqn:Eb; [rewrite Eb; cbn; lia|].
  rewrite <-Eb. destruct (send_room k) as [[|room]|]; [lia| |lia].
  set (n := Nat.min (S room) (length (send_rb c))).
  specialize (IH (send_enqueue (take n (send_rb c)) k) (with_send_rb (drop n (send_rb c)) c)).
  destruct (io_send fuel _ _) as [[k' c'] w]. destruct IH as (H1 & H2 & _).
  pose proof (pending_enqueue k (take n (send_rb c))).
  cbn [with_send_rb send_rb] in H2. rewrite length_drop in H2.
  assert (0 < n)%nat by (unfold n; rewrite Eb; cbn; lia).
  assert (0 < length (send_rb c))%nat by (rewrite Eb; cbn; lia). lia.
Qed.

Lemma io_socket_work s :
  (socket_work (fst (io_socket s)) ≤ socket_work s
   ∧ (0 < snd (io_socket s) → socket_work (fst (io_socket s)) < socket_work s))%nat.
Proof.
  destruct s as [a [k c]]. unfold io_socket. destruct (socket_dropped c); [cbn; lia|].
  unfold handle_socket_io. pose proof (io_recv_work k c) as Hr.
  destruct (io_recv k c) as [[[k1 c1] nr] br]. destruct Hr as [R1 R2].
  pose proof (io_check_open_spec k1 c1) as Ho.
  destruct (io_check_open k1 c1) as [c2 nc]. cbn [fst] in Ho. destruct Ho as (_ & Ho & _).
  pose proof (io_send_work (length (send_rb c2)) k1 c2) as Hs.
  destruct (io_send _ k1 c2) as [[k3 c3] w]. unfold socket_work. cbn [fst snd].
  rewrite <-R2, <-Ho. lia.
Qed.

Lemma io_all_work l :
  (sum_list (map socket_work (map fst (map io_socket l))) ≤ sum_list (map socket_work l)
   ∧ (0 < sum_list (map snd (map io_socket l)) →
      sum_list (map socket_work (map fst (map io_socket l))) < sum_list (map socket_work l)))%nat.
Proof.
  induction l as [|s l IH]; [cbn; lia|]. cbn [map sum_list sum_list_with].
  pose proof (io_socket_work s). cbn. unfold id in *. lia.
Qed.

Lemma keep_work s s' : keep_socket s = Some s' → (socket_work s' ≤ socket_work s)%nat.
Proof.
  destruct s as [a [k c]]. unfold keep_socket, prune_socket.
  destruct (socket_dropped c); [done|].
  pose proof (pending_close k).
  destruct (write_closed c && _); (destruct (negb _); [done|]);
    intros [= <-]; unfold socket_work; cbn; lia.
Qed.

Lemma prune_work l :
  (sum_list (map socket_work (omap keep_socket l)) ≤ sum_list (map socket_work l))%nat.
Proof.
  induction l as [|s l IH]; [done|]. cbn [map omap list_omap].
  destruct (keep_socket s) as [s'|] eqn:E; cbn [map sum_list sum_list_with]; cbn; unfold id in *.
  - apply keep_work in E. lia.
  - lia.
Qed.

(** A network on which nothing happens. *)
Definition quiet (now : Z) (c : Chan Packet) (ks : list K) : bool * Chan Packet * list K :=
  (false, c, ks).

#[local] Abbreviation round := (drain_round listen new_socket recv_size send_size quiet).

Lemma round_work now w progress w' :
  inbound w = [] → round now w = (progress, w') →
  inbound w' = [] ∧ (work w' ≤ work w)%nat ∧ (progress = true → (work w' < work w)%nat).
Proof.
  intros Ei. unfold drain_round. rewrite drain_inbound_nil by done. rewrite Ei.
  unfold poll_iface, quiet. cbn [orb]. rewrite zip_with_self.
  unfold io_sockets. cbn [socks inbound injector emitter].
  unfold prune_sockets. cbn [socks inbound injector emitter]. rewrite zip_with_self.
  intros [= Hp <-]. split; [done|]. unfold work. cbn [socks].
  pose proof (io_all_work (socks w)) as [I1 I2].
  pose proof (prune_work (map fst (map io_socket (socks w)))).
  pose proof (omap_length_le keep_socket (map fst (map io_socket (socks w)))) as Hl.
  rewrite !length_map in *. split; [lia|]. intros ->. rewrite orb_false_r in Hp.
  apply orb_prop in Hp as [Ht%Nat.ltb_lt|Hn%negb_true_iff%Nat.eqb_neq]; lia.
Qed.

Lemma drain_loop_ends fuel clock i w :
  inbound w = [] → (work w < fuel)%nat →
  is_Some (drain_loop listen new_socket recv_size send_size quiet fuel clock i w).
Proof.
  revert i w. induction fuel as [|fuel IH]; intros i w Hi Hf; [lia|]. cbn [drain_loop].
  destruct (round (clock i) w) as [p w'] eqn:E.
  destruct (round_work _ _ _ _ Hi E) as (Hi' & _ & Hw). destruct p; [|by eexists].
  apply IH; [done|]. specialize (Hw eq_refl). lia.
Qed.

(** Taking the packets off the channel first does not change the round. *)
Lemma round_drained now w :
  snd (round now w) = snd (round now (drain_inbound listen new_socket recv_size send_size w)).
Proof.
  unfold drain_round. rewrite (drain_inbound_nil listen new_socket recv_size send_size
    (drain_inbound listen new_socket recv_size send_size w)) by done.
  destruct (poll_iface _ _ _) as [p1 w1]. destruct (io_sockets w1) as [t w2].
  destruct (prune_sockets w2) as [p3 w3]. by destruct (poll_iface _ _ w3).
Qed.

(** C30. The work ends: as long as the network stays quiet, [while progress] is over
    after one round for the packets that were waiting, one for each byte that can
    then still be moved and for each socket there then is, and one to see that
    nothing is left, whatever the time is. *)
Theorem worker_drain_terminates clock w :
  is_Some (drain_loop listen new_socket recv_size send_size quiet
    (S (S (work (drain_inbound listen new_socket recv_size send_size w)))) clock 0 w).
Proof.
  set (n := work _). change (is_Some
    (let '(progress, w) := round (clock O) w in
     if progress then drain_loop listen new_socket recv_size send_size quiet (S n) clock 1 w
     else Some (1%nat, w))).
  pose proof (round_drained (clock O) w) as Hd.
  destruct (round (clock O) w) as [pr w'], (round (clock O) (drain_inbound _ _ _ _ w))
    as [pr' w''] eqn:E. cbn in Hd. subst w''.
  assert (inbound (drain_inbound listen new_socket recv_size send_size w) = []) as H0' by done.
  destruct (round_work _ _ _ _ H0' E) as (Hi & Hw & _).
  destruct pr; [|by eexists]. apply drain_loop_ends; [done|]. unfold n. lia.
Qed.
End termination.

(** ** A run *)

(** A socket that has received [r] bytes and has room for [m]. *)
Record DemoSock := mkDemoSock { ds_rx : Bytes; ds_room : nat }.

#[local] Instance demo_sock : TcpSocket DemoSock := {
  can_recv k := negb (Nat.eqb (length (ds_rx k)) 0);
  can_send k := negb (Nat.eqb (ds_room k) 0);
  is_open _ := true;
  is_active _ := true;
  recv_buffer k := Some (ds_rx k);
  recv_consume n k := mkDemoSock (drop n (ds_rx k)) (ds_room k);
  send_room k := Some (ds_room k);
  send_enqueue b k := mkDemoSock (ds_rx k) (ds_room k - length b);
  socket_abort k := k;
  socket_close k := k;
  rx_taken _ := [];
  tx_given _ := []
}.

#[local] Instance demo_halves : SocketHalves DemoSock.
Proof.
  refine {| rx_pending k := length (ds_rx k) |}; try done.
  intros k b n [= <-] Hn. cbn. rewrite length_drop. lia.
Defined.

#[local] Instance demo_wire : SmolWire := {
  version_of_packet _ := None;
  ipv4_checked _ := false;
  ipv6_checked _ := false;
  ipv4_header_len _ := O;
  ipv4_src _ := v4_unspecified;
  ipv4_dst _ := v4_unspecified;
  ipv4_next_header _ := OtherProtocol 0;
  ipv4_payload b := b;
  ipv6_src _ := v6_unspecified;
  ipv6_dst _ := v6_unspecified;
  ipv6_next_header _ := OtherProtocol 0;
  ipv6_payload b := b;
  tcp_checked _ := None;
  udp_checked _ := None
}.

Definition demo_listen (a : SocketAddr) : io_result unit := Ok tt.
Definition demo_new (a : SocketAddr) : DemoSock := mkDemoSock [] 0.

(** Two bytes to receive with room for one, three to send with room for two. *)
Definition demo_state : WorkerState DemoSock :=
  mkState [[Byte.x00]] (chan_new 4) (chan_new 4)
    [(SockV4 (mkSA4 v4_unspecified 80),
      (mkDemoSock [Byte.x01; Byte.x02] 2,
       mkConn [] 1 [Byte.x0a; Byte.x0b; Byte.x0c] 4 false false false))].

(** What is left when the work is done: the second byte, and the third. *)
Definition demo_done : WorkerState DemoSock :=
  mkState [] (mkChan [[Byte.x00]] 4 true []) (chan_new 4)
    [(SockV4 (mkSA4 v4_unspecified 80),
      (mkDemoSock [Byte.x02] 0, mkConn [Byte.x01] 1 [Byte.x0c] 4 false false false))].

Lemma idle_is_quiescent_witness :
  let quiet_poll := quiet (K := DemoSock) in
  drain_loop demo_listen demo_new 4 4 quiet_poll 4 (λ _, (0, 0)) 0 demo_state
    = Some (2%nat, demo_done)
  ∧ nothing_to_send (mkDemoSock [Byte.x02] 0) (mkConn [Byte.x01] 1 [Byte.x0c] 4 false false false).
Proof.
  intros quiet_poll. split; [vm_compute; reflexivity|].
  apply (proj2 (idle_is_quiescent demo_listen demo_new 4 4 quiet_poll
    ltac:(by intros ????? [= <- <-]) (0, 0) demo_done demo_done ltac:(vm_compute; reflexivity))
    (SockV4 (mkSA4 v4_unspecified 80))). by left.
Defined.

Lemma worker_drain_terminates_witness :
  drain_loop demo_listen demo_new 4 4 quiet 7 (λ _, (0, 0)) 0 demo_state = Some (2%nat, demo_done)
  ∧ is_Some (drain_loop demo_listen demo_new 4 4 quiet 7 (λ _, (0, 0)) 0 demo_state).
Proof.
  split; [vm_compute; reflexivity|].
  exact (worker_drain_terminates demo_listen demo_new 4 4 (λ _, (0, 0)) demo_state).
Defined.
