(* ===== verification/NetDispatch.v ===== *)
(** The network stack as a whole (crates/ombrac-netstack/src: stack.rs, tcp.rs,
    udp.rs): its settings and the channels [NetStack::new] lays between the parts,
    and the dispatcher that spreads the TCP packets over the workers. *)

From S2P Require Import Prelude Std Select NetStack.
From S2P Require NetDevice NetTcp.

#[local] Open Scope Z_scope.

(** ** Settings *)

(** [NetStackConfig]; durations in milliseconds. *)
Record NetStackConfig := mkConfig {
  mtu : nat;
  channel_size : nat;
  number_workers : nat;
  tcp_send_buffer_size : nat;
  tcp_recv_buffer_size : nat;
  buffer_pool_size : nat;
  buffer_pool_default_buffer_size : nat;
  ipv4_addr : Ipv4Addr;
  ipv4_prefix_len : Z;
  ipv6_addr : Ipv6Addr;
  ipv6_prefix_len : Z;
  tcp_keep_alive : Z;
  tcp_timeout : Z;
  packet_batch_size : nat;
  ip_ttl : Z
}.

Definition DEFAULT_IPV4_ADDR : Ipv4Addr := mkIpv4 [#Byte.x0a; Byte.x00; Byte.x00; Byte.x01].
(** [0:fac::1]: the second group is [0x0fac]. *)
Definition DEFAULT_IPV6_ADDR : Ipv6Addr :=
  mkIpv6 ([#Byte.x00; Byte.x00; Byte.x0f; Byte.xac]
          +++ vreplicate 11 Byte.x00 +++ [#Byte.x01]).

(** [Default]; [available_parallelism] is positive when it is known. *)
Definition config_default (available_parallelism : option positive) : NetStackConfig :=
  mkConfig 1500 (Z.to_nat 4096)
    (match available_parallelism with Some n => Pos.to_nat n | None => 4 end)
    (Z.to_nat (16 * 1024)) (Z.to_nat (16 * 1024)) 32 (Z.to_nat (2 * 1024))
    DEFAULT_IPV4_ADDR 24 DEFAULT_IPV6_ADDR 64 28000 60000 32 64.

(** ** The channels *)

(** [TcpConnection]: the channel of new streams, the channel into each worker,
    and the broadcast that stops the workers and the dispatcher. *)
Record TcpConnection := mkTcpConnection {
  socket_stream : Chan (SocketAddr * SocketAddr);
  worker_senders : list (Chan Packet);
  shutdown : bool
}.

(** [TcpConnection::new]. *)
Definition tcp_connection_new (config : NetStackConfig) : TcpConnection :=
  mkTcpConnection (chan_new (channel_size config))
    (replicate (number_workers config) (chan_new (channel_size config))) false.

(** [Drop for TcpConnection]. *)
Definition tcp_connection_drop (self : TcpConnection) : TcpConnection :=
  mkTcpConnection (socket_stream self) (worker_senders self) true.

(** [UdpTunnel::new], [UdpTunnel::split]: the two halves keep the ends of the two
    channels and the TTL of what they write. *)
Record UdpTunnel := mkUdpTunnel { udp_in : Chan Packet; udp_out : Chan Packet; udp_ttl : Z }.

Definition udp_tunnel_new (config : NetStackConfig) (inbound outbound : Chan Packet) : UdpTunnel :=
  mkUdpTunnel inbound outbound (ip_ttl config).

Definition udp_tunnel_split (self : UdpTunnel) : Chan Packet * (Z * Chan Packet) :=
  (udp_in self, (udp_ttl self, udp_out self)).

(** [NetStack] with its two companions: the sink and the stream of [split] are the
    ends of the same channels. *)
Record Stack := mkStack {
  stack_sink : StackSplitSink;
  packet_outbound : Chan Packet;
  tcp_listener : TcpConnection;
  udp_socket : UdpTunnel
}.

(** [NetStack::new] and [NetStack::split]. *)
Definition net_stack_new (config : NetStackConfig) : Stack :=
  let packets := chan_new (channel_size config) in
  let udp_inbound := chan_new (channel_size config) in
  let tcp_inbound := chan_new (channel_size config) in
  mkStack (sink_new udp_inbound tcp_inbound) packets (tcp_connection_new config)
    (udp_tunnel_new config udp_inbound packets).

(** [StackSplitStream::poll_next]: packets go out as they are, and the stream ends
    with the channel; [senders] is whether a sender is left. *)
Definition stream_poll_next (senders : bool) (c : Chan Packet)
    : Poll (option (io_result Packet)) * Chan Packet :=
  match chan_recv c with
  | (Some packet, _, c) => (Ready (Some (Ok packet)), c)
  | (None, _, c) => (if senders then Pending else Ready None, c)
  end.

(** ** A worker's device and interface *)

(** [DeviceCapabilities], the fields that are set. *)
Record Capabilities := mkCapabilities { max_transmission_unit : nat; medium_ip : bool }.

(** [NetstackDevice::new]: the device, its capabilities and the capacity of the
    queue that [create_injector] gives the sender of. *)
Definition device_new (tx_sender : Chan Packet) (buffer_pool : NetDevice.Buffers)
    (config : NetStackConfig) : NetDevice.Device * Capabilities * nat :=
  (NetDevice.mkDevice [] tx_sender buffer_pool, mkCapabilities (mtu config) true,
   channel_size config).

(** [smoltcp::iface::Interface], as far as it is set up: the addresses with their
    prefixes and the default routes. *)
Record Interface := mkInterface {
  any_ip : bool;
  ip_addrs : list (IpAddr * Z);
  default_route_v4 : option Ipv4Addr;
  default_route_v6 : option Ipv6Addr
}.

Section interface.
(** How many addresses and routes [smoltcp] was built to hold. *)
Context (max_addrs max_routes : nat).

(** [IpCidr::new], which panics when the prefix is too long. *)
Definition cidr_new (ip : IpAddr) (prefix_len : Z) : option (IpAddr * Z) :=
  if prefix_len <=? (match ip with IpV4 _ => 32 | IpV6 _ => 128 end)
  then Some (ip, prefix_len) else None.

(** [Vec::push] of a bounded vector; its result is ignored. *)
Definition push_bounded {A} (x : A) (l : list A) : list A :=
  if Nat.ltb (length l) max_addrs then l ++ [x] else l.

(** [TcpConnection::create_interface]; [None] is a panic. *)
Definition create_interface (config : NetStackConfig) : option Interface :=
  v4 ← cidr_new (IpV4 (ipv4_addr config)) (ipv4_prefix_len config);
  v6 ← cidr_new (IpV6 (ipv6_addr config)) (ipv6_prefix_len config);
  let ip_addrs := push_bounded v6 (push_bounded v4 []) in
  if Nat.ltb 0 max_routes then
    if Nat.ltb 1 max_routes then
      Some (mkInterface true ip_addrs (Some (ipv4_addr config)) (Some (ipv6_addr config)))
    else None
  else None.

(** With room for two addresses and two routes the interface of every
    configuration with proper prefixes has both addresses and both default
    routes; the prefixes of the default configuration are. *)
Lemma create_interface_ok config :
  (2 ≤ max_addrs)%nat → (2 ≤ max_routes)%nat →
  ipv4_prefix_len config ≤ 32 → ipv6_prefix_len config ≤ 128 →
  create_interface config =
    Some (mkInterface true
            [(IpV4 (ipv4_addr config), ipv4_prefix_len config);
             (IpV6 (ipv6_addr config), ipv6_prefix_len config)]
            (Some (ipv4_addr config)) (Some (ipv6_addr config))).
Proof.
  intros Ha Hr H4%Z.leb_le H6%Z.leb_le. unfold create_interface, cidr_new. rewrite H4. cbn.
  rewrite H6. cbn. unfold push_bounded.
  destruct max_addrs as [|[|n]]; [lia..|]. destruct max_routes as [|[|m]]; [lia..|]. done.
Qed.
End interface.

(** ** Accessors of a stream *)

(** [TcpStream], as the application holds it. *)
Record TcpStream := mkTcpStream {
  local_addr : SocketAddr;
  remote_addr : SocketAddr;
  stream_conn : NetTcp.TcpConn
}.

(** What [accept_new_connection] hands to the application for a SYN from [src] to
    [dst], with fresh buffers and flags. *)
Definition tcp_stream_new (config : NetStackConfig) (src dst : SocketAddr) : TcpStream :=
  mkTcpStream src dst
    (NetTcp.conn_new (tcp_recv_buffer_size config) (tcp_send_buffer_size config)).

(** ** The dispatcher *)

(** Why [distribute_packets] ends. *)
Inductive DispatchEnd := ShutdownReceived | InboundClosed | WorkerGone | DispatchPanic.

Section dispatch.
Context `{SmolWire} (xxhash : SocketAddr → SocketAddr → Z).

(** What was sent to each worker so far; [alive] says whether its receiver is
    still there. With no worker at all the index is out of range, or the modulus
    is zero. *)
Definition distribute_body (alive : nat → bool) (maybe_packet : option Packet)
    (sent : list (list Packet)) : Flow DispatchEnd * list (list Packet) :=
  match maybe_packet with
  | None => (Return InboundClosed, sent)
  | Some packet =>
    let worker_index := worker_index xxhash (length sent) packet in
    match sent !! worker_index with
    | None => (Return DispatchPanic, sent)
    | Some q =>
      if alive worker_index then (Loop, <[worker_index := q ++ [packet]]> sent)
      else (Return WorkerGone, sent)
    end
  end.

(** [distribute_packets] over [num_workers] workers. *)
Definition distribute_packets (num_workers : nat) (alive : nat → bool)
    (turns : list (Turn (option Packet))) : option DispatchEnd * list (list Packet) :=
  (loop_result select_fair ShutdownReceived (distribute_body alive) turns
     (replicate num_workers []),
   loop_state select_fair ShutdownReceived (distribute_body alive) turns
     (replicate num_workers [])).

(** The two ends of a TCP packet, the smaller first: the same for both directions
    of a connection. *)
Definition connection_of (packet : Packet) : option (SocketAddr * SocketAddr) :=
  match new_checked packet with
  | None => None
  | Some ip_packet =>
    if decide (protocol ip_packet = Tcp) then
      match tcp_checked (payload ip_packet) with
      | None => None
      | Some (src_port, dst_port, _, _) =>
        let addr1 := socket_addr_new (src_addr ip_packet) src_port in
        let addr2 := socket_addr_new (dst_addr ip_packet) dst_port in
        Some (if addr_gt addr1 addr2 then (addr2, addr1) else (addr1, addr2))
      end
    else None
  end.

(** The worker depends on the connection alone. *)
Lemma worker_of_connection n packet :
  worker_index xxhash n packet =
    match connection_of packet with
    | Some (a, b) => Z.to_nat (xxhash a b mod Z.of_nat n)
    | None => 0%nat
    end.
Proof.
  unfold worker_index, connection_of. destruct (new_checked packet) as [p|]; [|done].
  destruct (decide _); [|done]. destruct (tcp_checked _) as [[[[sp dp] ?] ?]|]; [|done].
  by destruct (addr_gt _ _).
Qed.

Lemma worker_index_lt n packet : (0 < n)%nat → (worker_index xxhash n packet < n)%nat.
Proof.
  intros Hn. rewrite worker_of_connection. destruct (connection_of packet) as [[a b]|]; [|done].
  pose proof (Z.mod_pos_bound (xxhash a b) (Z.of_nat n)). lia.
Qed.

(** Every queue holds what was handled for its worker, in order. *)
Definition spread (handled : list Packet) (sent : list (list Packet)) : Prop :=
  ∀ i q, sent !! i = Some q →
    q = filter (λ p, worker_index xxhash (length sent) p = i) handled.

Lemma spread_step alive handled x sent sent' :
  spread (omap id handled) sent → distribute_body alive x sent = (Loop, sent') →
  spread (omap id (handled ++ [x])) sent' ∧ length sent' = length sent.
Proof.
  intros Hs. unfold distribute_body. destruct x as [p|]; [|done].
  destruct (sent !! _) as [q|] eqn:Eq; [|done]. destruct (alive _); [|done].
  intros [= <-]. split; [|apply length_insert]. rewrite omap_app. intros i q' Hi.
  rewrite length_insert, filter_app.
  destruct (decide (i = worker_index xxhash (length sent) p)) as [->|Hne].
  - rewrite list_lookup_insert_eq in Hi by (by eapply lookup_lt_Some).
    injection Hi as <-. rewrite (Hs _ _ Eq) at 1. cbn.
    by rewrite decide_True.
  - rewrite list_lookup_insert_ne in Hi by done. rewrite (Hs _ _ Hi) at 1. cbn.
    rewrite decide_False by done. by rewrite app_nil_r.
Qed.

(** A body that ends the loop leaves the queues as they are; with at least one
    worker it does not panic. *)
Lemma distribute_return alive x sent r sent' :
  (0 < length sent)%nat → distribute_body alive x sent = (Return r, sent') →
  sent' = sent ∧ r ≠ DispatchPanic.
Proof.
  intros Hn. unfold distribute_body. destruct x as [p|]; [|by intros [= <- <-]].
  destruct (lookup_lt_is_Some_2 sent (worker_index xxhash (length sent) p)) as [q ->].
  { by apply worker_index_lt. }
  destruct (alive _); [done|]. by intros [= <- <-].
Qed.

(** C17. The packets of one TCP connection, in both directions, go to one worker, in
    the order they came in, and to no other: whenever the dispatcher is looked at,
    that worker's queue has those of the packets handled so far, a prefix of what
    came in; and the dispatcher never fails for want of a worker. *)
Theorem distribute_keeps_connections n alive turns a b :
  (0 < n)%nat →
  let '(r, sent) := distribute_packets n alive turns in
  r ≠ Some DispatchPanic ∧ length sent = n
  ∧ ∃ handled, prefix handled (omap id (omap ready turns))
    ∧ let i := Z.to_nat (xxhash a b mod Z.of_nat n) in
      (∃ q, sent !! i = Some q
        ∧ filter (λ p, connection_of p = Some (a, b)) q
          = filter (λ p, connection_of p = Some (a, b)) handled)
      ∧ ∀ j q, j ≠ i → sent !! j = Some q → filter (λ p, connection_of p = Some (a, b)) q = [].
Proof.
  intros Hn. unfold distribute_packets.
  destruct (select_loop_handled select_fair ShutdownReceived (distribute_body alive)
    (λ l sent, spread (omap id l) sent ∧ length sent = n) turns (replicate n []))
    as (l & Hp & Hend).
  { apply select_fair_ok. }
  { intros l x s s' [Hs Hl] Hb. destruct (spread_step _ _ _ _ _ Hs Hb). by split; [|lia]. }
  { split; [|apply length_replicate]. intros i q [-> _]%lookup_replicate. done. }
  assert (spread (omap id l) (loop_state select_fair ShutdownReceived (distribute_body alive)
            turns (replicate n []))
    ∧ length (loop_state select_fair ShutdownReceived (distribute_body alive) turns
            (replicate n [])) = n
    ∧ loop_result select_fair ShutdownReceived (distribute_body alive) turns (replicate n [])
      ≠ Some DispatchPanic) as (Hs & Hl & Hr).
  { destruct Hend as [([? ?] & [->| ->])|(a' & s1 & r & [Hs Hl] & Hb & -> & _)]; [done..|].
    apply distribute_return in Hb as [-> ?]; [|lia]. split_and!; [done..|congruence]. }
  set (sent := loop_state _ _ _ _ _) in *. split; [done|]. split; [done|].
  exists (omap id l). split.
  { destruct Hp as [k ->]. rewrite omap_app. by apply prefix_app_r. }
  assert (∀ p, connection_of p = Some (a, b) →
    worker_index xxhash n p = Z.to_nat (xxhash a b mod Z.of_nat n)) as Hw.
  { intros p E. by rewrite worker_of_connection, E. }
  split.
  - destruct (lookup_lt_is_Some_2 sent (Z.to_nat (xxhash a b mod Z.of_nat n))) as [q Hq].
    { rewrite Hl. pose proof (Z.mod_pos_bound (xxhash a b) (Z.of_nat n)). lia. }
    exists q. split; [done|]. rewrite (Hs _ _ Hq), Hl. by apply filter_conj.
  - intros j q Hj Hq. rewrite (Hs _ _ Hq), Hl. apply filter_disjoint_nil.
    intros p Hc Hi. rewrite Hw in Hi by done. congruence.
Qed.
End dispatch.

(** ** A run *)

(** Frames of four bytes: the last octet of the source and of the destination, and
    the two ports. *)
#[local] Instance demo_wire : SmolWire := {
  version_of_packet _ := Some Ipv4;
  ipv4_checked b := Nat.leb 4 (length b);
  ipv6_checked _ := false;
  ipv4_header_len _ := 2%nat;
  ipv4_src b := mkIpv4 [#Byte.x0a; Byte.x00; Byte.x00; List.nth 0 b Byte.x00];
  ipv4_dst b := mkIpv4 [#Byte.x0a; Byte.x00; Byte.x00; List.nth 1 b Byte.x00];
  ipv4_next_header _ := Tcp;
  ipv4_payload b := drop 2 b;
  ipv6_src _ := v6_unspecified;
  ipv6_dst _ := v6_unspecified;
  ipv6_next_header _ := Tcp;
  ipv6_payload b := b;
  tcp_checked b := match b with s :: d :: _ => Some (b2z s, b2z d, false, false) | _ => None end;
  udp_checked _ := None
}.

Definition demo_hash (a b : SocketAddr) : Z := socket_addr_port a + socket_addr_port b.

Definition demo_out : Packet := [Byte.x01; Byte.x02; Byte.x09; Byte.x50].
Definition demo_back : Packet := [Byte.x02; Byte.x01; Byte.x50; Byte.x09].
Definition demo_other : Packet := [Byte.x01; Byte.x02; Byte.x08; Byte.x50].

(** Both directions of one connection go to the second of two workers, another
    connection to the first. *)
Lemma distribute_keeps_connections_witness :
  let turns := map (λ p, mkTurn false (Some (Some p)) true)
                 [demo_out; demo_other; demo_back] in
  distribute_packets demo_hash 2 (λ _, true) turns
    = (None, [[demo_other]; [demo_out; demo_back]])
  ∧ fst (distribute_packets demo_hash 2 (λ _, true) turns) ≠ Some DispatchPanic.
Proof.
  intros turns. split; [vm_compute; reflexivity|].
  pose proof (distribute_keeps_connections demo_hash 2 (λ _, true) turns
    (SockV4 (mkSA4 (mkIpv4 [#Byte.x0a; Byte.x00; Byte.x00; Byte.x01]) 9))
    (SockV4 (mkSA4 (mkIpv4 [#Byte.x0a; Byte.x00; Byte.x00; Byte.x02]) 80)) ltac:(lia)) as H.
  destruct (distribute_packets demo_hash 2 (λ _, true) turns) as [r sent]. exact (proj1 H).
Defined.
