(* ===== verification/Endpoints.v ===== *)
(** The tasks that feed the endpoints: the accept loops of the SOCKS and the HTTP
    endpoint (crates/ombrac-client/src/endpoint/socks/mod.rs, http.rs), and the
    forwarding loops, the TCP acceptor and [accept_loop] of the tun endpoint
    (endpoint/tun.rs). *)

From S2P Require Import Prelude Std Select NetStack.

#[local] Open Scope Z_scope.

(** ** SOCKS and HTTP *)

Section accept.
(** A TCP stream of the operating system. *)
Context {TcpStream : Type}.

(** What [TcpListener::accept] gives. *)
Abbreviation Accepted := (io_result (TcpStream * SocketAddr)).

(** [socks::Server::run]: its result and the connections handed to
    [handle_connection]. *)
Definition socks_run (turns : list (Turn Accepted))
    : option (io_result unit) * list (TcpStream * SocketAddr) :=
  (loop_result select_biased (Ok tt) spawn_accepted turns [],
   loop_state select_biased (Ok tt : io_result unit) spawn_accepted turns []).

(** [http::Server::accept_loop]: its result and the connections handed to
    [serve_connection]. *)
Definition http_accept_loop (turns : list (Turn Accepted))
    : option (io_result unit) * list (TcpStream * SocketAddr) :=
  (loop_result select_biased (Ok tt) spawn_accepted turns [],
   loop_state select_biased (Ok tt : io_result unit) spawn_accepted turns []).
End accept.

(** [is_connection_closed_error], on the text of the error. *)
Definition is_connection_closed_error (text : string) : bool :=
  match String.index 0 "connection closed" text with Some _ => true | None => false end.

(** ** Tun: from the stack to the device *)

Section to_device.
(** The device's sink, and its [send]. *)
Context {D : Type} (device_send : Packet → D → io_result unit * D).

(** One turn of [forward_packets_from_stack_to_tun]. *)
Definition stack_to_tun_body (packet_result : option (io_result Packet)) (tun_sink : D)
    : Flow unit * D :=
  match packet_result with
  | Some (Ok packet) =>
    match device_send packet tun_sink with
    | (Ok _, tun_sink) => (Loop, tun_sink)
    | (Err _, tun_sink) => (Return tt, tun_sink)
    end
  | Some (Err _) => (Return tt, tun_sink)
  | None => (Return tt, tun_sink)
  end.

(** [forward_packets_from_stack_to_tun]. *)
Definition forward_packets_from_stack_to_tun
    (turns : list (Turn (option (io_result Packet)))) (tun_sink : D) : option unit * D :=
  (loop_result select_biased tt stack_to_tun_body turns tun_sink,
   loop_state select_biased tt stack_to_tun_body turns tun_sink).
End to_device.

(** ** Tun: connections of the stack *)

(** One turn of [accept_tcp_connections]: [None] is the end of the listener. *)
Definition accept_tcp_body {T} (stream_opt : option T) (spawned : list T)
    : Flow unit * list T :=
  match stream_opt with
  | Some stream => (Loop, spawned ++ [stream])
  | None => (Return tt, spawned)
  end.

(** [accept_tcp_connections]: the streams handed to [relay_tcp_stream]. *)
Definition accept_tcp_connections {T} (turns : list (Turn (option T))) : option unit * list T :=
  (loop_result select_biased tt accept_tcp_body turns [],
   loop_state select_biased tt accept_tcp_body turns []).

(** ** Tun: from the device to the stack *)

(** Where [forward_packets_from_tun_to_stack] is: in its [select!], or in the
    [send] of a packet to the sink of the stack, before or after [start_send]. *)
Inductive Forwarder := AwaitPacket | AwaitReady (packet : Packet) | AwaitFlush | Ended.

(** The forwarder with the sink and its receivers, and the packets it read. *)
Record TunToStack := mkTunToStack
  { forwarder : Forwarder; packets_read : list Packet; stack : SinkSystem }.

(** What can happen: the token is cancelled, the device's stream gives
    something, or the task is polled inside [send]. *)
Inductive FwdInput :=
  | TokenCancelled
  | FromTun (packet_result : option (io_result Packet))
  | PollSend.

Section to_stack.
Context `{SmolWire}.

Definition set_sink (s : StackSplitSink) (sys : SinkSystem) : SinkSystem :=
  mkSinkSys s (offered sys) (udp_got sys) (tcp_got sys).
Definition set_offered (s : StackSplitSink) (p : Packet) (sys : SinkSystem) : SinkSystem :=
  mkSinkSys s (offered sys ++ [p]) (udp_got sys) (tcp_got sys).

(** A poll of [stack_sink.send(packet)]: [poll_ready], then [start_send], then
    [poll_flush]; an error ends the loop. *)
Definition fwd_poll_send (s : TunToStack) : TunToStack :=
  match forwarder s with
  | AwaitReady packet =>
    match poll_ready (sink (stack s)) with
    | (Ready (Ok _), k) =>
      match start_send packet k with
      | (Ok _, k) => mkTunToStack AwaitFlush (packets_read s) (set_offered k packet (stack s))
      | (Err _, k) => mkTunToStack Ended (packets_read s) (set_sink k (stack s))
      end
    | (Ready (Err _), k) => mkTunToStack Ended (packets_read s) (set_sink k (stack s))
    | (Pending, k) => mkTunToStack (AwaitReady packet) (packets_read s) (set_sink k (stack s))
    end
  | AwaitFlush =>
    match poll_flush (sink (stack s)) with
    | (Ready (Ok _), k) => mkTunToStack AwaitPacket (packets_read s) (set_sink k (stack s))
    | (Ready (Err _), k) => mkTunToStack Ended (packets_read s) (set_sink k (stack s))
    | (Pending, k) => mkTunToStack AwaitFlush (packets_read s) (set_sink k (stack s))
    end
  | _ => s
  end.

(** One step of [forward_packets_from_tun_to_stack]; the token is looked at only
    between two packets. *)
Definition fwd_step (i : FwdInput) (s : TunToStack) : TunToStack :=
  match i, forwarder s with
  | TokenCancelled, AwaitPacket => mkTunToStack Ended (packets_read s) (stack s)
  | FromTun (Some (Ok packet)), AwaitPacket =>
    mkTunToStack (AwaitReady packet) (packets_read s ++ [packet]) (stack s)
  | FromTun _, AwaitPacket => mkTunToStack Ended (packets_read s) (stack s)
  | PollSend, _ => fwd_poll_send s
  | _, _ => s
  end.

(** The forwarder among the receivers of the two queues, which take packets and,
    when the token is cancelled or (the UDP one) a packet does not parse, are
    dropped by the tasks that own them. *)
Inductive tun_to_stack_step : TunToStack → TunToStack → Prop :=
  | step_fwd i s : tun_to_stack_step s (fwd_step i s)
  | step_udp_take x w c s :
      chan_recv (udp_inbound (sink (stack s))) = (Some x, w, c) →
      tun_to_stack_step s (mkTunToStack (forwarder s) (packets_read s)
        (mkSinkSys (mkSink c (tcp_inbound (sink (stack s))) (packet_container (sink (stack s))))
          (offered (stack s)) (udp_got (stack s) ++ [x]) (tcp_got (stack s))))
  | step_tcp_take x w c s :
      chan_recv (tcp_inbound (sink (stack s))) = (Some x, w, c) →
      tun_to_stack_step s (mkTunToStack (forwarder s) (packets_read s)
        (mkSinkSys (mkSink (udp_inbound (sink (stack s))) c (packet_container (sink (stack s))))
          (offered (stack s)) (udp_got (stack s)) (tcp_got (stack s) ++ [x])))
  | step_udp_close s :
      tun_to_stack_step s (mkTunToStack (forwarder s) (packets_read s)
        (set_sink (mkSink (chan_close (udp_inbound (sink (stack s))))
          (tcp_inbound (sink (stack s))) (packet_container (sink (stack s)))) (stack s)))
  | step_tcp_close s :
      tun_to_stack_step s (mkTunToStack (forwarder s) (packets_read s)
        (set_sink (mkSink (udp_inbound (sink (stack s)))
          (chan_close (tcp_inbound (sink (stack s)))) (packet_container (sink (stack s))))
          (stack s))).

Definition tun_to_stack_new (udp tcp : nat) : TunToStack :=
  mkTunToStack AwaitPacket [] (mkSinkSys (sink_new (chan_new udp) (chan_new tcp)) [] [] []).
End to_stack.

(** ** Tun: the whole *)

(** [Tun::accept_loop], as far as it decides when it returns: whether the signal
    to shut down has come, and which of the four tasks it awaits have ended. *)
Definition tun_accept_loop (shutdown_signal : bool) (processing_tasks : list (option unit))
    : option (io_result unit) :=
  if shutdown_signal && forallb (λ r : option unit, match r with Some _ => true | None => false end)
    processing_tasks
  then Some (Ok tt) else None.

(** ** Properties *)

(** The accept loops of the SOCKS and the HTTP endpoint are the same loop: it
    runs until the signal to shut down, no error of [accept] ends it, and what it
    hands to tasks of their own is each connection that was accepted before the
    signal, once, in order, and none after it. *)
Theorem accept_loops_serve {T} (turns : list (Turn (io_result (T * SocketAddr)))) :
  socks_run turns = http_accept_loop turns
  ∧ fst (socks_run turns) = (if existsb signal turns then Some (Ok tt) else None)
  ∧ ∀ t1 t t2, turns = t1 ++ t :: t2 → Forall (λ t, signal t = false) t1 → signal t = true →
      snd (socks_run turns) = oks (omap ready t1).
Proof.
  destruct (accept_loop_spec select_biased (Ok tt : io_result unit) turns) as [H1 H2].
  split; [done|]. unfold socks_run. cbn [fst snd]. rewrite existsb_signal_biased in H1.
  split; [done|]. intros t1 t t2 -> Hf Ht. by rewrite H2, items_before_biased.
Qed.

(** The tun's acceptor hands over the streams in order, up to the end of the
    listener or the cancellation. *)
Lemma accept_tcp_prefix {T} (turns : list (Turn (option T))) :
  prefix (snd (accept_tcp_connections turns)) (omap id (omap ready turns)).
Proof.
  destruct (select_loop_handled select_biased tt accept_tcp_body
    (λ l s, s = omap id l) turns []) as (l & [k Hk] & H); [apply select_biased_ok| |done|].
  { intros l [x|] s s' ->; [|done]. intros [= <-]. by rewrite omap_app. }
  rewrite Hk, omap_app. unfold accept_tcp_connections. cbn [snd].
  destruct H as [[-> _]|([x|] & s & r & -> & [= _ <-] & _)]; by apply prefix_app_r.
Qed.

(** What goes to the device is what the stack sent, in order, each packet handed
    to the device once; the loop ends at the first error of either side. *)
Lemma stack_to_tun_prefix {D} (device_send : Packet → D → io_result unit * D)
    (turns : list (Turn (option (io_result Packet)))) dev :
  ∃ l, prefix l (oks (omap id (omap ready turns)))
    ∧ snd (forward_packets_from_stack_to_tun device_send turns dev)
      = foldl (λ d p, snd (device_send p d)) dev l.
Proof.
  unfold forward_packets_from_stack_to_tun. cbn [snd].
  set (sent := λ (l : list (option (io_result Packet))) d,
    d = foldl (λ d p, snd (device_send p d)) dev (oks (omap id l))).
  destruct (select_loop_handled select_biased tt (stack_to_tun_body device_send) sent turns dev)
    as (l & Hp & H); [apply select_biased_ok| |done|].
  { intros l [[p|e]|] d d' ->; unfold stack_to_tun_body; [|done..].
    destruct (device_send p _) as [[[]|e] d1] eqn:E; [|done]. intros [= <-].
    unfold sent. unfold oks in *. rewrite !omap_app, foldl_app. cbn. by rewrite E. }
  assert (∀ l', prefix l' (omap ready turns) →
    prefix (oks (omap id l')) (oks (omap id (omap ready turns)))) as Hpre.
  { intros l' [k ->]. unfold oks. rewrite !omap_app. by apply prefix_app_r. }
  destruct H as [[-> _]|(x & d & r & -> & Hb & _ & Hx)]; [exists (oks (omap id l)); auto|].
  exists (oks (omap id (l ++ [x]))). split; [auto|].
  unfold oks in *. rewrite !omap_app, foldl_app. destruct x as [[p|e]|]; cbn in *.
  - by destruct (device_send p _) as [[[]|e] d1]; [|injection Hb as _ <-].
  - by injection Hb as _ <-.
  - by injection Hb as _ <-.
Qed.

Section to_stack_props.
Context `{SmolWire}.

(** A step of the forwarder takes the sink through steps of its own. *)
Lemma tun_to_stack_sink s s' :
  tun_to_stack_step s s' → rtc sink_step (stack s) (stack s').
Proof.
  intros Hs. destruct Hs as [i s|x w c s E|x w c s E|s|s].
  - assert (rtc sink_step (stack s) (stack (fwd_poll_send s))) as Hp.
    { unfold fwd_poll_send. destruct (forwarder s) as [|p| |] eqn:Ef; [done| | |done].
      - assert (rtc sink_step (stack s) (set_sink (snd (poll_ready (sink (stack s)))) (stack s))) as Hr.
        { unfold poll_ready. destruct (packet_container (sink (stack s))).
          - apply rtc_once. apply (sink_flush (stack s)).
          - destruct (stack s). apply rtc_refl. }
        destruct (poll_ready (sink (stack s))) as [[[[]|e]|] k] eqn:Ek; cbn [snd] in Hr; [|done..].
        destruct (start_send p k) as [[[]|e] k'] eqn:Es; cbn [stack].
        + apply rtc_once. by apply (sink_send _ k).
        + assert (k' = k) as ->; [|done]. unfold start_send in Es.
          destruct p; [done|]. destruct (new_checked _); by injection Es.
      - assert (rtc sink_step (stack s) (set_sink (snd (poll_flush (sink (stack s)))) (stack s))) as Hr
          by apply rtc_once, (sink_flush (stack s)).
        by destruct (poll_flush (sink (stack s))) as [[[[]|e]|] k]. }
    destruct i as [|[[p|e]|]|]; cbn [fwd_step]; [..|done];
      by destruct (forwarder s).
  - apply rtc_once. by apply (udp_take x w c (stack s)).
  - apply rtc_once. by apply (tcp_take x w c (stack s)).
  - apply rtc_once. by apply (udp_close (stack s)).
  - apply rtc_once. by apply (tcp_close (stack s)).
Qed.

(** The packet the forwarder has read and not yet handed to the sink. *)
Definition in_hand (s : TunToStack) : list Packet :=
  match forwarder s with AwaitReady p => [p] | _ => [] end.

(** What the forwarder lost by its last flush, the one it ended with. *)
Definition last_lost (s : TunToStack) : nat := match forwarder s with Ended => 1 | _ => 0 end.

(** Between two packets the sink holds nothing; every packet read has been offered
    to it, is in hand, or is one it refused, with which the loop ended; and what a
    queue of [n] lost is what it held and, if the loop has ended, one more. *)
Record fwd_ok (n m : nat) (lu lt : list Packet) (s : TunToStack) : Prop := {
  f_sink : sink_ok lu lt (stack s);
  f_cap : capacity (udp_inbound (sink (stack s))) = n
          ∧ capacity (tcp_inbound (sink (stack s))) = m;
  f_lost : (length lu ≤ n + last_lost s)%nat ∧ (length lt ≤ m + last_lost s)%nat;
  f_idle : forwarder s = AwaitPacket ∨ in_hand s ≠ [] → packet_container (sink (stack s)) = None;
  f_read : ∃ refused, packets_read s = offered (stack s) ++ in_hand s ++ refused
             ∧ (refused = []
                ∨ forwarder s = Ended ∧ ∃ p, refused = [p] ∧ p ≠ [] ∧ new_checked p = None)
}.

Lemma start_send_result p k :
  match start_send p k with
  | (Ok _, _) => p = [] ∨ is_Some (new_checked p)
  | (Err e, k') => k' = k ∧ p ≠ [] ∧ new_checked p = None
                   ∧ e = mkIoError InvalidData "wire error"
  end.
Proof.
  unfold start_send. destruct p as [|b p]; [by left|].
  destruct (new_checked (b :: p)); [right; by eexists|done].
Qed.

Lemma held_length f k : (length (held f k) ≤ 1)%nat.
Proof. unfold held. destruct (packet_container k) as [[p pr]|]; [destruct (f p)|]; cbn; lia. Qed.

Lemma fwd_poll_ok n m lu lt s :
  fwd_ok n m lu lt s → ∃ lu' lt', fwd_ok n m lu' lt' (fwd_poll_send s).
Proof.
  intros Hok. destruct (Hok) as [Hk [Hn Hm] Hl Hc (refused & Hr & Hd)]. unfold fwd_poll_send.
  unfold last_lost in Hl. destruct (forwarder s) as [|p| |] eqn:Ef; [eauto| | |eauto].
  - assert (packet_container (sink (stack s)) = None) as Hnone
      by (apply Hc; right; unfold in_hand; by rewrite Ef).
    destruct Hd as [->|[? _]]; [|congruence]. rewrite app_nil_r in Hr.
    unfold in_hand in Hr. rewrite Ef in Hr.
    unfold poll_ready. rewrite Hnone. pose proof (start_send_result p (sink (stack s))) as Hp.
    exists lu, lt. destruct (start_send p (sink (stack s))) as [[[]|e] k] eqn:Es.
    + destruct (stack s) as [sk off u t]. cbn [sink offered udp_got tcp_got] in *.
      destruct (start_send_ok _ _ _ _ _ _ _ _ Hnone Es Hk) as (Hk' & Eu & Et).
      split; cbn; rewrite ?Eu, ?Et; [exact Hk'|done|exact Hl|by intros [?|[]]|].
      exists []. rewrite Hr, !app_nil_r. auto.
    + destruct Hp as (-> & Hne & Hbad & _). destruct s as [fw r [sk off u t]].
      split; cbn in *; [exact Hk|done|lia|by intros [?|[]]|].
      exists [p]. split; [done|]. right. split; [done|]. by exists p.
  - destruct Hd as [->|[? _]]; [|congruence].
    unfold in_hand in Hr. rewrite Ef in Hr.
    destruct (stack s) as [sk off u t]. cbn [sink offered udp_got tcp_got] in *.
    pose proof (poll_flush_ok _ _ sk off u t Hk) as Hf.
    destruct (poll_flush sk) as [r k].
    destruct Hf as (Eu & Et & [(-> & Hpc & Hk')|[[-> ->]|(-> & Hpc & Hk')]]).
    + exists lu, lt. split; cbn; rewrite ?Eu, ?Et; [exact Hk'|done|exact Hl|done|].
      exists []. auto.
    + exists lu, lt. split; cbn; [exact Hk|done|exact Hl|by intros [?|[]]|]. exists []. auto.
    + eexists _, _. split; cbn; rewrite ?Eu, ?Et; [exact Hk'|done| |by intros [?|[]]|].
      * rewrite !length_app. pose proof (held_length goes_to_udp sk).
        pose proof (held_length goes_to_tcp sk). lia.
      * exists []. auto.
Qed.

Lemma fwd_step_ok n m lu lt s s' :
  tun_to_stack_step s s' → fwd_ok n m lu lt s → ∃ lu' lt', fwd_ok n m lu' lt' s'.
Proof.
  intros Hs Hok. destruct Hs as [i s|x w c s E|x w c s E|s|s].
  1: { destruct (Hok) as [Hk Hcap Hl Hc (refused & Hr & Hd)].
    destruct i as [|[[p|e]|]|]; cbn [fwd_step]; [| | | |by eapply fwd_poll_ok];
      unfold last_lost in Hl; destruct (forwarder s) eqn:Ef; eauto;
      (destruct Hd as [->|[? _]]; [|congruence]);
      unfold in_hand in Hr; rewrite Ef in Hr;
      (exists lu, lt; split; cbn; [exact Hk|exact Hcap|lia|..]);
      try (by intros [?|[]]); try (intros _; apply Hc; by left);
      exists []; rewrite ?Hr; cbn; rewrite ?app_nil_r; auto. }
  all: destruct Hok as [[K1 K2 K3] [Hn Hm] [Hlu Hlt] Hc Hr].
  - exists lu, lt. destruct (queue_recv _ _ _ _ _ _ _ _ E K1) as [K1' _].
    split; [by split| |done..]. split; [|done]. cbn. rewrite <-Hn.
    unfold chan_recv in E. destruct (items _); [done|]. by injection E as _ _ <-.
  - exists lu, lt. destruct (queue_recv _ _ _ _ _ _ _ _ E K2) as [K2' _].
    split; [by split| |done..]. split; [done|]. cbn. rewrite <-Hm.
    unfold chan_recv in E. destruct (items _); [done|]. by injection E as _ _ <-.
  - eexists _, lt. split; [split; [by apply queue_close|done..]|done| |done..].
    split; [|done]. eapply queue_closed_length; [done|exact Hlu|lia].
  - eexists lu, _. split; [split; [done|by apply queue_close|done]|done| |done..].
    split; [done|]. eapply queue_closed_length; [done|exact Hlt|lia].
Qed.

Lemma fwd_reach_ok n m s :
  rtc tun_to_stack_step (tun_to_stack_new n m) s → ∃ lu lt, fwd_ok n m lu lt s.
Proof.
  intros Hr. cut (∀ lu lt s0, fwd_ok n m lu lt s0 → rtc tun_to_stack_step s0 s →
    ∃ lu lt, fwd_ok n m lu lt s).
  { intros Hc. apply (Hc [] [] (tun_to_stack_new n m)); [|done].
    split; [apply (sink_start_ok n m)|done|cbn; lia|done|exists []; auto]. }
  intros lu lt s0 H0 H1. revert lu lt H0. induction H1 as [|s0 s1 s2 Hs _ IH]; [eauto|].
  intros lu lt H0. destruct (fwd_step_ok _ _ _ _ _ _ Hs H0) as (lu' & lt' & H1). eauto.
Qed.

Lemma closed_flush_ends n m lu lt s item proto :
  fwd_ok n m lu lt s → forwarder s = AwaitFlush →
  packet_container (sink (stack s)) = Some (item, proto) →
  rx_open (inbound proto (sink (stack s))) = false →
  forwarder (fwd_step PollSend s) = Ended.
Proof.
  intros [[_ _ Hk] _ _ _ _] Ef Ec Ho. destruct (Hk _ _ Ec) as (_ & _ & _ & _ & Hno).
  cbn [fwd_step]. unfold fwd_poll_send. rewrite Ef. unfold poll_flush. rewrite Ec.
  destruct proto as [| | | |k]; [..|by destruct (Hno k)]; cbn [inbound] in Ho;
    unfold reserve_once, reserve_poll; by rewrite Ho.
Qed.
End to_stack_props.

(** C18. From the tun device to the two halves of the stack: whenever the receivers
    take packets, wherever the token is cancelled and whenever a receiver is
    dropped, the UDP half gets UDP packets read from the device and the TCP half
    TCP and ICMP ones, in the order they were read. As long as the receiver of a
    half lives nothing of it is lost: what is not yet received is in the queue,
    held by the sink, or in the hand of the forwarder. Once it is dropped, what is
    lost is what its queue held, of [n] or [m] places, and at most one packet more:
    the first one offered to it makes the flush fail and ends the forwarder. *)
Theorem tun_to_stack_delivers `{SmolWire} n m s :
  rtc tun_to_stack_step (tun_to_stack_new n m) s →
  (∃ udp_lost tcp_lost,
     udp_got (stack s) ++ udp_lost ++ items (udp_inbound (sink (stack s)))
       ++ held goes_to_udp (sink (stack s)) ++ List.filter goes_to_udp (in_hand s)
     = List.filter goes_to_udp (packets_read s)
     ∧ tcp_got (stack s) ++ tcp_lost ++ items (tcp_inbound (sink (stack s)))
       ++ held goes_to_tcp (sink (stack s)) ++ List.filter goes_to_tcp (in_hand s)
     = List.filter goes_to_tcp (packets_read s)
     ∧ (rx_open (udp_inbound (sink (stack s))) = true → udp_lost = [])
     ∧ (rx_open (tcp_inbound (sink (stack s))) = true → tcp_lost = [])
     ∧ (length udp_lost ≤ n + last_lost s)%nat ∧ (length tcp_lost ≤ m + last_lost s)%nat)
  ∧ ∀ item proto, forwarder s = AwaitFlush →
      packet_container (sink (stack s)) = Some (item, proto) →
      rx_open (inbound proto (sink (stack s))) = false →
      forwarder (fwd_step PollSend s) = Ended.
Proof.
  intros Hr. destruct (fwd_reach_ok _ _ _ Hr) as (lu & lt & Hok).
  split; [|by eauto using closed_flush_ends].
  destruct Hok as [[[H1 _ U1 _ _] [H2 _ T1 _ _] _] _ [Lu Lt] _ (refused & -> & Hd)].
  assert (List.filter goes_to_udp refused = [] ∧ List.filter goes_to_tcp refused = [])
    as [Hu Ht].
  { destruct Hd as [->|(_ & p & -> & Hne & Hm)]; [done|].
    unfold goes_to_udp, goes_to_tcp. cbn. destruct p; [done|]. by rewrite Hm. }
  exists lu, lt. rewrite !List.filter_app, Hu, Ht, !app_nil_r, <-H1, <-H2.
  split_and!; [by rewrite <-!app_assoc..|done|done|done|done].
Qed.

(** A forwarder that has ended stays so, and reads and offers nothing more. *)
Lemma ended_forever `{SmolWire} s s' :
  forwarder s = Ended → rtc tun_to_stack_step s s' →
  forwarder s' = Ended ∧ packets_read s' = packets_read s ∧ offered (stack s') = offered (stack s).
Proof.
  intros He Hr. revert He. induction Hr as [s|s s1 s2 Hs _ IH]; [done|]. intros He.
  assert (forwarder s1 = Ended ∧ packets_read s1 = packets_read s
          ∧ offered (stack s1) = offered (stack s)) as (E1 & E2 & E3).
  { destruct Hs as [i s|x w c s _|x w c s _|s|s]; [|done..].
    destruct i as [|[[p|e]|]|]; cbn [fwd_step fwd_poll_send]; unfold fwd_poll_send; by rewrite He. }
  destruct (IH E1) as (F1 & F2 & F3). split_and!; congruence.
Qed.

(** One packet of the device that does not parse as IP stops the way to the
    stack for good: [start_send] refuses it, the forwarder takes that for an error
    of the sink and ends, and whatever the device delivers afterwards is neither
    read nor offered to the stack, while the endpoint goes on without it. *)
Theorem malformed_packet_ends_forwarding `{SmolWire} n m s bad s' :
  rtc tun_to_stack_step (tun_to_stack_new n m) s →
  forwarder s = AwaitPacket → bad ≠ [] → new_checked bad = None →
  rtc tun_to_stack_step (fwd_step PollSend (fwd_step (FromTun (Some (Ok bad))) s)) s' →
  forwarder s' = Ended ∧ packets_read s' = packets_read s ++ [bad]
  ∧ offered (stack s') = offered (stack s).
Proof.
  intros Hr Hf Hne Hm Hr'.
  destruct (fwd_reach_ok _ _ _ Hr) as (lu & lt & [_ _ _ Hc _]). specialize (Hc (or_introl Hf)).
  assert (fwd_step PollSend (fwd_step (FromTun (Some (Ok bad))) s)
          = mkTunToStack Ended (packets_read s ++ [bad])
              (set_sink (sink (stack s)) (stack s))) as E.
  { cbn [fwd_step]. rewrite Hf. unfold fwd_poll_send. cbn [forwarder stack].
    unfold poll_ready. rewrite Hc. by rewrite start_send_malformed. }
  rewrite E in Hr'. by apply ended_forever in Hr'.
Qed.

(** [accept_loop] of the tun endpoint returns exactly when the signal to shut
    down has come and its four tasks have ended; the three that look at the token
    at every turn have ended once they are polled after the cancellation, but a
    forwarder that is still handing a packet to the stack does not look at it: for
    as long as the queue of that packet is full it stays, and so does the
    endpoint. *)
Theorem tun_shutdown `{SmolWire} {T D} (device_send : Packet → D → io_result unit * D)
    dev (acceptor : list (Turn (option T))) (to_tun : list (Turn (option (io_result Packet))))
    (udp_ended : option unit) s :
  let tasks fwd := [fst (forward_packets_from_stack_to_tun device_send to_tun dev);
                    match forwarder fwd with Ended => Some tt | _ => None end;
                    fst (accept_tcp_connections acceptor); udp_ended] in
  Exists (λ t, signal t = true) to_tun → Exists (λ t, signal t = true) acceptor →
  udp_ended = Some tt →
  (forwarder s = AwaitPacket →
     tun_accept_loop true (tasks (fwd_step TokenCancelled s)) = Some (Ok tt))
  ∧ (∀ item, forwarder s = AwaitFlush → packet_container (sink (stack s)) = Some (item, Udp) →
     rx_open (udp_inbound (sink (stack s))) = true → has_room (udp_inbound (sink (stack s))) = false →
     tun_accept_loop true (tasks (fwd_step TokenCancelled s)) = None
     ∧ tun_accept_loop true (tasks (fwd_step PollSend s)) = None).
Proof.
  intros tasks Hd Ha ->.
  destruct (biased_loop_ends tt (stack_to_tun_body device_send) to_tun dev Hd) as [[] Ed].
  destruct (biased_loop_ends tt accept_tcp_body acceptor [] Ha) as [[] Ea].
  assert (∀ fwd, tun_accept_loop true (tasks fwd)
                 = match forwarder fwd with Ended => Some (Ok tt) | _ => None end) as Ht.
  { intros fwd. unfold tasks, tun_accept_loop, forward_packets_from_stack_to_tun,
      accept_tcp_connections. cbn [fst]. rewrite Ed, Ea. cbn. by destruct (forwarder fwd). }
  split.
  - intros Hf. rewrite Ht. cbn [fwd_step]. by rewrite Hf.
  - intros item Hf Hc Ho Hroom. rewrite !Ht. cbn [fwd_step]. rewrite Hf. split; [by rewrite Hf|].
    unfold fwd_poll_send. rewrite Hf. unfold poll_flush. rewrite Hc.
    unfold reserve_once, reserve_poll. rewrite Ho, Hroom. done.
Qed.

(** ** Runs *)

(** A header that is enough to tell the protocols apart. *)
#[local] Instance demo_wire : SmolWire := {
  version_of_packet b :=
    match b with Byte.x45 :: _ => Some Ipv4 | _ => None end;
  ipv4_checked b := Nat.leb 2 (length b);
  ipv6_checked _ := false;
  ipv4_header_len _ := 2%nat;
  ipv4_src _ := v4_unspecified;
  ipv4_dst _ := v4_unspecified;
  ipv4_next_header b :=
    match b with _ :: Byte.x06 :: _ => Tcp | _ :: Byte.x11 :: _ => Udp | _ => OtherProtocol 0 end;
  ipv4_payload b := drop 2 b;
  ipv6_src _ := v6_unspecified;
  ipv6_dst _ := v6_unspecified;
  ipv6_next_header _ := OtherProtocol 0;
  ipv6_payload b := b;
  tcp_checked _ := None;
  udp_checked _ := None
}.

Definition demo_udp : Packet := [Byte.x45; Byte.x11; Byte.x01].
Definition demo_tcp : Packet := [Byte.x45; Byte.x06; Byte.x02].

(** A TCP packet goes through, a UDP packet waits in the queue of one, and a second
    one is held by the sink. *)
Definition demo_inputs : list FwdInput :=
  [FromTun (Some (Ok demo_tcp)); PollSend; PollSend;
   FromTun (Some (Ok demo_udp)); PollSend; PollSend;
   FromTun (Some (Ok demo_udp)); PollSend; PollSend].

Definition demo_run (inputs : list FwdInput) : TunToStack :=
  foldl (flip fwd_step) (tun_to_stack_new 1 1) inputs.

Lemma fwd_run inputs s : rtc tun_to_stack_step s (foldl (flip fwd_step) s inputs).
Proof.
  revert s. induction inputs as [|i l IH]; intros s; cbn; [apply rtc_refl|].
  eapply rtc_l; [apply step_fwd|apply IH].
Qed.

(** The UDP half ends then: the packet queued is lost, and so is the one held, with
    which the forwarder ends. *)
Definition demo_closed : TunToStack :=
  let s := demo_run demo_inputs in
  mkTunToStack (forwarder s) (packets_read s)
    (set_sink (mkSink (chan_close (udp_inbound (sink (stack s)))) (tcp_inbound (sink (stack s)))
      (packet_container (sink (stack s)))) (stack s)).

Lemma tun_to_stack_delivers_witness :
  held goes_to_udp (sink (stack demo_closed)) = [demo_udp]
  ∧ (∃ lost, udp_got (stack demo_closed) ++ lost
       ++ items (udp_inbound (sink (stack demo_closed)))
       ++ held goes_to_udp (sink (stack demo_closed))
       ++ List.filter goes_to_udp (in_hand demo_closed)
     = List.filter goes_to_udp (packets_read demo_closed))
  ∧ forwarder (fwd_step PollSend demo_closed) = Ended.
Proof.
  split; [vm_compute; reflexivity|].
  assert (rtc tun_to_stack_step (tun_to_stack_new 1 1) demo_closed) as Hr
    by (eapply rtc_r; [apply (fwd_run demo_inputs)|apply step_udp_close]).
  destruct (tun_to_stack_delivers 1 1 demo_closed Hr) as [(lost & _ & H & _) He].
  split; [by exists lost|].
  apply (He demo_udp Udp); vm_compute; reflexivity.
Defined.

(** After a good packet, a truncated one; the good one that follows is lost. *)
Lemma malformed_packet_ends_forwarding_witness :
  let s := demo_run [FromTun (Some (Ok demo_tcp)); PollSend; PollSend] in
  let s' := foldl (flip fwd_step) s
              [FromTun (Some (Ok [Byte.x45])); PollSend; FromTun (Some (Ok demo_udp)); PollSend] in
  forwarder s' = Ended ∧ packets_read s' = [demo_tcp; [Byte.x45]]
  ∧ offered (stack s') = [demo_tcp].
Proof.
  intros s s'.
  apply (malformed_packet_ends_forwarding 1 1 s [Byte.x45] s');
    [apply fwd_run|vm_compute; reflexivity|done|vm_compute; reflexivity|].
  exact (fwd_run [FromTun (Some (Ok demo_udp)); PollSend]
           (fwd_step PollSend (fwd_step (FromTun (Some (Ok [Byte.x45]))) s))).
Defined.

Lemma tun_shutdown_witness :
  let stop A : list (Turn A) := [mkTurn true None true] in
  let send (p : Packet) (d : unit) : io_result unit * unit := (Ok tt, d) in
  let s := demo_run demo_inputs in
  tun_accept_loop true
    [fst (forward_packets_from_stack_to_tun send (stop _) tt);
     match forwarder (fwd_step TokenCancelled s) with Ended => Some tt | _ => None end;
     fst (accept_tcp_connections (stop (option unit))); Some tt] = None.
Proof.
  intros stop send s.
  refine (proj1 (proj2 (tun_shutdown send tt (stop (option unit)) (stop _) (Some tt) s _ _ eq_refl) demo_udp _ _ _ _));
    [by left|by left|vm_compute; reflexivity..].
Defined.
