(* ===== verification/ClientConfig.v ===== *)
(** The configuration of the client and what is made of it
    (crates/ombrac-client/src/config, and [OmbracClient::build] and
    [quic_client_from_config] of service.rs): defaults, then the JSON file, then
    the command line; then the settings of the QUIC client. *)

From S2P Require Import Prelude Std Parse.

#[local] Open Scope Z_scope.

(** ** Settings *)

Inductive Congestion := Bbr | Cubic | NewReno.
Inductive TlsMode := Tls | MTls | Insecure.

(** Strings and paths are byte strings. *)
Record TunConfig := mkTunConfig {
  tun_fd : option Z;
  tun_ipv4 : option Bytes;
  tun_ipv6 : option Bytes;
  tun_mtu : option Z;
  fake_dns : option Bytes;
  disable_udp_443 : option bool
}.

(** [Default for TunConfig]. *)
Definition tun_default : TunConfig :=
  mkTunConfig None None None (Some 1500) (Some (bytes_of "198.18.0.0/16")) (Some false).

Record EndpointConfig := mkEndpoint {
  http : option SocketAddr;
  socks : option SocketAddr;
  tun : option TunConfig
}.

Record TransportConfig := mkTransport {
  bind : option SocketAddr;
  server_name : option Bytes;
  tls_mode : option TlsMode;
  ca_cert : option Bytes;
  client_cert : option Bytes;
  client_key : option Bytes;
  zero_rtt : option bool;
  alpn_protocols : option (list Bytes);
  congestion : option Congestion;
  cwnd_init : option Z;
  idle_timeout : option Z;
  keep_alive : option Z;
  max_streams : option Z
}.

Record LoggingConfig := mkLogging { log_level : option Bytes }.

(** [Default for EndpointConfig], derived. *)
Definition endpoint_default : EndpointConfig := mkEndpoint None None None.

(** [Default for TransportConfig]. *)
Definition transport_default : TransportConfig :=
  mkTransport None None (Some Tls) None None None (Some false) (Some [bytes_of "h3"])
    (Some Bbr) None (Some 30000) (Some 8000) (Some 100).

(** [Default for LoggingConfig]. *)
Definition logging_default : LoggingConfig := mkLogging (Some (bytes_of "INFO")).

Record ServiceConfig := mkService {
  secret : Bytes;
  server : Bytes;
  auth_option : option Bytes;
  endpoint : EndpointConfig;
  transport : TransportConfig;
  logging : LoggingConfig
}.

Record JsonConfig := mkJson {
  j_secret : option Bytes;
  j_server : option Bytes;
  j_auth_option : option Bytes;
  j_endpoint : option EndpointConfig;
  j_transport : option TransportConfig;
  j_logging : option LoggingConfig
}.

(** The command line, as [into_endpoint_config] and its like convert it. *)
Record CliConfig := mkCli {
  c_secret : option Bytes;
  c_server : option Bytes;
  c_auth_option : option Bytes;
  c_endpoint : EndpointConfig;
  c_transport : TransportConfig;
  c_logging : LoggingConfig
}.

(** ** The builder *)

Record ConfigBuilder := mkBuilder {
  b_secret : option Bytes;
  b_server : option Bytes;
  b_auth_option : option Bytes;
  b_endpoint : EndpointConfig;
  b_transport : TransportConfig;
  b_logging : LoggingConfig
}.

Definition builder_new : ConfigBuilder :=
  mkBuilder None None None endpoint_default transport_default logging_default.

(** [a.or(b)]. *)
#[local] Abbreviation or := opt_or.

Definition merge_tun (base over : option TunConfig) : option TunConfig :=
  match base, over with
  | None, None => None
  | Some base, None => Some base
  | None, Some over => Some over
  | Some base, Some over =>
    Some (mkTunConfig (or (tun_fd over) (tun_fd base)) (or (tun_ipv4 over) (tun_ipv4 base))
      (or (tun_ipv6 over) (tun_ipv6 base)) (or (tun_mtu over) (tun_mtu base))
      (or (fake_dns over) (fake_dns base))
      (or (disable_udp_443 over) (disable_udp_443 base)))
  end.

Definition merge_endpoint (base over : EndpointConfig) : EndpointConfig :=
  mkEndpoint (or (http over) (http base)) (or (socks over) (socks base))
    (merge_tun (tun base) (tun over)).

Definition merge_transport (base over : TransportConfig) : TransportConfig :=
  mkTransport (or (bind over) (bind base)) (or (server_name over) (server_name base))
    (or (tls_mode over) (tls_mode base)) (or (ca_cert over) (ca_cert base))
    (or (client_cert over) (client_cert base)) (or (client_key over) (client_key base))
    (or (zero_rtt over) (zero_rtt base)) (or (alpn_protocols over) (alpn_protocols base))
    (or (congestion over) (congestion base)) (or (cwnd_init over) (cwnd_init base))
    (or (idle_timeout over) (idle_timeout base)) (or (keep_alive over) (keep_alive base))
    (or (max_streams over) (max_streams base)).

Definition merge_logging (base over : LoggingConfig) : LoggingConfig :=
  mkLogging (or (log_level over) (log_level base)).

(** [if let Some(x) = new { self.field = Some(x) }]. *)
Definition set_if {A} (new old : option A) : option A :=
  match new with Some x => Some x | None => old end.

(** [ConfigBuilder::merge_json]. *)
Definition merge_json (self : ConfigBuilder) (j : JsonConfig) : ConfigBuilder :=
  mkBuilder (set_if (j_secret j) (b_secret self)) (set_if (j_server j) (b_server self))
    (set_if (j_auth_option j) (b_auth_option self))
    match j_endpoint j with
    | Some e => merge_endpoint (b_endpoint self) e | None => b_endpoint self end
    match j_transport j with
    | Some t => merge_transport (b_transport self) t | None => b_transport self end
    match j_logging j with
    | Some l => merge_logging (b_logging self) l | None => b_logging self end.

(** [ConfigBuilder::merge_cli]. *)
Definition merge_cli (self : ConfigBuilder) (c : CliConfig) : ConfigBuilder :=
  mkBuilder (set_if (c_secret c) (b_secret self)) (set_if (c_server c) (b_server self))
    (set_if (c_auth_option c) (b_auth_option self))
    (merge_endpoint (b_endpoint self) (c_endpoint c))
    (merge_transport (b_transport self) (c_transport c))
    (merge_logging (b_logging self) (c_logging c)).

(** [ConfigBuilder::build]. *)
Definition build (self : ConfigBuilder) : Result string ServiceConfig :=
  match b_secret self with
  | None => Err "missing required field: secret"%string
  | Some secret =>
    match b_server self with
    | None => Err "missing required field: server"%string
    | Some server =>
      Ok (mkService secret server (b_auth_option self) (b_endpoint self) (b_transport self)
           (b_logging self))
    end
  end.

(** [load], on the parsed file, if one was named, and command line. *)
Definition load (json : option JsonConfig) (cli : CliConfig) : Result string ServiceConfig :=
  let builder := match json with
                 | Some j => merge_json builder_new j
                 | None => builder_new
                 end in
  build (merge_cli builder cli).

(** [load_from_json], [load_from_file], on the parsed text. *)
Definition load_from_json (json : JsonConfig) : Result string ServiceConfig :=
  build (merge_json builder_new json).

(** ** The QUIC client *)

Record QuicTransportConfig := mkQuicTransport {
  q_max_idle_timeout : option Z;
  q_keep_alive : option Z;
  q_max_streams : option Z;
  q_congestion : option (Congestion * option Z)
}.

(** [quic::client::Config]. *)
Record QuicConfig := mkQuic {
  q_server_name : Bytes;
  q_server_addr : SocketAddr;
  q_bind_addr : SocketAddr;
  q_root_ca_path : option Bytes;
  q_client_cert_key_paths : option (Bytes * Bytes);
  q_skip_server_verification : bool;
  q_enable_zero_rtt : bool;
  q_alpn_protocols : list Bytes;
  q_transport_config : QuicTransportConfig
}.

(** The address a new [Config] binds. *)
Definition default_bind_addr (server_addr : SocketAddr) : SocketAddr :=
  match server_addr with
  | SockV4 _ => socket_addr_new (IpV4 v4_unspecified) 0
  | SockV6 _ => socket_addr_new (IpV6 v6_unspecified) 0
  end.

Section quic.
(** [tokio::net::lookup_host] on the server string, and the conversions of
    [quinn], which refuse what does not fit a variable-length integer. *)
Context (lookup_host : Bytes → io_result (list SocketAddr)).
Context (idle_ok streams_ok : Z → io_result unit).

(** The name to check the certificate against. *)
Definition tls_server_name (config : ServiceConfig) : io_result Bytes :=
  match server_name (transport config) with
  | Some value => Ok value
  | None =>
    match rsplit_once 58 (server config) with
    | Some (host, _) => Ok host
    | None => Err (mkIoError InvalidInput "invalid server address: ")
    end
  end.

(** The [match] on the TLS mode: the root, the client's pair, and whether the
    server is verified. *)
Definition tls_settings (t : TransportConfig)
    : io_result (option Bytes * option (Bytes * Bytes) * bool) :=
  match default Tls (tls_mode t) with
  | Tls => Ok (ca_cert t, None, false)
  | MTls =>
    ca ← ok_or (mkIoError InvalidInput "ca cert is required for mutual tls mode") (ca_cert t);
    cert ← ok_or (mkIoError InvalidInput "client cert is required for mutual tls mode")
             (client_cert t);
    key ← ok_or (mkIoError InvalidInput "client key is required for mutual tls mode")
            (client_key t);
    Ok (Some ca, Some (cert, key), false)
  | Insecure => Ok (None, None, true)
  end.

(** Checks a setting that was given. *)
Definition checked (ok : Z → io_result unit) (o : option Z) : io_result unit :=
  match o with Some z => ok z | None => Ok tt end.

(** [quic_client_from_config], up to the construction of the client. *)
Definition quic_client_from_config (config : ServiceConfig) : io_result QuicConfig :=
  let t := transport config in
  name ← tls_server_name config;
  addrs ← lookup_host (server config);
  match addrs with
  | [] => Err (mkIoError NotFound "failed to resolve server address: ")
  | server_addr :: _ =>
    tls ← tls_settings t;
    _ ← checked idle_ok (idle_timeout t);
    _ ← checked streams_ok (max_streams t);
    let '(root, keys, skip) := tls in
    Ok (mkQuic name server_addr (default_bind_addr server_addr) root keys skip
         (default false (zero_rtt t)) (default [] (alpn_protocols t))
         (mkQuicTransport (idle_timeout t) (keep_alive t) (max_streams t)
            match congestion t with
            | Some c => Some (c, cwnd_init t) | None => None end))
  end.
End quic.

(** The endpoints [OmbracClient::build] starts. *)
Inductive Endpoint := HttpEndpoint | SocksEndpoint | TunEndpoint.

Definition start_endpoints (e : EndpointConfig) : Result string (list Endpoint) :=
  let handles :=
    (if http e then [HttpEndpoint] else []) ++ (if socks e then [SocksEndpoint] else [])
    ++ match tun e with
       | Some t => if tun_ipv4 t then [TunEndpoint] else if tun_ipv6 t then [TunEndpoint]
                   else if tun_fd t then [TunEndpoint] else []
       | None => []
       end in
  match handles with
  | [] => Err "no endpoints were configured or enabled, the service has nothing to do."%string
  | _ => Ok handles
  end.

(** ** Properties *)

(** A field of a source that may be absent. *)
Definition given {A B} (o : option A) (f : A → option B) : option B :=
  match o with Some a => f a | None => None end.

Lemma opt_or_assoc {A} (a b c : option A) : opt_or a (opt_or b c) = opt_or (opt_or a b) c.
Proof. by destruct a. Qed.

Lemma set_if_or {A} (a b : option A) : set_if a b = opt_or a b.
Proof. by destruct a. Qed.

Lemma merge_transport_assoc a b c :
  merge_transport (merge_transport a b) c = merge_transport a (merge_transport b c).
Proof. unfold merge_transport; simpl. by rewrite !opt_or_assoc. Qed.

Lemma merge_tun_assoc a b c : merge_tun (merge_tun a b) c = merge_tun a (merge_tun b c).
Proof. destruct a, b, c; cbn; try done. by rewrite !opt_or_assoc. Qed.

Lemma merge_endpoint_assoc a b c :
  merge_endpoint (merge_endpoint a b) c = merge_endpoint a (merge_endpoint b c).
Proof. unfold merge_endpoint; simpl. by rewrite !opt_or_assoc, merge_tun_assoc. Qed.

(** A setting: how to read it from a transport configuration. *)
Inductive setting : ∀ A, (TransportConfig → option A) → Prop :=
  | s_bind : setting _ bind
  | s_server_name : setting _ server_name
  | s_tls_mode : setting _ tls_mode
  | s_ca_cert : setting _ ca_cert
  | s_client_cert : setting _ client_cert
  | s_client_key : setting _ client_key
  | s_zero_rtt : setting _ zero_rtt
  | s_alpn_protocols : setting _ alpn_protocols
  | s_congestion : setting _ congestion
  | s_cwnd_init : setting _ cwnd_init
  | s_idle_timeout : setting _ idle_timeout
  | s_keep_alive : setting _ keep_alive
  | s_max_streams : setting _ max_streams.

(** What [load] gives: it fails exactly when the secret or the server is in
    neither source, naming the secret first; otherwise the command line wins
    over the file and the file over the defaults, for the secret, the server and
    each transport setting separately. *)
Theorem load_precedence json cli :
  match load json cli with
  | Err e =>
    e = "missing required field: secret"%string
      ∧ opt_or (c_secret cli) (given json j_secret) = None
    ∨ e = "missing required field: server"%string
      ∧ is_Some (opt_or (c_secret cli) (given json j_secret))
      ∧ opt_or (c_server cli) (given json j_server) = None
  | Ok config =>
    Some (secret config) = opt_or (c_secret cli) (given json j_secret)
    ∧ Some (server config) = opt_or (c_server cli) (given json j_server)
    ∧ auth_option config = opt_or (c_auth_option cli) (given json j_auth_option)
    ∧ (∀ A (f : TransportConfig → option A), setting A f →
        f (transport config)
          = opt_or (f (c_transport cli))
              (opt_or (given (given json j_transport) f) (f transport_default)))
    ∧ http (endpoint config) = opt_or (http (c_endpoint cli)) (given (given json j_endpoint) http)
    ∧ socks (endpoint config) = opt_or (socks (c_endpoint cli)) (given (given json j_endpoint) socks)
    ∧ tun (endpoint config) = merge_tun (given (given json j_endpoint) tun) (tun (c_endpoint cli))
  end.
Proof.
  assert (∀ A (f : TransportConfig → option A) base over, setting A f →
    f (merge_transport base over) = opt_or (f over) (f base)) as Hf
    by (intros A f base over []; reflexivity).
  assert (∀ A (o : option A), opt_or o None = o) as Hn by (by intros A []).
  unfold load, build, merge_cli. cbn [b_secret b_server b_auth_option b_transport].
  rewrite !set_if_or.
  destruct json as [j|]; cbn [merge_json b_secret b_server b_auth_option b_transport
    b_endpoint builder_new given]; rewrite ?set_if_or, !Hn.
  - destruct (opt_or (c_secret cli) (j_secret j)); [|by left].
    destruct (opt_or (c_server cli) (j_server j)); [|right; eauto].
    cbn [secret server auth_option transport endpoint]. split_and!; [done..| | | |].
    + intros A f Hs. rewrite Hf by done. f_equal.
      destruct (j_transport j); [|done]. cbn. by rewrite Hf.
    + destruct (j_endpoint j); cbn; by rewrite ?Hn.
    + destruct (j_endpoint j); cbn; by rewrite ?Hn.
    + destruct (j_endpoint j) as [e|]; cbn; [by destruct (tun e)|done].
  - destruct (c_secret cli); [|by left]. destruct (c_server cli); [|right; eauto].
    cbn [secret server auth_option transport endpoint]. split_and!; try done.
    + intros A f Hs. by rewrite Hf.
    + cbn. by rewrite Hn.
    + cbn. by rewrite Hn.
Qed.

(** The settings that decide about certificates. *)
Lemma quic_client_tls_settings lookup_host idle_ok streams_ok config q :
  quic_client_from_config lookup_host idle_ok streams_ok config = Ok q →
  (q_skip_server_verification q = true ↔ tls_mode (transport config) = Some Insecure)
  ∧ (tls_mode (transport config) = Some MTls →
     ∃ ca cert key, q_root_ca_path q = Some ca ∧ q_client_cert_key_paths q = Some (cert, key)).
Proof.
  unfold quic_client_from_config.
  destruct (tls_server_name config) as [name|]; [cbn|done].
  destruct (lookup_host (server config)) as [[|a rest]|]; [done|cbn|done].
  destruct (tls_settings (transport config)) as [[[root keys] skip]|] eqn:Et; [cbn|done].
  destruct (checked idle_ok _); [cbn|done]. destruct (checked streams_ok _); [cbn|done].
  intros [= <-]. cbn [q_skip_server_verification q_root_ca_path q_client_cert_key_paths].
  unfold tls_settings in Et.
  destruct (tls_mode (transport config)) as [[| |]|]; cbn in Et.
  - by injection Et as <- <- <-.
  - destruct (ca_cert _), (client_cert _), (client_key _); try done. cbn in Et.
    injection Et as <- <- <-. split; [done|eauto 10].
  - by injection Et as <- <- <-.
  - by injection Et as <- <- <-.
Qed.

(** The authority is the configured one, unless the server is not verified. *)
Lemma quic_client_root lookup_host idle_ok streams_ok config q :
  quic_client_from_config lookup_host idle_ok streams_ok config = Ok q →
  q_skip_server_verification q = false →
  q_root_ca_path q = ca_cert (transport config).
Proof.
  unfold quic_client_from_config.
  destruct (tls_server_name config) as [name|]; [cbn|done].
  destruct (lookup_host (server config)) as [[|a rest]|]; [done|cbn|done].
  unfold tls_settings. destruct (default Tls (tls_mode (transport config))); cbn.
  - destruct (checked idle_ok _); [cbn|done]. destruct (checked streams_ok _); [cbn|done].
    by intros [= <-].
  - destruct (ca_cert _), (client_cert _), (client_key _); try done. cbn.
    destruct (checked idle_ok _); [cbn|done]. destruct (checked streams_ok _); [cbn|done].
    by intros [= <-].
  - destruct (checked idle_ok _); [cbn|done]. destruct (checked streams_ok _); [cbn|done].
    by intros [= <-].
Qed.

(** The client never stops verifying the server, nor drops the client
    certificate, unless the TLS mode says so: verification is off exactly in
    [insecure] mode, which no default selects; in mutual mode all three files are
    there; and the first address the lookup gives is the one used, with the
    name that was configured or the text before the last colon. *)
Theorem quic_client_tls lookup_host idle_ok streams_ok config q :
  quic_client_from_config lookup_host idle_ok streams_ok config = Ok q →
  (q_skip_server_verification q = true ↔ tls_mode (transport config) = Some Insecure)
  ∧ (tls_mode (transport config) = Some MTls →
     ∃ ca cert key, ca_cert (transport config) = Some ca
       ∧ client_cert (transport config) = Some cert
       ∧ client_key (transport config) = Some key
       ∧ q_root_ca_path q = Some ca ∧ q_client_cert_key_paths q = Some (cert, key))
  ∧ (tls_mode (transport config) = Some Tls ∨ tls_mode (transport config) = None →
     q_root_ca_path q = ca_cert (transport config))
  ∧ (∃ rest, lookup_host (server config) = Ok (q_server_addr q :: rest))
  ∧ match server_name (transport config) with
    | Some n => q_server_name q = n
    | None => ∃ b port, b2z b = 58 ∧ server config = q_server_name q ++ b :: port
    end.
Proof.
  unfold quic_client_from_config.
  destruct (tls_server_name config) as [name|] eqn:En; [cbn|done].
  destruct (lookup_host (server config)) as [[|a rest]|] eqn:El; [done|cbn|done].
  destruct (tls_settings (transport config)) as [[[root keys] skip]|] eqn:Et; [cbn|done].
  destruct (checked idle_ok _); [cbn|done]. destruct (checked streams_ok _); [cbn|done].
  intros [= <-]. cbn [q_skip_server_verification q_root_ca_path q_client_cert_key_paths
    q_server_addr q_server_name].
  assert (match server_name (transport config) with
    | Some n => name = n
    | None => ∃ b port, b2z b = 58 ∧ server config = name ++ b :: port
    end) as Hname.
  { unfold tls_server_name in En. destruct (server_name (transport config)); [by injection En|].
    destruct (rsplit_once 58 (server config)) as [[h p]|] eqn:Er; [|done].
    injection En as <-. destruct (rsplit_once_app _ _ _ _ Er) as (b & ? & ?). eauto. }
  unfold tls_settings in Et. destruct (transport config) as [? sn mode ca cc ck ? ? ? ? ? ? ?].
  cbn [tls_mode ca_cert client_cert client_key server_name] in *.
  destruct mode as [[| |]|]; cbn in Et.
  - injection Et as <- <- <-. split_and!; try done; eauto.
  - destruct ca as [ca|], cc as [cc|], ck as [ck|]; try done. cbn in Et.
    injection Et as <- <- <-. split_and!; try done; eauto 10; by intros [].
  - injection Et as <- <- <-. split_and!; try done; eauto; by intros [].
  - injection Et as <- <- <-. split_and!; try done; eauto.
Qed.

(** The pairs of a mutual configuration loaded from a file that leaves the
    timeouts to the defaults. *)
Definition demo_transport : TransportConfig :=
  mkTransport None None (Some MTls) (Some (bytes_of "ca.pem")) (Some (bytes_of "c.pem"))
    (Some (bytes_of "k.pem")) None None None None None None None.

Definition demo_service : ServiceConfig :=
  mkService (bytes_of "k") (bytes_of "a.example:443") None endpoint_default
    (merge_transport transport_default demo_transport) logging_default.

Lemma quic_client_tls_witness :
  let addr := SockV4 (mkSA4 v4_unspecified 443) in
  ∃ q, quic_client_from_config (λ _, Ok [addr]) (λ _, Ok tt) (λ _, Ok tt) demo_service = Ok q
    ∧ q_server_name q = bytes_of "a.example"
    ∧ (q_skip_server_verification q = true
       ↔ tls_mode (transport demo_service) = Some Insecure).
Proof.
  intros addr.
  exists (mkQuic (bytes_of "a.example") addr (default_bind_addr addr)
    (Some (bytes_of "ca.pem")) (Some (bytes_of "c.pem", bytes_of "k.pem")) false false
    [bytes_of "h3"]
    (mkQuicTransport (Some 30000) (Some 8000) (Some 100) (Some (Bbr, None)))).
  split; [vm_compute; reflexivity|]. split; [reflexivity|].
  apply (quic_client_tls (λ _, Ok [addr]) (λ _, Ok tt) (λ _, Ok tt) demo_service).
  vm_compute. reflexivity.
Defined.

(** The service is refused exactly when nothing would run: no HTTP or SOCKS
    address, and no tun section that names an address or a device. *)
Lemma start_endpoints_none e :
  is_ok (start_endpoints e) = false ↔
    http e = None ∧ socks e = None
    ∧ ∀ t, tun e = Some t → tun_ipv4 t = None ∧ tun_ipv6 t = None ∧ tun_fd t = None.
Proof.
  unfold start_endpoints.
  destruct e as [[h|] [s|] [[fd v4 v6 mtu fake d]|]]; cbn;
    try destruct v4; try destruct v6; try destruct fd; cbn;
    (split; [intros; try done|intros (? & ? & Ht); try done]).
  all: try (split_and!; [done..|]; intros t [= <-]; done).
  all: destruct (Ht _ eq_refl) as (? & ? & ?); done.
Qed.
