(* ===== verification/ServerConfig.v ===== *)
(** The configuration of the server and what is made of it
    (crates/ombrac-server/src/config, and [quic_server_from_config] and
    [shutdown_with_drain] of service.rs). *)

From S2P Require Import Prelude Std Parse Metrics.
From S2P Require ClientConfig.

#[local] Open Scope Z_scope.

(** The two crates declare the same two enumerations. *)
Abbreviation Congestion := ClientConfig.Congestion.
Abbreviation TlsMode := ClientConfig.TlsMode.

(** ** Settings *)

Record TransportConfig := mkTransport {
  tls_mode : option TlsMode;
  ca_cert : option Bytes;
  tls_cert : option Bytes;
  tls_key : option Bytes;
  zero_rtt : option bool;
  alpn_protocols : option (list Bytes);
  congestion : option Congestion;
  cwnd_init : option Z;
  idle_timeout : option Z;
  keep_alive : option Z;
  max_streams : option Z
}.

(** The getters, each with its default. *)
Definition get_tls_mode (t : TransportConfig) : TlsMode := default ClientConfig.Tls (tls_mode t).
Definition get_zero_rtt (t : TransportConfig) : bool := default false (zero_rtt t).
Definition get_alpn_protocols (t : TransportConfig) : list Bytes :=
  default [bytes_of "h3"] (alpn_protocols t).
Definition get_congestion (t : TransportConfig) : Congestion :=
  default ClientConfig.Bbr (congestion t).
Definition get_idle_timeout (t : TransportConfig) : Z := default 30000 (idle_timeout t).
Definition get_keep_alive (t : TransportConfig) : Z := default 8000 (keep_alive t).
Definition get_max_streams (t : TransportConfig) : Z := default 1000 (max_streams t).

Definition transport_default : TransportConfig :=
  mkTransport (Some ClientConfig.Tls) None None None (Some false) (Some [bytes_of "h3"])
    (Some ClientConfig.Bbr) None (Some 30000) (Some 8000) (Some 1000).

Record ConnectionConfig := mkConnection {
  max_connections : option Z;
  auth_timeout_secs : option Z;
  max_concurrent_streams : option Z;
  max_concurrent_datagrams : option Z
}.

Definition get_max_connections (c : ConnectionConfig) : Z := default 10000 (max_connections c).
Definition get_auth_timeout_secs (c : ConnectionConfig) : Z := default 10 (auth_timeout_secs c).
Definition get_max_concurrent_streams (c : ConnectionConfig) : Z :=
  default 4096 (max_concurrent_streams c).
Definition get_max_concurrent_datagrams (c : ConnectionConfig) : Z :=
  default 4096 (max_concurrent_datagrams c).

Definition connection_default : ConnectionConfig :=
  mkConnection (Some 10000) (Some 10) (Some 4096) (Some 4096).

Record LoggingConfig := mkLogging { log_level : option Bytes }.
Definition get_log_level (l : LoggingConfig) : Bytes := default (bytes_of "INFO") (log_level l).
Definition logging_default : LoggingConfig := mkLogging (Some (bytes_of "INFO")).

Record ServiceConfig := mkService {
  secret : Bytes;
  listen : SocketAddr;
  transport : TransportConfig;
  connection : ConnectionConfig;
  logging : LoggingConfig
}.

Record JsonConfig := mkJson {
  j_secret : option Bytes;
  j_listen : option SocketAddr;
  j_transport : option TransportConfig;
  j_connection : option ConnectionConfig;
  j_logging : option LoggingConfig
}.

Record CliConfig := mkCli {
  c_secret : option Bytes;
  c_listen : option SocketAddr;
  c_transport : TransportConfig;
  c_logging : LoggingConfig
}.

(** ** The builder *)

Record ConfigBuilder := mkBuilder {
  b_secret : option Bytes;
  b_listen : option SocketAddr;
  b_transport : TransportConfig;
  b_connection : ConnectionConfig;
  b_logging : LoggingConfig
}.

Definition builder_new : ConfigBuilder :=
  mkBuilder None None transport_default connection_default logging_default.

#[local] Abbreviation or := opt_or.

Definition merge_transport (base over : TransportConfig) : TransportConfig :=
  mkTransport (or (tls_mode over) (tls_mode base)) (or (ca_cert over) (ca_cert base))
    (or (tls_cert over) (tls_cert base)) (or (tls_key over) (tls_key base))
    (or (zero_rtt over) (zero_rtt base)) (or (alpn_protocols over) (alpn_protocols base))
    (or (congestion over) (congestion base)) (or (cwnd_init over) (cwnd_init base))
    (or (idle_timeout over) (idle_timeout base)) (or (keep_alive over) (keep_alive base))
    (or (max_streams over) (max_streams base)).

Definition merge_connection (base over : ConnectionConfig) : ConnectionConfig :=
  mkConnection (or (max_connections over) (max_connections base))
    (or (auth_timeout_secs over) (auth_timeout_secs base))
    (or (max_concurrent_streams over) (max_concurrent_streams base))
    (or (max_concurrent_datagrams over) (max_concurrent_datagrams base)).

Definition merge_logging (base over : LoggingConfig) : LoggingConfig :=
  mkLogging (or (log_level over) (log_level base)).

(** [ConfigBuilder::merge_json]. *)
Definition merge_json (self : ConfigBuilder) (j : JsonConfig) : ConfigBuilder :=
  mkBuilder (ClientConfig.set_if (j_secret j) (b_secret self))
    (ClientConfig.set_if (j_listen j) (b_listen self))
    match j_transport j with
    | Some t => merge_transport (b_transport self) t | None => b_transport self end
    match j_connection j with
    | Some c => merge_connection (b_connection self) c | None => b_connection self end
    match j_logging j with
    | Some l => merge_logging (b_logging self) l | None => b_logging self end.

(** [ConfigBuilder::merge_cli]: the connection limits have no arguments. *)
Definition merge_cli (self : ConfigBuilder) (c : CliConfig) : ConfigBuilder :=
  mkBuilder (ClientConfig.set_if (c_secret c) (b_secret self))
    (ClientConfig.set_if (c_listen c) (b_listen self))
    (merge_transport (b_transport self) (c_transport c))
    (b_connection self)
    (merge_logging (b_logging self) (c_logging c)).

(** [ConfigBuilder::build]. *)
Definition build (self : ConfigBuilder) : Result string ServiceConfig :=
  match b_secret self with
  | None => Err "missing required field: secret"%string
  | Some secret =>
    match b_listen self with
    | None => Err "missing required field: listen"%string
    | Some listen =>
      Ok (mkService secret listen (b_transport self) (b_connection self) (b_logging self))
    end
  end.

(** [load]. *)
Definition load (json : option JsonConfig) (cli : CliConfig) : Result string ServiceConfig :=
  let builder := match json with
                 | Some j => merge_json builder_new j
                 | None => builder_new
                 end in
  build (merge_cli builder cli).

(** [load_from_json], [load_from_file]. *)
Definition load_from_json (json : JsonConfig) : Result string ServiceConfig :=
  build (merge_json builder_new json).

(** ** The QUIC server *)

(** [quic::server::Config]. *)
Record QuicConfig := mkQuic {
  q_enable_zero_rtt : bool;
  q_enable_self_signed : bool;
  q_alpn_protocols : list Bytes;
  q_root_ca_path : option Bytes;
  q_tls_cert_key_paths : option (Bytes * Bytes);
  q_transport_config : ClientConfig.QuicTransportConfig
}.

(** [require_config!]. *)
Definition require {A} (name : string) (o : option A) : Result string A :=
  ok_or ("'" ++ name ++ "' is required but was not provided")%string o.

(** The [match] on the TLS mode: the pair, the root, and whether a certificate
    is made up. *)
Definition tls_settings (t : TransportConfig)
    : Result string (option (Bytes * Bytes) * option Bytes * bool) :=
  match get_tls_mode t with
  | ClientConfig.Tls =>
    cert ← require "transport.tls_cert" (tls_cert t);
    key ← require "transport.tls_key" (tls_key t);
    Ok (Some (cert, key), None, false)
  | ClientConfig.MTls =>
    cert ← require "transport.tls_cert for mTLS" (tls_cert t);
    key ← require "transport.tls_key for mTLS" (tls_key t);
    ca ← require "transport.ca_cert for mTLS" (ca_cert t);
    Ok (Some (cert, key), Some ca, false)
  | ClientConfig.Insecure => Ok (None, None, true)
  end.

(** [quic_server_from_config], up to the socket; [idle_ok] and [streams_ok] are
    the conversions of [quinn]. *)
Definition quic_server_from_config (idle_ok streams_ok : Z → Result string unit)
    (config : ServiceConfig) : Result string QuicConfig :=
  let t := transport config in
  tls ← tls_settings t;
  _ ← idle_ok (get_idle_timeout t);
  _ ← streams_ok (get_max_streams t);
  let '(keys, root, self_signed) := tls in
  Ok (mkQuic (get_zero_rtt t) self_signed (get_alpn_protocols t) root keys
       (ClientConfig.mkQuicTransport (Some (get_idle_timeout t)) (Some (get_keep_alive t))
          (Some (get_max_streams t)) (Some (get_congestion t, cwnd_init t)))).

(** ** Draining *)

(** The streams that are open by the counters, a saturating subtraction. *)
Definition active_streams (snap : Counters) : Z :=
  Z.max 0 (streams_opened snap - streams_closed snap).

(** Milliseconds between two ticks. *)
Definition DRAIN_INTERVAL : Z := 50.

Section drain.
(** The counters and the time, in milliseconds since the call, at the [i]th
    tick of the interval; the first tick is at once. *)
Context (snap : nat → Counters) (now : nat → Z) (drain_timeout : Z).

(** The loop of [shutdown_with_drain] from tick [i]. *)
Fixpoint drain_loop (fuel i : nat) : option bool :=
  match fuel with
  | O => None
  | S fuel =>
    if active_streams (snapshot (snap i)) =? 0 then Some true
    else if drain_timeout <=? now i then Some false
    else drain_loop fuel (S i)
  end.

(** [shutdown_with_drain], with fuel for the ticks up to the deadline. *)
Definition shutdown_with_drain : option bool :=
  drain_loop (S (Z.to_nat (drain_timeout / DRAIN_INTERVAL + 1))) 0.

Lemma drain_loop_spec fuel i r :
  drain_loop fuel i = Some r →
  ∃ n, (i ≤ n)%nat
    ∧ (∀ k, (i ≤ k < n)%nat → active_streams (snap k) ≠ 0 ∧ now k < drain_timeout)
    ∧ (if r then active_streams (snap n) = 0
       else active_streams (snap n) ≠ 0 ∧ drain_timeout ≤ now n).
Proof.
  revert i. induction fuel as [|fuel IH]; intros i; cbn [drain_loop]; [done|].
  assert (active_streams (snapshot (snap i)) = active_streams (snap i)) as -> by done.
  destruct (Z.eqb_spec (active_streams (snap i)) 0) as [E|E].
  { intros [= <-]. exists i. split_and!; [done|lia|done]. }
  destruct (Z.leb_spec drain_timeout (now i)).
  { intros [= <-]. exists i. split_and!; [done|lia|done|done]. }
  intros (n & Hn & Hk & Hr)%IH. exists n. split_and!; [lia| |done].
  intros k Hik. destruct (decide (k = i)) as [->|]; [done|]. apply Hk. lia.
Qed.

Lemma drain_loop_total fuel i :
  (∀ k, DRAIN_INTERVAL * Z.of_nat k ≤ now k) →
  drain_timeout ≤ DRAIN_INTERVAL * (Z.of_nat i + Z.of_nat fuel - 1) → (0 < fuel)%nat →
  is_Some (drain_loop fuel i).
Proof.
  intros Hnow. revert i. induction fuel as [|fuel IH]; intros i Hf Hp; [lia|].
  cbn [drain_loop]. destruct (_ =? 0); [done|].
  destruct (Z.leb_spec drain_timeout (now i)); [done|].
  apply IH; [lia|]. specialize (Hnow i). unfold DRAIN_INTERVAL in *. lia.
Qed.

(** Draining ends, within one interval of the deadline, whatever the streams
    do, and tells the truth: it returns true exactly when no stream was open at
    some tick before the deadline had been seen, and false exactly when at
    every tick up to the one that saw the deadline pass some stream was. *)
Theorem drain_terminates :
  0 ≤ drain_timeout → (∀ k, DRAIN_INTERVAL * Z.of_nat k ≤ now k) →
  ∃ r n, shutdown_with_drain = Some r
    ∧ (∀ k, (k < n)%nat → active_streams (snap k) ≠ 0 ∧ now k < drain_timeout)
    ∧ DRAIN_INTERVAL * Z.of_nat n < drain_timeout + DRAIN_INTERVAL
    ∧ (if r then active_streams (snap n) = 0
       else active_streams (snap n) ≠ 0 ∧ drain_timeout ≤ now n).
Proof.
  intros Ht Hnow. unfold shutdown_with_drain.
  destruct (drain_loop_total (S (Z.to_nat (drain_timeout / DRAIN_INTERVAL + 1))) 0 Hnow)
    as [r Hr]; [|lia|].
  { pose proof (Z.div_pos drain_timeout DRAIN_INTERVAL Ht eq_refl).
    unfold DRAIN_INTERVAL in *. pose proof (Z.mul_succ_div_gt drain_timeout 50). lia. }
  destruct (drain_loop_spec _ _ _ Hr) as (n & _ & Hk & Hn).
  exists r, n. split; [done|]. split; [intros k ?; apply Hk; lia|]. split; [|done].
  unfold DRAIN_INTERVAL in *. destruct n as [|n]; [lia|].
  destruct (Hk n) as [_ Hlt]; [lia|]. specialize (Hnow n). lia.
Qed.
End drain.

(** Two ticks with a stream open, then none. *)
Lemma drain_terminates_witness :
  let m := fetch_add StreamsOpened 1 metrics_new in
  let snap i := if Nat.ltb i 2 then m else fetch_add StreamsClosed 1 m in
  let now i := 50 * Z.of_nat i in
  shutdown_with_drain snap now 1000 = Some true
  ∧ ∃ r n, shutdown_with_drain snap now 1000 = Some r
      ∧ (∀ k, (k < n)%nat → active_streams (snap k) ≠ 0 ∧ now k < 1000).
Proof.
  intros m snap now. split; [vm_compute; reflexivity|].
  destruct (drain_terminates snap now 1000) as (r & n & H1 & H2 & _);
    [lia|intros k; unfold DRAIN_INTERVAL, now; lia|].
  exists r, n. split; [exact H1|exact H2].
Defined.

(** ** Properties of the configuration *)

Lemma quic_server_tls idle_ok streams_ok config q :
  tls_mode (transport config) ≠ None →
  quic_server_from_config idle_ok streams_ok config = Ok q →
  (q_enable_self_signed q = true ↔ tls_mode (transport config) = Some ClientConfig.Insecure)
  ∧ (q_enable_self_signed q = false →
     ∃ cert key, tls_cert (transport config) = Some cert
       ∧ tls_key (transport config) = Some key ∧ q_tls_cert_key_paths q = Some (cert, key))
  ∧ (is_Some (q_root_ca_path q) ↔ tls_mode (transport config) = Some ClientConfig.MTls).
Proof.
  intros Ht. unfold quic_server_from_config.
  destruct (tls_settings (transport config)) as [[[root keys] self]|] eqn:Et; [cbn|done].
  destruct (idle_ok _); [cbn|done]. destruct (streams_ok _); [cbn|done].
  intros [= <-]. cbn. unfold tls_settings, get_tls_mode in Et.
  destruct (transport config) as [[[| |]|] ca cert key ? ? ? ? ? ? ?]; cbn in *; [| | |done].
  - destruct cert, key; try done. cbn in Et. injection Et as <- <- <-.
    split_and!; [done|eauto|]. split; [by intros []|done].
  - destruct cert, key, ca; try done. cbn in Et. injection Et as <- <- <-.
    split_and!; [done|eauto|done].
  - injection Et as <- <- <-. split_and!; [done|done|]. split; [by intros []|done].
Qed.

(** What the server runs with, from the two sources to its QUIC settings: the
    command line wins over the file and the file over the defaults; the limits
    on connections come from the file alone; and a server starts only with a
    certificate and key, or in [insecure] mode with a self-signed one, and asks
    for client certificates exactly in mutual mode. *)
Theorem server_config_sound json cli idle_ok streams_ok config q :
  load json cli = Ok config →
  quic_server_from_config idle_ok streams_ok config = Ok q →
  tls_mode (transport config)
    = Some (default ClientConfig.Tls
        (opt_or (tls_mode (c_transport cli))
           (match json with Some j => match j_transport j with
              Some t => tls_mode t | None => None end | None => None end)))
  ∧ get_max_connections (connection config)
    = default 10000 (match json with Some j => match j_connection j with
              Some c => max_connections c | None => None end | None => None end)
  ∧ (q_enable_self_signed q = true ↔ tls_mode (transport config) = Some ClientConfig.Insecure)
  ∧ (q_enable_self_signed q = false →
     ∃ cert key, tls_cert (transport config) = Some cert
       ∧ tls_key (transport config) = Some key ∧ q_tls_cert_key_paths q = Some (cert, key))
  ∧ (is_Some (q_root_ca_path q) ↔ tls_mode (transport config) = Some ClientConfig.MTls).
Proof.
  intros Hl Hq.
  assert (tls_mode (transport config)
    = Some (default ClientConfig.Tls
        (opt_or (tls_mode (c_transport cli))
           (match json with Some j => match j_transport j with
              Some t => tls_mode t | None => None end | None => None end)))) as Hm.
  { unfold load, build in Hl. destruct (b_secret _); [|done]. destruct (b_listen _); [|done].
    injection Hl as <-. cbn [transport merge_cli b_transport merge_transport tls_mode].
    destruct (tls_mode (c_transport cli)); [done|]. cbn.
    destruct json as [j|]; [|done]. cbn. destruct (j_transport j) as [t|]; [|done].
    cbn. by destruct (tls_mode t). }
  split; [exact Hm|]. split.
  - unfold load, build in Hl. destruct (b_secret _); [|done]. destruct (b_listen _); [|done].
    injection Hl as <-. cbn [connection merge_cli b_connection].
    destruct json as [j|]; [|done]. cbn. destruct (j_connection j) as [c|]; [|done].
    cbn. unfold get_max_connections. cbn. by destruct (max_connections c).
  - apply (quic_server_tls idle_ok streams_ok); [by rewrite Hm|exact Hq].
Qed.

(** The limits from the file, the mode from the command line. *)
Lemma server_config_sound_witness :
  let json := mkJson (Some (bytes_of "k")) None
    (Some (mkTransport (Some ClientConfig.Insecure) None (Some (bytes_of "c.pem"))
       (Some (bytes_of "k.pem")) None None None None None None None))
    (Some (mkConnection (Some 5) None None None)) None in
  let cli := mkCli None (Some (SockV4 (mkSA4 v4_unspecified 443)))
    (mkTransport (Some ClientConfig.Tls) None None None None None None None None None None)
    (mkLogging None) in
  ∃ config q, load (Some json) cli = Ok config
    ∧ quic_server_from_config (λ _, Ok tt) (λ _, Ok tt) config = Ok q
    ∧ tls_mode (transport config) = Some ClientConfig.Tls
    ∧ get_max_connections (connection config) = 5.
Proof.
  intros json cli.
  set (config := mkService (bytes_of "k") (SockV4 (mkSA4 v4_unspecified 443))
    (mkTransport (Some ClientConfig.Tls) None (Some (bytes_of "c.pem"))
       (Some (bytes_of "k.pem")) (Some false) (Some [bytes_of "h3"]) (Some ClientConfig.Bbr)
       None (Some 30000) (Some 8000) (Some 1000))
    (mkConnection (Some 5) (Some 10) (Some 4096) (Some 4096)) logging_default).
  set (q := mkQuic false false [bytes_of "h3"] None (Some (bytes_of "c.pem", bytes_of "k.pem"))
    (ClientConfig.mkQuicTransport (Some 30000) (Some 8000) (Some 1000)
       (Some (ClientConfig.Bbr, None)))).
  assert (load (Some json) cli = Ok config) as Hl by (vm_compute; reflexivity).
  assert (quic_server_from_config (λ _, Ok tt) (λ _, Ok tt) config = Ok q) as Hq
    by (vm_compute; reflexivity).
  exists config, q. split; [exact Hl|]. split; [exact Hq|].
  destruct (server_config_sound (Some json) cli (λ _, Ok tt) (λ _, Ok tt) config q Hl Hq)
    as (H1 & H2 & _).
  split; [exact H1|exact H2].
Defined.
