(* ===== verification/Quic.v ===== *)
(** The wrapper around the QUIC library (crates/ombrac-transport/src/quic): the
    names of the congestion controllers, the errors it reports, and the TLS
    configurations it builds. *)

From S2P Require Import Prelude Std Parse.
From S2P Require ClientConfig ServerConfig ClientConnection.

#[local] Open Scope Z_scope.

(** ** Congestion controllers *)

(** [str::to_lowercase] on ASCII text. *)
Definition to_lower (b : byte) : byte :=
  if (65 <=? b2z b) && (b2z b <=? 90) then z2b (b2z b + 32) else b.

(** [FromStr for Congestion]. *)
Definition congestion_from_str (value : Bytes) : option ClientConfig.Congestion :=
  let v := map to_lower value in
  if decide (v = bytes_of "bbr") then Some ClientConfig.Bbr
  else if decide (v = bytes_of "cubic") then Some ClientConfig.Cubic
  else if decide (v = bytes_of "newreno") then Some ClientConfig.NewReno
  else None.

(** ** Errors *)

(** [quinn::ConnectionError] and [quinn::SendDatagramError], as far as the code
    tells their cases apart. *)
Inductive QuinnConnectionError :=
  | LocallyClosed | ConnectionClosed | ApplicationClosed | Reset | TimedOutError
  | OtherConnectionError.

Inductive QuinnSendDatagramError := ConnectionLost (e : QuinnConnectionError) | OtherSendError.

(** [ConnectionError]. *)
Inductive ConnectionError :=
  | QuinnConnection (e : QuinnConnectionError)
  | QuinnSendDatagram (e : QuinnSendDatagramError).

(** [From<ConnectionError> for io::Error], the kind. *)
Definition connection_error_kind (e : ConnectionError) : ErrorKind :=
  match e with
  | QuinnConnection error =>
    match error with
    | LocallyClosed | ConnectionClosed | ApplicationClosed | Reset => ConnectionReset
    | TimedOutError => TimedOut
    | OtherConnectionError => OtherKind
    end
  | QuinnSendDatagram error =>
    match error with
    | ConnectionLost _ => ConnectionReset
    | OtherSendError => OtherKind
    end
  end.

Definition connection_error_to_io (e : ConnectionError) (text : string) : IoError :=
  mkIoError (connection_error_kind e) text.

(** ** TLS *)

(** The certificates of a file, its key, and a generated pair. *)
Section tls.
Context {Cert Key : Type}.
Context (load_certificates : Bytes → io_result (list Cert)).
Context (load_private_key : Bytes → io_result Key).
Context (generate_self_signed : io_result (list Cert * Key)).

(** The roots of a client: those of a file, or the well-known ones. *)
Inductive Roots := FileRoots (certs : list Cert) | WebpkiRoots.

Record ClientTls := mkClientTls {
  ct_roots : Roots;
  ct_auth : option (list Cert * Key);
  ct_null_verifier : bool;
  ct_early_data : bool;
  ct_alpn : list Bytes
}.

(** [client::Config::build_tls_config]. *)
Definition client_tls_config (q : ClientConfig.QuicConfig) : io_result ClientTls :=
  roots ← match ClientConfig.q_root_ca_path q with
          | Some path => certs ← load_certificates path; Ok (FileRoots certs)
          | None => Ok WebpkiRoots
          end;
  auth ← match ClientConfig.q_client_cert_key_paths q with
         | Some (cert_path, key_path) =>
           certs ← load_certificates cert_path;
           key ← load_private_key key_path;
           Ok (Some (certs, key))
         | None => Ok None
         end;
  Ok (mkClientTls roots auth (ClientConfig.q_skip_server_verification q)
       (ClientConfig.q_enable_zero_rtt q) (ClientConfig.q_alpn_protocols q)).

Record ServerTls := mkServerTls {
  st_certs : list Cert;
  st_key : Key;
  st_client_ca : option (list Cert);
  st_early_data : bool;
  st_alpn : list Bytes
}.

(** [server::Config::build_tls_config]. *)
Definition server_tls_config (q : ServerConfig.QuicConfig) : io_result ServerTls :=
  pair ← (if ServerConfig.q_enable_self_signed q then generate_self_signed
          else match ServerConfig.q_tls_cert_key_paths q with
               | None => Err (io_other "Certificate or Key must be provided when TLS is enabled")
               | Some (cert, key) =>
                 certs ← load_certificates cert;
                 key ← load_private_key key;
                 Ok (certs, key)
               end);
  client_ca ← match ServerConfig.q_root_ca_path q with
              | Some ca_path => certs ← load_certificates ca_path; Ok (Some certs)
              | None => Ok None
              end;
  Ok (mkServerTls (fst pair) (snd pair) client_ca (ServerConfig.q_enable_zero_rtt q)
       (ServerConfig.q_alpn_protocols q)).

(** From the client's configuration to the library: the server's certificate is
    checked unless the mode is [insecure]; in mutual mode the client has a
    certificate and trusts the configured authority alone. *)
Lemma client_tls_from_config lookup_host idle_ok streams_ok config q tls :
  ClientConfig.quic_client_from_config lookup_host idle_ok streams_ok config = Ok q →
  client_tls_config q = Ok tls →
  (ct_null_verifier tls = true →
     ClientConfig.tls_mode (ClientConfig.transport config) = Some ClientConfig.Insecure)
  ∧ (ClientConfig.tls_mode (ClientConfig.transport config) = Some ClientConfig.MTls →
     is_Some (ct_auth tls) ∧ ∃ certs, ct_roots tls = FileRoots certs).
Proof.
  intros Hq Ht. destruct (ClientConfig.quic_client_tls_settings _ _ _ _ _ Hq) as [H1 H2].
  unfold client_tls_config in Ht. split.
  - intros Hn. apply H1.
    destruct (ClientConfig.q_root_ca_path q) as [p|]; [destruct (load_certificates p)|];
      destruct (ClientConfig.q_client_cert_key_paths q) as [[c k]|];
      try destruct (load_certificates c); try destruct (load_private_key k); cbn in Ht;
      try done; by injection Ht as <-.
  - intros Hm. destruct (H2 Hm) as (ca & cert & key & Er & Ek). rewrite Er, Ek in Ht.
    destruct (load_certificates ca); [cbn in Ht|done].
    destruct (load_certificates cert); [cbn in Ht|done].
    destruct (load_private_key key); [cbn in Ht|done]. injection Ht as <-. cbn. eauto.
Qed.
End tls.

(** ** Properties *)

(** A connection that is gone is told apart from other errors: the client
    reconnects exactly when the library says that the connection was closed,
    reset, timed out or lost. *)
Lemma quic_loss_reconnects e text :
  ClientConnection.is_connection_error (connection_error_to_io e text) = true ↔
    e ≠ QuinnConnection OtherConnectionError ∧ e ≠ QuinnSendDatagram OtherSendError.
Proof. destruct e as [[]|[]]; cbn; naive_solver. Qed.

Lemma to_lower_idemp b : to_lower (to_lower b) = to_lower b.
Proof.
  unfold to_lower. pose proof (b2z_range b).
  destruct ((65 <=? b2z b) && (b2z b <=? 90)) eqn:E; [|by rewrite E].
  apply andb_prop in E as [E1%Z.leb_le E2%Z.leb_le].
  rewrite b2z_z2b_small by lia.
  by destruct (Z.leb_spec (b2z b + 32) 90); [lia|rewrite andb_false_r].
Qed.

(** The case of the name does not matter. *)
Lemma congestion_case_insensitive v :
  congestion_from_str (map to_lower v) = congestion_from_str v.
Proof.
  unfold congestion_from_str. rewrite List.map_map.
  by rewrite (List.map_ext _ _ to_lower_idemp).
Qed.
