(* ===== verification/QuicEndpoint.v ===== *)
(** The endpoints of the QUIC wrapper (crates/ombrac-transport/src/quic): the
    transport settings, the files with certificates and keys (mod.rs), connecting
    and rebinding (client.rs), and accepting connections (server.rs). *)

From S2P Require Import Prelude Std Parse Quic.
From S2P Require Import ClientConfig.

#[local] Open Scope Z_scope.

(** ** Errors *)

(** [error::Error]; what the libraries report is kept as its text. *)
Inductive Error :=
  | Io (e : IoError)
  | Rustls (text : string)
  | Rcgen (text : string)
  | QuinnRustls (text : string)
  | QuinnConnect (text : string)
  | QuinnConnectionErr (e : QuinnConnectionError) (text : string)
  | QuinnSendDatagramErr (e : QuinnSendDatagramError) (text : string)
  | QuinnVarInt (text : string)
  | ServerMissingCertificate
  | InvalidCongestion
  | ConnectionClosedErr.

(** The text of an error, as [thiserror] derives it. *)
Definition error_text (e : Error) : string :=
  match e with
  | Io e => msg e
  | Rustls t | Rcgen t | QuinnRustls t | QuinnConnect t | QuinnConnectionErr _ t
  | QuinnSendDatagramErr _ t | QuinnVarInt t => t
  | ServerMissingCertificate => "Certificate or Key must be provided when TLS is enabled"
  | InvalidCongestion => "Invalid congestion algorithm"
  | ConnectionClosedErr => "ConnectionClosed"
  end.

(** [From<Error> for io::Error]. *)
Definition error_to_io (err : Error) : IoError :=
  match err with
  | Io e => e
  | err => io_other (error_text err)
  end.

(** ** Transport settings *)

Section settings.
(** [VarInt::try_from] and [IdleTimeout::try_from], on milliseconds. *)
Context (varint idle_timeout_of : Z → Result Error Z).

Definition transport_config_default : QuicTransportConfig := mkQuicTransport None None None None.

(** [TransportConfig::congestion]. *)
Definition set_congestion (congestion : Congestion) (initial_window : option Z)
    (self : QuicTransportConfig) : Result Error QuicTransportConfig :=
  Ok (mkQuicTransport (q_max_idle_timeout self) (q_keep_alive self) (q_max_streams self)
        (Some (congestion, initial_window))).

(** [TransportConfig::max_idle_timeout]. *)
Definition set_max_idle_timeout (value : Z) (self : QuicTransportConfig)
    : Result Error QuicTransportConfig :=
  t ← idle_timeout_of value;
  Ok (mkQuicTransport (Some t) (q_keep_alive self) (q_max_streams self) (q_congestion self)).

(** [TransportConfig::keep_alive_period]. *)
Definition set_keep_alive_period (value : Z) (self : QuicTransportConfig)
    : Result Error QuicTransportConfig :=
  Ok (mkQuicTransport (q_max_idle_timeout self) (Some value) (q_max_streams self)
        (q_congestion self)).

(** [TransportConfig::max_open_bidirectional_streams]. *)
Definition set_max_open_bidirectional_streams (value : Z) (self : QuicTransportConfig)
    : Result Error QuicTransportConfig :=
  n ← varint value;
  Ok (mkQuicTransport (q_max_idle_timeout self) (q_keep_alive self) (Some n)
        (q_congestion self)).

(** The settings the client makes, in the order of [quic_client_from_config]. *)
Definition given_or {A S} (o : option A) (set : A → S → Result Error S) (s : S) : Result Error S :=
  match o with Some a => set a s | None => Ok s end.

Definition client_transport_config (t : TransportConfig) : Result Error QuicTransportConfig :=
  c ← given_or (idle_timeout t) set_max_idle_timeout transport_config_default;
  c ← given_or (keep_alive t) set_keep_alive_period c;
  c ← given_or (max_streams t) set_max_open_bidirectional_streams c;
  given_or (congestion t) (λ g, set_congestion g (cwnd_init t)) c.
End settings.

(** ** Files *)

(** The components of a path that [Path::file_name] can name. *)
Fixpoint split_on (c : Z) (l : Bytes) : list Bytes :=
  match l with
  | [] => [[]]
  | b :: l =>
    if b2z b =? c then [] :: split_on c l
    else match split_on c l with
         | [] => [[b]]
         | w :: ws => (b :: w) :: ws
         end
  end.

Definition file_name (path : Bytes) : option Bytes :=
  match last (filter (λ w, w ≠ [] ∧ w ≠ bytes_of ".") (split_on 47 path)) with
  | Some w => if decide (w = bytes_of "..") then None else Some w
  | None => None
  end.

(** [Path::extension]: what follows the last dot of the file name, unless that dot
    begins it. *)
Definition extension (path : Bytes) : option Bytes :=
  match file_name path with
  | Some name =>
    match rsplit_once 46 name with
    | Some ([], _) => None
    | Some (_, ext) => Some ext
    | None => None
    end
  | None => None
  end.

Definition is_der (path : Bytes) : bool := bool_decide (extension path = Some (bytes_of "der")).

Section files.
(** The file system, a certificate or a PKCS#8 key of its DER bytes, and the
    [rustls_pemfile] crate. *)
Context {Cert Key : Type} (read : Bytes → io_result Bytes).
Context (cert_of_der : Bytes → Cert) (pkcs8_of_der : Bytes → Key).
Context (pem_certs : Bytes → list (io_result Cert)).
Context (pem_private_key : Bytes → io_result (option Key)).

(** [collect] into a [Result]: all of them or the first error. *)
Fixpoint collect {A} (l : list (io_result A)) : io_result (list A) :=
  match l with
  | [] => Ok []
  | r :: l => a ← r; rest ← collect l; Ok (a :: rest)
  end.

(** [load_certificates]. *)
Definition load_certificates (path : Bytes) : io_result (list Cert) :=
  content ← read path;
  if is_der path then Ok [cert_of_der content] else collect (pem_certs content).

(** [load_private_key]. *)
Definition load_private_key (path : Bytes) : io_result Key :=
  content ← read path;
  if is_der path then Ok (pkcs8_of_der content)
  else
    key ← pem_private_key content;
    ok_or (mkIoError NotFound "no private key found in PEM file") key.
End files.

(** ** The client *)

Section client.
(** A connection, and a socket. *)
Context {C Sock : Type}.

(** What [connect] meets: the call itself, whether early data is possible and then
    whether the server accepts it, and what the handshake gives. *)
Record Dial := mkDial {
  dial : Result Error unit;
  early : option (C * bool);
  handshake : Result Error C
}.

(** [Client::connect]. *)
Definition connect (enable_zero_rtt : bool) (d : Dial) : Result Error C :=
  _ ← dial d;
  if enable_zero_rtt then
    match early d with
    | Some (conn, _is_accepted) => Ok conn
    | None => handshake d
    end
  else handshake d.

(** [Initiator::connect]. *)
Definition initiator_connect (enable_zero_rtt : bool) (d : Dial) : io_result C :=
  map_err (λ e, io_other (error_text e)) (connect enable_zero_rtt d).

(** [Client::rebind]: the socket in use afterwards. *)
Definition rebind (bind : SocketAddr → io_result Sock) (swap : Sock → io_result unit)
    (q : QuicConfig) (current : Sock) : Result Error unit * Sock :=
  match bind (q_bind_addr q) with
  | Err e => (Err (Io e), current)
  | Ok socket =>
    match swap socket with
    | Err e => (Err (Io e), current)
    | Ok _ => (Ok tt, socket)
    end
  end.

(** [Initiator::rebind]. *)
Definition initiator_rebind (bind : SocketAddr → io_result Sock)
    (swap : Sock → io_result unit) (q : QuicConfig) (current : Sock) : io_result unit * Sock :=
  let '(r, s) := rebind bind swap q current in
  (map_err (λ e, io_other (error_text e)) r, s).
End client.

(** ** Making the endpoints *)

Section making.
Context {Cert Key Sock : Type}.
(** The files, a generated pair, binding a socket, the checks [quinn] makes on the
    cryptography, and making an endpoint on a socket. *)
Context (load_certificates : Bytes → io_result (list Cert)).
Context (load_private_key : Bytes → io_result Key).
Context (generate_self_signed : io_result (list Cert * Key)).
Context (bind : SocketAddr → io_result Sock).
Context (client_crypto : ClientTls (Cert := Cert) (Key := Key) → Result Error unit).
Context (server_crypto : ServerTls (Cert := Cert) (Key := Key) → Result Error unit).
Context (new_endpoint : Sock → io_result unit).

(** [client::Client]: its configuration, and what its endpoint is made of: the
    default client configuration and the socket. *)
Record QuicClient := mkQuicClient {
  client_config : QuicConfig;
  client_tls : ClientTls (Cert := Cert) (Key := Key);
  client_transport : QuicTransportConfig;
  client_socket : Sock
}.

(** [client::Config::build_client_config]: the cryptography, once [quinn] has
    accepted it, and the transport settings. *)
Definition build_client_config (config : QuicConfig)
    : Result Error (ClientTls (Cert := Cert) (Key := Key) * QuicTransportConfig) :=
  tls ← map_err Io (client_tls_config load_certificates load_private_key config);
  _ ← client_crypto tls;
  Ok (tls, q_transport_config config).

(** [Client::new]. *)
Definition client_new (config : QuicConfig) : Result Error QuicClient :=
  socket ← map_err Io (bind (q_bind_addr config));
  client_config ← build_client_config config;
  _ ← map_err Io (new_endpoint socket);
  Ok (mkQuicClient config (fst client_config) (snd client_config) socket).

(** [server::Config::build_server_config]. *)
Definition build_server_config (config : ServerConfig.QuicConfig)
    : Result Error (ServerTls (Cert := Cert) (Key := Key) * QuicTransportConfig) :=
  tls ← map_err Io (server_tls_config load_certificates load_private_key
                      generate_self_signed config);
  _ ← server_crypto tls;
  Ok (tls, ServerConfig.q_transport_config config).

(** [Server::new]: what its endpoint is configured with. *)
Definition quic_server_new (socket : Sock) (config : ServerConfig.QuicConfig)
    : Result Error (ServerTls (Cert := Cert) (Key := Key) * QuicTransportConfig) :=
  server_config ← build_server_config config;
  _ ← map_err Io (new_endpoint socket);
  Ok server_config.

(** A client's endpoint dials with the settings it was configured with, from the
    address it was to bind. *)
Lemma client_new_configured config c :
  client_new config = Ok c →
  client_config c = config
  ∧ client_tls_config load_certificates load_private_key config = Ok (client_tls c)
  ∧ client_transport c = q_transport_config config
  ∧ bind (q_bind_addr config) = Ok (client_socket c).
Proof.
  unfold client_new, build_client_config.
  destruct (bind (q_bind_addr config)) as [s|]; [|done]. cbn.
  destruct (client_tls_config _ _ config) as [tls|]; [|done]. cbn.
  destruct (client_crypto tls); [|done]. cbn. destruct (new_endpoint s); [|done].
  by intros [= <-].
Qed.
End making.

(** ** The server *)

(** The capacity of [async_channel::bounded]. *)
Definition ACCEPT_QUEUE : nat := 128.

(** [Server] with its accept loop and the tasks it spawned: whether the loop runs,
    the connections in a task that awaits the handshake or waits to send, those in
    the queue, those [accept] has returned, whether the receiver is there, whether
    the signal of [drop] was sent, and whether the endpoint was closed. *)
Record ServerState := mkServer {
  loop_running : bool;
  handshaking : list nat;
  sending : list nat;
  queue : list nat;
  returned : list nat;
  receiver : bool;
  signalled : bool;
  endpoint_closed : bool
}.

(** [Server::new], once the endpoint is made. *)
Definition server_new : ServerState := mkServer true [] [] [] [] true false false.

(** The branch of [accept_loop] for an incoming connection, named by a number. *)
Definition incoming (c : nat) (s : ServerState) : ServerState :=
  mkServer (loop_running s) (handshaking s ++ [c]) (sending s) (queue s) (returned s)
    (receiver s) (signalled s) (endpoint_closed s).

(** The branch for the signal: close the endpoint, leave the loop. *)
Definition stop_loop (s : ServerState) : ServerState :=
  mkServer false (handshaking s) (sending s) (queue s) (returned s) (receiver s)
    (signalled s) true.

(** A spawned task: what its handshake gives, then its [send]. *)
Definition shaken (c : nat) (ok : bool) (s : ServerState) : ServerState :=
  mkServer (loop_running s) (filter (λ x, x ≠ c) (handshaking s))
    (if ok then sending s ++ [c] else sending s) (queue s) (returned s) (receiver s)
    (signalled s) (endpoint_closed s).

Definition send_queue (c : nat) (s : ServerState) : ServerState :=
  mkServer (loop_running s) (handshaking s) (filter (λ x, x ≠ c) (sending s))
    (if receiver s then queue s ++ [c] else queue s) (returned s) (receiver s)
    (signalled s) (endpoint_closed s).

(** [Acceptor::accept]: [Pending] while the queue is empty and a sender is left,
    the loop's own or a task's. *)
Definition accept (s : ServerState) : Poll (io_result nat) * ServerState :=
  match queue s with
  | c :: q =>
    (Ready (Ok c),
     mkServer (loop_running s) (handshaking s) (sending s) q (returned s ++ [c])
       (receiver s) (signalled s) (endpoint_closed s))
  | [] =>
    if loop_running s || negb (bool_decide (handshaking s = []))
       || negb (bool_decide (sending s = []))
    then (Pending, s)
    else (Ready (Err (io_other "Acceptor is closed")), s)
  end.

(** [Drop for Server], after which its fields are dropped. *)
Definition drop_server (s : ServerState) : ServerState :=
  mkServer (loop_running s) (handshaking s) (sending s) [] (returned s) false true
    (endpoint_closed s).

Definition connections (s : ServerState) : list nat :=
  handshaking s ++ sending s ++ queue s ++ returned s.

(** A step, with the connections that enter the queue in it. *)
Inductive server_lstep : list nat → ServerState → ServerState → Prop :=
  | step_incoming c s :
      loop_running s = true → c ∉ connections s → server_lstep [] s (incoming c s)
  | step_shaken c ok s : c ∈ handshaking s → server_lstep [] s (shaken c ok s)
  | step_send c s :
      c ∈ sending s → (length (queue s) < ACCEPT_QUEUE)%nat → receiver s = true →
      server_lstep [c] s (send_queue c s)
  | step_send_closed c s :
      c ∈ sending s → receiver s = false → server_lstep [] s (send_queue c s)
  | step_accept s : receiver s = true → server_lstep [] s (snd (accept s))
  | step_drop s : receiver s = true → server_lstep [] s (drop_server s)
  | step_stop s : loop_running s = true → signalled s = true → server_lstep [] s (stop_loop s).

Definition server_step (s s' : ServerState) : Prop := ∃ l, server_lstep l s s'.

(** A run from a new server, with the connections that entered the queue in it, in
    order. *)
Inductive server_run : list nat → ServerState → Prop :=
  | run_new : server_run [] server_new
  | run_step entered l s s' :
      server_run entered s → server_lstep l s s' → server_run (entered ++ l) s'.

(** ** Properties *)

(** What [quinn] documents: a timeout or a number is accepted when it fits 62 bits,
    unchanged. *)
Definition varint_law (varint : Z → Result Error Z) : Prop := ∀ v,
  if v <? 2 ^ 62 then varint v = Ok v else ∃ e, varint v = Err e.

Lemma varint_cases varint v : varint_law varint →
  (v < 2 ^ 62 ∧ varint v = Ok v) ∨ (2 ^ 62 ≤ v ∧ ∃ e, varint v = Err e).
Proof. intros Hv. specialize (Hv v). destruct (Z.ltb_spec v (2 ^ 62)); auto. Qed.

(** The settings made one by one are those of [quic_client_from_config]: each is
    the configured one, and the only ones refused are a timeout or a number of
    streams of more than 62 bits. *)
Lemma client_transport_config_spec varint idle t :
  varint_law varint → varint_law idle →
  match client_transport_config varint idle t with
  | Ok c =>
    c = mkQuicTransport (idle_timeout t) (keep_alive t) (max_streams t)
          (match congestion t with Some g => Some (g, cwnd_init t) | None => None end)
    ∧ (∀ v, idle_timeout t = Some v → v < 2 ^ 62) ∧ (∀ v, max_streams t = Some v → v < 2 ^ 62)
  | Err _ =>
    (∃ v, idle_timeout t = Some v ∧ 2 ^ 62 ≤ v) ∨ (∃ v, max_streams t = Some v ∧ 2 ^ 62 ≤ v)
  end.
Proof.
  intros Hv Hi.
  unfold client_transport_config, set_max_idle_timeout, set_max_open_bidirectional_streams.
  destruct (idle_timeout t) as [ti|]; cbn;
    [destruct (varint_cases idle ti Hi) as [[? E]|[? [e E]]]; rewrite E; cbn; [|naive_solver]|];
    (destruct (keep_alive t); cbn; (destruct (max_streams t) as [n|]; cbn;
      [destruct (varint_cases varint n Hv) as [[? E']|[? [e E']]]; rewrite E'; cbn;
        [|naive_solver]|]; destruct (congestion t); cbn; naive_solver)).
Qed.

(** With 0-RTT a connection is handed out whether or not the server accepted the
    early data, and before the handshake is over; without it, or without a ticket,
    the handshake decides. Every error has the kind [Other], so that a connect that
    fails is never taken for a lost connection. *)
Lemma connect_spec {C} zero_rtt (d : Dial (C := C)) :
  match initiator_connect zero_rtt d with
  | Ok c => dial d = Ok tt
      ∧ (handshake d = Ok c ∨ zero_rtt = true ∧ ∃ accepted, early d = Some (c, accepted))
  | Err e => kind e = OtherKind ∧ ClientConnection.is_connection_error e = false
  end.
Proof.
  unfold initiator_connect, connect.
  destruct (dial d) as [[]|e] eqn:Ed; [cbn|done].
  destruct zero_rtt; [destruct (early d) as [[c b]|] eqn:Ee|]; cbn; [by eauto| |];
    destruct (handshake d) eqn:Eh; cbn; auto.
Qed.

(** [load_certificates] and [load_private_key] look at the extension of the file
    name, not of the path. *)
Example extensions :
  (extension (bytes_of "/etc/ca.d/cert.der"), extension (bytes_of "/etc/ca.der/cert"),
   extension (bytes_of "keys/.der"), extension (bytes_of "a.der/")) =
  (Some (bytes_of "der"), None, None, Some (bytes_of "der")).
Proof. vm_compute. reflexivity. Qed.

(** What holds of the server in every reachable state. *)
Record server_ok (s : ServerState) : Prop := {
  so_queue : (length (queue s) ≤ ACCEPT_QUEUE)%nat;
  so_once : NoDup (connections s);
  so_receiver : receiver s = negb (signalled s);
  so_loop : loop_running s = false → signalled s = true ∧ endpoint_closed s = true;
  so_endpoint : endpoint_closed s = true → loop_running s = false
}.

Lemma move_out (c : nat) (l : list nat) :
  NoDup l → c ∈ l → l ≡ₚ filter (λ x, x ≠ c) l ++ [c].
Proof.
  intros Hd (l1 & l2 & ->)%list_elem_of_split.
  apply NoDup_app in Hd as (_ & Hn & [Hc _]%NoDup_cons).
  rewrite filter_app, filter_cons_False by auto.
  rewrite !filter_all; [|intros x Hx ->; done|intros x Hx ->; by apply (Hn c Hx); left].
  rewrite <- app_assoc. apply Permutation_app_head. apply Permutation_cons_append.
Qed.

Lemma NoDup_fewer (l k : list nat) : NoDup k → l ⊆+ k → NoDup l.
Proof.
  intros Hk [j E]%submseteq_Permutation. rewrite E in Hk. by apply NoDup_app in Hk as (? & _).
Qed.

(** No step makes a connection out of nothing. *)
Lemma server_step_connections s s' :
  server_step s s' → NoDup (connections s) → NoDup (connections s').
Proof.
  intros [l Hs] Hd.
  destruct Hs as [c s Hr Hc|c ok s Hc|c s Hc Hq Hr|c s Hc Hr|s Hr|s Hr|s Hr Hx];
    unfold connections in *; cbn [handshaking sending queue returned incoming shaken send_queue
      stop_loop drop_server].
  - rewrite <- app_assoc. cbn [app].
    assert (handshaking s ++ c :: sending s ++ queue s ++ returned s
            ≡ₚ c :: handshaking s ++ sending s ++ queue s ++ returned s) as ->
      by (symmetry; apply Permutation_middle).
    by constructor.
  - pose proof Hd as Hd'. apply NoDup_app in Hd' as (Hh & _).
    apply (NoDup_fewer _ _ Hd). rewrite (move_out c (handshaking s)) at 2 by done.
    destruct ok; solve_submseteq.
  - pose proof Hd as Hd'. apply NoDup_app in Hd' as (_ & _ & (Hh & _)%NoDup_app).
    apply (NoDup_fewer _ _ Hd). rewrite (move_out c (sending s)) at 2 by done.
    destruct (receiver s); solve_submseteq.
  - pose proof Hd as Hd'. apply NoDup_app in Hd' as (_ & _ & (Hh & _)%NoDup_app).
    apply (NoDup_fewer _ _ Hd). rewrite (move_out c (sending s)) at 2 by done.
    destruct (receiver s); solve_submseteq.
  - unfold accept. destruct (queue s) as [|c q] eqn:E.
    + destruct (_ || _ || _); cbn; by rewrite E.
    + cbn. apply (NoDup_fewer _ _ Hd). rewrite (Permutation_cons_append q). solve_submseteq.
  - apply (NoDup_fewer _ _ Hd). solve_submseteq.
  - done.
Qed.

Lemma server_step_ok s s' : server_step s s' → server_ok s → server_ok s'.
Proof.
  intros Hs Hok. pose proof (server_step_connections s s' Hs (so_once s Hok)) as Hd.
  destruct Hok as [Hq _ Hr Hl He]. destruct Hs as [l Hs].
  destruct Hs as [c s Hru Hc|c ok s Hc|c s Hc Hw Hx|c s Hc Hx|s Hx|s Hx|s Hru Hx];
    [by split|by split| | | | |].
  - split; [|done..]. unfold send_queue. cbn. rewrite Hx, length_app. cbn. lia.
  - split; [|done..]. unfold send_queue. cbn. by rewrite Hx.
  - unfold accept in *. destruct (queue s) as [|c q] eqn:E.
    + destruct (_ || _ || _); (split; cbn in *; [by rewrite E; cbn; lia|done..]).
    + split; cbn in *; [lia|done..].
  - split; cbn in *; [lia|done| |by intros [_ ?]%Hl|done]. done.
  - split; cbn in *; done.
Qed.

Lemma server_reach_ok s : rtc server_step server_new s → server_ok s.
Proof.
  assert (server_ok server_new) as H0 by (split; cbn; [lia|constructor|done..]).
  revert H0. generalize server_new. induction 2; eauto using server_step_ok.
Qed.

Lemma server_run_rtc entered s : server_run entered s → rtc server_step server_new s.
Proof.
  induction 1 as [|entered l s s' _ IH Hs]; [apply rtc_refl|].
  eapply rtc_r; [exact IH|by exists l].
Qed.

(** What entered the queue was returned, is in it, or was dropped with it, in that
    order. *)
Lemma server_run_order entered s :
  server_run entered s →
  ∃ dropped, entered = returned s ++ queue s ++ dropped
    ∧ (receiver s = true → dropped = []) ∧ (receiver s = false → queue s = []).
Proof.
  induction 1 as [|entered l s s' _ (dropped & -> & Hd & Hq) Hs]; [by exists []|].
  destruct Hs as [c s Hr Hc|c ok s Hc|c s Hc Hw Hr|c s Hc Hr|s Hr|s Hr|s Hr Hx];
    try (exists dropped; cbn; rewrite ?app_nil_r; by split_and!).
  - exists []. cbn. rewrite Hr, (Hd Hr), !app_nil_r, <-app_assoc. split_and!; [done..|congruence].
  - exists dropped. cbn. rewrite Hr, app_nil_r. split_and!; [done|done|intros _; by apply Hq].
  - exists []. rewrite (Hd Hr), !app_nil_r. unfold accept. destruct (queue s) as [|c q] eqn:E.
    + destruct (_ || _ || _); cbn; rewrite E; split_and!; (done || congruence).
    + cbn. rewrite <-app_assoc. split_and!; (done || congruence).
  - exists (queue s). cbn. rewrite (Hd Hr), !app_nil_r. split_and!; (done || congruence).
Qed.

(** C37. The server's queue of connections, under every interleaving of its accept
    loop, of the tasks of the handshakes and of its user: it never holds more than
    128; no connection is returned by [accept] twice, nor is one both returned and
    still on its way; connections are returned in the order in which they entered
    the queue, and while the [Server] is there none that entered it is lost: those
    returned followed by those in the queue are all that entered, and [accept]
    returns the first of the queue if there is one; and while the [Server] is there
    the loop runs, the endpoint is open and [accept] never fails, it only waits. *)
Theorem quic_accept_queue entered s :
  server_run entered s →
  (length (queue s) ≤ 128)%nat ∧ NoDup (handshaking s ++ sending s ++ queue s ++ returned s)
  ∧ prefix (returned s) entered
  ∧ (receiver s = true → returned s ++ queue s = entered)
  ∧ (∀ c q, queue s = c :: q → fst (accept s) = Ready (Ok c)
       ∧ queue (snd (accept s)) = q ∧ returned (snd (accept s)) = returned s ++ [c])
  ∧ (signalled s = false → receiver s = true ∧ loop_running s = true ∧ endpoint_closed s = false
       ∧ ∀ e, fst (accept s) ≠ Ready (Err e)).
Proof.
  intros Hrun. destruct (server_run_order _ _ Hrun) as (dropped & Hall & Hd & _).
  destruct (server_reach_ok s (server_run_rtc _ _ Hrun)) as [Hq Ho Hr Hl He].
  split_and!; [done|done| | | |].
  - rewrite Hall. by apply prefix_app_r.
  - intros Hx. by rewrite Hall, (Hd Hx), app_nil_r.
  - intros c q E. unfold accept. by rewrite E.
  - intros Hs. split; [by rewrite Hr, Hs|].
    destruct (loop_running s) eqn:El; [|by destruct (Hl eq_refl); congruence].
    split; [done|]. split; [by destruct (endpoint_closed s); [specialize (He eq_refl)|]|].
    intros e. unfold accept. rewrite El. by destruct (queue s).
Qed.

(** ** The theorem at a concrete input *)

(** Three connections: the second is through first, the first fails, and the third is
    in the queue when the second is accepted. *)
Lemma quic_accept_queue_witness :
  let s := snd (accept (send_queue 3 (send_queue 2 (shaken 3 true (shaken 1 false (shaken 2 true
             (incoming 3 (incoming 2 (incoming 1 server_new)))))))))  in
  returned s = [2%nat] ∧ queue s = [3%nat] ∧ returned s ++ queue s = [2; 3]%nat.
Proof.
  intros s. split; [reflexivity|]. split; [reflexivity|].
  assert (server_run ((((((((([] ++ []) ++ []) ++ []) ++ []) ++ []) ++ []) ++ [2]) ++ [3]) ++ [])%nat
    s) as Hr.
  { repeat (eapply run_step; [|
      first [apply step_accept; reflexivity
            |apply step_send; [decide_now|vm_compute; lia|reflexivity]
            |apply step_shaken; decide_now
            |apply step_incoming; [reflexivity|decide_now]]]).
    apply run_new. }
  exact (proj1 (proj2 (proj2 (proj2 (quic_accept_queue _ s Hr)))) eq_refl).
Defined.
