(* ===== verification/Transport.v ===== *)
(** The transport as the client and the server see it
    (crates/ombrac-transport/src/lib.rs) and its implementation on the QUIC
    library (quic/mod.rs, quic/stream.rs, and the configurations of
    quic/client.rs and quic/server.rs). *)

From S2P Require Import Prelude Std Parse Stream Quic QuicEndpoint ClientStream.
From S2P Require ClientConfig ServerConfig ClientConnection.

#[local] Open Scope Z_scope.

(** ** The traits *)

(** [Initiator]: what it does to the endpoint is threaded. *)
Class Initiator (I C : Type) := {
  initiator_local_addr : I → io_result SocketAddr;
  initiator_rebind : StM I IoError unit;
  initiator_connect : StM I IoError C
}.

(** [Acceptor]; [accept] waits while nothing has arrived. *)
Class Acceptor (A C : Type) := {
  acceptor_local_addr : A → io_result SocketAddr;
  acceptor_accept : A → Poll (io_result C) * A
}.

(** [Connection], with the [datagram] feature. *)
Class Connection (C S : Type) := {
  id : C → Z;
  close : Z → Bytes → C → C;
  remote_address : C → io_result SocketAddr;
  open_bidirectional : StM C IoError S;
  accept_bidirectional : StM C IoError S;
  max_datagram_size : C → option Z;
  send_datagram : Bytes → StM C IoError unit;
  read_datagram : StM C IoError Bytes
}.

(** ** The QUIC stream *)

(** [Stream(SendStream, RecvStream)]: reads go to the second, all else to the
    first. *)
Record QuicStream (SS RS : Type) := mkStream { send_half : SS; recv_half : RS }.
Arguments mkStream {SS RS}.
Arguments send_half {SS RS} q.
Arguments recv_half {SS RS} q.

Section quic_stream.
Context {SS RS : Type} `{PollWrite SS} `{PollRead RS}.

Definition quic_poll_read (n : nat) (self : QuicStream SS RS)
    : Poll (io_result Bytes) * QuicStream SS RS :=
  let '(r, recv) := poll_read n (recv_half self) in
  (r, mkStream (send_half self) recv).

Definition on_send {A} (r : A * SS) (self : QuicStream SS RS) : A * QuicStream SS RS :=
  (fst r, mkStream (snd r) (recv_half self)).

Definition quic_poll_write (b : Bytes) (self : QuicStream SS RS)
    : Poll (io_result nat) * QuicStream SS RS :=
  on_send (poll_write b (send_half self)) self.
Definition quic_poll_flush (self : QuicStream SS RS)
    : Poll (io_result unit) * QuicStream SS RS :=
  on_send (poll_flush (send_half self)) self.
Definition quic_poll_shutdown (self : QuicStream SS RS)
    : Poll (io_result unit) * QuicStream SS RS :=
  on_send (poll_shutdown (send_half self)) self.

#[export] Instance quic_stream_read : PollRead (QuicStream SS RS) :=
  {| poll_read := quic_poll_read; readable self := readable (recv_half self) |}.
#[export] Instance quic_stream_write : PollWrite (QuicStream SS RS) :=
  {| poll_write := quic_poll_write; poll_flush := quic_poll_flush;
     poll_shutdown := quic_poll_shutdown; written self := written (send_half self) |}.

#[export] Instance quic_stream_read_laws `{!PollReadLaws RS} :
  PollReadLaws (QuicStream SS RS).
Proof.
  split; cbn [poll_read readable quic_stream_read]; unfold quic_poll_read.
  - intros n s b s'. destruct (poll_read n (recv_half s)) as [r recv] eqn:E.
    intros [= -> <-]. by apply (poll_read_ready _ _ _ _ E).
  - intros n s r s'. destruct (poll_read n (recv_half s)) as [r' recv] eqn:E.
    intros [= -> <-]. by apply (poll_read_other _ _ _ _ E).
Qed.

#[export] Instance quic_stream_write_laws `{!PollWriteLaws SS} :
  PollWriteLaws (QuicStream SS RS).
Proof.
  split; cbn [poll_write poll_flush poll_shutdown written quic_stream_write];
    unfold quic_poll_write, on_send.
  - intros b s n s'. destruct (poll_write b (send_half s)) as [r snd'] eqn:E.
    intros [= -> <-]. by apply (poll_write_ready _ _ _ _ E).
  - intros b s r s'. destruct (poll_write b (send_half s)) as [r' snd'] eqn:E.
    intros [= -> <-]. by apply (poll_write_other _ _ _ _ E).
  - intros s. apply poll_flush_written.
  - intros s. apply poll_shutdown_written.
Qed.

#[export] Instance quic_stream_duplex_laws : DuplexLaws (QuicStream SS RS).
Proof.
  split; try done. intros n s.
  cbn [poll_read written quic_stream_read quic_stream_write]. unfold quic_poll_read.
  by destruct (poll_read n (recv_half s)).
Qed.
End quic_stream.

(** ** The QUIC connection *)

(** The calls of [quinn::Connection] that the wrapper makes. *)
Class QuinnApi (C SS RS : Type) := {
  accept_bi : StM C QuinnConnectionError (SS * RS);
  open_bi : StM C QuinnConnectionError (SS * RS);
  quinn_read_datagram : StM C QuinnConnectionError Bytes;
  send_datagram_wait : Bytes → StM C QuinnSendDatagramError unit;
  quinn_remote_address : C → SocketAddr;
  quinn_max_datagram_size : C → option Z;
  stable_id : C → Z;
  quinn_close : Z → Bytes → C → C
}.
#[global] Hint Mode QuinnApi + - - : typeclass_instances.

(** [From<quinn::ConnectionError>] and [From<quinn::SendDatagramError> for
    ConnectionError]. *)
Definition from_connection_error : QuinnConnectionError → ConnectionError := QuinnConnection.
Definition from_send_datagram_error : QuinnSendDatagramError → ConnectionError :=
  QuinnSendDatagram.

Section quinn.
Context {C SS RS : Type} `{QuinnApi C SS RS}.
(** The texts of the library's errors. *)
Context (error_display : ConnectionError → string).

(** The conversion that [?] and [into] end with. *)
Definition into_io (e : ConnectionError) : IoError :=
  connection_error_to_io e (error_display e).

Definition map_outcome {E A B} (err : E → IoError) (ok : A → B)
    (r : Result E A * C) : io_result B * C :=
  (match fst r with Ok a => Ok (ok a) | Err e => Err (err e) end, snd r).

Definition quinn_accept_bidirectional : StM C IoError (QuicStream SS RS) := λ c,
  map_outcome (λ e, into_io (from_connection_error e)) (λ sr, mkStream (fst sr) (snd sr))
    (accept_bi c).
Definition quinn_open_bidirectional : StM C IoError (QuicStream SS RS) := λ c,
  map_outcome (λ e, into_io (from_connection_error e)) (λ sr, mkStream (fst sr) (snd sr))
    (open_bi c).
Definition quinn_read : StM C IoError Bytes := λ c,
  map_outcome (λ e, into_io (from_connection_error e)) (λ b, b) (quinn_read_datagram c).
Definition quinn_send (data : Bytes) : StM C IoError unit := λ c,
  map_outcome (λ e, into_io (from_send_datagram_error e)) (λ u, u)
    (send_datagram_wait data c).

(** [impl Connection for quinn::Connection]. The call in [close] is the
    library's own method, not the trait's. *)
Definition quinn_connection : Connection C (QuicStream SS RS) := {|
  id := stable_id;
  close := quinn_close;
  remote_address c := Ok (quinn_remote_address c);
  open_bidirectional := quinn_open_bidirectional;
  accept_bidirectional := quinn_accept_bidirectional;
  max_datagram_size := quinn_max_datagram_size;
  send_datagram := quinn_send;
  read_datagram := quinn_read
|}.

(** The errors after which the connection is gone. *)
Definition connection_lost (e : QuinnConnectionError) : bool :=
  match e with OtherConnectionError => false | _ => true end.

Lemma lost_is_connection_error e text :
  ClientConnection.is_connection_error (connection_error_to_io (QuinnConnection e) text)
  = connection_lost e.
Proof. by destruct e. Qed.
End quinn.

(** ** The endpoints as initiator and acceptor *)

Section endpoints.
Context {C Sock : Type}.
(** The address of a socket, binding one, and swapping it into the endpoint. *)
Context (socket_addr : Sock → io_result SocketAddr).
Context (bind : SocketAddr → io_result Sock) (swap : Sock → io_result unit).

(** [client::Client]: its configuration and the socket of its endpoint; [dial] is
    what the next [connect] meets. *)
Record ClientEndpoint := mkClientEndpoint {
  endpoint_config : ClientConfig.QuicConfig;
  endpoint_socket : Sock;
  next_dial : Dial (C := C)
}.

(** [Client::local_addr], through [io::Error::other]. *)
Definition client_local_addr (self : ClientEndpoint) : io_result SocketAddr :=
  map_err (λ e, io_other (error_text (Io e))) (socket_addr (endpoint_socket self)).

#[local] Instance client_initiator : Initiator ClientEndpoint C := {
  initiator_local_addr := client_local_addr;
  initiator_rebind self :=
    let '(r, s) := QuicEndpoint.initiator_rebind bind swap (endpoint_config self)
                     (endpoint_socket self) in
    (r, mkClientEndpoint (endpoint_config self) s (next_dial self));
  initiator_connect self :=
    (QuicEndpoint.initiator_connect
       (ClientConfig.q_enable_zero_rtt (endpoint_config self)) (next_dial self), self)
}.

(** [server::Server] with its endpoint's socket. *)
Definition server_local_addr (self : Sock * ServerState) : io_result SocketAddr :=
  socket_addr (fst self).

#[local] Instance server_acceptor : Acceptor (Sock * ServerState) nat := {
  acceptor_local_addr := server_local_addr;
  acceptor_accept self :=
    let '(r, s) := QuicEndpoint.accept (snd self) in (r, (fst self, s))
}.
End endpoints.

(** ** The configurations *)

(** [client::Config::new]. *)
Definition client_config_new (server_addr : SocketAddr) (server_name : Bytes)
    : ClientConfig.QuicConfig :=
  ClientConfig.mkQuic server_name server_addr (ClientConfig.default_bind_addr server_addr)
    None None false false [] transport_config_default.

(** [server::Config::new], and its [Default]. *)
Definition server_config_new : ServerConfig.QuicConfig :=
  ServerConfig.mkQuic false false [] None None transport_config_default.
Definition server_config_default : ServerConfig.QuicConfig := server_config_new.

(** The settings the service leaves as [Config::new] made them. *)
Lemma client_config_from_new lookup_host idle_ok streams_ok config q :
  ClientConfig.quic_client_from_config lookup_host idle_ok streams_ok config = Ok q →
  ClientConfig.q_bind_addr q =
    ClientConfig.q_bind_addr (client_config_new (ClientConfig.q_server_addr q)
                                (ClientConfig.q_server_name q)).
Proof.
  unfold ClientConfig.quic_client_from_config.
  destruct (ClientConfig.tls_server_name config) as [name|]; [cbn|done].
  destruct (lookup_host _) as [[|a rest]|]; [done|cbn|done].
  destruct (ClientConfig.tls_settings _) as [[[root keys] skip]|]; [cbn|done].
  destruct (ClientConfig.checked idle_ok _); [cbn|done].
  destruct (ClientConfig.checked streams_ok _); [cbn|done]. by intros [= <-].
Qed.

(** ** Who the client talks to *)

Section verifier.
Context {Cert Key : Type}.

(** [ServerCertVerifier]: the certificate of the server and the chain, the name
    it was dialled by, the stapled response and the time; then a signature of
    the handshake under a certificate. *)
Record Verifier := mkVerifier {
  verify_server_cert : Cert → list Cert → Bytes → Bytes → Z → Result string unit;
  verify_tls12_signature : Bytes → Cert → Bytes → Result string unit;
  verify_tls13_signature : Bytes → Cert → Bytes → Result string unit
}.

(** [NullVerifier]. *)
Definition null_verifier : Verifier := {|
  verify_server_cert _ _ _ _ _ := Ok tt;
  verify_tls12_signature _ _ _ := Ok tt;
  verify_tls13_signature _ _ _ := Ok tt
|}.

(** The verifier of the library for a set of roots. *)
Context (webpki : Roots (Cert := Cert) → Verifier).

(** The verifier [build_tls_config] leaves in the configuration. *)
Definition client_verifier (tls : ClientTls (Cert := Cert) (Key := Key)) : Verifier :=
  if ct_null_verifier tls then null_verifier else webpki (ct_roots tls).

(** The roots a configuration asks for. *)
Definition configured_roots (load_certificates : Bytes → io_result (list Cert))
    (t : ClientConfig.TransportConfig) : io_result (Roots (Cert := Cert)) :=
  match ClientConfig.ca_cert t with
  | Some path => certs ← load_certificates path; Ok (FileRoots certs)
  | None => Ok WebpkiRoots
  end.
End verifier.
Arguments Verifier Cert : clear implicits.

(** ** Properties *)

(** C32. The stream an application gets, all layers of it: what was buffered while
    the stream was negotiated, then the receiving half of the QUIC stream, and
    the sending half. Whatever calls are made on it, in whatever order and sizes
    and wherever they are pending or fail, the bytes read are the buffered ones
    followed by those of the receiving half, in order and without a gap, and the
    sending half takes exactly the bytes the writes reported, in order; neither
    direction disturbs the other. *)
Theorem tunnel_stream_duplex {SS RS} `{PollWriteLaws SS} `{PollReadLaws RS}
    (tunnel : QuicStream SS RS) early calls :
  let '(r, w, s) := stream_calls calls (buffered_new tunnel early) in
  early ++ readable (recv_half tunnel) = r ++ buffered_readable s
  ∧ written (send_half (stream s)) = written (send_half tunnel) ++ w.
Proof.
  pose proof (stream_calls_ok calls (buffered_new tunnel early)) as Hs.
  by destruct (stream_calls calls (buffered_new tunnel early)) as [[r w] s].
Qed.

Lemma tunnel_stream_duplex_witness :
  let '(r, w, s) := stream_calls [CallRead 1; CallWrite [Byte.x07; Byte.x08]; CallRead 5;
                      CallFlush; CallRead 5; CallShutdown; CallWrite [Byte.x09]]
        (buffered_new (mkStream (mkMemWriter [] 1) ([Byte.x03] : Bytes))
           [Byte.x01; Byte.x02]) in
  [Byte.x01; Byte.x02; Byte.x03] = r ++ buffered_readable s
  ∧ written (send_half (stream s)) = [] ++ w.
Proof.
  exact (tunnel_stream_duplex (mkStream (mkMemWriter [] 1) ([Byte.x03] : Bytes))
    [Byte.x01; Byte.x02] [CallRead 1; CallWrite [Byte.x07; Byte.x08]; CallRead 5; CallFlush;
     CallRead 5; CallShutdown; CallWrite [Byte.x09]]).
Defined.

(** The library's connection behind the trait: each call passes on what the
    library returned and leaves its connection as the library did; only errors
    change their type. In [with_retry], the outcome of opening a stream leads to
    the reconnection exactly when the library says that the connection is gone
    (closed by either end, reset or timed out); any other error of it goes
    back to the caller at once. *)
Theorem open_outcome_drives_retry {C SS RS} `{QuinnApi C SS RS} error_display scale
    (s : ClientConnection.Shared C) (c : C) id :
  let '(r, c') := quinn_open_bidirectional error_display c in
  c' = snd (open_bi c)
  ∧ match fst (open_bi c) with Ok (ss, rs) => r = Ok (mkStream ss rs) | Err _ => is_ok r = false end
  ∧ ClientConnection.retry_step scale s (ClientConnection.Operation c id)
      (ClientConnection.OpResult r) =
    Some (s, match fst (open_bi c) with
             | Err e => if connection_lost e then ClientConnection.Locking id
                        else ClientConnection.Finished r
             | Ok _ => ClientConnection.Finished r
             end).
Proof.
  unfold quinn_open_bidirectional, map_outcome.
  destruct (open_bi c) as [[[ss rs]|e] c']; [done|]. split; [done|]. split; [done|].
  cbn [fst snd ClientConnection.retry_step]. unfold into_io, from_connection_error.
  rewrite lost_is_connection_error. by destruct (connection_lost e).
Qed.

(** C14. Whom the client lets in as the server. In the mode [Insecure], and in no
    other, any certificate and any signature of the handshake is accepted; in
    every other mode they are what the library accepts under the configured
    authority or, if none is configured, under the roots compiled into the program
    from the [webpki_roots] crate: not the system's, which the documentation
    promises (docs/configuration.md, docs/cli-reference.md, config/cli.rs). *)
Theorem server_identity_checked {Cert Key}
    (webpki : Roots (Cert := Cert) → Verifier Cert)
    load_certificates (load_private_key : Bytes → io_result Key)
    lookup_host idle_ok streams_ok config q tls :
  ClientConfig.quic_client_from_config lookup_host idle_ok streams_ok config = Ok q →
  client_tls_config load_certificates load_private_key q = Ok tls →
  match ClientConfig.tls_mode (ClientConfig.transport config) with
  | Some ClientConfig.Insecure => client_verifier webpki tls = null_verifier
  | _ => ∃ roots,
      configured_roots load_certificates (ClientConfig.transport config) = Ok roots
      ∧ client_verifier webpki tls = webpki roots
  end.
Proof.
  intros Hq Ht.
  destruct (ClientConfig.quic_client_tls_settings _ _ _ _ _ Hq) as [Hskip _].
  assert (ct_null_verifier tls = ClientConfig.q_skip_server_verification q
    ∧ match ClientConfig.q_root_ca_path q with
      | Some path => ∃ certs, load_certificates path = Ok certs ∧ ct_roots tls = FileRoots certs
      | None => ct_roots tls = WebpkiRoots
      end) as [Hn Hr].
  { unfold client_tls_config in Ht. destruct (ClientConfig.q_root_ca_path q) as [p|];
      [destruct (load_certificates p) as [certs|]; [|done]|]; cbn in Ht;
      (destruct (ClientConfig.q_client_cert_key_paths q) as [[c k]|];
       [destruct (load_certificates c); [|done]; cbn in Ht;
        destruct (load_private_key k); [|done]|]); cbn in Ht;
      injection Ht as <-; split; eauto. }
  unfold client_verifier. rewrite Hn.
  destruct (ClientConfig.q_skip_server_verification q) eqn:E.
  - by rewrite (proj1 Hskip eq_refl).
  - assert (∃ roots, configured_roots load_certificates (ClientConfig.transport config)
                     = Ok roots ∧ webpki (ct_roots tls) = webpki roots) as Hroots.
    { exists (ct_roots tls). split; [|done]. unfold configured_roots.
      rewrite <-(ClientConfig.quic_client_root _ _ _ _ _ Hq E).
      destruct (ClientConfig.q_root_ca_path q); [|by rewrite Hr].
      by destruct Hr as (certs & -> & ->). }
    destruct (ClientConfig.tls_mode _) as [[]|]; try done.
    by discriminate (proj2 Hskip eq_refl).
Qed.

Lemma server_identity_checked_witness :
  let config := ClientConfig.mkService [] (bytes_of "a:1") None
    (ClientConfig.mkEndpoint None None None)
    (ClientConfig.mkTransport None None (Some ClientConfig.Tls) (Some (bytes_of "ca")) None
       None None None None None None None None) (ClientConfig.mkLogging None) in
  let webpki (r : Roots (Cert := nat)) :=
    mkVerifier (λ c _ _ _ _, match r with
      | FileRoots [root] => if Nat.eqb c root then Ok tt else Err "unknown issuer"%string
      | _ => Err "unknown issuer"%string end) (λ _ _ _, Ok tt) (λ _ _ _, Ok tt) in
  ∃ q tls,
    ClientConfig.quic_client_from_config
      (λ _, Ok [SockV4 (mkSA4 v4_unspecified 1)]) (λ _, Ok tt) (λ _, Ok tt) config = Ok q
    ∧ client_tls_config (λ _, Ok [7%nat]) (λ _, Ok 0%nat) q = Ok tls
    ∧ ∃ roots, configured_roots (λ _, Ok [7%nat]) (ClientConfig.transport config) = Ok roots
        ∧ client_verifier webpki tls = webpki roots.
Proof.
  intros config webpki. eexists _, _. split; [reflexivity|]. split; [reflexivity|].
  exact (server_identity_checked webpki (λ _, Ok [7%nat]) (λ _, Ok 0%nat)
    (λ _, Ok [SockV4 (mkSA4 v4_unspecified 1)]) (λ _, Ok tt) (λ _, Ok tt) config _ _
    eq_refl eq_refl).
Defined.
