(* ===== verification/Cli.v ===== *)
(** Where configurations come from: the command line (config/cli.rs of the client
    and of the server), JSON text and files (config/json.rs), and the functions that
    load them (config/mod.rs). Parsing arguments is the [clap] crate and parsing JSON
    [serde_json]: the model starts from the parsed arguments and has the parser of
    JSON as a parameter. *)

From S2P Require Import Prelude Std Parse.
From S2P Require ClientConfig ServerConfig.

(** [config_path.exists()] and [std::fs::read_to_string]. *)
Class FileSystem := {
  exists_path : Bytes → bool;
  read_to_string : Bytes → io_result Bytes
}.

(** [JsonConfig::from_file], for either crate's [from_json_str]. *)
Definition from_file `{FileSystem} {J} (from_json_str : Bytes → Result string J)
    (config_path : Bytes) : Result string J :=
  if negb (exists_path config_path) then Err "Configuration file not found: "%string
  else
    content ← map_err msg (read_to_string config_path);
    from_json_str content.

(** ** The client *)

Module Client.
Import ClientConfig.

Record CliTunConfig := mkCliTun {
  a_tun_fd : option Z;
  a_tun_ipv4 : option Bytes;
  a_tun_ipv6 : option Bytes;
  a_tun_mtu : option Z;
  a_fake_dns : option Bytes;
  a_disable_udp_443 : option bool
}.

Record CliEndpointConfig := mkCliEndpoint {
  a_http : option SocketAddr;
  a_socks : option SocketAddr;
  a_tun : option CliTunConfig
}.

Record CliTransportConfig := mkCliTransport {
  a_bind : option SocketAddr;
  a_server_name : option Bytes;
  a_tls_mode : option TlsMode;
  a_ca_cert : option Bytes;
  a_client_cert : option Bytes;
  a_client_key : option Bytes;
  a_zero_rtt : option bool;
  a_alpn_protocols : option (list Bytes);
  a_congestion : option Congestion;
  a_cwnd_init : option Z;
  a_idle_timeout : option Z;
  a_keep_alive : option Z;
  a_max_streams : option Z
}.

Record CliLoggingConfig := mkCliLogging { a_log_level : option Bytes }.

(** [Args]. *)
Record Args := mkArgs {
  config : option Bytes;
  a_secret : option Bytes;
  a_server : option Bytes;
  a_auth_option : option Bytes;
  a_endpoint : CliEndpointConfig;
  a_transport : CliTransportConfig;
  a_logging : CliLoggingConfig
}.

Definition into_tun_config (t : CliTunConfig) : TunConfig :=
  mkTunConfig (a_tun_fd t) (a_tun_ipv4 t) (a_tun_ipv6 t) (a_tun_mtu t) (a_fake_dns t)
    (a_disable_udp_443 t).

Definition into_endpoint_config (e : CliEndpointConfig) : EndpointConfig :=
  mkEndpoint (a_http e) (a_socks e) (into_tun_config <$> a_tun e).

Definition into_transport_config (t : CliTransportConfig) : TransportConfig :=
  mkTransport (a_bind t) (a_server_name t) (a_tls_mode t) (a_ca_cert t) (a_client_cert t)
    (a_client_key t) (a_zero_rtt t) (a_alpn_protocols t) (a_congestion t) (a_cwnd_init t)
    (a_idle_timeout t) (a_keep_alive t) (a_max_streams t).

Definition into_logging_config (l : CliLoggingConfig) : LoggingConfig := mkLogging (a_log_level l).

(** [Args::parse_to_config]. *)
Definition parse_to_config (args : Args) : CliConfig :=
  mkCli (a_secret args) (a_server args) (a_auth_option args)
    (into_endpoint_config (a_endpoint args)) (into_transport_config (a_transport args))
    (into_logging_config (a_logging args)).

Section load.
Context `{FileSystem} (from_json_str : Bytes → Result string JsonConfig).

(** [load], on the parsed arguments. *)
Definition load (cli_args : Args) : Result string ServiceConfig :=
  let builder := builder_new in
  builder ← match config cli_args with
            | Some config_path =>
              json_config ← from_file from_json_str config_path;
              Ok (merge_json builder json_config)
            | None => Ok builder
            end;
  build (merge_cli builder (parse_to_config cli_args)).

(** [load_from_json]. *)
Definition load_from_json (json_str : Bytes) : Result string ServiceConfig :=
  json_config ← from_json_str json_str;
  build (merge_json builder_new json_config).

(** [load_from_file]. *)
Definition load_from_file (config_path : Bytes) : Result string ServiceConfig :=
  json_config ← from_file from_json_str config_path;
  build (merge_json builder_new json_config).

(** What [clap] makes sure of: [required_unless_present]. *)
Definition required (args : Args) : Prop :=
  config args = None → is_Some (a_secret args) ∧ is_Some (a_server args).

(** The command line that names a file and nothing else. *)
Definition only_config (path : Bytes) : Args :=
  mkArgs (Some path) None None None (mkCliEndpoint None None None)
    (mkCliTransport None None None None None None None None None None None None None)
    (mkCliLogging None).

Lemma merge_cli_nothing b path : merge_cli b (parse_to_config (only_config path)) = b.
Proof. destruct b as [? ? ? [? ? []] [] []]; reflexivity. Qed.

Lemma load_is args :
  load args =
    match config args with
    | Some path =>
      json ← from_file from_json_str path; ClientConfig.load (Some json) (parse_to_config args)
    | None => ClientConfig.load None (parse_to_config args)
    end.
Proof.
  unfold load, ClientConfig.load. destruct (config args) as [path|]; [|done].
  by destruct (from_file _ path).
Qed.

(** C28. The three ways to load a client's configuration agree, and the command line
    is the strongest source. Naming a file on the command line and nothing else is
    [load_from_file], which is [load_from_json] of its text. Without a file the
    arguments [clap] insists on are enough: loading cannot fail. With one, a file that
    is missing, cannot be read or does not parse is an error whatever else the command
    line holds; otherwise the secret, the server and each transport setting are those
    of the command line where given, then the file's, then the default, and only a
    secret or a server in neither source is an error. *)
Theorem client_load_sources args :
  required args →
  (∀ path, load (only_config path) = load_from_file path)
  ∧ (∀ path text, exists_path path = true → read_to_string path = Ok text →
       load_from_file path = load_from_json text)
  ∧ (config args = None → ∃ c, load args = Ok c ∧ Some (secret c) = a_secret args
       ∧ Some (server c) = a_server args)
  ∧ (∀ path, exists_path path = false ∨ is_ok (read_to_string path) = false →
       is_ok (load_from_file path) = false
       ∧ (config args = Some path → is_ok (load args) = false))
  ∧ (∀ path text, config args = Some path → exists_path path = true →
       read_to_string path = Ok text →
       match from_json_str text with
       | Err e => load args = Err e
       | Ok json =>
         (is_ok (load args) = true ↔ is_Some (opt_or (a_secret args) (j_secret json))
                                     ∧ is_Some (opt_or (a_server args) (j_server json)))
         ∧ ∀ c, load args = Ok c →
             Some (secret c) = opt_or (a_secret args) (j_secret json)
             ∧ Some (server c) = opt_or (a_server args) (j_server json)
             ∧ ∀ A (f : TransportConfig → option A), setting A f →
                 f (transport c) =
                   opt_or (f (into_transport_config (a_transport args)))
                     (opt_or (given (j_transport json) f) (f transport_default))
       end).
Proof.
  intros Hreq. split_and!.
  - intros path. unfold load, load_from_file. cbn [config only_config].
    destruct (from_file from_json_str path) as [json|e]; [|done].
    cbn [mbind Result_mbind]. by rewrite merge_cli_nothing.
  - intros path text He Hr. unfold load_from_file, load_from_json, from_file. by rewrite He, Hr.
  - intros Hc. destruct (Hreq Hc) as [[s Hs] [v Hv]]. rewrite load_is, Hc.
    pose proof (load_precedence None (parse_to_config args)) as Hl.
    cbn [c_secret c_server parse_to_config given] in Hl. rewrite Hs, Hv in *.
    destruct (ClientConfig.load None _) as [c|e]; [|by destruct Hl as [[_ ?]|(_ & _ & ?)]].
    destruct Hl as (H1 & H2 & _). by exists c.
  - intros path Hf. assert (∃ e, from_file from_json_str path = Err e) as [e He].
    { unfold from_file. destruct (exists_path path); cbn; [|by eexists].
      destruct (read_to_string path); [by destruct Hf|by eexists]. }
    unfold load_from_file. rewrite He. split; [done|]. intros Hc. by rewrite load_is, Hc, He.
  - intros path text Hc He Hr. rewrite load_is, Hc. unfold from_file. rewrite He, Hr.
    cbn [negb map_err mbind Result_mbind].
    destruct (from_json_str text) as [json|e]; [|done]. cbn [mbind Result_mbind].
    pose proof (load_precedence (Some json) (parse_to_config args)) as Hl.
    cbn [c_secret c_server c_transport parse_to_config given] in Hl.
    destruct (ClientConfig.load (Some json) _) as [c|e].
    + destruct Hl as (H1 & H2 & _ & H3 & _). split.
      * rewrite <-H1, <-H2. split; [|done]. intros _. split; by eexists.
      * intros c' [= <-]. split_and!; [done|done|]. exact H3.
    + split; [|done]. cbn. split; [done|].
      destruct Hl as [[_ ->]|(_ & _ & ->)]; by intros [[] []].
Qed.
End load.
End Client.

(** ** The server *)

Module Server.
Import ServerConfig.

Record CliTransportConfig := mkCliTransport {
  a_tls_mode : option TlsMode;
  a_ca_cert : option Bytes;
  a_tls_cert : option Bytes;
  a_tls_key : option Bytes;
  a_zero_rtt : option bool;
  a_alpn_protocols : option (list Bytes);
  a_congestion : option Congestion;
  a_cwnd_init : option Z;
  a_idle_timeout : option Z;
  a_keep_alive : option Z;
  a_max_streams : option Z
}.

Record CliLoggingConfig := mkCliLogging { a_log_level : option Bytes }.

(** [Args]. *)
Record Args := mkArgs {
  config : option Bytes;
  a_secret : option Bytes;
  a_listen : option SocketAddr;
  a_transport : CliTransportConfig;
  a_logging : CliLoggingConfig
}.

Definition into_transport_config (t : CliTransportConfig) : TransportConfig :=
  mkTransport (a_tls_mode t) (a_ca_cert t) (a_tls_cert t) (a_tls_key t) (a_zero_rtt t)
    (a_alpn_protocols t) (a_congestion t) (a_cwnd_init t) (a_idle_timeout t) (a_keep_alive t)
    (a_max_streams t).

Definition into_logging_config (l : CliLoggingConfig) : LoggingConfig := mkLogging (a_log_level l).

(** [Args::parse_to_config]. *)
Definition parse_to_config (args : Args) : CliConfig :=
  mkCli (a_secret args) (a_listen args) (into_transport_config (a_transport args))
    (into_logging_config (a_logging args)).

Section load.
Context `{FileSystem} (from_json_str : Bytes → Result string JsonConfig).

(** [load], on the parsed arguments. *)
Definition load (cli_args : Args) : Result string ServiceConfig :=
  let builder := builder_new in
  builder ← match config cli_args with
            | Some config_path =>
              json_config ← from_file from_json_str config_path;
              Ok (merge_json builder json_config)
            | None => Ok builder
            end;
  build (merge_cli builder (parse_to_config cli_args)).

(** [load_from_json]. *)
Definition load_from_json (json_str : Bytes) : Result string ServiceConfig :=
  json_config ← from_json_str json_str;
  build (merge_json builder_new json_config).

(** [load_from_file]. *)
Definition load_from_file (config_path : Bytes) : Result string ServiceConfig :=
  json_config ← from_file from_json_str config_path;
  build (merge_json builder_new json_config).

Definition only_config (path : Bytes) : Args :=
  mkArgs (Some path) None None
    (mkCliTransport None None None None None None None None None None None) (mkCliLogging None).

Lemma server_merge_cli_nothing b path : merge_cli b (parse_to_config (only_config path)) = b.
Proof. destruct b as [? ? [] [] []]; reflexivity. Qed.

(** As for the client; the limits on connections have no argument, so only a file
    changes them. *)
Lemma server_load_sources args :
  (∀ path, load (only_config path) = load_from_file path)
  ∧ (config args = None → is_Some (a_secret args) → is_Some (a_listen args) →
       ∃ c, load args = Ok c ∧ connection c = connection_default)
  ∧ (∀ path json c, config args = Some path → from_file from_json_str path = Ok json →
       load args = Ok c →
       Some (secret c) = opt_or (a_secret args) (j_secret json)
       ∧ Some (listen c) = opt_or (a_listen args) (j_listen json)
       ∧ connection c = match j_connection json with
                        | Some k => merge_connection connection_default k
                        | None => connection_default
                        end).
Proof.
  split_and!.
  - intros path. unfold load, load_from_file. cbn [config only_config].
    destruct (from_file from_json_str path) as [json|e]; [|done].
    cbn [mbind Result_mbind]. by rewrite server_merge_cli_nothing.
  - intros Hc [s Hs] [l Hl]. unfold load. rewrite Hc. unfold build. cbn. rewrite Hs, Hl. cbn.
    by eexists.
  - intros path json c Hc Hj. unfold load. rewrite Hc, Hj. cbn.
    unfold build. cbn. rewrite !ClientConfig.set_if_or.
    destruct (a_secret args), (j_secret json); cbn; try done;
      destruct (a_listen args), (j_listen json); cbn; try done; by intros [= <-].
Qed.
End load.
End Server.

(** ** The theorem at a concrete input *)

#[local] Instance demo_files : FileSystem := {
  exists_path p := bool_decide (p = bytes_of "c.json");
  read_to_string _ := Ok (bytes_of "{}")
}.

Definition demo_json (text : Bytes) : Result string ClientConfig.JsonConfig :=
  Ok (ClientConfig.mkJson (Some (bytes_of "file")) (Some (bytes_of "a:1")) None None None None).

Definition demo_args : Client.Args :=
  Client.mkArgs (Some (bytes_of "c.json")) (Some (bytes_of "arg")) None None
    (Client.mkCliEndpoint None None None)
    (Client.mkCliTransport None None None None None None (Some true) None None None None None None)
    (Client.mkCliLogging None).

Lemma client_load_sources_witness :
  ∃ c, Client.load demo_json demo_args = Ok c
    ∧ ClientConfig.secret c = bytes_of "arg" ∧ ClientConfig.server c = bytes_of "a:1"
    ∧ ClientConfig.zero_rtt (ClientConfig.transport c) = Some true
    ∧ ClientConfig.max_streams (ClientConfig.transport c) = Some 100%Z.
Proof.
  destruct (Client.client_load_sources demo_json demo_args ltac:(discriminate))
    as (_ & _ & _ & _ & Hl).
  destruct (Hl (bytes_of "c.json") _ eq_refl eq_refl eq_refl) as [Hok Hc].
  destruct (Client.load demo_json demo_args) as [c|e] eqn:E.
  - destruct (Hc c eq_refl) as (Hs & Hv & Hf).
    exists c. split; [reflexivity|].
    split; [injection Hs; auto|]. split; [injection Hv; auto|].
    split; [exact (Hf _ _ ClientConfig.s_zero_rtt)|exact (Hf _ _ ClientConfig.s_max_streams)].
  - discriminate E.
Defined.
