(* ===== verification/Logging.v ===== *)
(** Logging of the client and of the server (the logging/ffi.rs and
    logging/binary.rs of both crates, whose code is the same): the callback, the
    guard of the appender that feeds it, and the global subscriber. *)

From S2P Require Import Prelude Std Parse.

(** ** The global subscriber *)

(** What is installed: the appender its layer writes to, and the directives of
    its filter. *)
Record Subscriber := mkSubscriber { appender : nat; directives : Bytes }.

(** The [tracing] dispatcher of the process: [SubscriberInitExt::try_init]
    succeeds once, when nothing was set before. *)
Class GlobalDefault (D : Type) := {
  current : D → option Subscriber;
  try_init : Subscriber → D → bool * D;
  try_init_first d s : current d = None → fst (try_init s d) = true;
  try_init_sets d s : current d = None → current (snd (try_init s d)) = Some s;
  try_init_again d s : current d ≠ None → try_init s d = (false, d)
}.
#[global] Hint Mode GlobalDefault ! : typeclass_instances.

#[export] Program Instance GlobalDefault_option : GlobalDefault (option Subscriber) := {|
  current := id;
  try_init s d := match d with Some _ => (false, d) | None => (true, Some s) end
|}.
Solve All Obligations with intros [?|] ?; simpl; congruence.

(** ** The state *)

Section logging.
(** A C function for log messages, and the dispatcher. *)
Context {CB D : Type} `{GlobalDefault D}.

(** [LOG_CALLBACK], [LOG_GUARD] with its poisoned flag, the dispatcher, and the
    appenders made so far: an appender's worker runs while its guard is held. *)
Record LogState := mkLog {
  log_callback : option CB;
  log_guard : option nat;
  log_poisoned : bool;
  dispatcher : D;
  appenders : nat
}.

(** [EnvFilter::try_from_default_env], and the level of the configuration. *)
Definition log_filter (env : option Bytes) (log_level : option Bytes) : Bytes :=
  match env with
  | Some value => value
  | None => default (bytes_of "info") log_level
  end.

(** [set_log_callback]. *)
Definition set_log_callback (callback : option CB) (l : LogState) : LogState :=
  mkLog callback (log_guard l) (log_poisoned l) (dispatcher l) (appenders l).

(** [FfiWriter::write]: what it returns and the calls it makes. *)
Definition ffi_write (buf : Bytes) (l : LogState) : io_result Z * list (CB * Bytes) :=
  (Ok (Z.of_nat (length buf)),
   match log_callback l with
   | Some callback =>
     let message_bytes :=
       if decide (last buf = Some Byte.x0a) then take (length buf - 1) buf else buf in
     [(callback, message_bytes)]
   | None => []
   end).

(** [init_for_ffi]; [false] when it panics, which poisons the mutex when it is
    held. *)
Definition init_for_ffi (env log_level : option Bytes) (l : LogState) : bool * LogState :=
  let filter := log_filter env log_level in
  let guard := appenders l in
  if log_poisoned l then
    (false, mkLog (log_callback l) (log_guard l) true (dispatcher l) (S guard))
  else
    let '(ok, d) := try_init (mkSubscriber guard filter) (dispatcher l) in
    (ok, mkLog (log_callback l) (Some guard) (negb ok) d (S guard)).

(** [init_for_binary]: the guard is forgotten, so its appender runs on. *)
Definition init_for_binary (env log_level : option Bytes) (l : LogState) : bool * LogState :=
  let filter := log_filter env log_level in
  let guard := appenders l in
  let '(ok, d) := try_init (mkSubscriber guard filter) (dispatcher l) in
  (ok, mkLog (log_callback l) (log_guard l) (log_poisoned l) d (S guard)).

(** [shutdown_logging]; [false] when it panics. *)
Definition shutdown_logging (l : LogState) : bool * LogState :=
  if log_poisoned l then (false, l)
  else (true, mkLog (log_callback l) None false (dispatcher l) (appenders l)).

(** ** Laws *)

(** Whether the records of the program reach the callback's writer: the
    subscriber's appender is the one whose guard is held. *)
Definition delivering (l : LogState) : bool :=
  match current (dispatcher l), log_guard l with
  | Some s, Some g => Nat.eqb (appender s) g
  | _, _ => false
  end.

(** What holds of every state: guards and subscribers name appenders that were
    made, and a poisoned mutex holds a guard that no subscriber uses. *)
Definition log_ok (l : LogState) : Prop :=
  (∀ g, log_guard l = Some g → (g < appenders l)%nat)
  ∧ (∀ s, current (dispatcher l) = Some s → (appender s < appenders l)%nat)
  ∧ (log_poisoned l = true → current (dispatcher l) ≠ None ∧ delivering l = false).

Lemma init_for_ffi_first env level l :
  log_poisoned l = false → current (dispatcher l) = None →
  fst (init_for_ffi env level l) = true
  ∧ current (dispatcher (snd (init_for_ffi env level l)))
    = Some (mkSubscriber (appenders l) (log_filter env level))
  ∧ log_poisoned (snd (init_for_ffi env level l)) = false
  ∧ delivering (snd (init_for_ffi env level l)) = true.
Proof.
  intros Hp Hd. unfold init_for_ffi, delivering. rewrite Hp.
  pose proof (try_init_first _ (mkSubscriber (appenders l) (log_filter env level)) Hd) as Ho.
  pose proof (try_init_sets _ (mkSubscriber (appenders l) (log_filter env level)) Hd) as Hs.
  destruct (try_init _ _) as [ok d]. cbn in *. subst ok. rewrite Hs. cbn.
  by rewrite Nat.eqb_refl.
Qed.

Lemma init_for_ffi_again env level l :
  current (dispatcher l) ≠ None →
  fst (init_for_ffi env level l) = false
  ∧ dispatcher (snd (init_for_ffi env level l)) = dispatcher l
  ∧ log_poisoned (snd (init_for_ffi env level l)) = true.
Proof.
  intros Hd. unfold init_for_ffi. destruct (log_poisoned l); [done|].
  by rewrite try_init_again.
Qed.

Lemma init_for_ffi_sets env level l :
  current (dispatcher l) ≠ None ∨ log_poisoned l = false →
  current (dispatcher (snd (init_for_ffi env level l))) ≠ None.
Proof.
  intros Hd. destruct (current (dispatcher l)) as [s|] eqn:E.
  - destruct (init_for_ffi_again env level l) as (_ & -> & _); rewrite E; done.
  - destruct Hd as [|Hp]; [done|].
    destruct (init_for_ffi_first env level l Hp E) as (_ & -> & _). done.
Qed.

Lemma log_ok_init env level l : log_ok l → log_ok (snd (init_for_ffi env level l)).
Proof.
  intros (Hg & Hs & Hp). destruct (current (dispatcher l)) as [s|] eqn:E.
  - assert (current (dispatcher l) ≠ None) as Hd by (by rewrite E).
    specialize (Hs s eq_refl).
    unfold init_for_ffi. destruct (log_poisoned l) eqn:Ep.
    + destruct (Hp eq_refl) as [_ Hdl]. unfold log_ok, delivering in *. cbn. rewrite E in *.
      split_and!; [intros g Hg'; specialize (Hg g Hg'); lia|intros ? [= <-]; lia|done].
    + rewrite (try_init_again _ _ Hd). unfold log_ok, delivering. cbn. rewrite E.
      split_and!; [intros g [= <-]; lia|intros ? [= <-]; lia|].
      split; [done|]. apply Nat.eqb_neq. lia.
  - assert (log_poisoned l = false) as Ep.
    { destruct (log_poisoned l); [|done]. by destruct (Hp eq_refl). }
    destruct (init_for_ffi_first env level l Ep E) as (_ & Hc & Hp' & _).
    unfold log_ok. rewrite Hc, Hp'. split_and!; [|intros ? [= <-]; cbn|done].
    + intros g. unfold init_for_ffi. rewrite Ep. destruct (try_init _ _) as [ok d].
      cbn. intros [= <-]. lia.
    + unfold init_for_ffi. rewrite Ep. destruct (try_init _ _) as [ok d]. cbn. lia.
Qed.

Lemma log_ok_shutdown l : log_ok l → log_ok (snd (shutdown_logging l)).
Proof.
  intros Hl. unfold shutdown_logging. destruct (log_poisoned l) eqn:E; [done|].
  by destruct Hl as (_ & Hs & _).
Qed.

Lemma log_ok_callback c l : log_ok l → log_ok (set_log_callback c l).
Proof. done. Qed.
End logging.
Arguments LogState : clear implicits.
