(* ===== verification/Ffi.v ===== *)
(** The C interfaces of the client and of the server
    (crates/ombrac-client/src/ffi.rs, crates/ombrac-server/src/ffi.rs): one
    service per process behind a global handle. The two files have the same code
    around different services, so the operations are written once, for a service
    and its configuration, and used twice. *)

From S2P Require Import Prelude Std Parse Logging.
From S2P Require ClientConfig ServerConfig Cli.

#[local] Open Scope Z_scope.

(** ** C strings *)

(** [CStr::from_ptr]: the bytes before the first NUL of the memory at a pointer. *)
Fixpoint c_str (memory : Bytes) : Bytes :=
  match memory with
  | [] => []
  | b :: memory => if decide (b = Byte.x00) then [] else b :: c_str memory
  end.

(** [c_str_to_string], [None] being the null pointer. *)
Definition c_str_to_string (s : option Bytes) : Bytes :=
  match s with
  | None => []
  | Some memory => if utf8_valid (c_str memory) then c_str memory else []
  end.

(** ** The service *)

(** What [Runtime::block_on] makes of a future: it returns what the future gives,
    passes on its panic, or waits for ever. *)
Inductive BlockOn (A : Type) :=
  | Returned (a : A)
  | Panicked
  | Forever.
Arguments Returned {A} a.
Arguments Panicked {A}.
Arguments Forever {A}.

Section ffi.
Context {CB D Svc Rt Cfg : Type} `{GlobalDefault D}.
(** [load_from_json], and the log level in a configuration. *)
Context (load_from_json : Bytes → Result string Cfg) (level_of : Cfg → option Bytes).

(** [ServiceHandle]. *)
Record ServiceHandle := mkHandle { service : option Svc; runtime : Rt }.

(** The statics of the library: those of the logging and [SERVICE_HANDLE], whose
    users do not mind that its mutex is poisoned. *)
Record World := mkWorld { log : LogState CB D; service_handle : option ServiceHandle }.

(** What a startup gets from its environment: [RUST_LOG], the runtime, and what
    [build] does on it. *)
Record StartEnv := mkStartEnv {
  rust_log : option Bytes;
  new_runtime : io_result Rt;
  build : Rt → Cfg → BlockOn (Result string Svc)
}.

(** [..._set_log_callback], [None] being the null pointer. *)
Definition ffi_set_log_callback (callback : option CB) (w : World) : World :=
  mkWorld (set_log_callback callback (log w)) (service_handle w).

(** [..._service_startup]: the [catch_unwind] turns a panic into [-1]; [None] is a
    call that never returns. *)
Definition service_startup (env : StartEnv) (config_json : option Bytes) (w : World)
    : option Z * World :=
  let config_str := c_str_to_string config_json in
  match load_from_json config_str with
  | Err _ => (Some (-1), w)
  | Ok service_config =>
    match init_for_ffi (rust_log env) (level_of service_config) (log w) with
    | (false, l) => (Some (-1), mkWorld l (service_handle w))
    | (true, l) =>
      let w := mkWorld l (service_handle w) in
      match new_runtime env with
      | Err _ => (Some (-1), w)
      | Ok rt =>
        match build env rt service_config with
        | Forever => (None, w)
        | Panicked => (Some (-1), w)
        | Returned (Err _) => (Some (-1), w)
        | Returned (Ok service) =>
          match service_handle w with
          | Some _ => (Some (-1), w)
          | None => (Some 0, mkWorld (log w) (Some (mkHandle (Some service) rt)))
          end
        end
      end
    end
  end.

(** [..._service_rebind], with what [rebind] does on the runtime. *)
Definition service_rebind (rebind : Rt → Svc → BlockOn (io_result unit)) (w : World) : option Z :=
  match service_handle w with
  | Some handle =>
    match service handle with
    | Some service =>
      match rebind (runtime handle) service with
      | Forever => None
      | Panicked => Some (-1)
      | Returned (Err _) => Some (-1)
      | Returned (Ok _) => Some 0
      end
    | None => Some (-1)
    end
  | None => Some (-1)
  end.

(** The part of [..._service_shutdown] under the handle's mutex, with what the
    shutdown of the service does on the runtime: whether it returns, and the
    service it shut down. A panic of the service is caught on the spot. *)
Definition stop_service (stop : Rt → Svc → BlockOn unit) (handle : option ServiceHandle)
    : bool * list (Svc * Rt) :=
  match handle with
  | Some (mkHandle (Some service) runtime) =>
    (match stop runtime service with Forever => false | _ => true end, [(service, runtime)])
  | _ => (true, [])
  end.

(** [..._service_shutdown]: what it returns and the services it shut down. The
    handle is taken first. A panic of [shutdown_logging] is caught by the outer
    [catch_unwind], after which it is called again. *)
Definition service_shutdown (stop : Rt → Svc → BlockOn unit) (w : World)
    : option Z * list (Svc * Rt) * World :=
  match stop_service stop (service_handle w) with
  | (false, stopped) => (None, stopped, mkWorld (log w) None)
  | (true, stopped) =>
    match shutdown_logging (log w) with
    | (true, l) => (Some 0, stopped, mkWorld l None)
    | (false, l) => (Some 0, stopped, mkWorld (snd (shutdown_logging l)) None)
    end
  end.

(** ** Sequences of calls *)

Inductive Call :=
  | SetLogCallback (callback : option CB)
  | Startup (env : StartEnv) (config_json : option Bytes)
  | Rebind (rebind : Rt → Svc → BlockOn (io_result unit))
  | Shutdown (stop : Rt → Svc → BlockOn unit).

(** What the caller gets: nothing from the callback's setter, a number, or never
    anything. *)
Inductive Answer := NoValue | Code (z : Z) | NeverReturns.

Definition answer (r : option Z) : Answer :=
  match r with Some z => Code z | None => NeverReturns end.

(** A call, and the statics after it. *)
Definition call (c : Call) (w : World) : Answer * World :=
  match c with
  | SetLogCallback callback => (NoValue, ffi_set_log_callback callback w)
  | Startup env config_json =>
    let '(r, w) := service_startup env config_json w in (answer r, w)
  | Rebind rebind => (answer (service_rebind rebind w), w)
  | Shutdown stop => let '(r, _, w) := service_shutdown stop w in (answer r, w)
  end.

(** The calls of a thread, one after the other: none follows one that does not
    return. *)
Fixpoint calls (cs : list Call) (w : World) : list Answer * World :=
  match cs with
  | [] => ([], w)
  | c :: cs =>
    match call c w with
    | (NeverReturns, w) => ([NeverReturns], w)
    | (r, w) => let '(rs, w) := calls cs w in (r :: rs, w)
    end
  end.

(** The statics of a process that has just loaded the library. *)
Definition world_new (dispatcher : D) : World := mkWorld (mkLog None None false dispatcher 0) None.

(** ** Invariant *)

(** Whether a call gets past the configuration. *)
Definition loads (c : Call) : bool :=
  match c with
  | Startup _ config_json => is_ok (load_from_json (c_str_to_string config_json))
  | _ => false
  end.

Definition installed (w : World) : Prop := current (dispatcher (log w)) ≠ None.

Definition world_ok (w : World) : Prop :=
  log_ok (log w) ∧ (service_handle w ≠ None → installed w).

(** What a startup answers when the configuration loads and no subscriber is
    installed. *)
Definition start_answer (env : StartEnv) (cfg : Cfg) : option Z :=
  match new_runtime env with
  | Err _ => Some (-1)
  | Ok rt =>
    match build env rt cfg with
    | Forever => None
    | Returned (Ok _) => Some 0
    | _ => Some (-1)
    end
  end.

Lemma startup_answer env json w :
  world_ok w →
  fst (service_startup env json w) =
    match load_from_json (c_str_to_string json) with
    | Err _ => Some (-1)
    | Ok cfg => if current (dispatcher (log w)) then Some (-1) else start_answer env cfg
    end
  ∧ service_handle (snd (service_startup env json w)) =
    match load_from_json (c_str_to_string json), current (dispatcher (log w)), new_runtime env with
    | Ok cfg, None, Ok rt =>
      match build env rt cfg with
      | Returned (Ok s) => Some (mkHandle (Some s) rt)
      | _ => service_handle w
      end
    | _, _, _ => service_handle w
    end.
Proof.
  intros [(_ & _ & Hp) Hh]. unfold service_startup, start_answer, installed in *.
  destruct (load_from_json _) as [cfg|] eqn:Ec; [|done].
  destruct (current (dispatcher (log w))) as [s'|] eqn:E.
  - destruct (init_for_ffi_again (rust_log env) (level_of cfg) (log w)) as [Hf _]; [by rewrite E|].
    destruct (init_for_ffi _ _ _) as [ok l]. cbn in Hf. by subst ok.
  - assert (service_handle w = None) as Hn by (destruct (service_handle w); [by destruct Hh|done]).
    destruct (init_for_ffi_first (rust_log env) (level_of cfg) (log w)) as [Hi _]; [|done|].
    { destruct (log_poisoned (log w)); [by destruct Hp|done]. }
    destruct (init_for_ffi _ _ _) as [ok l]. cbn in Hi. subst ok.
    destruct (new_runtime env) as [rt|]; [|done].
    destruct (build env rt cfg) as [[s|]| |]; cbn; by rewrite ?Hn.
Qed.

Lemma startup_installs env json w :
  log_ok (log w) →
  is_ok (load_from_json (c_str_to_string json)) = true ∨ installed w →
  installed (snd (service_startup env json w)).
Proof.
  intros (_ & _ & Hp) Hl. unfold service_startup, installed in *.
  destruct (load_from_json _) as [cfg|] eqn:Ec; [clear Hl|by destruct Hl].
  pose proof (init_for_ffi_sets (rust_log env) (level_of cfg) (log w)) as Hs.
  assert (current (dispatcher (log w)) ≠ None ∨ log_poisoned (log w) = false) as Hn.
  { destruct (log_poisoned (log w)); [left; by apply Hp|by right]. }
  specialize (Hs Hn). destruct (init_for_ffi _ _ _) as [[] l]; cbn in *; [|done].
  destruct (new_runtime env) as [rt|]; [|done]. destruct (build env rt cfg) as [[|]| |]; [|done..].
  by destruct (service_handle w).
Qed.

Lemma startup_log_ok env json w :
  log_ok (log w) → log_ok (log (snd (service_startup env json w))).
Proof.
  intros Hl. unfold service_startup. destruct (load_from_json _) as [cfg|]; [|done].
  pose proof (log_ok_init (rust_log env) (level_of cfg) (log w) Hl) as Hi.
  destruct (init_for_ffi _ _ _) as [[] l]; cbn in *; [|done].
  destruct (new_runtime env) as [rt|]; [|done]. destruct (build env rt cfg) as [[|]| |]; [|done..].
  by destruct (service_handle w).
Qed.

Lemma shutdown_spec stop w :
  service_shutdown stop w =
    let '(ends, stopped) := stop_service stop (service_handle w) in
    (if ends then Some 0 else None, stopped,
     mkWorld (if ends then snd (shutdown_logging (log w)) else log w) None).
Proof.
  unfold service_shutdown. destruct (stop_service stop _) as [[] stopped]; [|done].
  destruct (shutdown_logging (log w)) as [[] l] eqn:E; cbn; [done|].
  unfold shutdown_logging in *. destruct (log_poisoned (log w)) eqn:Ep; [|done].
  injection E as <-. by rewrite Ep.
Qed.

Lemma shutdown_installed (l : LogState CB D) : dispatcher (snd (shutdown_logging l)) = dispatcher l.
Proof. unfold shutdown_logging. by destruct (log_poisoned l). Qed.

Lemma call_ok c w :
  world_ok w →
  world_ok (snd (call c w))
  ∧ (installed w ∨ loads c = true → installed (snd (call c w)))
  ∧ (installed w → loads c = true → fst (call c w) = Code (-1)).
Proof.
  intros [Hl Hh]. destruct c as [cb|env json|rebind|stop]; cbn [call loads].
  - split_and!; [by split|by intros [|]|done].
  - pose proof (startup_answer env json w (conj Hl Hh)) as [Ha He].
    pose proof (startup_log_ok env json w Hl) as Hl'.
    pose proof (startup_installs env json w Hl) as Hi.
    destruct (service_startup env json w) as [r w']. cbn in *. split_and!.
    + split; [done|]. intros Hn. apply Hi. rewrite He in Hn.
      destruct (load_from_json _) as [cfg|]; [by left|right; by apply Hh].
    + intros [|]; apply Hi; [by right|by left].
    + unfold installed. intros Hd Hc. destruct (load_from_json _) as [cfg|]; [|done].
      destruct (current (dispatcher (log w))); [by rewrite Ha|done].
  - split_and!; [by split|by intros [|]|done].
  - rewrite shutdown_spec. destruct (stop_service stop _) as [[] stopped]; cbn;
      (split_and!; [|unfold installed; cbn; rewrite ?shutdown_installed; by intros [|]|done]);
      (split; [done || by apply log_ok_shutdown|done]).
Qed.

Lemma calls_ok cs w :
  world_ok w →
  world_ok (snd (calls cs w)) ∧ (installed w → installed (snd (calls cs w)))
  ∧ (installed w → ∀ i c r, cs !! i = Some c → loads c = true →
       fst (calls cs w) !! i = Some r → r = Code (-1)).
Proof.
  revert w. induction cs as [|c cs IH]; intros w Hw; cbn [calls]; [by split_and!|].
  destruct (call_ok c w Hw) as (Hc & Hi & Hr). destruct (call c w) as [r w']. cbn in *.
  destruct (IH w' Hc) as (Ho & Hp & Hf). destruct (calls cs w') as [rs w'']. cbn in *.
  destruct r; cbn; (split_and!; [done|auto|]); intros Hn [|i] c' r'; cbn; try done;
    try (intros [= <-] Hl [= <-]; by apply Hr); intros ???; eapply Hf; eauto.
Qed.

(** A thread that got an answer to every one of its calls goes on from there. *)
Lemma calls_app cs1 cs2 w :
  NeverReturns ∉ fst (calls cs1 w) →
  calls (cs1 ++ cs2) w =
    let '(rs1, w) := calls cs1 w in let '(rs2, w) := calls cs2 w in (rs1 ++ rs2, w).
Proof.
  revert w. induction cs1 as [|c cs1 IH]; intros w; cbn [calls app]; [by destruct (calls cs2 w)|].
  destruct (call c w) as [r w']. specialize (IH w').
  destruct r; cbn; [| |by intros []; left];
    (destruct (calls cs1 w') as [rs1 w1]; cbn in *; intros Hn;
     rewrite IH by (intros ?; apply Hn; by right); by destruct (calls cs2 w1)).
Qed.

Lemma world_new_ok d : current d = None → world_ok (world_new d).
Proof. intros Hd. split; [|done]. split_and!; [done| |done]. cbn. by rewrite Hd. Qed.

(** C38. What the calls do, in any state that calls on a fresh process lead to. A
    startup returns [0] exactly when the configuration loads, no global subscriber
    is installed in the process yet, and the runtime and the service come up; then
    that service is the running one. It never returns exactly when it has come as
    far as the [build] of the service and that never ends; otherwise it returns
    [-1], and in both cases it leaves the running service alone. A shutdown takes
    the service that was running, and no other, shuts it down, and leaves none: it
    never returns if the shutdown of the service does not, and returns [0] if that
    ends or panics, or if there was none; a rebind after it returns [-1]. *)
Theorem service_calls d cs env json stop rebind w :
  current d = None → w = snd (calls cs (world_new d)) →
  (fst (service_startup env json w) = Some 0 ↔
     ∃ cfg rt s, load_from_json (c_str_to_string json) = Ok cfg ∧ ¬ installed w
       ∧ new_runtime env = Ok rt ∧ build env rt cfg = Returned (Ok s)
       ∧ service_handle w = None
       ∧ service_handle (snd (service_startup env json w)) = Some (mkHandle (Some s) rt))
  ∧ (fst (service_startup env json w) = None ↔
     ∃ cfg rt, load_from_json (c_str_to_string json) = Ok cfg ∧ ¬ installed w
       ∧ new_runtime env = Ok rt ∧ build env rt cfg = Forever)
  ∧ (fst (service_startup env json w) ≠ Some 0 →
     service_handle (snd (service_startup env json w)) = service_handle w
     ∧ (fst (service_startup env json w) = Some (-1) ∨ fst (service_startup env json w) = None))
  ∧ (∃ r w', service_shutdown stop w =
       (r, match service_handle w with
           | Some (mkHandle (Some s) rt) => [(s, rt)]
           | _ => []
           end, w')
     ∧ (r = Some 0 ∨ r = None)
     ∧ (r = None ↔ ∃ s rt, service_handle w = Some (mkHandle (Some s) rt) ∧ stop rt s = Forever)
     ∧ service_handle w' = None ∧ service_rebind rebind w' = Some (-1)).
Proof.
  intros Hd ->. destruct (calls_ok cs (world_new d) (world_new_ok d Hd)) as [Hw _].
  set (w := snd (calls cs (world_new d))) in *.
  destruct (startup_answer env json w Hw) as [Ha He]. destruct Hw as [_ Hh].
  unfold installed, start_answer in *. rewrite Ha, He. split_and!.
  - destruct (load_from_json _) as [cfg|]; [|split; [done|by intros (?&?&?&?&?)]].
    destruct (current (dispatcher (log w))) as [x|] eqn:Ex; [split; [done|intros (?&?&?&_&[]&_); done]|].
    assert (service_handle w = None) as Hn by (destruct (service_handle w); [exfalso; by apply Hh|done]).
    destruct (new_runtime env) as [rt|]; [|split; [done|by intros (?&?&?&?&?&?&?)]].
    destruct (build env rt cfg) as [[s|]| |] eqn:Eb; split;
      try (intros (?&?&?&[= <-]&_&[= <-]&?&_); congruence); intros E; try discriminate E.
    exists cfg, rt, s. by split_and!; auto.
  - destruct (load_from_json _) as [cfg|]; [|split; [done|by intros (?&?&?&?)]].
    destruct (current (dispatcher (log w))) as [x|] eqn:Ex; [split; [done|intros (?&?&_&[]&_); done]|].
    destruct (new_runtime env) as [rt|]; [|split; [done|by intros (?&?&?&?&?&?)]].
    destruct (build env rt cfg) as [[s|]| |] eqn:Eb; split;
      try (intros (?&?&[= <-]&_&[= <-]&?); congruence); intros E; try discriminate E.
    exists cfg, rt. by split_and!; auto.
  - destruct (load_from_json _) as [cfg|]; [|auto]. destruct (current (dispatcher (log w))); [auto|].
    destruct (new_runtime env) as [rt|]; [|auto].
    by destruct (build env rt cfg) as [[s|]| |]; auto.
  - rewrite shutdown_spec. unfold stop_service.
    destruct (service_handle w) as [[[s|] rt]|]; [destruct (stop rt s) eqn:Es| |];
      (eexists _, _; split; [reflexivity|]; split; [auto|]; split; [|done]); split; try done;
      try (intros (?&?&[= <- <-]&?); congruence); try (by intros (?&?&?&?)); eauto.
Qed.

(** A process can start the service at most once. After the first startup
    whose configuration loads, whether it succeeded or not, every later one
    returns [-1], however often the service is shut down in between: the
    installation of the global subscriber panics the second time. *)
Theorem restart_fails d before c after w :
  current d = None → loads c = true → NeverReturns ∉ fst (calls before (world_new d)) →
  w = snd (calls (before ++ [c]) (world_new d)) →
  ∀ i c' r, after !! i = Some c' → loads c' = true → fst (calls after w) !! i = Some r →
    r = Code (-1).
Proof.
  intros Hd Hc Hr ->. rewrite calls_app by done.
  destruct (calls_ok before (world_new d) (world_new_ok d Hd)) as [Hw _].
  destruct (calls before (world_new d)) as [rs w1]. cbn in *.
  destruct (call_ok c w1 Hw) as (Hw' & Hi & _). destruct (call c w1) as [r w2]. cbn in *.
  destruct r; cbn; by apply (calls_ok after w2 Hw'); auto.
Qed.

(** A startup while a service runs returns [-1] and leaves the service, but
    not its logging: the new appender's guard replaces the one the subscriber
    writes to, so nothing reaches the callback any more, and as the mutex is
    poisoned no shutdown releases the guard. *)
Theorem second_startup_silences d cs env json stop w w1 w2 :
  current d = None → w = snd (calls cs (world_new d)) → log_poisoned (log w) = false →
  service_handle w ≠ None → is_ok (load_from_json (c_str_to_string json)) = true →
  w1 = snd (service_startup env json w) → w2 = snd (service_shutdown stop w1) →
  fst (service_startup env json w) = Some (-1) ∧ service_handle w1 = service_handle w
  ∧ delivering (log w1) = false ∧ log_guard (log w1) = Some (appenders (log w))
  ∧ log_guard (log w2) = log_guard (log w1).
Proof.
  intros Hd -> Hp Hh Hj -> ->.
  destruct (calls_ok cs (world_new d) (world_new_ok d Hd)) as [[Hl Hi] _].
  set (w := snd (calls cs (world_new d))) in *. specialize (Hi Hh).
  rewrite shutdown_spec. unfold service_startup.
  destruct (load_from_json _) as [cfg|]; [|done].
  pose proof (log_ok_init (rust_log env) (level_of cfg) (log w) Hl) as (_ & _ & Hn).
  destruct (init_for_ffi_again (rust_log env) (level_of cfg) (log w) Hi) as (Hf & _ & Hp').
  assert (log_guard (snd (init_for_ffi (rust_log env) (level_of cfg) (log w)))
          = Some (appenders (log w))) as Hg.
  { unfold init_for_ffi. rewrite Hp. by destruct (try_init _ _). }
  destruct (init_for_ffi _ _ _) as [ok l]. cbn in *. subst ok. cbn.
  destruct (stop_service _ _) as [[] stopped]; cbn;
    (split_and!; [done..|by apply Hn|done|]); [|done]. unfold shutdown_logging. by rewrite Hp'.
Qed.
End ffi.

(** ** The two libraries *)

Section libraries.
Context {CB D Svc Rt : Type} `{GlobalDefault D}.
(** [serde_json::from_str] at the configurations. *)
Context (client_json : Bytes → Result string ClientConfig.JsonConfig).
Context (server_json : Bytes → Result string ServerConfig.JsonConfig).

(** [ombrac_client_service_startup]. *)
Definition ombrac_client_service_startup
    : StartEnv → option Bytes → World (CB := CB) (D := D) → option Z * World (Svc := Svc) (Rt := Rt) :=
  service_startup
    (Cli.Client.load_from_json client_json)
    (λ config, ClientConfig.log_level (ClientConfig.logging config)).

(** [ombrac_server_service_startup]. *)
Definition ombrac_server_service_startup
    : StartEnv → option Bytes → World (CB := CB) (D := D) → option Z * World (Svc := Svc) (Rt := Rt) :=
  service_startup
    (Cli.Server.load_from_json server_json)
    (λ config, ServerConfig.log_level (ServerConfig.logging config)).

(** [ombrac_server_service_shutdown]. *)
Definition ombrac_server_service_shutdown
    : (Rt → Svc → BlockOn unit) → World (CB := CB) (D := D)
      → option Z * list (Svc * Rt) * World := service_shutdown.
End libraries.

(** ** The theorems at concrete inputs *)

(** A configuration is the text itself, refused when empty; the callback of the
    application is number 7, the service is the number of the runtime. *)
Definition demo_load (text : Bytes) : Result string Bytes :=
  match text with [] => Err "missing required field: secret"%string | _ => Ok text end.

Definition demo_env (up : bool) : StartEnv (Svc := nat) (Rt := nat) (Cfg := Bytes) :=
  mkStartEnv None (Ok 3%nat)
    (λ rt _, Returned (if up then Ok rt else Err "no endpoints were configured"%string)).

Definition demo_json : option Bytes := Some [Byte.x7b; Byte.x7d; Byte.x00; Byte.xff].

Abbreviation demo_call := (Call (CB := nat) (Svc := nat) (Rt := nat) (Cfg := Bytes)).

Abbreviation demo_world := (World (CB := nat) (D := option Subscriber) (Svc := nat) (Rt := nat)).
Abbreviation demo_calls := (calls demo_load Some).

Definition demo_started : list demo_call :=
  [SetLogCallback (Some 7%nat); Startup (demo_env true) demo_json].

(** A shutdown that waits for ever, and one that ends. *)
Definition demo_stop (ends : bool) (rt svc : nat) : BlockOn unit :=
  if ends then Returned tt else Forever.

Lemma service_calls_witness :
  let w : demo_world := snd (demo_calls demo_started (world_new None)) in
  service_handle w = Some (mkHandle (Some 3%nat) 3%nat)
  ∧ ∃ r w', service_shutdown (demo_stop false) w = (r, [(3, 3)%nat], w') ∧ r = None
      ∧ service_handle w' = None ∧ service_rebind (λ _ _, Returned (Ok tt)) w' = Some (-1).
Proof.
  intros w. split; [reflexivity|].
  destruct (proj2 (proj2 (proj2 (service_calls (H := GlobalDefault_option) demo_load Some None demo_started (demo_env true)
    demo_json (demo_stop false) (λ _ _, Returned (Ok tt)) w eq_refl eq_refl))))
    as (r & w' & E & _ & Hr & H).
  exists r, w'. split; [exact E|]. split; [|exact H]. apply Hr. exists 3%nat, 3%nat. done.
Defined.

(** The application starts while the server cannot be reached, shuts down and
    tries again when it can. *)
Definition demo_retry : list demo_call :=
  [Shutdown (demo_stop true); Startup (demo_env true) demo_json].

Lemma restart_fails_witness :
  let w : demo_world :=
    snd (demo_calls ([] ++ [Startup (demo_env false) demo_json]) (world_new None)) in
  fst (demo_calls demo_retry w) = [Code 0; Code (-1)]
  ∧ ∀ r, fst (demo_calls demo_retry w) !! 1%nat = Some r → r = Code (-1).
Proof.
  intros w. split; [reflexivity|]. intros r.
  exact (restart_fails demo_load Some None [] (Startup (demo_env false) demo_json) demo_retry w
    eq_refl eq_refl (not_elem_of_nil _) eq_refl 1%nat _ r eq_refl eq_refl).
Defined.

Lemma second_startup_silences_witness :
  let w : demo_world := snd (demo_calls demo_started (world_new None)) in
  let w1 := snd (service_startup demo_load Some (demo_env true) demo_json w) in
  delivering (log w) = true ∧ delivering (log w1) = false
  ∧ log_guard (log (snd (service_shutdown (demo_stop true) w1))) = Some 1%nat.
Proof.
  intros w w1. split; [reflexivity|].
  destruct (second_startup_silences (H := GlobalDefault_option) demo_load Some None demo_started
    (demo_env true) demo_json (demo_stop true) w w1 (snd (service_shutdown (demo_stop true) w1))
    eq_refl eq_refl eq_refl ltac:(discriminate) eq_refl eq_refl eq_refl) as (_ & _ & Hd & Hg & Hs).
  split; [exact Hd|]. rewrite Hs. exact Hg.
Defined.
