(* ===== verification/ServerAuth.v ===== *)
(** Accepting and authenticating client connections on the server
    (crates/ombrac-server/src/connection/mod.rs). *)

From S2P Require Import Prelude Std Stream Protocol Metrics.

#[local] Open Scope Z_scope.

(** ** Authenticators *)

Inductive ConnectionAuthError :=
  | IncompatibleVersion
  | InvalidSecret
  | ServerError
  | OtherAuthError (m : string).

(** [From<ConnectionAuthError> for io::Error]. *)
Definition auth_error_to_io (value : ConnectionAuthError) : IoError :=
  match value with
  | IncompatibleVersion => mkIoError Unsupported "incompatible protocol version"
  | InvalidSecret => mkIoError PermissionDenied "invalid authentication secret"
  | ServerError => mkIoError ConnectionAborted "internal server error during auth"
  | OtherAuthError m => io_other m
  end.

(** The [Authenticator] trait: the handler is proved against it. *)
Class Authenticator (A Ctx : Type) :=
  verify : A → ClientHello → Result ConnectionAuthError Ctx.

(** [impl Authenticator for Secret]. *)
#[export] Instance secret_authenticator : Authenticator Secret unit := λ self hello,
  if decide (hello_secret hello = self) then Ok tt else Err InvalidSecret.

(** ** One connection *)

(** What the handler does that others can see. *)
Inductive AuthEffect (Ctx : Type) :=
  | Delay (ms : Z)
  | ShutdownStream
  | SentResponse (payload : Bytes)
  | Accepted (ctx : Ctx)
  | RanTunnels.
Arguments Delay {Ctx} ms.
Arguments ShutdownStream {Ctx}.
Arguments SentResponse {Ctx} payload.
Arguments Accepted {Ctx} ctx.
Arguments RanTunnels {Ctx}.

(** What the environment decides: the control stream, whether each of the three
    timeouts is met, and the random delay. *)
Record AuthEnv (S : Type) := mkAuthEnv {
  accepted_stream : io_result S;
  hello_in_time : bool;
  verify_in_time : bool;
  send_in_time : bool;
  random_delay_ms : Z
}.
Arguments mkAuthEnv {S}.
Arguments accepted_stream {S} a.
Arguments hello_in_time {S} a.
Arguments verify_in_time {S} a.
Arguments send_in_time {S} a.
Arguments random_delay_ms {S} a.

Section processor.
Context {A Ctx S F : Type} `{Authenticator A Ctx} `{Framed S F}
  `{!Bincode ClientMessage} `{!Bincode ServerAuthResponse}.

#[local] Abbreviation effects := (list (AuthEffect Ctx)).

(** [disconnect_with_random_delay]; the outcome of the shutdown is ignored. *)
Definition disconnect_with_random_delay (env : AuthEnv S) : effects :=
  [Delay (random_delay_ms env); ShutdownStream].

(** [read_hello_message]. *)
Definition read_hello_message (env : AuthEnv S) (control_frame : F)
    : io_result ClientHello * F * effects :=
  if negb (hello_in_time env) then
    (Err (mkIoError TimedOut
       "authentication timeout: failed to receive hello message within "),
     control_frame, [])
  else
    match framed_next control_frame with
    | (None, f) => (Err (mkIoError UnexpectedEof "stream closed before hello"), f, [])
    | (Some (Err e), f) => (Err e, f, [])
    | (Some (Ok payload), f) =>
      match decode payload with
      | Err _ => (Err (mkIoError InvalidData "failed to decode client message: "), f, [])
      | Ok (MsgHello hello) => (Ok hello, f, [])
      | Ok (MsgConnect _) =>
        (Err (mkIoError InvalidData
           "authentication failed: invalid message type (expected Hello)"),
         f, disconnect_with_random_delay env)
      end
    end.

(** [send_auth_ok_response]. [SentResponse] is a whole frame; a send that fails or is
    cut off by the timeout may have written a part of one. *)
Definition send_auth_ok_response (env : AuthEnv S) (control_frame : F)
    : io_result unit * effects :=
  match encode AuthOk with
  | Err e => (Err e, [])
  | Ok payload =>
    if negb (send_in_time env) then
      (Err (mkIoError TimedOut
         "authentication timeout: failed to send response within "), [])
    else
      match framed_send payload control_frame with
      | (Ok _, _) => (Ok tt, [SentResponse payload])
      | (Err e, _) => (Err e, [])
      end
  end.

(** [verify_authentication]. *)
Definition verify_authentication (env : AuthEnv S) (hello : ClientHello)
    (authenticator : A) (control_frame : F) : io_result Ctx * effects :=
  if negb (hello_version hello =? PROTOCOL_VERSION) then
    (Err (mkIoError PermissionDenied "incompatible version"),
     disconnect_with_random_delay env)
  else if negb (verify_in_time env) then
    (Err (mkIoError TimedOut "deadline has elapsed"), [])
  else
    match verify authenticator hello with
    | Err e => (Err (auth_error_to_io e), [])
    | Ok auth_context =>
      let '(r, eff) := send_auth_ok_response env control_frame in
      (match r with Ok _ => Ok auth_context | Err e => Err e end, eff)
    end.

(** [perform_authentication]. *)
Definition perform_authentication (env : AuthEnv S) (authenticator : A)
    : io_result Ctx * effects :=
  match accepted_stream env with
  | Err _ => (Err (io_other "failed to accept bidirectional stream: "), [])
  | Ok stream =>
    let control_frame : F := framed_new stream in
    let '(r, control_frame, eff) := read_hello_message env control_frame in
    match r with
    | Err e => (Err e, eff)
    | Ok hello =>
      let '(r', eff') := verify_authentication env hello authenticator control_frame in
      (r', eff ++ eff')
    end
  end.

(** [ClientConnectionProcessor::handle]. *)
Definition handle (env : AuthEnv S) (authenticator : A) : io_result unit * effects :=
  let '(r, eff) := perform_authentication env authenticator in
  match r with
  | Err e => (Err e, eff)
  | Ok auth_context => (Ok tt, eff ++ [Accepted auth_context; RanTunnels])
  end.
End processor.

(** ** The trace of a handshake *)

(** [trace_auth], called on every hello that was read, before it is verified: the
    first three bytes of the secret, which the span records as [{:02x}]. *)
Definition hex_digit (d : Z) : byte :=
  nth (Z.to_nat d) (String.list_byte_of_string "0123456789abcdef") Byte.x00.
Definition hex_byte (b : byte) : Bytes := [hex_digit (b2z b / 16); hex_digit (b2z b mod 16)].
Definition trace_auth (hello : ClientHello) : Bytes :=
  take 3 (vec_to_list (hello_secret hello)) ≫= hex_byte.

Lemma hex_byte_inj b b' : hex_byte b = hex_byte b' → b = b'.
Proof.
  assert (∀ b, find (λ x, bool_decide (hex_byte x = hex_byte b))
                 (z2b <$> seqZ 0 256) = Some b) as H.
  { by intros []; vm_compute. }
  intros E. pose proof (H b) as Hb. rewrite E, H in Hb. by injection Hb.
Qed.

(** What the log tells of a secret: its first three bytes and no more. *)
Lemma trace_auth_reveals h h' :
  trace_auth h = trace_auth h' ↔
  take 3 (vec_to_list (hello_secret h)) = take 3 (vec_to_list (hello_secret h')).
Proof.
  split; [|unfold trace_auth; congruence]. unfold trace_auth.
  generalize (take 3 (vec_to_list (hello_secret h))) as l.
  generalize (take 3 (vec_to_list (hello_secret h'))) as l'.
  intros l' l. revert l'. induction l as [|x l IH]; intros [|x' l'] E; try done.
  cbn [mbind list_bind app] in E.
  assert (hex_byte x = hex_byte x' ∧ l ≫= hex_byte = l' ≫= hex_byte) as [E1 E2].
  { by apply (app_inj_1 (hex_byte x) (hex_byte x')) in E. }
  by rewrite (hex_byte_inj _ _ E1), (IH _ E2).
Qed.

(** ** The acceptor *)

(** [ConnectionAcceptor]: free permits of the semaphore, the connections being
    processed, and the counters. *)
Record AcceptorState := mkAcceptor
  { permits : nat; processing : gset nat; acceptor_metrics : Counters }.

(** [with_config]. *)
Definition acceptor_new (max_connections : nat) : AcceptorState :=
  mkAcceptor max_connections ∅ metrics_new.

(** [handle_incoming_connection]: a connection is named by a fresh number. *)
Definition handle_incoming_connection (result : io_result nat) (self : AcceptorState)
    : AcceptorState :=
  match result with
  | Ok connection =>
    match permits self with
    | S permits' =>
      mkAcceptor permits' ({[connection]} ∪ processing self)
        (fetch_add ConnectionsAccepted 1 (acceptor_metrics self))
    | O =>
      mkAcceptor (permits self) (processing self)
        (fetch_add ConnectionsRejected 1 (acceptor_metrics self))
    end
  | Err _ => self
  end.

(** The end of [process_connection] with the result of [handle], and the drop
    of the permit in [process_connection_with_permit]. *)
Definition process_connection_end (connection : nat) (result : io_result unit)
    (self : AcceptorState) : AcceptorState :=
  mkAcceptor (S (permits self)) (processing self ∖ {[connection]})
    (match result with
     | Ok _ => acceptor_metrics self
     | Err _ => fetch_add ConnectionsAuthFailed 1 (acceptor_metrics self)
     end).

(** The steps of [accept_loop] and of the tasks it spawned. *)
Inductive acceptor_step : AcceptorState → AcceptorState → Prop :=
  | step_incoming result self :
      (∀ c, result = Ok c → c ∉ processing self) →
      acceptor_step self (handle_incoming_connection result self)
  | step_end connection result self :
      connection ∈ processing self →
      acceptor_step self (process_connection_end connection result self).

(** ** Properties *)

Section properties.
Context {A Ctx S F : Type} `{Authenticator A Ctx} `{Framed S F}
  `{!Bincode ClientMessage} `{!Bincode ServerAuthResponse}.

(** Everything an accepted connection went through, in order. *)
Definition admitted (env : AuthEnv S) (a : A) (ctx : Ctx) (p : Bytes) : Prop :=
  ∃ s payload f1 hello f2,
    accepted_stream env = Ok s ∧ hello_in_time env = true
    ∧ framed_next (framed_new s : F) = (Some (Ok payload), f1)
    ∧ decode payload = Ok (MsgHello hello)
    ∧ hello_version hello = PROTOCOL_VERSION
    ∧ verify_in_time env = true ∧ verify a hello = Ok ctx
    ∧ encode AuthOk = Ok p ∧ send_in_time env = true
    ∧ framed_send p f1 = (Ok tt, f2).

#[local] Ltac refused :=
  right; split;
    [intros (?&?&?&?&?&?&?&?&?&?&?&?&?&?&?&?&?); simplify_eq; congruence
    |eexists _, _; split; [reflexivity|auto]].

Lemma handle_cases env a :
  (∃ ctx p, admitted env a ctx p
     ∧ handle (F := F) env a = (Ok tt, [SentResponse p; Accepted ctx; RanTunnels]))
  ∨ (¬ (∃ ctx p, admitted env a ctx p)
     ∧ ∃ e eff, handle (F := F) env a = (Err e, eff)
         ∧ (eff = [] ∨ eff = [Delay (random_delay_ms env); ShutdownStream])).
Proof.
  unfold handle, perform_authentication, read_hello_message, verify_authentication,
    send_auth_ok_response, disconnect_with_random_delay, admitted.
  destruct (accepted_stream env) as [s|e]; [|refused].
  destruct (hello_in_time env); cbn [negb]; [|refused].
  destruct (framed_next (framed_new s : F)) as [[[payload|e]|] f1] eqn:En;
    [|refused..].
  destruct (decode payload) as [[hello|c]|e] eqn:Ed; [|refused..].
  destruct (Z.eqb_spec (hello_version hello) PROTOCOL_VERSION) as [Ev|Ev];
    cbn [negb]; [|refused].
  destruct (verify_in_time env); cbn [negb]; [|refused].
  destruct (verify a hello) as [ctx|e] eqn:Ea; [|refused].
  destruct (encode AuthOk) as [p|e] eqn:Ep; [|refused].
  destruct (send_in_time env); cbn [negb]; [|refused].
  destruct (framed_send p f1) as [[[]|e] f2] eqn:Es; [|refused].
  left. exists ctx, p. split; [|done]. exists s, payload, f1, hello, f2. done.
Qed.

Lemma admitted_ran env a :
  RanTunnels ∈ snd (handle (F := F) env a) → ∃ ctx p, admitted env a ctx p.
Proof.
  intros Hr. destruct (handle_cases env a) as [(ctx & p & Ha & _)|(_ & e & eff & E & Heff)];
    [by exists ctx, p|].
  rewrite E in Hr. cbn in Hr. destruct Heff as [->| ->]; set_solver.
Qed.
End properties.

(** C9. A connection gets tunnels exactly when, in this order and within the
    timeouts, its control stream delivered one frame that decodes to a hello of
    the server's protocol version, the authenticator verified that hello, and
    the success response was sent; it is accepted with the context the
    authenticator gave, after the response. Every other connection gets
    neither a response nor tunnels: it is dropped, or delayed and closed. *)
Theorem handle_admits_exactly {A Ctx S F} `{Authenticator A Ctx} `{Framed S F}
    `{!Bincode ClientMessage} `{!Bincode ServerAuthResponse} (env : AuthEnv S) (a : A) :
  (∀ ctx p, admitted (F := F) env a ctx p →
     handle (F := F) env a = (Ok tt, [SentResponse p; Accepted ctx; RanTunnels]))
  ∧ (RanTunnels ∈ snd (handle (F := F) env a) →
     ∃ ctx p, admitted (F := F) env a ctx p)
  ∧ (¬ (∃ ctx p, admitted (F := F) env a ctx p) →
     is_ok (fst (handle (F := F) env a)) = false
     ∧ (snd (handle (F := F) env a) = []
        ∨ snd (handle (F := F) env a)
          = [Delay (random_delay_ms env); ShutdownStream])).
Proof.
  assert (∀ ctx p ctx' p', admitted (F := F) env a ctx p → admitted (F := F) env a ctx' p' →
            ctx = ctx' ∧ p = p') as Hdet.
  { intros ctx p ctx' p' (s & pl & f1 & h & f2 & Hs & _ & Hn & Hd & _ & _ & Hv & He & _)
      (s' & pl' & f1' & h' & f2' & Hs' & _ & Hn' & Hd' & _ & _ & Hv' & He' & _).
    split; congruence. }
  destruct (handle_cases (F := F) env a) as [(ctx & p & Ha & E)|(Hn & e & eff & E & Heff)];
    rewrite E; cbn [fst snd is_ok].
  - split_and!.
    + intros ctx' p' Ha'. by destruct (Hdet _ _ _ _ Ha Ha') as [-> ->].
    + intros _. by exists ctx, p.
    + intros []. by exists ctx, p.
  - split_and!.
    + intros ctx p Ha. destruct Hn. by exists ctx, p.
    + destruct Heff as [->| ->].
      * by intros ?%elem_of_nil.
      * intros [?|[?|?%elem_of_nil]%elem_of_cons]%elem_of_cons; done.
    + by intros _.
Qed.

(** With a shared secret, a client is admitted only if it sent that
    secret. But the two refusals differ: a wrong version is answered after the
    random delay with a closed stream, while a wrong secret ends the handler at
    once, without the delay that is meant to hide which check failed. *)
Theorem wrong_secret_not_delayed {S F} `{Framed S F}
    `{!Bincode ClientMessage} `{!Bincode ServerAuthResponse}
    (env : AuthEnv S) (secret : Secret) s payload f1 hello :
  accepted_stream env = Ok s → hello_in_time env = true → verify_in_time env = true →
  framed_next (framed_new s : F) = (Some (Ok payload), f1) →
  decode payload = Ok (MsgHello hello) → hello_secret hello ≠ secret →
  handle (F := F) env secret =
    if hello_version hello =? PROTOCOL_VERSION
    then (Err (auth_error_to_io InvalidSecret), [])
    else (Err (mkIoError PermissionDenied "incompatible version"),
          [Delay (random_delay_ms env); ShutdownStream]).
Proof.
  intros Hs Ht Hv Hn Hd Hne.
  unfold handle, perform_authentication, read_hello_message, verify_authentication.
  rewrite Hs, Ht. cbn [negb]. rewrite Hn, Hd, Hv. cbn [negb].
  unfold verify, secret_authenticator. rewrite decide_False by done.
  by destruct (hello_version hello =? PROTOCOL_VERSION).
Qed.

Definition demo_hello (version : Z) : ClientHello :=
  mkHello version (vreplicate 32 Byte.x00) [].

#[local] Instance demo_hello_bincode : Bincode ClientMessage := {|
  encode_to_vec _ := Some [Byte.x07];
  borrow_decode_from_slice b :=
    match b with [v] => Some (MsgHello (demo_hello (b2z v)), 1%nat) | _ => None end
|}.
#[local] Instance demo_auth_bincode : Bincode ServerAuthResponse :=
  {| encode_to_vec _ := Some [Byte.x00]; borrow_decode_from_slice _ := None |}.

Lemma wrong_secret_not_delayed_witness :
  let env := mkAuthEnv (Ok (frame [Byte.x01] : Bytes)) true true true 250 in
  handle (F := MemFramed) env (vreplicate 32 Byte.x01 : Secret)
    = (Err (auth_error_to_io InvalidSecret), []).
Proof.
  intros env.
  exact (wrong_secret_not_delayed (F := MemFramed) env (vreplicate 32 Byte.x01)
    (frame [Byte.x01]) [Byte.x01] (mkFramed [] [] []) (demo_hello 1)
    eq_refl eq_refl eq_refl eq_refl eq_refl ltac:(done)).
Defined.

(** *** The acceptor *)

Lemma acceptor_step_ok max self self' :
  (permits self + size (processing self) = max)%nat →
  acceptor_step self self' → (permits self' + size (processing self') = max)%nat.
Proof.
  intros Hm Hs. revert Hm. destruct Hs as [[c|e] s Hc|c r s Hc]; intros Hm;
    simpl; [|done|].
  - specialize (Hc c eq_refl). destruct (permits s) as [|n] eqn:E; simpl; [lia|].
    rewrite size_union, size_singleton by set_solver. lia.
  - assert (size (processing s) = 1 + size (processing s ∖ {[c]}))%nat as Hs.
    { rewrite <-(size_singleton (C := gset nat) c), <-size_union by set_solver.
      f_equal. apply set_eq. intros x. destruct (decide (x = c)); set_solver. }
    lia.
Qed.

Lemma acceptor_reach max self :
  rtc acceptor_step (acceptor_new max) self → (permits self + size (processing self) = max)%nat.
Proof.
  intros Hr.
  assert (permits (acceptor_new max) + size (processing (acceptor_new max)) = max)%nat
    as H0 by (cbn; rewrite (size_empty (C := gset nat)); lia).
  revert H0. induction Hr as [|x y z Hs _ IH]; [done|].
  intros H0. apply IH. by eapply acceptor_step_ok.
Qed.

(** The server never processes more than [max_connections] connections:
    in every reachable state the free permits and the connections being
    processed add up to the limit, whatever order connections arrive and end
    in; a connection is rejected only when the limit is reached, and then
    nothing but the rejection counter changes. *)
Theorem acceptor_bounded max self :
  rtc acceptor_step (acceptor_new max) self →
  (permits self + size (processing self) = max)%nat
  ∧ ∀ c, if decide (size (processing self) = max)
         then handle_incoming_connection (Ok c) self =
                mkAcceptor 0 (processing self)
                  (fetch_add ConnectionsRejected 1 (acceptor_metrics self))
         else handle_incoming_connection (Ok c) self =
                mkAcceptor (permits self - 1) ({[c]} ∪ processing self)
                  (fetch_add ConnectionsAccepted 1 (acceptor_metrics self)).
Proof.
  intros Hr.
  pose proof (acceptor_reach max self Hr) as Hm.
  split; [done|]. intros c. unfold handle_incoming_connection.
  destruct (permits self) as [|n] eqn:E; case_decide; try lia; [done|].
  by rewrite Nat.sub_succ, Nat.sub_0_r.
Qed.

Lemma acceptor_bounded_witness :
  let s1 := handle_incoming_connection (Ok 0%nat) (acceptor_new 1) in
  rtc acceptor_step (acceptor_new 1) s1
  ∧ (permits s1 + size (processing s1) = 1)%nat.
Proof.
  intros s1. assert (rtc acceptor_step (acceptor_new 1) s1) as H.
  { apply rtc_once. constructor. intros c _. apply not_elem_of_empty. }
  split; [exact H|]. exact (proj1 (acceptor_bounded 1 s1 H)).
Defined.
