(* ===== verification/Dns.v ===== *)
(** Name resolution on the server
    (crates/ombrac-server/src/connection/dns.rs). The resolver is the [hickory]
    crate: its answers are parameters. *)

From S2P Require Import Prelude Std Parse.

#[local] Open Scope Z_scope.

Inductive RecordType := AAAA | A.

(** The data of a record, as far as the code looks at it. *)
Inductive RData := RDataAAAA (ip : Ipv6Addr) | RDataA (ip : Ipv4Addr) | RDataOther.

(** [get_dns_resolver]: the global cell keeps the first resolver that was
    built; a failure leaves it empty. *)
Definition get_dns_resolver {R} (cell : option R) (builder : io_result R)
    (build : R → io_result R) : io_result R * option R :=
  match cell with
  | Some r => (Ok r, cell)
  | None =>
    match builder with
    | Err _ => (Err (io_other "failed to create dns resolver from system config: "), None)
    | Ok b =>
      match build b with
      | Ok r => (Ok r, Some r)
      | Err _ => (Err (io_other "failed to build dns resolver: "), None)
      end
    end
  end.

(** The loops over the answers: the first record of the wanted type. *)
Fixpoint first_aaaa (answers : list RData) : option Ipv6Addr :=
  match answers with
  | [] => None
  | RDataAAAA ip :: _ => Some ip
  | _ :: answers => first_aaaa answers
  end.

Fixpoint first_a (answers : list RData) : option Ipv4Addr :=
  match answers with
  | [] => None
  | RDataA ip :: _ => Some ip
  | _ :: answers => first_a answers
  end.

Section resolve.
(** The outcome of [get_dns_resolver], and of a lookup ([None] when it
    fails). *)
Context (resolver : io_result unit).
Context (lookup : Bytes → RecordType → option (list RData)).

(** [resolve_domain]. *)
Definition resolve_domain (domain : Bytes) (port : Z) : io_result SocketAddr :=
  if negb (utf8_valid domain) then
    Err (mkIoError InvalidInput "domain name contains invalid utf-8 characters")
  else
    match parse_ip_addr domain with
    | Some ip => Ok (socket_addr_new ip port)
    | None =>
      _ ← resolver;
      match lookup domain AAAA ≫= first_aaaa with
      | Some ipv6 => Ok (socket_addr_new (IpV6 ipv6) port)
      | None =>
        match lookup domain A ≫= first_a with
        | Some ipv4 => Ok (socket_addr_new (IpV4 ipv4) port)
        | None => Err (mkIoError NotFound "dns resolution failed for ")
        end
      end
    end.
End resolve.

Lemma first_aaaa_spec answers ip :
  first_aaaa answers = Some ip →
  ∃ pre post, answers = pre ++ RDataAAAA ip :: post
              ∧ Forall (λ r, ∀ i, r ≠ RDataAAAA i) pre.
Proof.
  induction answers as [|[i|i|] answers IH]; simpl; [done|..].
  - intros [= ->]. by exists [], answers.
  - intros H. destruct (IH H) as (pre & post & -> & Hf).
    exists (RDataA i :: pre), post. split; [done|]. by constructor.
  - intros H. destruct (IH H) as (pre & post & -> & Hf).
    exists (RDataOther :: pre), post. split; [done|]. by constructor.
Qed.

Lemma first_a_spec answers ip :
  first_a answers = Some ip →
  ∃ pre post, answers = pre ++ RDataA ip :: post
              ∧ Forall (λ r, ∀ i, r ≠ RDataA i) pre.
Proof.
  induction answers as [|[i|i|] answers IH]; simpl; [done|..].
  - intros H. destruct (IH H) as (pre & post & -> & Hf).
    exists (RDataAAAA i :: pre), post. split; [done|]. by constructor.
  - intros [= ->]. by exists [], answers.
  - intros H. destruct (IH H) as (pre & post & -> & Hf).
    exists (RDataOther :: pre), post. split; [done|]. by constructor.
Qed.

Lemma first_aaaa_none answers :
  first_aaaa answers = None ↔ Forall (λ r, ∀ i, r ≠ RDataAAAA i) answers.
Proof.
  induction answers as [|[i|i|] answers IH]; simpl; rewrite ?Forall_cons, ?IH;
    naive_solver.
Qed.

Lemma first_a_none answers :
  first_a answers = None ↔ Forall (λ r, ∀ i, r ≠ RDataA i) answers.
Proof.
  induction answers as [|[i|i|] answers IH]; simpl; rewrite ?Forall_cons, ?IH;
    naive_solver.
Qed.

(** What a name resolves to: a socket address with the requested port,
    for an IP literal that address whatever the resolver says; otherwise the
    first IPv6 record when the AAAA lookup has one, and only then the first
    IPv4 record of the A lookup. It is [NotFound] exactly when neither lookup
    has a record, given valid UTF-8 and a resolver. *)
Theorem resolve_domain_spec resolver lookup domain port :
  match resolve_domain resolver lookup domain port with
  | Ok addr =>
    socket_addr_port addr = port ∧ utf8_valid domain = true
    ∧ match parse_ip_addr domain, socket_addr_ip addr with
      | Some ip, ip' => ip' = ip
      | None, IpV6 ip =>
        ∃ pre post, lookup domain AAAA = Some (pre ++ RDataAAAA ip :: post)
          ∧ Forall (λ r, ∀ i, r ≠ RDataAAAA i) pre
      | None, IpV4 ip =>
        (∀ l, lookup domain AAAA = Some l → Forall (λ r, ∀ i, r ≠ RDataAAAA i) l)
        ∧ ∃ pre post, lookup domain A = Some (pre ++ RDataA ip :: post)
          ∧ Forall (λ r, ∀ i, r ≠ RDataA i) pre
      end
  | Err e =>
    (utf8_valid domain = false ∧ kind e = InvalidInput)
    ∨ (parse_ip_addr domain = None ∧ resolver = Err e)
    ∨ (parse_ip_addr domain = None ∧ kind e = NotFound
       ∧ (∀ l, lookup domain AAAA = Some l → Forall (λ r, ∀ i, r ≠ RDataAAAA i) l)
       ∧ (∀ l, lookup domain A = Some l → Forall (λ r, ∀ i, r ≠ RDataA i) l))
  end.
Proof.
  unfold resolve_domain. destruct (utf8_valid domain); cbn [negb]; [|by left].
  destruct (parse_ip_addr domain) as [ip|].
  { by rewrite socket_addr_new_port, socket_addr_new_ip. }
  destruct resolver as [[]|e]; cbn [mbind Result_mbind]; [|by right; left].
  assert (∀ l, lookup domain AAAA = Some l → first_aaaa l = None →
    Forall (λ r, ∀ i, r ≠ RDataAAAA i) l) as H6 by (intros l _; apply first_aaaa_none).
  destruct (lookup domain AAAA) as [l6|] eqn:E6; cbn [mbind option_bind].
  - destruct (first_aaaa l6) as [ip6|] eqn:F6.
    + rewrite socket_addr_new_port, socket_addr_new_ip.
      destruct (first_aaaa_spec _ _ F6) as (pre & post & -> & Hf). by eauto 10.
    + destruct (lookup domain A) as [l4|] eqn:E4; cbn [mbind option_bind].
      * destruct (first_a l4) as [ip4|] eqn:F4.
        -- rewrite socket_addr_new_port, socket_addr_new_ip.
           destruct (first_a_spec _ _ F4) as (pre & post & -> & Hf).
           split_and!; [done..| |by eauto]. intros l [= <-]. by apply H6.
        -- right; right. split_and!; [done..| |].
           ++ intros l [= <-]. by apply H6.
           ++ intros l [= <-]. by apply first_a_none.
      * right; right. split_and!; [done..| |done]. intros l [= <-]. by apply H6.
  - destruct (lookup domain A) as [l4|] eqn:E4; cbn [mbind option_bind].
    + destruct (first_a l4) as [ip4|] eqn:F4.
      * rewrite socket_addr_new_port, socket_addr_new_ip.
        destruct (first_a_spec _ _ F4) as (pre & post & -> & Hf).
        split_and!; [done..|by eauto].
      * right; right. split_and!; [done..|]. intros l [= <-]. by apply first_a_none.
    + by right; right.
Qed.
