(* ===== verification/ServerStream.v ===== *)
(** One tunnelled TCP stream on the server
    (crates/ombrac-server/src/connection/stream.rs). *)

From S2P Require Import Prelude Std Stream Protocol Metrics TransportIo.

#[local] Open Scope Z_scope.

Definition MAX_CONCURRENT_CONNECTIONS : nat := Z.to_nat 4096.
(** Milliseconds. *)
Definition HANDSHAKE_TIMEOUT : Z := 15000.
Definition UPSTREAM_CONNECT_TIMEOUT : Z := 15000.

(** [StreamGuard]; its creation time is only logged. *)
Record StreamGuard := mkGuard {
  initial_upstream_bytes : Z;
  destination : option Address;
  reason : option IoError;
  stats : option CopyBidirectionalStats
}.

Definition guard_default : StreamGuard := mkGuard 0 None None None.

Definition guard_with_destination (d : Address) (g : StreamGuard) : StreamGuard :=
  mkGuard (initial_upstream_bytes g) (Some d) (reason g) (stats g).
Definition guard_with_initial (n : Z) (g : StreamGuard) : StreamGuard :=
  mkGuard n (destination g) (reason g) (stats g).
Definition guard_with_reason (e : IoError) (g : StreamGuard) : StreamGuard :=
  mkGuard (initial_upstream_bytes g) (destination g) (Some e) (stats g).
Definition guard_with_stats (s : CopyBidirectionalStats) (g : StreamGuard)
    : StreamGuard :=
  mkGuard (initial_upstream_bytes g) (destination g) (reason g) (Some s).

Section tunnel.
(** [T] is a TCP connection to a destination. *)
Context {S F T : Type} `{Framed S F} `{!Bincode ClientMessage}
  `{!Bincode ServerMessage}.

(** [read_connect_message]; [in_time] says whether the timeout is met. *)
Definition read_connect_message (in_time : bool) (framed : F)
    : io_result Address * F :=
  if negb in_time then
    (Err (mkIoError TimedOut "timeout reading connect message"), framed)
  else
    match framed_next framed with
    | (None, f) => (Err (mkIoError UnexpectedEof "stream closed unexpectedly"), f)
    | (Some (Err e), f) => (Err e, f)
    | (Some (Ok payload), f) =>
      match decode payload with
      | Err e => (Err e, f)
      | Ok (MsgConnect connect) => (Ok (connect_address connect), f)
      | Ok (MsgHello _) => (Err (mkIoError InvalidData "expected connect message"), f)
      end
    end.

(** [connect_to_destination]; [connect] is [TcpStream::connect], [None] when
    it takes longer than the timeout. *)
Definition connect_to_destination
    (resolve_domain : Bytes → Z → io_result SocketAddr)
    (connect : SocketAddr → option (io_result T)) (destination : Address)
    : io_result T :=
  addr ← match destination with
         | SocketV4 addr => Ok (SockV4 addr)
         | SocketV6 addr => Ok (SockV6 addr)
         | Domain domain port => resolve_domain domain port
         end;
  match connect addr with
  | Some r => r
  | None => Err (mkIoError TimedOut "connection timeout")
  end.

(** The response to a client for the outcome of the connect. *)
Definition connect_response (connect_result : io_result T) : ServerConnectResponse :=
  match connect_result with
  | Ok _ => ConnectOk
  | Err e => ConnectErr (from_io_error e) (msg e)
  end.

(** [send_connect_response]. *)
Definition send_connect_response (connect_result : io_result T) (framed : F)
    : io_result unit * F :=
  match encode (MsgConnectResponse (connect_response connect_result)) with
  | Err e => (Err e, framed)
  | Ok encoded_response => framed_send encoded_response framed
  end.

(** What happens to the data: [write_all] of the buffered bytes, then either
    the shutdown or the copy wins the [select!]. *)
Record ExchangeEnv := mkExchange {
  write_buffered : T → Bytes → io_result unit;
  shutdown_first : bool;
  copy_bidirectional : S → T →
    Result (IoError * CopyBidirectionalStats) CopyBidirectionalStats
}.

(** [exchange_data]. *)
Definition exchange_data (env : ExchangeEnv) (framed : F) (tcp_stream : T)
    (guard : StreamGuard) : io_result unit * StreamGuard :=
  let guard := guard_with_initial (Z.of_nat (length (read_buf framed))) guard in
  match (if decide (read_buf framed ≠ [])
         then write_buffered env tcp_stream (read_buf framed) else Ok tt) with
  | Err e => (Err e, guard)
  | Ok _ =>
    if shutdown_first env then
      (Err (mkIoError Interrupted "connection closed due to active closure"), guard)
    else
      match copy_bidirectional env (framed_inner framed) tcp_stream with
      | Ok stats => (Ok tt, guard_with_stats stats guard)
      | Err (e, stats) => (Err e, guard_with_stats stats guard)
      end
  end.

(** [handle_connect]; also the framed stream after the response, for what was
    sent. *)
Definition handle_connect (in_time : bool)
    (resolve_domain : Bytes → Z → io_result SocketAddr)
    (connect : SocketAddr → option (io_result T)) (env : ExchangeEnv)
    (stream : S) (guard : StreamGuard) : io_result unit * StreamGuard * F :=
  let framed : F := framed_new stream in
  let '(r, framed) := read_connect_message in_time framed in
  match r with
  | Err e => (Err e, guard, framed)
  | Ok destination =>
    let guard := guard_with_destination destination guard in
    let connect_result := connect_to_destination resolve_domain connect destination in
    let '(sent, framed) := send_connect_response connect_result framed in
    match sent with
    | Err e => (Err e, guard, framed)
    | Ok _ =>
      match connect_result with
      | Err e => (Err e, guard, framed)
      | Ok tcp_stream =>
        let '(r, guard) := exchange_data env framed tcp_stream guard in
        (r, guard, framed)
      end
    end
  end.

(** The task that [accept_loop] spawns for a stream, once it has its permit:
    the counters it leaves. *)
Definition stream_task (in_time : bool)
    (resolve_domain : Bytes → Z → io_result SocketAddr)
    (connect : SocketAddr → option (io_result T)) (env : ExchangeEnv)
    (stream : S) (m : Counters) : Counters * StreamGuard :=
  let m := fetch_add StreamsOpened 1 m in
  let '(result, guard, _) :=
    handle_connect in_time resolve_domain connect env stream guard_default in
  let '(m, guard) :=
    match result with
    | Err e => (fetch_add StreamsFailed 1 m, guard_with_reason e guard)
    | Ok _ => (m, guard)
    end in
  let m :=
    match stats guard with
    | Some st =>
      fetch_add BytesTx (as_u64 (a_to_b_bytes st + initial_upstream_bytes guard))
        (fetch_add BytesRx (b_to_a_bytes st) m)
    | None => m
    end in
  (fetch_add StreamsClosed 1 m, guard).
End tunnel.
Arguments ExchangeEnv S T : clear implicits.

(** ** Properties *)

Lemma exchange_data_destination {S F T} `{Framed S F} (env : ExchangeEnv S T) (f : F) tcp guard :
  destination (snd (exchange_data env f tcp guard)) = destination guard.
Proof.
  unfold exchange_data. destruct (if decide _ then _ else _); [|done].
  destruct (shutdown_first env); [done|].
  by destruct (copy_bidirectional env _ _) as [?|[? ?]].
Qed.

Section handle_connect_laws.
Context {S F T : Type} `{FramedLaws S F} `{!Bincode ClientMessage}
  `{!Bincode ServerMessage} `{!BincodeLaws ClientMessage}.

Lemma read_connect_message_frame (f : F) dest request rest :
  encode (MsgConnect (mkConnect dest)) = Ok request →
  Z.of_nat (length request) ≤ MAX_CONTROL_FRAME_LENGTH →
  framed_readable f = frame request ++ rest →
  ∃ f', read_connect_message true f = (Ok (wire_address dest), f')
    ∧ framed_readable f' = rest ∧ write_buf f' = write_buf f
    ∧ framed_written f' = framed_written f.
Proof.
  intros He Hl Hr. destruct (framed_next_frame f _ _ Hr Hl) as (f' & Hn & Hr' & Hw).
  pose proof (framed_next_written f) as Hwr. rewrite Hn in Hwr.
  exists f'. split; [|done]. unfold read_connect_message. cbn [negb].
  by rewrite Hn, (decode_encode _ _ He).
Qed.
End handle_connect_laws.

(** A stream that starts with a connect request, of which the address is read as
    it was written, is answered exactly once, after the connect attempt, with its outcome: a failed connect ends the
    handler with that error once the client has been told; after a success, the
    bytes that followed the request are all still there to be carried: those
    already buffered are written to the destination first, the rest is what the
    copy reads, in order and without a gap. *)
Theorem handle_connect_answers {S F T} `{FramedLaws S F} `{!Bincode ClientMessage}
    `{!Bincode ServerMessage} `{!BincodeLaws ClientMessage}
    resolve (connect : SocketAddr → option (io_result T)) env (s : S) dest
    request rest response :
  encode (MsgConnect (mkConnect dest)) = Ok request →
  Z.of_nat (length request) ≤ MAX_CONTROL_FRAME_LENGTH →
  readable s = frame request ++ rest →
  let read := wire_address dest in
  let result := connect_to_destination resolve connect read in
  encode (MsgConnectResponse (connect_response result)) = Ok response →
  ∃ f1 : F, framed_readable f1 = rest ∧ write_buf f1 = [] ∧ framed_written f1 = []
    ∧ match framed_send response f1 with
      | (Err e, f2) =>
        handle_connect true resolve connect env s guard_default
          = (Err e, guard_with_destination read guard_default, f2)
      | (Ok _, f2) =>
        match result with
        | Err e =>
          handle_connect true resolve connect env s guard_default
            = (Err e, guard_with_destination read guard_default, f2)
        | Ok tcp =>
          handle_connect true resolve connect env s guard_default
            = (let '(r, g) := exchange_data env f2 tcp
                 (guard_with_destination read guard_default) in (r, g, f2))
          ∧ read_buf f2 ++ readable (framed_inner f2) = rest
        end
      end.
Proof.
  intros He Hl Hr read result Hresp. destruct (framed_new_clean s : _ ∧ _) as [Hc1 Hc2].
  destruct (read_connect_message_frame (framed_new s : F) dest request rest He Hl)
    as (f1 & Hread & Hr1 & Hw1 & Hwr1).
  { by rewrite framed_new_readable. }
  exists f1. split; [done|]. split; [congruence|]. split; [congruence|].
  unfold handle_connect. rewrite Hread. fold read.
  fold result. unfold send_connect_response. rewrite Hresp.
  destruct (framed_send response f1) as [[[]|e] f2] eqn:Es; [|done].
  destruct result as [tcp|e]; [|done]. split.
  - by destruct (exchange_data env f2 tcp _).
  - destruct (framed_send_flushes _ _ _ Es) as [_ Hf]. by rewrite <-Hr1, <-Hf.
Qed.

#[local] Instance demo_connect_bincode : Bincode ClientMessage := {|
  encode_to_vec m :=
    match m with MsgConnect (mkConnect (Domain [] 1)) => Some [Byte.x07] | _ => None end;
  borrow_decode_from_slice b :=
    match b with
    | [Byte.x07] => Some (MsgConnect (mkConnect (Domain [] 1)), 1%nat)
    | _ => None
    end
|}.
#[local] Instance demo_connect_bincode_laws : BincodeLaws ClientMessage.
Proof.
  intros [|[[| |d p]]] b; [done..|]. destruct d; [|done].
  destruct p as [|[|[]|]|]; try done. by intros [= <-].
Qed.
#[local] Instance demo_response_bincode : Bincode ServerMessage :=
  {| encode_to_vec _ := Some [Byte.x00]; borrow_decode_from_slice _ := None |}.

Lemma handle_connect_answers_witness :
  let s : Bytes := frame [Byte.x07] ++ [Byte.x61] in
  let refused := mkIoError ConnectionRefused "refused" in
  let result := connect_to_destination (λ _ _, Ok (SockV4 (mkSA4 v4_unspecified 1)))
                  (λ _, Some (Err refused : io_result unit)) (Domain [] 1) in
  result = Err refused ∧ ∃ f1 : MemFramed, framed_readable f1 = [Byte.x61].
Proof.
  intros s refused result. split; [reflexivity|].
  assert (encode (MsgConnect (mkConnect (Domain [] 1))) = Ok [Byte.x07]) as He
    by reflexivity.
  destruct (handle_connect_answers (S := Bytes) (F := MemFramed) (T := unit)
    (λ _ _, Ok (SockV4 (mkSA4 v4_unspecified 1))) (λ _, Some (Err refused))
    (mkExchange (λ _ _, Ok tt) false (λ _ _, Ok (mkStats 0 0))) s (Domain [] 1)
    [Byte.x07] [Byte.x61] [Byte.x00] He) as (f1 & Hf1 & _ & _ & _); [done..|].
  by exists f1.
Defined.

(** What a finished stream leaves in the counters: it was opened and
    closed once each, and failed once exactly when the handler returned an
    error. When a copy took place, [bytes_rx] grows by the bytes copied from
    the destination to the client and [bytes_tx] by those from the client, the
    buffered ones included: the opposite of what the counters are documented to
    hold, bytes received from and sent to the tunnel peer. *)
Theorem stream_task_counters {S F T} `{Framed S F} `{!Bincode ClientMessage}
    `{!Bincode ServerMessage} in_time resolve
    (connect : SocketAddr → option (io_result T)) env (s : S) m :
  let '(r, g, _) := handle_connect (F := F) in_time resolve connect env s guard_default in
  let m' := fst (stream_task (F := F) in_time resolve connect env s m) in
  load StreamsOpened m' = as_u64 (load StreamsOpened m + 1)
  ∧ load StreamsClosed m' = as_u64 (load StreamsClosed m + 1)
  ∧ load StreamsFailed m' =
      (if is_ok r then load StreamsFailed m else as_u64 (load StreamsFailed m + 1))
  ∧ load BytesRx m' =
      match stats g with
      | Some st => as_u64 (load BytesRx m + b_to_a_bytes st)
      | None => load BytesRx m
      end
  ∧ load BytesTx m' =
      match stats g with
      | Some st => as_u64 (load BytesTx m + as_u64 (a_to_b_bytes st + initial_upstream_bytes g))
      | None => load BytesTx m
      end.
Proof.
  unfold stream_task.
  destruct (handle_connect in_time resolve connect env s guard_default) as [[[[]|e] g] f];
    cbn [is_ok]; unfold guard_with_reason; cbn [stats initial_upstream_bytes fst];
    destruct (stats g) as [st|]; cbn [fst]; done.
Qed.
