(* ===== verification/ServerTunnels.v ===== *)
(** The loops of one authenticated connection on the server: [run_tunnel_loops]
    (crates/ombrac-server/src/connection/mod.rs), which runs the loop that accepts
    streams (stream.rs) and the one that reads datagrams (datagram.rs) until one of
    them ends; and what is logged when a stream ends. *)

From S2P Require Import Prelude Std Select Protocol Metrics TransportIo AddressText ServerStream.

#[local] Open Scope Z_scope.

(** ** The two loops *)

(** The token of the connection, the results of the two loops ([None] while they
    run), the result that [run_tunnel_loops] returned with, the tasks of the streams
    (those that wait for a permit of the semaphore, in its order, those that have
    one, and how many permits are left), and the datagrams handled.

    The tokens of the loops and of the streams are children of the one token: they
    are cancelled when it is. *)
Record Tunnels := mkTunnels {
  shutdown_token : bool;
  stream_loop : option (io_result unit);
  datagram_loop : option (io_result unit);
  returned : option (io_result unit);
  waiting : list nat;
  serving : list nat;
  stream_permits : nat;
  handled : list Bytes
}.

(** [StreamTunnel::new], [DatagramTunnel::new] and the two spawns. *)
Definition tunnels_new : Tunnels :=
  mkTunnels false None None None [] [] MAX_CONCURRENT_CONNECTIONS [].

Section updates.
Context (s : Tunnels).
Definition end_streams (r : io_result unit) : Tunnels :=
  mkTunnels (shutdown_token s) (Some r) (datagram_loop s) (returned s) (waiting s) (serving s)
    (stream_permits s) (handled s).
Definition end_datagrams (r : io_result unit) : Tunnels :=
  mkTunnels (shutdown_token s) (stream_loop s) (Some r) (returned s) (waiting s) (serving s)
    (stream_permits s) (handled s).
Definition spawn_stream (stream : nat) : Tunnels :=
  mkTunnels (shutdown_token s) (stream_loop s) (datagram_loop s) (returned s)
    (waiting s ++ [stream]) (serving s) (stream_permits s) (handled s).
Definition handle_datagram (packet : Bytes) : Tunnels :=
  mkTunnels (shutdown_token s) (stream_loop s) (datagram_loop s) (returned s) (waiting s)
    (serving s) (stream_permits s) (handled s ++ [packet]).
End updates.

(** A turn of [StreamTunnel::accept_loop], whose [select!] is biased: [accepted] is
    what [accept_bidirectional] gives, if it is ready. *)
Definition stream_turn (accepted : option (io_result nat)) (s : Tunnels) : Tunnels :=
  match stream_loop s with
  | Some _ => s
  | None =>
    match select_biased (mkTurn (shutdown_token s) accepted true) with
    | OnSignal => end_streams s (Ok tt)
    | OnReady (Ok stream) => spawn_stream s stream
    | OnReady (Err e) => end_streams s (Err e)
    | Waiting => s
    end
  end.

(** A turn of [DatagramTunnel::accept_loop], whose [select!] is not: a read that
    timed out does not end it. *)
Definition datagram_turn (read : option (io_result Bytes)) (signal_first : bool) (s : Tunnels)
    : Tunnels :=
  match datagram_loop s with
  | Some _ => s
  | None =>
    match select_fair (mkTurn (shutdown_token s) read signal_first) with
    | OnSignal => end_datagrams s (Ok tt)
    | OnReady (Ok packet) => handle_datagram s packet
    | OnReady (Err e) =>
      match kind e with TimedOut => s | _ => end_datagrams s (Err e) end
    | Waiting => s
    end
  end.

(** The task of a stream gets its permit, and gives it back at its end. *)
Definition acquire_permit (s : Tunnels) : Tunnels :=
  match waiting s, stream_permits s with
  | stream :: rest, S permits =>
    mkTunnels (shutdown_token s) (stream_loop s) (datagram_loop s) (returned s) rest
      (serving s ++ [stream]) permits (handled s)
  | _, _ => s
  end.

Definition stream_done (i : nat) (s : Tunnels) : Tunnels :=
  match serving s !! i with
  | Some _ =>
    mkTunnels (shutdown_token s) (stream_loop s) (datagram_loop s) (returned s) (waiting s)
      (delete i (serving s)) (S (stream_permits s)) (handled s)
  | None => s
  end.

(** [run_tunnel_loops] polled: the [select!] on the two handles, then the
    cancellation. *)
Definition run_tunnel_loops (stream_first : bool) (s : Tunnels) : Tunnels :=
  match returned s with
  | Some _ => s
  | None =>
    let result :=
      match stream_loop s, datagram_loop s with
      | Some r, Some r' => Some (if stream_first then r else r')
      | Some r, None => Some r
      | None, Some r => Some r
      | None, None => None
      end in
    match result with
    | Some r =>
      mkTunnels true (stream_loop s) (datagram_loop s) (Some r) (waiting s) (serving s)
        (stream_permits s) (handled s)
    | None => s
    end
  end.

(** What can happen next. *)
Inductive TunnelInput :=
  | StreamTurn (accepted : option (io_result nat))
  | DatagramTurn (read : option (io_result Bytes)) (signal_first : bool)
  | AcquirePermit
  | StreamDone (i : nat)
  | RunPolled (stream_first : bool).

Definition tunnels_step (i : TunnelInput) (s : Tunnels) : Tunnels :=
  match i with
  | StreamTurn accepted => stream_turn accepted s
  | DatagramTurn read signal_first => datagram_turn read signal_first s
  | AcquirePermit => acquire_permit s
  | StreamDone i => stream_done i s
  | RunPolled stream_first => run_tunnel_loops stream_first s
  end.

Definition tunnels_run (inputs : list TunnelInput) (s : Tunnels) : Tunnels :=
  foldl (flip tunnels_step) s inputs.

(** ** The end of a stream *)

Section guard.
(** The code of a [quinn::WriteError::Stopped] inside an error, when the downcast
    finds one. *)
Context (stopped : IoError → option Z).

(** [is_clean_stream_close] (ombrac-transport/src/io.rs). *)
Definition is_clean_stream_close (error : IoError) : bool :=
  match stopped error with
  | Some code => code =? 0
  | None => false
  end.

(** [Display for DisconnectReason]. *)
Definition disconnect_reason (reason : option IoError) : string :=
  match reason with
  | Some e => if is_clean_stream_close e then "peer closed stream" else msg e
  | None => "ok"
  end.

(** [DisconnectReason::is_clean_peer_close]. *)
Definition is_clean_peer_close (reason : option IoError) : bool :=
  match reason with
  | Some e => is_clean_stream_close e
  | None => true
  end.

Inductive Level := Debug | Info.

(** [Drop for StreamGuard]: the level of the record and its fields, but for the
    duration. *)
Definition guard_drop (self : StreamGuard) : Level * (Bytes * Z * Z * string) :=
  let '(up, down) :=
    match stats self with Some s => (a_to_b_bytes s, b_to_a_bytes s) | None => (0, 0) end in
  let dest := match destination self with
              | Some a => address_display a
              | None => Parse.bytes_of "unknown"
              end in
  let up := as_u64 (up + initial_upstream_bytes self) in
  (if is_clean_peer_close (reason self) then Debug else Info,
   (dest, up, down, disconnect_reason (reason self))).
End guard.

(** ** Properties *)

Record tunnels_ok (s : Tunnels) : Prop := {
  tk_permits : (stream_permits s + length (serving s) = MAX_CONCURRENT_CONNECTIONS)%nat;
  tk_token : shutdown_token s = true ↔ is_Some (returned s);
  tk_returned r : returned s = Some r → stream_loop s = Some r ∨ datagram_loop s = Some r;
  tk_stream r : stream_loop s = Some (Ok r) → is_Some (returned s);
  tk_datagram r : datagram_loop s = Some (Ok r) → is_Some (returned s);
  tk_timeout e : datagram_loop s = Some (Err e) → kind e ≠ TimedOut
}.

Lemma tunnels_step_ok i s : tunnels_ok s → tunnels_ok (tunnels_step i s).
Proof.
  intros [Hp Ht Hr Hs Hd He].
  destruct i as [accepted|read first| |i|first]; cbn [tunnels_step].
  - unfold stream_turn, select_biased. cbn [signal ready].
    destruct (stream_loop s) as [rs|] eqn:El; [by split; rewrite ?El|].
    assert (∀ r, returned s = Some r → datagram_loop s = Some r) as Hr'
      by (intros r E; by destruct (Hr r E)).
    destruct (shutdown_token s) eqn:Etok.
    + split; cbn; rewrite ?Etok; auto. intros r _. by apply Ht.
    + destruct accepted as [[c|e]|].
      * split; cbn; rewrite ?Etok, ?El; auto.
      * split; cbn; rewrite ?Etok; auto. done.
      * split; rewrite ?Etok, ?El; auto.
  - unfold datagram_turn, select_fair. cbn [signal ready signal_first].
    destruct (datagram_loop s) as [rd|] eqn:El; [by split; rewrite ?El|].
    assert (∀ r, returned s = Some r → stream_loop s = Some r) as Hr'
      by (intros r E; by destruct (Hr r E)).
    assert (∀ e, kind e ≠ TimedOut → tunnels_ok (end_datagrams s (Err e))) as Herr.
    { intros e Hne. split; cbn; auto; [done|]. by intros e' [= <-]. }
    assert (tunnels_ok s) as Hs0 by (split; rewrite ?El; auto).
    assert (∀ p, tunnels_ok (handle_datagram s p)) as Hh by (intros p; split; cbn; rewrite ?El; auto).
    assert (shutdown_token s = true → tunnels_ok (end_datagrams s (Ok tt))) as Hend.
    { intros E. split; cbn; auto; try done. intros r _. by apply Ht. }
    destruct read as [[p|e]|]; destruct (shutdown_token s), first; cbn; auto;
      destruct (kind e) eqn:Ek; auto; apply Herr; congruence.
  - unfold acquire_permit.
    destruct (waiting s) as [|c rest]; [by split|]. destruct (stream_permits s) as [|n] eqn:E;
      [by split; rewrite ?E|].
    split; cbn; auto. rewrite length_app. cbn. lia.
  - unfold stream_done. destruct (serving s !! i) as [c|] eqn:E; [|by split].
    split; cbn; auto. rewrite length_delete by (by rewrite E).
    apply lookup_lt_Some in E. lia.
  - unfold run_tunnel_loops. destruct (returned s) as [r|] eqn:E; [by split; rewrite ?E|].
    assert (∀ r, stream_loop s = Some r ∨ datagram_loop s = Some r →
      tunnels_ok (mkTunnels true (stream_loop s) (datagram_loop s) (Some r) (waiting s)
        (serving s) (stream_permits s) (handled s))) as Hret.
    { intros r Hor. split; cbn; [done| | | | |done]; [|by intros ? [= <-]|by eexists..].
      split; [by eexists|done]. }
    destruct (stream_loop s) as [rs|] eqn:Es; destruct (datagram_loop s) as [rd|] eqn:Ed;
      [apply Hret; destruct first; auto|apply Hret; auto..|].
    by split; rewrite ?E, ?Es, ?Ed.
Qed.

(** The loops end by themselves only with an error. *)
Definition ended_by_error (s : Tunnels) : Prop :=
  ∀ r, returned s = Some r → ∃ e, r = Err e.

Lemma tunnels_step_error i s : tunnels_ok s → ended_by_error s → ended_by_error (tunnels_step i s).
Proof.
  intros [_ _ _ Hs Hd _] He. destruct i as [accepted|read first| |i|first]; cbn [tunnels_step].
  - unfold stream_turn. destruct (stream_loop s); [done|].
    by destruct (select_biased _) as [|[c|e]|].
  - unfold datagram_turn. destruct (datagram_loop s); [done|].
    destruct (select_fair _) as [|[c|e]|]; try done. by destruct (kind e).
  - unfold acquire_permit. by destruct (waiting s), (stream_permits s).
  - unfold stream_done. by destruct (serving s !! i).
  - unfold run_tunnel_loops. destruct (returned s) as [r|] eqn:E; [done|].
    assert (∀ r, stream_loop s = Some r ∨ datagram_loop s = Some r → ∃ e, r = Err e) as Hr.
    { intros [u|e] Hor; [|by exists e].
      destruct Hor as [Hor|Hor]; [destruct (Hs u Hor)|destruct (Hd u Hor)]; done. }
    destruct (stream_loop s) as [rs|], (datagram_loop s) as [rd|]; intros r; cbn; [|try congruence..];
      intros [= <-]; destruct first; apply Hr; auto.
Qed.

Lemma tunnels_run_ok inputs :
  tunnels_ok (tunnels_run inputs tunnels_new) ∧ ended_by_error (tunnels_run inputs tunnels_new).
Proof.
  assert (∀ s, tunnels_ok s → ended_by_error s →
    tunnels_ok (tunnels_run inputs s) ∧ ended_by_error (tunnels_run inputs s)) as H.
  { induction inputs as [|i inputs IH]; intros s Hs He; [done|].
    apply IH; [by apply tunnels_step_ok|by apply tunnels_step_error]. }
  apply H; [|done]. split; cbn; try done.
Qed.

(** The streams that a run accepts, from [s] on: those that are ready at a turn of the
    loop while it runs and the token is not cancelled; the datagrams it takes; and
    the streams whose tasks end. *)
Fixpoint accepted_streams (inputs : list TunnelInput) (s : Tunnels) : list nat :=
  match inputs with
  | [] => []
  | i :: inputs =>
    match i, stream_loop s, shutdown_token s with
    | StreamTurn (Some (Ok stream)), None, false => [stream]
    | _, _, _ => []
    end ++ accepted_streams inputs (tunnels_step i s)
  end.

Fixpoint read_datagrams (inputs : list TunnelInput) (s : Tunnels) : list Bytes :=
  match inputs with
  | [] => []
  | i :: inputs =>
    match i, datagram_loop s with
    | DatagramTurn (Some (Ok packet)) first, None =>
      if shutdown_token s && first then [] else [packet]
    | _, _ => []
    end ++ read_datagrams inputs (tunnels_step i s)
  end.

Fixpoint finished_streams (inputs : list TunnelInput) (s : Tunnels) : list nat :=
  match inputs with
  | [] => []
  | i :: inputs =>
    match i with
    | StreamDone i => option_list (serving s !! i)
    | _ => []
    end ++ finished_streams inputs (tunnels_step i s)
  end.

Lemma permutation_step {A} (w v x y w' v' a w'' v'' b : list A) :
  w ++ v ++ x ≡ₚ y ++ w' ++ v' → w' ++ v' ++ a ≡ₚ w'' ++ v'' ++ b →
  w ++ v ++ x ++ a ≡ₚ w'' ++ v'' ++ y ++ b.
Proof.
  intros H1 H2. rewrite (app_assoc v x a), (app_assoc w (v ++ x) a), H1, <-!app_assoc, H2.
  rewrite (app_assoc w'' v'' b), (app_assoc w'' v'' (y ++ b)). apply Permutation_app_swap_app.
Qed.

Lemma tunnels_streams inputs s :
  waiting s ++ serving s ++ accepted_streams inputs s
  ≡ₚ waiting (tunnels_run inputs s) ++ serving (tunnels_run inputs s)
     ++ finished_streams inputs s.
Proof.
  revert s. induction inputs as [|i inputs IH]; intros s; [done|].
  change (tunnels_run (i :: inputs) s) with (tunnels_run inputs (tunnels_step i s)).
  cbn [accepted_streams finished_streams].
  eapply permutation_step; [|apply IH]. clear IH.
  destruct i as [accepted|read first| |i|first]; cbn [tunnels_step]; rewrite ?app_nil_r; cbn [app].
  - unfold stream_turn, select_biased. cbn [signal ready].
    destruct (stream_loop s) as [rs|]; [by destruct accepted as [[]|]; rewrite ?app_nil_r|].
    destruct accepted as [[c|e]|], (shutdown_token s); cbn; rewrite ?app_nil_r; try done.
    by rewrite (Permutation_app_comm (serving s)), <-app_assoc.
  - unfold datagram_turn. destruct (datagram_loop s); [done|].
    destruct (select_fair _) as [|[p|e]|]; cbn; try done. by destruct (kind e).
  - unfold acquire_permit. destruct (waiting s) as [|c rest] eqn:Ew, (stream_permits s); cbn;
      rewrite ?Ew; try done.
    by rewrite (Permutation_app_comm (serving s) [c]), Permutation_middle.
  - unfold stream_done. destruct (serving s !! i) as [c|] eqn:E; cbn; [|done].
    rewrite <-(take_drop_middle _ _ _ E) at 1. rewrite delete_take_drop.
    by rewrite <-!Permutation_middle.
  - unfold run_tunnel_loops. destruct (returned s); [done|].
    by destruct (stream_loop s), (datagram_loop s).
Qed.

Lemma tunnels_datagrams inputs s :
  handled (tunnels_run inputs s) = handled s ++ read_datagrams inputs s.
Proof.
  revert s. induction inputs as [|i inputs IH]; intros s; [by rewrite app_nil_r|].
  change (tunnels_run (i :: inputs) s) with (tunnels_run inputs (tunnels_step i s)).
  cbn [read_datagrams]. rewrite IH, app_assoc. f_equal. clear IH.
  destruct i as [accepted|read first| |i|first]; cbn [tunnels_step]; rewrite ?app_nil_r.
  - unfold stream_turn. destruct (stream_loop s); [done|]. by destruct (select_biased _) as [|[|]|].
  - unfold datagram_turn, select_fair. cbn [signal ready signal_first].
    destruct (datagram_loop s); [by destruct read as [[]|]; rewrite app_nil_r|].
    destruct read as [[p|e]|], (shutdown_token s), first; cbn; rewrite ?app_nil_r; try done;
      by destruct (kind e).
  - unfold acquire_permit. by destruct (waiting s), (stream_permits s).
  - unfold stream_done. by destruct (serving s !! i).
  - unfold run_tunnel_loops. destruct (returned s); [done|].
    by destruct (stream_loop s), (datagram_loop s).
Qed.

(** C25. The life of a connection's two loops, whatever happens in whatever order. At
    most 4096 of its streams are served at a time; every other accepted stream that
    is not over waits for a permit, and none is dropped. Every datagram read while
    its loop runs is handled, in order. The token is cancelled exactly when
    [run_tunnel_loops] has returned, with the result of a loop that has ended; that
    result is always an error, as a loop ends without one only after the token was
    cancelled. A datagram read that timed out never ends the loop. *)
Theorem tunnels_lifecycle inputs :
  let s := tunnels_run inputs tunnels_new in
  (stream_permits s + length (serving s) = 4096)%nat
  ∧ accepted_streams inputs tunnels_new
    ≡ₚ waiting s ++ serving s ++ finished_streams inputs tunnels_new
  ∧ handled s = read_datagrams inputs tunnels_new
  ∧ (shutdown_token s = true ↔ is_Some (returned s))
  ∧ (∀ r, returned s = Some r →
       (stream_loop s = Some r ∨ datagram_loop s = Some r) ∧ ∃ e, r = Err e)
  ∧ (∀ r, stream_loop s = Some (Ok r) ∨ datagram_loop s = Some (Ok r) → shutdown_token s = true)
  ∧ (∀ e, datagram_loop s = Some (Err e) → kind e ≠ TimedOut).
Proof.
  intros s. destruct (tunnels_run_ok inputs) as [[Hp Ht Hr Hs Hd He] Her].
  split_and!; [done|apply (tunnels_streams inputs tunnels_new)
    |apply (tunnels_datagrams inputs tunnels_new)|done| | |done].
  - intros r E. split; [by apply Hr|by apply Her].
  - intros r [E|E]; apply Ht; [by eapply Hs|by eapply Hd].
Qed.

(** Once both loops have ended, nothing new is taken on. *)
Lemma ended_step i s :
  is_Some (stream_loop s) → is_Some (datagram_loop s) →
  let s' := tunnels_step i s in
  stream_loop s' = stream_loop s ∧ datagram_loop s' = datagram_loop s ∧ handled s' = handled s
  ∧ (length (waiting s') + length (serving s') ≤ length (waiting s) + length (serving s))%nat
  ∧ (is_Some (returned s) → returned s' = returned s).
Proof.
  intros [rs Es] [rd Ed] s'. subst s'.
  destruct i as [accepted|read first| |i|first]; cbn [tunnels_step].
  - unfold stream_turn. rewrite Es. by split_and!.
  - unfold datagram_turn. rewrite Ed. by split_and!.
  - unfold acquire_permit.
    destruct (waiting s) as [|c l] eqn:Ew, (stream_permits s); cbn; rewrite ?Ew; cbn;
      rewrite ?length_app; cbn; split_and!; try done; lia.
  - unfold stream_done. destruct (serving s !! i) eqn:E; cbn; split_and!; try done.
    rewrite length_delete by (by rewrite E). apply lookup_lt_Some in E. lia.
  - unfold run_tunnel_loops. rewrite Es, Ed.
    destruct (returned s) eqn:E; cbn; split_and!; try done.
Qed.

Lemma ended_run inputs s :
  is_Some (stream_loop s) → is_Some (datagram_loop s) →
  let s' := tunnels_run inputs s in
  is_Some (stream_loop s') ∧ is_Some (datagram_loop s') ∧ handled s' = handled s
  ∧ (length (waiting s') + length (serving s') ≤ length (waiting s) + length (serving s))%nat
  ∧ (is_Some (returned s) → returned s' = returned s).
Proof.
  revert s. induction inputs as [|i inputs IH]; intros s Hs Hd; [by split_and!|].
  destruct (ended_step i s Hs Hd) as (E1 & E2 & E3 & E4 & E5).
  change (tunnels_run (i :: inputs) s) with (tunnels_run inputs (tunnels_step i s)).
  destruct (IH (tunnels_step i s)) as (F1 & F2 & F3 & F4 & F5); [by rewrite E1|by rewrite E2|].
  cbv zeta. rewrite F3, E3. split_and!; [done|done|done|lia|].
  intros Hr. rewrite F5, E5; [done|done|by rewrite E5].
Qed.

(** The three polls that end everything. *)
Lemma run_returns first s :
  tunnels_ok s → is_Some (stream_loop s) ∨ is_Some (datagram_loop s) →
  let t := run_tunnel_loops first s in
  shutdown_token t = true ∧ is_Some (returned t) ∧ handled t = handled s
  ∧ waiting t = waiting s ∧ serving t = serving s.
Proof.
  intros [_ Ht _ _ _ _] Hor. unfold run_tunnel_loops. destruct (returned s) as [r|] eqn:Er.
  - cbv zeta. rewrite Er. split_and!; try done. by apply Ht.
  - destruct (stream_loop s), (datagram_loop s); cbn; try (by split_and!).
    by destruct Hor as [[]|[]].
Qed.

Lemma stream_turn_cancelled accepted s :
  shutdown_token s = true →
  let t := stream_turn accepted s in
  shutdown_token t = true ∧ is_Some (stream_loop t) ∧ returned t = returned s
  ∧ handled t = handled s ∧ waiting t = waiting s ∧ serving t = serving s.
Proof.
  intros Ht. unfold stream_turn, select_biased. cbn [signal]. rewrite Ht.
  destruct (stream_loop s) eqn:El; cbn; rewrite ?El; eauto 10.
Qed.

Lemma datagram_turn_cancelled read signal_first s :
  shutdown_token s = true → read = None ∨ signal_first = true →
  let t := datagram_turn read signal_first s in
  is_Some (datagram_loop t) ∧ stream_loop t = stream_loop s ∧ returned t = returned s
  ∧ handled t = handled s ∧ waiting t = waiting s ∧ serving t = serving s.
Proof.
  intros Ht Hrd. unfold datagram_turn. destruct (datagram_loop s) eqn:El; [by cbv zeta; rewrite El; eauto 10|].
  unfold select_fair. cbn [signal ready Select.signal_first]. rewrite Ht.
  destruct Hrd as [->| ->]; [cbn; eauto 10|]. destruct read; cbn; eauto 10.
Qed.

(** When one of the loops has ended, [run_tunnel_loops] returns at its next poll
    and the other loop ends with its next turn, the stream loop even if another
    stream is ready, the datagram loop when no datagram is; from then on, whatever
    happens, no stream is accepted and no datagram handled any more. *)
Theorem tunnels_stop before first accepted read signal_first after :
  let s := tunnels_run before tunnels_new in
  is_Some (stream_loop s) ∨ is_Some (datagram_loop s) →
  read = None ∨ signal_first = true →
  let s' := tunnels_run (RunPolled first :: StreamTurn accepted
                           :: DatagramTurn read signal_first :: after) s in
  is_Some (returned s') ∧ is_Some (stream_loop s') ∧ is_Some (datagram_loop s')
  ∧ handled s' = handled s
  ∧ (length (waiting s') + length (serving s') ≤ length (waiting s) + length (serving s))%nat.
Proof.
  intros s Hor Hrd s'.
  destruct (tunnels_run_ok before) as [Hok _]. fold s in Hok.
  destruct (run_returns first s Hok Hor) as (Ht & R1 & R2 & R3 & R4).
  destruct (stream_turn_cancelled accepted _ Ht) as (A1 & A2 & A3 & A4 & A5 & A6).
  destruct (datagram_turn_cancelled read signal_first _ A1 Hrd) as (B1 & B2 & B3 & B4 & B5 & B6).
  destruct (ended_run after (datagram_turn read signal_first
    (stream_turn accepted (run_tunnel_loops first s)))) as (F1 & F2 & F3 & F4 & F5);
    [by rewrite B2|done|].
  change s' with (tunnels_run after (datagram_turn read signal_first
    (stream_turn accepted (run_tunnel_loops first s)))).
  rewrite F3, F5 by (by rewrite B3, A3). rewrite B3, A3, B4, A4, R2.
  rewrite B5, B6, A5, A6, R3, R4 in F4. by split_and!.
Qed.

(** A record of a stream that ended well, or that its peer closed with the code 0,
    is only for debugging, and shows the bytes that went up, those of the handshake's
    buffer included, and down. *)
Lemma guard_drop_spec stopped g :
  (fst (guard_drop stopped g) = Debug ↔
     reason g = None ∨ ∃ e, reason g = Some e ∧ stopped e = Some 0)
  ∧ ∀ st, stats g = Some st →
      snd (guard_drop stopped g) =
        (match destination g with Some a => address_display a | None => Parse.bytes_of "unknown" end,
         as_u64 (a_to_b_bytes st + initial_upstream_bytes g), b_to_a_bytes st,
         disconnect_reason stopped (reason g)).
Proof.
  unfold guard_drop, is_clean_peer_close, is_clean_stream_close. split.
  - destruct (match stats g with Some s => _ | None => _ end) as [up down]. cbn [fst].
    destruct (reason g) as [e|]; [|naive_solver].
    destruct (stopped e) as [code|] eqn:E; [|naive_solver].
    destruct (Z.eqb_spec code 0) as [->|]; naive_solver.
  - intros st ->. done.
Qed.

(** ** The theorem at a concrete input *)

(** Two streams, of which one is served, and a datagram; then the connection is lost,
    while a third stream is ready. *)
Definition demo_before : list TunnelInput :=
  [StreamTurn (Some (Ok 1%nat)); StreamTurn (Some (Ok 2%nat)); AcquirePermit;
   DatagramTurn (Some (Ok [Byte.x01])) false;
   DatagramTurn (Some (Err (mkIoError TimedOut "timed out"))) false;
   DatagramTurn (Some (Err (mkIoError ConnectionReset "lost"))) false].

Lemma tunnels_stop_witness :
  let s' := tunnels_run (RunPolled true :: StreamTurn (Some (Ok 3%nat)) :: DatagramTurn None false
              :: [AcquirePermit; StreamDone 0]) (tunnels_run demo_before tunnels_new) in
  returned s' = Some (Err (mkIoError ConnectionReset "lost"))
  ∧ serving s' = [2%nat] ∧ is_Some (stream_loop s') ∧ handled s' = [[Byte.x01]].
Proof.
  intros s'.
  destruct (tunnels_stop demo_before true (Some (Ok 3%nat)) None false
    [AcquirePermit; StreamDone 0]) as (_ & Hs & _ & Hh & _);
    [right; eexists; reflexivity|by left|].
  split; [reflexivity|]. split; [reflexivity|]. split; [exact Hs|exact Hh].
Defined.
