(* ===== verification/ServerDatagram.v ===== *)
(** The UDP tunnel of one connection on the server
    (crates/ombrac-server/src/connection/datagram.rs). *)

From S2P Require Import Prelude Std Parse Protocol Reassembly Metrics.

#[local] Open Scope Z_scope.

Definition MAX_SESSIONS : Z := 8192.
Definition MAX_CONCURRENT_HANDLERS : Z := 4096.
Definition MAX_UDP_RECV_BUFFER_SIZE : Z := 65535.
Definition SOCKET_BIND_RETRY_MAX : nat := 3.
(** Milliseconds. *)
Definition SOCKET_BIND_RETRY_INTERVAL : Z := 100.

(** ** Names *)

(** The cache of resolved names. *)
Abbreviation DnsCache := (gmap Bytes SocketAddr).

(** [lookup_host]; [resolve_domain] is that of Dns.v on the current answers. *)
Definition lookup_host (resolve_domain : Bytes → Z → io_result SocketAddr)
    (dns_cache : DnsCache) (address : Address) : io_result SocketAddr * DnsCache :=
  match address with
  | SocketV4 addr => (Ok (SockV4 addr), dns_cache)
  | SocketV6 addr => (Ok (SockV6 addr), dns_cache)
  | Domain domain port =>
    match dns_cache !! domain with
    | Some addr => (Ok addr, dns_cache)
    | None =>
      match resolve_domain domain port with
      | Ok addr => (Ok addr, <[domain := addr]> dns_cache)
      | Err e => (Err e, dns_cache)
      end
    end
  end.

(** ** Sockets *)

(** The address a session's socket is bound to. *)
Inductive Family := BindV4 | BindV6.

(** A socket of the operating system. *)
Record UdpSocket := mkSocket { socket_id : nat; family : Family }.

#[export] Instance Family_eq_dec : EqDecision Family.
Proof. solve_decision. Defined.
#[export] Instance UdpSocket_eq_dec : EqDecision UdpSocket.
Proof. solve_decision. Defined.

(** [bind_udp_socket_with_retry]: [bind n] is the outcome of the [n]th attempt.
    The result, the number of attempts made and the number of pauses. *)
Fixpoint bind_attempts (bind : nat → io_result nat) (fam : Family)
    (attempt todo : nat) (last_error : option IoError) : io_result UdpSocket * nat * nat :=
  match todo with
  | O => (Err (default (io_other "UDP socket bind failed after ") last_error), attempt, O)
  | S todo =>
    match bind attempt with
    | Ok fd => (Ok (mkSocket fd fam), S attempt, O)
    | Err e =>
      let '(r, n, pauses) := bind_attempts bind fam (S attempt) todo (Some e) in
      (r, n, if Nat.ltb attempt (SOCKET_BIND_RETRY_MAX - 1) then S pauses else pauses)
    end
  end.

Definition bind_udp_socket_with_retry (bind : nat → io_result nat) (bind_addr : Family)
    : io_result UdpSocket * nat * nat :=
  bind_attempts bind bind_addr 0 SOCKET_BIND_RETRY_MAX None.

(** ** Sessions *)

Record DatagramSession := mkSession {
  socket : UdpSocket;
  upstream_bytes : Z;
  downstream_bytes : Z;
  session_destination : Address
}.

(** A spawned task that has not run yet: it holds its session, of which the
    socket matters once the cache has dropped it, and a permit. *)
Record Handler := mkHandler {
  handler_session : Z;
  handler_socket : UdpSocket;
  handler_address : Address;
  handler_data : Bytes
}.

(** [DatagramTunnel], with the handlers that hold its permits. *)
Record DatagramTunnel := mkTunnel {
  sessions : gmap Z DatagramSession;
  dns_cache : DnsCache;
  reassembler : UdpReassembler;
  handlers : list Handler;
  tunnel_metrics : Counters
}.

Definition tunnel_new (m : Counters) : DatagramTunnel :=
  mkTunnel ∅ ∅ reassembler_new [] m.

(** What leaves the tunnel: a datagram from a session's socket, or a packet to
    the client. *)
Inductive TunnelOutput :=
  | SendTo (s : UdpSocket) (data : Bytes) (dest : SocketAddr)
  | ToClient (packet : UdpPacket).

Section tunnel.
Context (resolve_domain : Bytes → Z → io_result SocketAddr).

(** [get_or_create_session]. *)
Definition get_or_create_session (bind : nat → io_result nat) (session_id : Z)
    (dest_addr : Address) (self : DatagramTunnel)
    : io_result DatagramSession * DatagramTunnel :=
  match sessions self !! session_id with
  | Some session => (Ok session, self)
  | None =>
    let '(looked_up, cache) := lookup_host resolve_domain (dns_cache self) dest_addr in
    match looked_up with
    | Err _ =>
      (Err (io_other ""),
       mkTunnel (sessions self) cache (reassembler self) (handlers self)
         (tunnel_metrics self))
    | Ok addr =>
      let bind_addr := match addr with SockV4 _ => BindV4 | SockV6 _ => BindV6 end in
      let '(bound, _, _) := bind_udp_socket_with_retry bind bind_addr in
      match bound with
      | Err _ =>
        (Err (io_other ""),
         mkTunnel (sessions self) cache (reassembler self) (handlers self)
           (tunnel_metrics self))
      | Ok new_socket =>
        let session := mkSession new_socket 0 0 dest_addr in
        (Ok session,
         mkTunnel (<[session_id := session]> (sessions self)) cache
           (reassembler self) (handlers self)
           (fetch_add UdpSessionsOpened 1 (tunnel_metrics self)))
      end
    end
  end.

(** [handle_upstream_packet], to the [spawn] of the handler; a full semaphore
    makes it wait, so it is only run while a permit is free. *)
Definition handle_upstream_packet `{!Bincode UdpPacket} (bind : nat → io_result nat)
    (packet_bytes : Bytes) (self : DatagramTunnel) : io_result unit * DatagramTunnel :=
  match decode packet_bytes with
  | Err _ => (Ok tt, self)
  | Ok packet =>
    let '(processed, reassembler') := process (reassembler self) packet in
    let self := mkTunnel (sessions self) (dns_cache self) reassembler'
                  (handlers self) (tunnel_metrics self) in
    match processed with
    | Err e => (Err e, self)
    | Ok None => (Ok tt, self)
    | Ok (Some (session_id, address, data)) =>
      let self := mkTunnel (sessions self) (dns_cache self) (reassembler self)
                    (handlers self)
                    (fetch_add ReassembliesCompleted 1 (tunnel_metrics self)) in
      let '(session, self) := get_or_create_session bind session_id address self in
      match session with
      | Err _ => (Ok tt, self)
      | Ok session =>
        (Ok tt,
         mkTunnel (sessions self) (dns_cache self) (reassembler self)
           (handlers self ++ [mkHandler session_id (socket session) address data])
           (tunnel_metrics self))
      end
    end
  end.

(** The bytes a handler adds to its session, if the cache still has it. *)
Definition count_upstream (h : Handler) (ss : gmap Z DatagramSession)
    : gmap Z DatagramSession :=
  match ss !! handler_session h with
  | Some s =>
    if decide (socket s = handler_socket h) then
      <[handler_session h :=
          mkSession (socket s)
            (as_u64 (upstream_bytes s + Z.of_nat (length (handler_data h))))
            (downstream_bytes s) (session_destination s)]> ss
    else ss
  | None => ss
  end.

(** The [i]th handler runs: it counts the bytes, resolves and sends, and its
    permit is free again. *)
Definition run_handler (i : nat) (self : DatagramTunnel)
    : list TunnelOutput * DatagramTunnel :=
  match handlers self !! i with
  | None => ([], self)
  | Some h =>
    let '(looked_up, cache) :=
      lookup_host resolve_domain (dns_cache self) (handler_address h) in
    (match looked_up with
     | Ok dest_addr => [SendTo (handler_socket h) (handler_data h) dest_addr]
     | Err _ => []
     end,
     mkTunnel (count_upstream h (sessions self)) cache (reassembler self)
       (delete i (handlers self)) (tunnel_metrics self))
  end.

(** One datagram received by the downstream loop of a session. *)
Definition downstream (session_id : Z) (data : Bytes) (from_addr : SocketAddr)
    (self : DatagramTunnel) : list TunnelOutput * DatagramTunnel :=
  match sessions self !! session_id with
  | None => ([], self)
  | Some s =>
    let s' := mkSession (socket s) (upstream_bytes s)
                (as_u64 (downstream_bytes s + Z.of_nat (length data)))
                (session_destination s) in
    ([ToClient (Unfragmented session_id (address_from from_addr) data)],
     mkTunnel (<[session_id := s']> (sessions self)) (dns_cache self)
       (reassembler self) (handlers self) (tunnel_metrics self))
  end.

(** The eviction listener of the session cache: the loop is aborted and the
    counters are settled. *)
Definition evict_session (session_id : Z) (self : DatagramTunnel) : DatagramTunnel :=
  match sessions self !! session_id with
  | None => self
  | Some s =>
    mkTunnel (delete session_id (sessions self)) (dns_cache self)
      (reassembler self) (handlers self)
      (fetch_add BytesTx (downstream_bytes s)
        (fetch_add BytesRx (upstream_bytes s)
          (fetch_add UdpSessionsClosed 1 (tunnel_metrics self))))
  end.
End tunnel.

(** ** The tunnel as a transition system *)

Section steps.
Context `{!Bincode UdpPacket}.

(** Packets are taken while a permit is free; handlers run in any order; the
    caches drop entries at any time. A resolver and the outcomes of [bind]
    are chosen at each step. *)
Inductive tunnel_step : DatagramTunnel → DatagramTunnel → Prop :=
  | step_packet resolve bind packet_bytes self :
      Z.of_nat (length (handlers self)) < MAX_CONCURRENT_HANDLERS →
      tunnel_step self (snd (handle_upstream_packet resolve bind packet_bytes self))
  | step_handler resolve i self :
      tunnel_step self (snd (run_handler resolve i self))
  | step_downstream session_id data from_addr self :
      tunnel_step self (snd (downstream session_id data from_addr self))
  | step_evict session_id self :
      tunnel_step self (evict_session session_id self)
  | step_expire_name d self :
      tunnel_step self
        (mkTunnel (sessions self) (delete d (dns_cache self)) (reassembler self)
           (handlers self) (tunnel_metrics self))
  | step_expire_fragments k self :
      tunnel_step self
        (mkTunnel (sessions self) (dns_cache self) (evict k (reassembler self))
           (handlers self) (tunnel_metrics self)).

(** Opened sessions are those closed and those in the cache. *)
Definition sessions_balanced (opened0 closed0 : Z) (self : DatagramTunnel) : Prop :=
  as_u64 (load UdpSessionsOpened (tunnel_metrics self) - opened0) =
  as_u64 (load UdpSessionsClosed (tunnel_metrics self) - closed0
          + Z.of_nat (size (sessions self))).

Definition tunnel_ok (opened0 closed0 : Z) (self : DatagramTunnel) : Prop :=
  sessions_balanced opened0 closed0 self
  ∧ Z.of_nat (length (handlers self)) ≤ MAX_CONCURRENT_HANDLERS.

Lemma sessions_balanced_ext o c self self' :
  load UdpSessionsOpened (tunnel_metrics self')
    = load UdpSessionsOpened (tunnel_metrics self) →
  load UdpSessionsClosed (tunnel_metrics self')
    = load UdpSessionsClosed (tunnel_metrics self) →
  size (sessions self') = size (sessions self) →
  sessions_balanced o c self → sessions_balanced o c self'.
Proof. unfold sessions_balanced. by intros -> -> ->. Qed.

Lemma get_or_create_ok o c resolve bind sid dest self :
  sessions_balanced o c self →
  sessions_balanced o c (snd (get_or_create_session resolve bind sid dest self))
  ∧ handlers (snd (get_or_create_session resolve bind sid dest self)) = handlers self.
Proof.
  intros Hb. unfold get_or_create_session.
  destruct (sessions self !! sid) as [s|] eqn:Es; [done|].
  destruct (lookup_host resolve (dns_cache self) dest) as [[addr|e] cache];
    [|by split; [by eapply sessions_balanced_ext; [..|exact Hb]|]].
  destruct (bind_udp_socket_with_retry bind _) as [[[sock|e] n] p];
    [|by split; [by eapply sessions_balanced_ext; [..|exact Hb]|]].
  split; [|done]. revert Hb. unfold sessions_balanced. cbn [snd tunnel_metrics sessions].
  rewrite load_fetch_add_eq, load_fetch_add_ne by done.
  rewrite map_size_insert_None by done. intros Hb.
  rewrite <-Z.add_opp_r, wrap_add_l.
  replace (load UdpSessionsOpened (tunnel_metrics self) + 1 + - o)
    with (load UdpSessionsOpened (tunnel_metrics self) - o + 1) by lia.
  rewrite <-wrap_add_l, Hb, wrap_add_l. f_equal. lia.
Qed.

Lemma count_upstream_size h ss : size (count_upstream h ss) = size ss.
Proof.
  unfold count_upstream. destruct (ss !! handler_session h) as [s|] eqn:E; [|done].
  case_decide; [|done]. by apply map_size_insert_Some.
Qed.

Lemma tunnel_step_ok o c self self' :
  tunnel_ok o c self → tunnel_step self self' → tunnel_ok o c self'.
Proof.
  intros [Hb Hh] Hs. destruct Hs as [resolve bind pb self Hf|resolve i self|sid d a self
    |sid self|d self|k self].
  - unfold handle_upstream_packet. destruct (decode pb) as [p|]; [|by split].
    destruct (process (reassembler self) p) as [[[[[sid addr] data]|]|e] r'];
      [|by split..].
    set (self1 := mkTunnel _ _ _ _ _).
    assert (sessions_balanced o c self1) as Hb1
      by (by eapply sessions_balanced_ext; [..|exact Hb]).
    destruct (get_or_create_ok o c resolve bind sid addr self1 Hb1) as [Hb2 Hh2].
    destruct (get_or_create_session resolve bind sid addr self1) as [[s|e] self2];
      cbn [snd] in *.
    + split; [by eapply sessions_balanced_ext; [..|exact Hb2]|].
      cbn [handlers]. rewrite length_app, Hh2. simpl. lia.
    + split; [done|]. rewrite Hh2. done.
  - unfold run_handler. destruct (handlers self !! i) as [h|] eqn:E; [|by split].
    destruct (lookup_host _ _ _) as [r cache]. split; cbn [snd].
    + apply (sessions_balanced_ext o c self); [done..| |exact Hb]. apply count_upstream_size.
    + cbn [handlers]. rewrite length_delete by done. lia.
  - unfold downstream. destruct (sessions self !! sid) as [s|] eqn:E; [|by split].
    split; [|done]. apply (sessions_balanced_ext o c self); [done..| |exact Hb].
    by apply map_size_insert_Some.
  - unfold evict_session. destruct (sessions self !! sid) as [s|] eqn:E; [|by split].
    split; [|done]. revert Hb. unfold sessions_balanced. cbn [tunnel_metrics sessions].
    rewrite !(load_fetch_add_ne _ UdpSessionsOpened) by done.
    rewrite !(load_fetch_add_ne _ UdpSessionsClosed), load_fetch_add_eq by done.
    intros ->. rewrite <-(insert_delete_id _ _ _ E) at 1.
    rewrite map_size_insert_None by apply lookup_delete_eq.
    rewrite <-(Z.add_sub_swap (as_u64 _)), <-(Z.add_sub_assoc (as_u64 _)), wrap_add_l.
    f_equal. lia.
  - by split.
  - by split.
Qed.
End steps.

(** ** Properties *)

(** C23. However packets, handlers and evictions interleave, every UDP session
    that was opened is either still in the cache or was counted as closed, once:
    the two session counters differ by the number of live sessions; and no more
    than 4096 handlers are pending. *)
Theorem udp_sessions_balanced `{!Bincode UdpPacket} m self :
  rtc tunnel_step (tunnel_new m) self →
  as_u64 (load UdpSessionsOpened (tunnel_metrics self) - load UdpSessionsOpened m) =
    as_u64 (load UdpSessionsClosed (tunnel_metrics self) - load UdpSessionsClosed m
            + Z.of_nat (size (sessions self)))
  ∧ Z.of_nat (length (handlers self)) ≤ MAX_CONCURRENT_HANDLERS.
Proof.
  intros Hr.
  assert (tunnel_ok (load UdpSessionsOpened m) (load UdpSessionsClosed m) (tunnel_new m))
    as H0.
  { split; [|done]. unfold sessions_balanced. cbn [tunnel_new tunnel_metrics sessions].
    rewrite map_size_empty. f_equal. lia. }
  revert H0. induction Hr as [x|x y z Hs _ IH]; [by intros []|].
  intros H0. apply IH. by eapply tunnel_step_ok.
Qed.

#[local] Instance demo_udp_bincode : Bincode UdpPacket := {|
  encode_to_vec _ := None;
  borrow_decode_from_slice b :=
    Some (Unfragmented 5 (SocketV4 (mkSA4 v4_unspecified 9)) b, length b)
|}.

Lemma udp_sessions_balanced_witness :
  let self := snd (handle_upstream_packet (λ _ _, Err early_eof) (λ n, Ok n)
                     [Byte.x61] (tunnel_new metrics_new)) in
  rtc tunnel_step (tunnel_new metrics_new) self
  ∧ size (sessions self) = 1%nat
  ∧ Z.of_nat (length (handlers self)) ≤ MAX_CONCURRENT_HANDLERS.
Proof.
  intros self. assert (rtc tunnel_step (tunnel_new metrics_new) self) as H.
  { apply rtc_once. unfold self. constructor. done. }
  split; [exact H|]. split; [reflexivity|].
  exact (proj2 (udp_sessions_balanced metrics_new self H)).
Defined.

(** Binding a socket: the first of three attempts that succeeds, with a
    pause after each failure but the last; when all three fail, the last error. *)
Theorem bind_retry_spec bind fam :
  bind_udp_socket_with_retry bind fam =
    match bind 0%nat, bind 1%nat, bind 2%nat with
    | Ok fd, _, _ => (Ok (mkSocket fd fam), 1%nat, 0%nat)
    | Err _, Ok fd, _ => (Ok (mkSocket fd fam), 2%nat, 1%nat)
    | Err _, Err _, Ok fd => (Ok (mkSocket fd fam), 3%nat, 2%nat)
    | Err _, Err _, Err e => (Err e, 3%nat, 2%nat)
    end.
Proof.
  unfold bind_udp_socket_with_retry, SOCKET_BIND_RETRY_MAX. cbn.
  destruct (bind 0%nat); [done|]. destruct (bind 1%nat); [done|].
  by destruct (bind 2%nat).
Qed.

(** The cache of names is keyed by the name alone but holds a socket
    address, port included: while an entry lasts, packets for another port of
    the same name are sent to the port that was looked up first. *)
Theorem dns_cache_ignores_port resolve cache d p1 p2 a :
  cache !! d = None → resolve d p1 = Ok a → socket_addr_port a = p1 → p1 ≠ p2 →
  let '(_, cache') := lookup_host resolve cache (Domain d p1) in
  fst (lookup_host resolve cache' (Domain d p2)) = Ok a ∧ socket_addr_port a ≠ p2.
Proof.
  intros Hc Hr Hp Hne. cbn [lookup_host]. rewrite Hc, Hr.
  cbn [lookup_host]. rewrite lookup_insert_eq. by rewrite Hp.
Qed.

Lemma dns_cache_ignores_port_witness :
  let a := SockV4 (mkSA4 v4_unspecified 53) in
  fst (lookup_host (λ _ _, Ok a) {[ [Byte.x61] := a ]} (Domain [Byte.x61] 443)) = Ok a.
Proof.
  intros a.
  exact (proj1 (dns_cache_ignores_port (λ _ _, Ok a) ∅ [Byte.x61] 53 443 a
                  eq_refl eq_refl eq_refl ltac:(lia))).
Defined.
