(* ===== verification/ServerDownstream.v ===== *)
(** The task that carries a UDP session's replies to the client
    (crates/ombrac-server/src/connection/datagram.rs, [DownstreamHandler]). *)

From S2P Require Import Prelude Std Select Parse Protocol Reassembly Metrics ServerDatagram.

#[local] Open Scope Z_scope.

(** Seconds. *)
Definition SESSION_IDLE_TIMEOUT : Z := 65.
Definition DNS_CACHE_TTL : Z := 300.
Definition DATAGRAM_SEND_TIMEOUT : Z := 5.

(** [DownstreamHandler], with what it handed to the connection and the errors it
    logged. *)
Record DownstreamHandler := mkDownstream {
  session_id : Z;
  handler_udp_socket : UdpSocket;
  bytes_down : Z;
  to_connection : list Bytes;
  logged : list IoError
}.

(** [spawn_downstream_loop]: the task of a session that was just opened. *)
Definition spawn_downstream_loop (sid : Z) (session : DatagramSession) : DownstreamHandler :=
  mkDownstream sid (socket session) (downstream_bytes session) [] [].

(** One completed [recv_from], and what sending the reply to the client will give:
    [None] when the connection does not take it within [DATAGRAM_SEND_TIMEOUT]. *)
Record Received := mkReceived {
  recv_result : io_result (Bytes * SocketAddr);
  send_outcome : option (io_result unit)
}.

Section handler.
Context `{!Bincode UdpPacket}.

(** [send_datagram]: the result, and the bytes the connection took. *)
Definition send_to_connection (outcome : option (io_result unit)) (packet : UdpPacket)
    : io_result unit * option Bytes :=
  match encode packet with
  | Err e => (Err e, None)
  | Ok data =>
    match outcome with
    | None => (Err (mkIoError TimedOut "send_datagram timeout after "), None)
    | Some (Err e) => (Err e, None)
    | Some (Ok _) => (Ok tt, Some data)
    end
  end.

(** [process_and_send_datagram]. *)
Definition process_and_send_datagram (outcome : option (io_result unit)) (address : Address)
    (data : Bytes) (self : DownstreamHandler) : io_result unit * option Bytes :=
  send_to_connection outcome (Unfragmented (session_id self) address data).

(** The body of [accept_loop]: the buffer holds [MAX_UDP_RECV_BUFFER_SIZE] bytes of
    a datagram. *)
Definition downstream_body (item : Received) (self : DownstreamHandler)
    : Flow unit * DownstreamHandler :=
  match recv_result item with
  | Ok (datagram, from_addr) =>
    let data := take (Z.to_nat MAX_UDP_RECV_BUFFER_SIZE) datagram in
    let counted := as_u64 (bytes_down self + Z.of_nat (length data)) in
    let '(r, out) := process_and_send_datagram (send_outcome item)
                       (address_from from_addr) data self in
    (Loop, mkDownstream (session_id self) (handler_udp_socket self) counted
             (to_connection self ++ option_list out)
             (logged self ++ match r with Err e => [e] | Ok _ => [] end))
  | Err e =>
    (Loop, mkDownstream (session_id self) (handler_udp_socket self) (bytes_down self)
             (to_connection self) (logged self ++ [e]))
  end.

(** [accept_loop]: the [select!] is not biased. *)
Definition downstream_loop (turns : list (Turn Received)) (self : DownstreamHandler)
    : option unit * DownstreamHandler :=
  (loop_result select_fair tt downstream_body turns self,
   loop_state select_fair tt downstream_body turns self).

(** How the task stands. *)
Inductive TaskEnd := StillRunning | Signalled | Aborted.

(** The task spawned for [accept_loop], with the [abort] that the eviction listener
    of the session cache calls, if it does, after [turns]: the task is dropped where
    it waits, which is in the [select!], or in the send of the reply to a datagram
    it has just received and counted. *)
Definition downstream_task (turns : list (Turn Received))
    (abort : option (option (Bytes * SocketAddr))) (self : DownstreamHandler)
    : TaskEnd * DownstreamHandler :=
  match downstream_loop turns self, abort with
  | (Some _, self), _ => (Signalled, self)
  | (None, self), None => (StillRunning, self)
  | (None, self), Some None => (Aborted, self)
  | (None, self), Some (Some (datagram, _)) =>
    let data := take (Z.to_nat MAX_UDP_RECV_BUFFER_SIZE) datagram in
    (Aborted, mkDownstream (session_id self) (handler_udp_socket self)
                (as_u64 (bytes_down self + Z.of_nat (length data)))
                (to_connection self) (logged self))
  end.

(** The reply an item becomes, and the bytes it counts for. *)
Definition reply_of (sid : Z) (item : Received) : option Bytes :=
  match recv_result item, send_outcome item with
  | Ok (datagram, from), Some (Ok _) =>
    match encode (Unfragmented sid (address_from from)
                    (take (Z.to_nat MAX_UDP_RECV_BUFFER_SIZE) datagram)) with
    | Ok b => Some b | Err _ => None end
  | _, _ => None
  end.
Definition received_bytes (item : Received) : nat :=
  match recv_result item with
  | Ok (datagram, _) => length (take (Z.to_nat MAX_UDP_RECV_BUFFER_SIZE) datagram)
  | Err _ => 0
  end.

Lemma downstream_body_eq item self :
  let self' := snd (downstream_body item self) in
  downstream_body item self = (Loop, self')
  ∧ session_id self' = session_id self
  ∧ handler_udp_socket self' = handler_udp_socket self
  ∧ to_connection self' = to_connection self ++ option_list (reply_of (session_id self) item)
  ∧ bytes_down self' = (if is_ok (recv_result item)
      then as_u64 (bytes_down self + Z.of_nat (received_bytes item)) else bytes_down self).
Proof.
  unfold downstream_body, reply_of, received_bytes, process_and_send_datagram,
    send_to_connection.
  destruct (recv_result item) as [[d from]|e]; cbn [is_ok snd];
    [|by rewrite app_nil_r].
  destruct (encode _) as [b|e]; [destruct (send_outcome item) as [[u|e]|]|
    destruct (send_outcome item) as [[u|e']|]]; done.
Qed.

(** What a run of the loop has done after the items it took. *)
Lemma downstream_fold items self :
  let self' := foldl (λ s item, snd (downstream_body item s)) self items in
  session_id self' = session_id self
  ∧ to_connection self' = to_connection self ++ omap (reply_of (session_id self)) items
  ∧ (0 ≤ bytes_down self < 2 ^ 64 →
     bytes_down self' = as_u64 (bytes_down self
                                + Z.of_nat (sum_list_with received_bytes items))).
Proof.
  revert self. induction items as [|item items IH]; intros self; cbn [foldl].
  { cbn. rewrite app_nil_r. split_and!; [done..|]. intros Hr. rewrite Z.add_0_r.
    by rewrite wrap_small. }
  destruct (downstream_body_eq item self) as (_ & Hs & _ & Ht & Hb).
  destruct (IH (snd (downstream_body item self))) as (IH1 & IH2 & IH3).
  split_and!; [congruence| |].
  - rewrite IH2, Ht, Hs. cbn. destruct (reply_of (session_id self) item); cbn;
      by rewrite <-app_assoc.
  - intros Hr. assert (0 ≤ bytes_down (snd (downstream_body item self)) < 2 ^ 64) as Hr'.
    { rewrite Hb. destruct (is_ok _); [by apply (wrap_range 64)|done]. }
    rewrite (IH3 Hr'), Hb. cbn [sum_list_with]. unfold received_bytes.
    destruct (recv_result item) as [[d from]|e]; cbn [is_ok].
    + rewrite wrap_add_l. f_equal. lia.
    + f_equal.
Qed.
End handler.

(** ** Properties *)

(** The bytes of the datagram whose reply the abort cut off. *)
Definition cut_off_bytes (abort : option (option (Bytes * SocketAddr))) : nat :=
  match abort with
  | Some (Some (datagram, _)) => length (take (Z.to_nat MAX_UDP_RECV_BUFFER_SIZE) datagram)
  | _ => 0
  end.

(** C24. The task of a session ends at the signal, or when the session's eviction
    aborts it, and at nothing else: not an error of the socket, of the serializer or
    of the connection, nor a reply the connection does not take in time. What the
    connection got is, in the order the datagrams came, one whole packet of this
    session for each that could be serialized and sent, with the address it came
    from and its first 65535 bytes; the counter has the bytes of all that were
    received, sent or not, the one whose reply an abort cut off included. *)
Theorem downstream_loop_spec `{!Bincode UdpPacket} turns abort sid session :
  0 ≤ downstream_bytes session < 2 ^ 64 →
  let items := items_before select_fair turns in
  let signalled := existsb (takes_signal select_fair) turns in
  let '(ending, self) := downstream_task turns abort (spawn_downstream_loop sid session) in
  (ending = Signalled ↔ signalled = true)
  ∧ (ending = Aborted ↔ signalled = false ∧ abort ≠ None)
  ∧ to_connection self = omap (reply_of sid) items
  ∧ bytes_down self = as_u64 (downstream_bytes session
                              + Z.of_nat (sum_list_with received_bytes items
                                          + if signalled then 0 else cut_off_bytes abort)).
Proof.
  intros Hr items signalled. unfold downstream_task, downstream_loop.
  destruct (select_loop_total select_fair tt downstream_body
    (λ item s, snd (downstream_body item s)) turns (spawn_downstream_loop sid session))
    as [H1 H2]; [intros item s; apply downstream_body_eq|].
  rewrite H1, H2. fold signalled items.
  destruct (downstream_fold items (spawn_downstream_loop sid session)) as (_ & H3 & H4).
  specialize (H4 Hr). set (self := foldl _ _ _) in *. cbn in H3, H4.
  destruct signalled, abort as [[[d from]|]|]; cbn;
    rewrite ?H3, ?H4, ?Nat.add_0_r; split_and!; try done; try (split; [done|by intros [? ?]]).
  rewrite wrap_add_l. f_equal. lia.
Qed.

(** Each turn of the task does to the session what [ServerDatagram.downstream]
    says, as long as the datagram fits the buffer: the same counter, and the packet
    that is handed to the connection is the one that leaves the tunnel there. *)
Theorem downstream_turn_refines `{!Bincode UdpPacket} `{!BincodeLaws UdpPacket}
    sid data from outcome session (t : DatagramTunnel) (self : DownstreamHandler) :
  sessions t !! sid = Some session → session_id self = sid →
  bytes_down self = downstream_bytes session →
  Z.of_nat (length data) ≤ MAX_UDP_RECV_BUFFER_SIZE →
  let self' := snd (downstream_body (mkReceived (Ok (data, from)) outcome) self) in
  ∃ session' packet,
    downstream sid data from t
      = ([ToClient packet], snd (downstream sid data from t))
    ∧ sessions (snd (downstream sid data from t)) !! sid = Some session'
    ∧ bytes_down self' = downstream_bytes session'
    ∧ (to_connection self' = to_connection self
       ∨ ∃ b, to_connection self' = to_connection self ++ [b] ∧ decode b = Ok (wire packet)).
Proof.
  intros Hs Hid Hb Hl self'. unfold downstream. rewrite Hs. cbn [snd sessions].
  eexists _, _. split; [done|]. rewrite lookup_insert_eq. split; [done|].
  destruct (downstream_body_eq (mkReceived (Ok (data, from)) outcome) self)
    as (_ & _ & _ & Ht & Hc). fold self' in Ht, Hc. cbn [recv_result is_ok] in Hc.
  unfold received_bytes in Hc. cbn [recv_result] in Hc.
  rewrite take_ge in Hc by (unfold MAX_UDP_RECV_BUFFER_SIZE in *; lia).
  split; [by rewrite Hc, Hb|]. rewrite Ht. unfold reply_of. cbn [recv_result send_outcome].
  rewrite take_ge by (unfold MAX_UDP_RECV_BUFFER_SIZE in *; lia). rewrite Hid.
  destruct outcome as [[u|e]|]; [|left; by rewrite app_nil_r..].
  destruct (encode _) as [b|e] eqn:Ee; [right|left; by rewrite app_nil_r].
  exists b. split; [done|]. exact (decode_encode _ _ Ee).
Qed.

(** A serializer for the witnesses. *)
Definition demo_reply : UdpPacket := Unfragmented 1 (SocketV4 (mkSA4 v4_unspecified 9)) [Byte.x68].

#[local] Instance demo_reply_codec : Bincode UdpPacket := {|
  encode_to_vec p := if decide (p = demo_reply) then Some [Byte.x04] else None;
  borrow_decode_from_slice b :=
    match b with [Byte.x04] => Some (demo_reply, 1%nat) | _ => None end
|}.
#[local] Instance demo_reply_codec_laws : BincodeLaws UdpPacket.
Proof.
  intros p b. unfold encode_to_vec, demo_reply_codec.
  case_decide as H1; [subst; by intros [= <-]|done].
Qed.

Definition demo_session : DatagramSession :=
  mkSession (mkSocket 0 BindV4) 0 0 (SocketV4 (mkSA4 v4_unspecified 9)).
Definition demo_received (data : Bytes) (outcome : option (io_result unit)) : Received :=
  mkReceived (Ok (data, SockV4 (mkSA4 v4_unspecified 9))) outcome.
(** A reply that is sent, one that times out, a failed receive, and one more. *)
Definition demo_turns : list (Turn Received) :=
  [mkTurn false (Some (demo_received [Byte.x68] (Some (Ok tt)))) false;
   mkTurn false (Some (demo_received [Byte.x68] None)) false;
   mkTurn false (Some (mkReceived (Err early_eof) None)) false;
   mkTurn true (Some (demo_received [Byte.x68] (Some (Ok tt)))) false;
   mkTurn true None false].

(** The signal does not come, and the eviction falls into the send of one more
    reply. *)
Lemma downstream_loop_spec_witness :
  let '(ending, self) := downstream_task (take 4 demo_turns)
    (Some (Some ([Byte.x68; Byte.x69], SockV4 (mkSA4 v4_unspecified 9))))
    (spawn_downstream_loop 1 demo_session) in
  ending = Aborted ∧ to_connection self = [[Byte.x04]; [Byte.x04]] ∧ bytes_down self = 5.
Proof.
  pose proof (downstream_loop_spec (take 4 demo_turns)
    (Some (Some ([Byte.x68; Byte.x69], SockV4 (mkSA4 v4_unspecified 9))))
    1 demo_session ltac:(done)) as H.
  destruct (downstream_task (take 4 demo_turns) _ _) as [r self].
  destruct H as (_ & Ha & -> & ->). split; [by apply Ha|]. split; vm_compute; reflexivity.
Defined.

Lemma downstream_turn_refines_witness :
  let t := mkTunnel {[1 := demo_session]} ∅ reassembler_new [] metrics_new in
  let self' := snd (downstream_body (demo_received [Byte.x68] (Some (Ok tt)))
                      (spawn_downstream_loop 1 demo_session)) in
  to_connection self' = [[Byte.x04]]
  ∧ ∃ session' packet,
    downstream 1 [Byte.x68] (SockV4 (mkSA4 v4_unspecified 9)) t
      = ([ToClient packet],
         snd (downstream 1 [Byte.x68] (SockV4 (mkSA4 v4_unspecified 9)) t))
    ∧ sessions (snd (downstream 1 [Byte.x68] (SockV4 (mkSA4 v4_unspecified 9)) t)) !! 1
      = Some session'
    ∧ bytes_down self' = downstream_bytes session'
    ∧ (to_connection self' = []
       ∨ ∃ b, to_connection self' = [] ++ [b] ∧ decode b = Ok (wire packet)).
Proof.
  intros t self'. split; [vm_compute; reflexivity|].
  exact (downstream_turn_refines 1 [Byte.x68] (SockV4 (mkSA4 v4_unspecified 9)) (Some (Ok tt))
    demo_session t (spawn_downstream_loop 1 demo_session) eq_refl eq_refl eq_refl ltac:(done)).
Defined.
