(* ===== verification/Services.v ===== *)
(** The services as a whole: building and shutting down the client
    (crates/ombrac-client/src/service.rs, with [Client::new] of client.rs) and the
    server (crates/ombrac-server/src/service.rs), and their binaries. *)

From S2P Require Import Prelude Std Parse Stream Protocol Select Metrics.
From S2P Require Import ClientConfig ClientConnection ClientDatagram Endpoints ServerAuth.
From S2P Require ServerConfig.
From S2P Require Quic QuicEndpoint.

#[local] Open Scope Z_scope.

(** ** Errors *)

(** [service::Error] of the client; the server's has no [Endpoint]. *)
Inductive Error :=
  | IoErr (e : IoError)
  | ConfigErr (m : string)
  | QuicErr (e : QuicEndpoint.Error)
  | EndpointErr (m : string).

(** The text of an error. *)
Definition error_text (e : Error) : string :=
  match e with
  | IoErr e => msg e
  | ConfigErr m => m
  | QuicErr e => QuicEndpoint.error_text e
  | EndpointErr m => m
  end.

(** [require_config!]. *)
Definition require_config {A} (config_opt : option A) (field_name : string) : Result Error A :=
  ok_or (ConfigErr ("'" ++ field_name ++ "' is required but was not provided")%string) config_opt.

(** ** The endpoints of the client *)

Section endpoints.
(** TCP streams of the operating system and tun devices. *)
Context {TcpStream Dev Net4 Net6 : Type}.
(** [TcpListener::bind]. *)
Context (listen : SocketAddr → io_result unit).
(** A device of a file descriptor, one of the builder, and the [ipnet] crate. *)
Context (from_fd : Z → io_result Dev).
Context (build_async : Z → option Net4 → option Net6 → Result string Dev).
Context (parse_net4 : Bytes → Result string Net4) (parse_net6 : Bytes → Result string Net6).
(** The pool of the fake name server when none is configured, 198.18.0.0/16. *)
Context (default_fakedns_cidr : Net4).

Abbreviation Accepted := (io_result (TcpStream * SocketAddr)).

(** [endpoint_http_accept_loop]: its result, [None] while it runs, and the
    connections it hands over. *)
Definition endpoint_http_accept_loop (config : ServiceConfig) (turns : list (Turn Accepted))
    : option (Result Error unit) * list (TcpStream * SocketAddr) :=
  match require_config (http (endpoint config)) "endpoint.http" with
  | Err e => (Some (Err e), [])
  | Ok bind_addr =>
    match listen bind_addr with
    | Err e => (Some (Err (IoErr e)), [])
    | Ok _ =>
      let '(r, served) := http_accept_loop turns in
      (map_err (λ e, EndpointErr ("http server failed to run: " ++ msg e)%string) <$> r, served)
    end
  end.

(** [endpoint_socks_accept_loop]. *)
Definition endpoint_socks_accept_loop (config : ServiceConfig) (turns : list (Turn Accepted))
    : option (Result Error unit) * list (TcpStream * SocketAddr) :=
  match require_config (socks (endpoint config)) "endpoint.socks" with
  | Err e => (Some (Err e), [])
  | Ok bind_addr =>
    match listen bind_addr with
    | Err e => (Some (Err (IoErr e)), [])
    | Ok _ =>
      let '(r, served) := socks_run turns in
      (map_err (λ e, EndpointErr ("socks server failed to run: " ++ msg e)%string) <$> r, served)
    end
  end.

(** [TunConfig] of the tun endpoint, and its default. *)
Record TunSettings := mkTunSettings {
  fakedns_cidr : Net4;
  udp_idle_timeout : Z;
  udp_session_channel_capacity : Z;
  disable_udp_443 : bool
}.

Definition tun_settings_default : TunSettings :=
  mkTunSettings default_fakedns_cidr (secs 60) 2048 false.

(** The device of [endpoint_tun_accept_loop]. *)
Definition tun_device (config : TunConfig) : Result Error Dev :=
  match tun_fd config with
  | Some fd => map_err IoErr (from_fd fd)
  | None =>
    ip4 ← match tun_ipv4 config with
          | Some ip_str =>
            Some <$> map_err (λ e, ConfigErr ("failed to parse ipv4 cidr: " ++ e)%string)
                       (parse_net4 ip_str)
          | None => Ok None
          end;
    ip6 ← match tun_ipv6 config with
          | Some ip_str =>
            Some <$> map_err (λ e, ConfigErr ("failed to parse ipv6 cidr: " ++ e)%string)
                       (parse_net6 ip_str)
          | None => Ok None
          end;
    map_err (λ e, EndpointErr ("failed to build tun device: " ++ e)%string)
      (build_async (default 1500 (tun_mtu config)) ip4 ip6)
  end.

(** The settings of the endpoint. *)
Definition tun_settings (config : TunConfig) : Result Error TunSettings :=
  cidr ← match fake_dns config with
         | Some value =>
           map_err (λ e, ConfigErr ("failed to parse fake_dns cidr: " ++ e)%string)
             (parse_net4 value)
         | None => Ok (fakedns_cidr tun_settings_default)
         end;
  Ok (mkTunSettings cidr (udp_idle_timeout tun_settings_default)
        (udp_session_channel_capacity tun_settings_default)
        (default (disable_udp_443 tun_settings_default) (ClientConfig.disable_udp_443 config))).

(** The default of the configuration asks for what an empty one gets. *)
Lemma tun_default_agrees (H : parse_net4 (bytes_of "198.18.0.0/16") = Ok default_fakedns_cidr) :
  let empty := mkTunConfig None None None None None None in
  tun_settings tun_default = tun_settings empty ∧ tun_device tun_default = tun_device empty.
Proof. split; [|done]. unfold tun_settings. cbn [fake_dns tun_default]. by rewrite H. Qed.

(** [endpoint_tun_accept_loop]: with the device and the settings the endpoint runs
    on; whether the signal has come, and which of its tasks have ended. *)
Definition endpoint_tun_accept_loop (config : ServiceConfig) (shutdown_signal : bool)
    (processing_tasks : Dev → TunSettings → list (option unit)) : option (Result Error unit) :=
  match require_config (tun (endpoint config)) "endpoint.tun" with
  | Err e => Some (Err e)
  | Ok config =>
    match tun_device config with
    | Err e => Some (Err e)
    | Ok device =>
      match tun_settings config with
      | Err e => Some (Err e)
      | Ok tun_config =>
        map_err (λ e, EndpointErr ("tun device runtime error: " ++ msg e)%string) <$>
          tun_accept_loop shutdown_signal (processing_tasks device tun_config)
      end
    end
  end.

(** [spawn_endpoint]: the task ends whatever the endpoint returns, and logs an
    error. *)
Definition spawn_endpoint (task : option (Result Error unit)) : option unit * list string :=
  match task with
  | None => (None, [])
  | Some (Ok _) => (Some tt, [])
  | Some (Err e) => (Some tt, [error_text e])
  end.

(** What the environment shows the endpoints up to some moment: their turns; how
    many tasks the tun endpoint has spawned for connections and flows; and which of
    the tasks an endpoint has spawned, counted from 0, are over. *)
Record EndpointEnv := mkEndpointEnv {
  http_turns : list (Turn Accepted);
  socks_turns : list (Turn Accepted);
  tun_signal : bool;
  tun_tasks : Dev → TunSettings → list (option unit);
  tun_spawned : nat;
  task_over : Endpoint → nat → bool
}.

(** The task [build] spawns for an endpoint. *)
Definition endpoint_task (config : ServiceConfig) (env : EndpointEnv) (e : Endpoint)
    : option unit * list string :=
  spawn_endpoint
    match e with
    | HttpEndpoint => fst (endpoint_http_accept_loop config (http_turns env))
    | SocksEndpoint => fst (endpoint_socks_accept_loop config (socks_turns env))
    | TunEndpoint => endpoint_tun_accept_loop config (tun_signal env) (tun_tasks env)
    end.

(** The tasks an endpoint has spawned for its connections, and those that still run:
    each holds a clone of the [Arc] of the client. *)
Definition handed_over (config : ServiceConfig) (env : EndpointEnv) (e : Endpoint) : nat :=
  match e with
  | HttpEndpoint => length (snd (endpoint_http_accept_loop config (http_turns env)))
  | SocksEndpoint => length (snd (endpoint_socks_accept_loop config (socks_turns env)))
  | TunEndpoint => tun_spawned env
  end.

Definition connection_tasks (config : ServiceConfig) (env : EndpointEnv) (e : Endpoint)
    : list nat :=
  filter (λ i, task_over env e i = false) (seq 0 (handed_over config env e)).
End endpoints.

(** ** The client *)

Section client.
Context {Cert Key Sock C S F : Type} `{Framed S F} `{!Bincode ClientMessage}
  `{!Bincode ServerAuthResponse}.
(** Name lookup and the conversions of [quinn] ([ClientConfig]). *)
Context (lookup_host : Bytes → io_result (list SocketAddr)).
Context (idle_ok streams_ok : Z → io_result unit).
(** The files and the library under the QUIC client ([QuicEndpoint]). *)
Context (load_certificates : Bytes → io_result (list Cert)).
Context (load_private_key : Bytes → io_result Key).
Context (bind : SocketAddr → io_result Sock).
Context (client_crypto : Quic.ClientTls (Cert := Cert) (Key := Key)
                         → Result QuicEndpoint.Error unit).
Context (new_endpoint : Sock → io_result unit).
(** [blake3::hash]. *)
Context (blake3 : Bytes → Secret).

Abbreviation QuicClient := (QuicEndpoint.QuicClient (Cert := Cert) (Key := Key) (Sock := Sock)).

(** [Client]: the connection's shared state, the dispatcher of its UDP sessions
    with their counter, and whether the dispatcher was told to stop. *)
Record Client := mkClient {
  transport : QuicClient;
  connection : Shared C;
  udp_dispatcher : UdpDispatcher;
  shutdown_token : bool
}.

(** What building meets: whether [info!] evaluates its arguments, the address of the
    socket, and the events of connecting and authenticating. *)
Record BuildEnv := mkBuildEnv {
  info_enabled : bool;
  local_addr : io_result SocketAddr;
  dialled : QuicEndpoint.Dial (C := C);
  auth_elapsed : option Z;
  open_stream : C → io_result S;
  shutdown_stream : S → io_result unit
}.

(** [Client::new], with [ClientConnection::new]. *)
Definition client_new (env : BuildEnv) (transport : QuicClient) (secret : Secret)
    (options : option Bytes) : io_result Client :=
  connection ←
    authenticate (F := F) (auth_elapsed env)
      (QuicEndpoint.initiator_connect
         (q_enable_zero_rtt (QuicEndpoint.client_config transport)) (dialled env))
      (open_stream env) (shutdown_stream env) secret (default [] options);
  Ok (mkClient transport (shared_new connection) dispatcher_new false).

(** [Drop for Client]. *)
Definition client_drop (self : Client) : Client :=
  mkClient (transport self) (connection self) (udp_dispatcher self) true.

(** [quic_client_from_config], with the construction of the client. *)
Definition quic_client (config : ServiceConfig) : io_result QuicClient :=
  quic_config ← quic_client_from_config lookup_host idle_ok streams_ok config;
  map_err QuicEndpoint.error_to_io
    (QuicEndpoint.client_new load_certificates load_private_key bind client_crypto new_endpoint
       quic_config).

(** [OmbracClient]: the client and the tasks of its endpoints. *)
Record OmbracClient := mkOmbracClient { client : Client; handles : list Endpoint }.

(** [OmbracClient::build]. *)
Definition client_build (env : BuildEnv) (config : ServiceConfig) : Result Error OmbracClient :=
  transport ← map_err IoErr (quic_client config);
  _ ← (if info_enabled env
       then map_err (λ e, QuicErr (QuicEndpoint.Io e)) (local_addr env)
       else Ok (SockV4 (mkSA4 v4_unspecified 0)));
  let secret := blake3 (ClientConfig.secret config) in
  client ← map_err IoErr (client_new env transport secret (auth_option config));
  handles ← map_err ConfigErr (start_endpoints (endpoint config));
  Ok (mkOmbracClient client handles).

(** [OmbracClient::shutdown]: it returns when every task has ended, in the order of
    the handles. *)
Fixpoint await_all (tasks : list (option unit)) : option unit :=
  match tasks with
  | [] => Some tt
  | Some _ :: tasks => await_all tasks
  | None :: _ => None
  end.

(** The [Arc]s of the client: the service's own, one in the task of each endpoint
    that runs, one in each task the endpoints spawned, and the [clones] that callers
    of [OmbracClient::client] made and still hold. *)
Definition client_strong_count (self : OmbracClient) (task : Endpoint → option unit)
    (spawned : Endpoint → list nat) (clones : nat) : nat :=
  1 + length (filter (λ e, task e = None) (handles self))
    + sum_list (map (λ e, length (spawned e)) (handles self)) + clones.

(** Dropping one of [strong] [Arc]s. *)
Definition arc_drop (strong : nat) (client : Client) : Client :=
  match strong with 1%nat => client_drop client | _ => client end.

(** [shutdown] takes the service by value, and drops its [Arc] when it returns. *)
Definition client_shutdown (self : OmbracClient) (task : Endpoint → option unit)
    (spawned : Endpoint → list nat) (clones : nat) : option Client :=
  match await_all (map task (handles self)) with
  | Some _ => Some (arc_drop (client_strong_count self task spawned clones) (client self))
  | None => None
  end.

(** [OmbracClient::rebind], as [ClientConnection::rebind] passes it on. *)
Definition client_rebind (swap : Sock → io_result unit) (self : OmbracClient)
    : io_result unit * Sock :=
  QuicEndpoint.initiator_rebind bind swap
    (QuicEndpoint.client_config (transport (client self)))
    (QuicEndpoint.client_socket (transport (client self))).
End client.

(** ** The server *)

(** What the task of [ConnectionAcceptor::accept_loop] and those it spawned see: a
    poll of its [select!], or the end of a connection with the result of its
    handler. *)
Inductive AcceptorEvent :=
  | Polled (turn : Turn (io_result nat))
  | ConnectionDone (connection : nat) (result : io_result unit).

(** [ConnectionAcceptor::accept_loop]: its result, [None] while it runs, the events
    after its end, and the state. *)
Fixpoint acceptor_loop (events : list AcceptorEvent) (self : AcceptorState)
    : option (io_result unit) * list AcceptorEvent * AcceptorState :=
  match events with
  | [] => (None, [], self)
  | Polled turn :: events =>
    match select_fair turn with
    | OnSignal => (Some (Ok tt), events, self)
    | OnReady accepted => acceptor_loop events (handle_incoming_connection accepted self)
    | Waiting => acceptor_loop events self
    end
  | ConnectionDone connection result :: events =>
    acceptor_loop events (process_connection_end connection result self)
  end.

Section server.
Context {Cert Key Sock : Type}.
Context (idle_ok streams_ok : Z → Result string unit).
Context (load_certificates : Bytes → io_result (list Cert)).
Context (load_private_key : Bytes → io_result Key).
Context (generate_self_signed : io_result (list Cert * Key)).
Context (bind : SocketAddr → io_result Sock).
Context (server_crypto : Quic.ServerTls (Cert := Cert) (Key := Key)
                         → Result QuicEndpoint.Error unit).
Context (new_endpoint : Sock → io_result unit).
Context (blake3 : Bytes → Secret).

(** [OmbracServer]: the secret its connections must know, the acceptor, and the QUIC
    server that the acceptor keeps alive. *)
Record OmbracServer := mkOmbracServer {
  authenticator : Secret;
  acceptor : AcceptorState;
  quic_server : QuicEndpoint.ServerState
}.

(** [OmbracServer::build], with the socket and the construction of the QUIC server
    at the end of [quic_server_from_config]; errors are their texts. *)
Definition server_build (config : ServerConfig.ServiceConfig) : Result string OmbracServer :=
  quic_config ← ServerConfig.quic_server_from_config idle_ok streams_ok config;
  socket ← map_err msg (bind (ServerConfig.listen config));
  _ ← map_err QuicEndpoint.error_text
        (QuicEndpoint.quic_server_new load_certificates load_private_key generate_self_signed
           server_crypto new_endpoint socket quic_config);
  let secret := blake3 (ServerConfig.secret config) in
  Ok (mkOmbracServer secret
        (acceptor_new (Z.to_nat (ServerConfig.get_max_connections (ServerConfig.connection config))))
        QuicEndpoint.server_new).

(** [OmbracServer::shutdown]: it returns when the accept loop has ended; then the
    acceptor is dropped, and with it the QUIC server. *)
Definition server_shutdown (events : list AcceptorEvent) (self : OmbracServer)
    : option unit * OmbracServer :=
  match acceptor_loop events (acceptor self) with
  | (Some _, _, state) =>
    (Some tt, mkOmbracServer (authenticator self) state
                (QuicEndpoint.drop_server (quic_server self)))
  | (None, _, state) => (None, mkOmbracServer (authenticator self) state (quic_server self))
  end.
End server.

(** What the task of a connection does with it ([ConnectionAcceptor::process_connection]):
    the processor of [ServerAuth] with the authenticator of the server. *)
Definition process_connection {S F} `{Framed S F} `{!Bincode ClientMessage}
    `{!Bincode ServerAuthResponse} (env : AuthEnv S) (self : OmbracServer)
    : io_result unit * list (AuthEffect unit) :=
  handle (F := F) env (authenticator self).

(** ** The binaries *)

(** [wait_for_shutdown_signal] on Unix: registering for SIGTERM, and then what came
    first, an error of [ctrl_c] counting as a signal. *)
Definition wait_for_shutdown_signal (sigterm : io_result unit) (ctrl_c : option (io_result unit))
    (terminated : bool) : option (io_result unit) :=
  match sigterm with
  | Err e => Some (Err e)
  | Ok _ =>
    match ctrl_c, terminated with
    | None, false => None
    | _, _ => Some (Ok tt)
    end
  end.

(** [run_from_cli] of both binaries, for a service, the wait and its shutdown. *)
Definition run_from_cli {E A} (text : E → string) (build : Result E A)
    (wait : option (io_result unit)) (shutdown : A → option unit) : option (io_result unit) :=
  match build with
  | Ok service =>
    match wait with
    | None => None
    | Some (Err e) => Some (Err e)
    | Some (Ok _) => match shutdown service with Some _ => Some (Ok tt) | None => None end
    end
  | Err e => Some (Err (io_other (text e)))
  end.

(** [main] of both binaries: the exit status, 101 being that of a panic; [logging] is
    whether [init_for_binary] returned. *)
Definition main {E Cfg} (config : Result E Cfg) (logging : bool) (runtime : io_result unit)
    (run : Cfg → option (io_result unit)) : option Z :=
  match config with
  | Err _ => Some 1
  | Ok config =>
    if negb logging then Some 101
    else match runtime with
         | Err _ => Some 101
         | Ok _ =>
           match run config with
           | None => None
           | Some (Err _) => Some 1
           | Some (Ok _) => Some 0
           end
         end
  end.

(** ** Properties *)

Section client_props.
Context {Cert Key Sock C S F : Type} `{Framed S F} `{!Bincode ClientMessage}
  `{!Bincode ServerAuthResponse}.
Context (lookup_host : Bytes → io_result (list SocketAddr)).
Context (idle_ok streams_ok : Z → io_result unit).
Context (load_certificates : Bytes → io_result (list Cert)).
Context (load_private_key : Bytes → io_result Key).
Context (bind : SocketAddr → io_result Sock).
Context (client_crypto : Quic.ClientTls (Cert := Cert) (Key := Key)
                         → Result QuicEndpoint.Error unit).
Context (new_endpoint : Sock → io_result unit).
Context (blake3 : Bytes → Secret).

#[local] Abbreviation build := (client_build (C := C) (F := F) lookup_host idle_ok streams_ok
  load_certificates load_private_key bind client_crypto new_endpoint blake3).
#[local] Abbreviation quic := (quic_client lookup_host idle_ok streams_ok
  load_certificates load_private_key bind client_crypto new_endpoint).

(** [OmbracClient::build] succeeds exactly when the QUIC client can be made, the
    address of its socket can be shown (when that is logged), the server accepts the
    connection with the hash of the configured secret, and some endpoint is
    configured; the endpoints started are then the configured ones, in the order
    HTTP, SOCKS, tun, on a fresh connection with no UDP session. A configuration
    without endpoints is refused only after the client has connected and
    authenticated. *)
Theorem client_build_spec env config :
  (∀ o, build env config = Ok o ↔
     ∃ t c hs, quic config = Ok t ∧ (info_enabled env = true → is_ok (local_addr env) = true)
       ∧ client_new (C := C) (F := F) env t (blake3 (ClientConfig.secret config))
           (auth_option config) = Ok c
       ∧ start_endpoints (endpoint config) = Ok hs ∧ o = mkOmbracClient c hs)
  ∧ (∀ m, build env config = Err (ConfigErr m) →
       start_endpoints (endpoint config) = Err m
       ∧ ∃ t c, quic config = Ok t
           ∧ client_new (C := C) (F := F) env t (blake3 (ClientConfig.secret config))
               (auth_option config) = Ok c).
Proof.
  unfold client_build. split.
  - intros o. split.
    + intros (t & Ht%map_err_ok & (a & Ha & (c & Hc%map_err_ok & (hs & Hs%map_err_ok
        & [= <-])%result_bind_ok)%result_bind_ok)%result_bind_ok)%result_bind_ok.
      exists t, c, hs. split_and!; try done. intros Hi. rewrite Hi in Ha.
      by destruct (local_addr env).
    + intros (t & c & hs & -> & Ha & Hc & Hs & ->). cbn.
      destruct (info_enabled env); [destruct (local_addr env) as [a|]|]; cbn;
        [by rewrite Hc; cbn; rewrite Hs|by specialize (Ha eq_refl)|by rewrite Hc; cbn; rewrite Hs].
  - intros m. destruct (quic config) as [t|]; [cbn|done].
    assert (∀ A (r : Result Error A), (_ ← (if info_enabled env
       then map_err (λ e, QuicErr (QuicEndpoint.Io e)) (local_addr env)
       else Ok (SockV4 (mkSA4 v4_unspecified 0))); r) = Err (ConfigErr m) → r = Err (ConfigErr m))
      as Hl by (intros A r; destruct (info_enabled env); [destruct (local_addr env)|]; done).
    intros Hb%Hl. destruct (client_new env t _ _) as [c|] eqn:Ec; [cbn in Hb|done].
    destruct (start_endpoints (endpoint config)) as [hs|m']; [done|]. injection Hb as ->.
    split; [done|]. by exists t, c.
Qed.
End client_props.

Section shutdown_props.
Context {TcpStream Dev Net4 Net6 : Type}.
Context (listen : SocketAddr → io_result unit).
Context (from_fd : Z → io_result Dev).
Context (build_async : Z → option Net4 → option Net6 → Result string Dev).
Context (parse_net4 : Bytes → Result string Net4) (parse_net6 : Bytes → Result string Net6).
Context (default_fakedns_cidr : Net4).

Abbreviation task := (endpoint_task (TcpStream := TcpStream) listen from_fd build_async
  parse_net4 parse_net6 default_fakedns_cidr).

Lemma http_loop_result (turns : list (Turn (io_result (TcpStream * SocketAddr)))) :
  fst (http_accept_loop turns) = if existsb signal turns then Some (Ok tt) else None.
Proof.
  destruct (accept_loop_spec select_biased (Ok tt : io_result unit) turns) as [H1 _].
  by rewrite existsb_signal_biased in H1.
Qed.

Lemma socks_loop_result (turns : list (Turn (io_result (TcpStream * SocketAddr)))) :
  fst (socks_run turns) = if existsb signal turns then Some (Ok tt) else None.
Proof. apply http_loop_result. Qed.

(** A task of an endpoint, by what the endpoint could open and what it has seen. *)
Lemma http_task config env :
  fst (task config env HttpEndpoint) =
    match http (endpoint config) with
    | Some a => if is_ok (listen a) && negb (existsb signal (http_turns env)) then None else Some tt
    | None => Some tt
    end.
Proof.
  unfold endpoint_task, endpoint_http_accept_loop, require_config.
  destruct (http (endpoint config)) as [a|]; [cbn [ok_or]|done].
  destruct (listen a) as [|e]; [cbn [is_ok andb]|done].
  pose proof (http_loop_result (http_turns env)) as Hl.
  destruct (http_accept_loop (http_turns env)) as [r served]. cbn [fst] in Hl. subst r.
  by destruct (existsb signal (http_turns env)).
Qed.

Lemma socks_task config env :
  fst (task config env SocksEndpoint) =
    match socks (endpoint config) with
    | Some a => if is_ok (listen a) && negb (existsb signal (socks_turns env)) then None else Some tt
    | None => Some tt
    end.
Proof.
  unfold endpoint_task, endpoint_socks_accept_loop, require_config.
  destruct (socks (endpoint config)) as [a|]; [cbn [ok_or]|done].
  destruct (listen a) as [|e]; [cbn [is_ok andb]|done].
  pose proof (socks_loop_result (socks_turns env)) as Hl.
  destruct (socks_run (socks_turns env)) as [r served]. cbn [fst] in Hl. subst r.
  by destruct (existsb signal (socks_turns env)).
Qed.

Lemma tun_task config env :
  tun_signal env = true → (∀ dev st, Forall is_Some (tun_tasks env dev st)) →
  fst (task config env TunEndpoint) = Some tt.
Proof.
  intros Hs Ht. unfold endpoint_task, endpoint_tun_accept_loop.
  destruct (require_config _ _) as [c|]; [|done].
  destruct (tun_device _ _ _ _ c) as [d|]; [|done]. destruct (tun_settings _ _ c) as [t|]; [|done].
  unfold tun_accept_loop. rewrite Hs. cbn.
  assert (forallb (λ r : option unit, match r with Some _ => true | None => false end)
            (tun_tasks env d t) = true) as ->; [|done].
  apply forallb_forall. intros r Hr. specialize (Ht d t). rewrite List.Forall_forall in Ht.
  by destruct (Ht r Hr) as [[] ->].
Qed.

Lemma await_all_spec tasks : await_all tasks = if decide (None ∈ tasks) then None else Some tt.
Proof.
  induction tasks as [|[[]|] tasks IH]; cbn [await_all].
  - by rewrite decide_False by apply not_elem_of_nil.
  - rewrite IH. by rewrite (decide_ext (None ∈ tasks) (None ∈ Some tt :: tasks))
      by (rewrite elem_of_cons; naive_solver).
  - by rewrite decide_True by left.
Qed.

Lemma await_all_ended (tasks : Endpoint → option unit) (hs : list Endpoint) :
  await_all (map tasks hs) = Some tt → filter (λ e, tasks e = None) hs = [].
Proof.
  rewrite await_all_spec. destruct (decide _) as [|Hn]; [done|]. intros _.
  apply filter_nil_iff. intros e He Ht. apply Hn. apply list_elem_of_fmap. by exists e.
Qed.

Lemma sum_lengths_zero {A} (f : Endpoint → list A) hs :
  sum_list (map (λ e, length (f e)) hs) = O ↔ ∀ e, e ∈ hs → f e = [].
Proof.
  induction hs as [|e hs IH]; cbn; [split; [by intros _ ? ?%elem_of_nil|done]|].
  rewrite Nat.eq_add_0, IH, length_zero_iff_nil. set_solver.
Qed.

Lemma endpoint_waits {Cert Key Sock C} config env spawned clones e
    (self : OmbracClient (Cert := Cert) (Key := Key) (Sock := Sock) (C := C)) :
  e ∈ handles self → fst (task config env e) = None →
  client_shutdown self (λ e, fst (task config env e)) spawned clones = None.
Proof.
  intros Hi Ht. unfold client_shutdown. rewrite await_all_spec, decide_True; [done|].
  apply list_elem_of_fmap. by exists e.
Qed.

Lemma no_signal_yet (turns : list (Turn (io_result (TcpStream * SocketAddr)))) :
  Forall (λ t, signal t = false) turns → existsb signal turns = false.
Proof. induction 1 as [|t l Ht _ IH]; cbn; [done|]. by rewrite Ht. Qed.

(** C39. [OmbracClient::shutdown] returns once every endpoint has seen the signal and
    the tasks of the tun endpoint have ended, also when an endpoint never came up;
    while an HTTP or a SOCKS endpoint that listens has not seen the signal it waits.
    It does not wait for the connections that the endpoints handed to tasks of their
    own: the client is dropped, and its dispatcher told to stop, exactly if every
    such task is over and no caller kept a clone of its [Arc]; otherwise its
    dispatcher and its connection to the server go on. *)
Theorem client_shutdown_returns {Cert Key Sock C} config env clones
    (o : OmbracClient (Cert := Cert) (Key := Key) (Sock := Sock) (C := C)) :
  let shutdown env := client_shutdown o (λ e, fst (task config env e))
    (connection_tasks listen config env) clones in
  Exists (λ t, signal t = true) (http_turns env) →
  Exists (λ t, signal t = true) (socks_turns env) →
  tun_signal env = true → (∀ dev st, Forall is_Some (tun_tasks env dev st)) →
  (∃ c, shutdown env = Some c
     ∧ (shutdown_token c = true ↔
        (clones = O ∧ ∀ e i, e ∈ handles o → (i < handed_over listen config env e)%nat →
           task_over env e i = true)
        ∨ shutdown_token (client o) = true))
  ∧ (∀ env' a, HttpEndpoint ∈ handles o → http (endpoint config) = Some a → is_ok (listen a) = true →
       Forall (λ t, signal t = false) (http_turns env') → shutdown env' = None)
  ∧ (∀ env' a, SocksEndpoint ∈ handles o → socks (endpoint config) = Some a →
       is_ok (listen a) = true →
       Forall (λ t, signal t = false) (socks_turns env') → shutdown env' = None).
Proof.
  intros shutdown. assert (∀ turns : list (Turn (io_result (TcpStream * SocketAddr))),
    Exists (λ t, signal t = true) turns → existsb signal turns = true) as Hex.
  { intros turns Ht. apply existsb_exists. by apply List.Exists_exists in Ht. }
  intros Hh%Hex Hs%Hex Htun Htasks. split_and!.
  - assert (await_all (map (λ e, fst (task config env e)) (handles o)) = Some tt) as Ha.
    { rewrite await_all_spec, decide_False; [done|].
      intros ([] & He & _)%list_elem_of_fmap; revert He.
      - rewrite http_task, Hh. destruct (http (endpoint config)) as [a|]; [|done].
        by rewrite andb_false_r.
      - rewrite socks_task, Hs. destruct (socks (endpoint config)) as [a|]; [|done].
        by rewrite andb_false_r.
      - by rewrite tun_task. }
    unfold shutdown, client_shutdown. rewrite Ha. eexists. split; [done|].
    unfold client_strong_count. rewrite (await_all_ended _ _ Ha). cbn [length].
    set (n := sum_list _). assert (n = O ↔ ∀ e i, e ∈ handles o →
      (i < handed_over listen config env e)%nat → task_over env e i = true) as <-.
    { unfold n. rewrite sum_lengths_zero. unfold connection_tasks. split.
      - intros Hz e i He Hi. specialize (Hz e He). rewrite filter_nil_iff in Hz.
        destruct (task_over env e i) eqn:E; [done|]. exfalso. apply (Hz i); [|done].
        apply elem_of_seq. lia.
      - intros Hz e He. apply filter_nil_iff. intros i Hi%elem_of_seq.
        rewrite Hz by (done || lia). done. }
    destruct n; [destruct clones|]; cbn; naive_solver.
  - intros env' a Hi Ha Hl Hf. apply (endpoint_waits _ _ _ _ HttpEndpoint); [done|].
    by rewrite http_task, Ha, Hl, no_signal_yet.
  - intros env' a Hi Ha Hl Hf. apply (endpoint_waits _ _ _ _ SocksEndpoint); [done|].
    by rewrite socks_task, Ha, Hl, no_signal_yet.
Qed.
End shutdown_props.

(** *** The server *)

(** What can happen to a server: a connection that arrives is a new one, one that
    ends was being processed. *)
Fixpoint events_ok (events : list AcceptorEvent) (self : AcceptorState) : Prop :=
  match events with
  | [] => True
  | Polled turn :: events =>
    match select_fair turn with
    | OnSignal => True
    | OnReady accepted =>
      (∀ c, accepted = Ok c → c ∉ processing self)
      ∧ events_ok events (handle_incoming_connection accepted self)
    | Waiting => events_ok events self
    end
  | ConnectionDone connection result :: events =>
    connection ∈ processing self
    ∧ events_ok events (process_connection_end connection result self)
  end.

(** The loop is a run of the acceptor's steps. *)
Lemma acceptor_loop_steps events self :
  events_ok events self → rtc acceptor_step self (snd (acceptor_loop events self)).
Proof.
  revert self. induction events as [|[t|c r] events IH]; intros self; cbn; [done| |].
  - destruct (select_fair t) as [|accepted|]; [done| |apply IH].
    intros [Hc He]. eapply rtc_l; [by apply step_incoming|by apply IH].
  - intros [Hc He]. eapply rtc_l; [by apply step_end|by apply IH].
Qed.

Lemma acceptor_loop_ends events self :
  fst (fst (acceptor_loop events self)) = Some (Ok tt) ∨ fst (fst (acceptor_loop events self)) = None.
Proof.
  revert self. induction events as [|[t|c r] events IH]; intros self; cbn; [by right| |apply IH].
  destruct (select_fair t) as [|a|]; [by left|apply IH..].
Qed.

Section server_props.
Context {Cert Key Sock : Type}.
Context (idle_ok streams_ok : Z → Result string unit).
Context (load_certificates : Bytes → io_result (list Cert)).
Context (load_private_key : Bytes → io_result Key).
Context (generate_self_signed : io_result (list Cert * Key)).
Context (bind : SocketAddr → io_result Sock).
Context (server_crypto : Quic.ServerTls (Cert := Cert) (Key := Key)
                         → Result QuicEndpoint.Error unit).
Context (new_endpoint : Sock → io_result unit).
Context (blake3 : Bytes → Secret).

#[local] Abbreviation build := (server_build idle_ok streams_ok load_certificates
  load_private_key generate_self_signed bind server_crypto new_endpoint blake3).

(** C22. A server built from a configuration gives tunnels only to a connection whose
    first frame is a hello of the protocol's version with the hash of the
    configuration's secret, before and after everything that happens to it, its
    shutdown included; and at no time does it process more connections than the
    configuration's [max_connections], or 10000 when that is not set (the code's
    default, where the documentation has 1024). *)
Theorem server_respects_config {S F} `{Framed S F} `{!Bincode ClientMessage}
    `{!Bincode ServerAuthResponse} config o events :
  build config = Ok o → events_ok events (acceptor o) →
  let o' := snd (server_shutdown events o) in
  (∀ env : AuthEnv S, RanTunnels ∈ snd (process_connection (F := F) env o') →
     ∃ s payload f hello, accepted_stream env = Ok s
       ∧ framed_next (framed_new s : F) = (Some (Ok payload), f)
       ∧ decode payload = Ok (MsgHello hello) ∧ hello_version hello = PROTOCOL_VERSION
       ∧ hello_secret hello = blake3 (ServerConfig.secret config))
  ∧ (size (processing (acceptor o'))
     ≤ Z.to_nat (default 10000%Z (ServerConfig.max_connections (ServerConfig.connection config))))%nat.
Proof.
  intros Hb He. unfold server_build in Hb.
  apply result_bind_ok in Hb as (q & _ & Hb).
  apply result_bind_ok in Hb as (s & _ & Hb).
  apply result_bind_ok in Hb as (t & _ & Hb). injection Hb as <-. cbn [acceptor] in He.
  set (n := Z.to_nat _) in *.
  assert (rtc acceptor_step (acceptor_new n) (snd (acceptor_loop events (acceptor_new n)))) as Hr
    by by apply acceptor_loop_steps.
  unfold server_shutdown. cbn [acceptor authenticator].
  destruct (acceptor_loop events (acceptor_new n)) as [[r rest] st]. cbn [snd] in Hr.
  apply acceptor_reach in Hr. split; [|destruct r; cbn; lia].
  intros env Hran. unfold process_connection in Hran.
  assert (RanTunnels ∈ snd (handle (F := F) env (blake3 (ServerConfig.secret config)))) as Hran'
    by by destruct r.
  destruct (admitted_ran _ _ Hran') as (ctx & p & s' & payload & f1 & hello & f2 & Hs & _ & Hn
    & Hd & Hv & _ & Ha & _).
  exists s', payload, f1, hello. split_and!; try done.
  unfold verify, secret_authenticator in Ha. by destruct (decide _).
Qed.
End server_props.

(** [OmbracServer::shutdown] does not wait for the connections that are being
    served: as soon as the accept loop takes the signal it returns, with every one
    of them still in its handler, and the QUIC server that is dropped with it then
    closes the endpoint under them. Until then, the branches of the loop having no
    order, a connection that is ready may still be accepted after the signal. *)
Theorem server_shutdown_abandons (o : OmbracServer) t rest :
  signal t = true → QuicEndpoint.loop_running (quic_server o) = true →
  (ready t = None ∨ signal_first t = true →
     fst (server_shutdown (Polled t :: rest) o) = Some tt
     ∧ acceptor (snd (server_shutdown (Polled t :: rest) o)) = acceptor o
     ∧ ∃ quic, rtc QuicEndpoint.server_step
                 (quic_server (snd (server_shutdown (Polled t :: rest) o))) quic
         ∧ QuicEndpoint.endpoint_closed quic = true)
  ∧ (∀ accepted, ready t = Some accepted → signal_first t = false →
       server_shutdown (Polled t :: rest) o
       = server_shutdown rest (mkOmbracServer (authenticator o)
           (handle_incoming_connection accepted (acceptor o)) (quic_server o))).
Proof.
  intros Hs Hl. split.
  - intros Hr. assert (select_fair t = OnSignal) as Hf.
    { unfold select_fair. rewrite Hs. destruct Hr as [->| ->]; [done|]. by destruct (ready t). }
    unfold server_shutdown. cbn [acceptor_loop]. rewrite Hf. cbn. split; [done|]. split; [done|].
    eexists. split; [apply rtc_once; exists []; by apply QuicEndpoint.step_stop|done].
  - intros accepted Hr Hf. unfold server_shutdown. cbn [acceptor_loop].
    unfold select_fair. rewrite Hr, Hs, Hf. cbn. done.
Qed.

(** The exit status of the binaries: 0 exactly when the configuration loads, the
    logging and the runtime start, the service comes up, and it shuts down after a
    signal. *)
Lemma main_status {E E' Cfg A} (config : Result E Cfg) logging runtime (text : E' → string)
    (build : Cfg → Result E' A) sigterm ctrl_c terminated (shutdown : A → option unit) status :
  main config logging runtime
    (λ c, run_from_cli text (build c) (wait_for_shutdown_signal sigterm ctrl_c terminated) shutdown)
  = Some status →
  status = 0 ↔
    ∃ c s, config = Ok c ∧ logging = true ∧ is_ok runtime = true ∧ build c = Ok s
      ∧ is_ok sigterm = true ∧ (ctrl_c ≠ None ∨ terminated = true) ∧ shutdown s = Some tt.
Proof.
  unfold main, run_from_cli, wait_for_shutdown_signal.
  assert (∀ n (P : Prop), n ≠ 0 → ¬ P → (n = 0 ↔ P)) as Hno by tauto.
  destruct config as [c|];
    [|intros [= <-]; apply Hno; [done|]; intros (? & ? & ? & _); congruence].
  destruct logging;
    [cbn|intros [= <-]; apply Hno; [done|]; intros (? & ? & _ & ? & _); congruence].
  destruct runtime;
    [|intros [= <-]; apply Hno; [done|]; intros (? & ? & _ & _ & ? & _); done].
  destruct (build c) as [s|] eqn:Eb;
    [|intros [= <-]; apply Hno; [done|]; intros (? & ? & [= <-] & _ & _ & ? & _); congruence].
  destruct sigterm;
    [|intros [= <-]; apply Hno; [done|]; intros (? & ? & _ & _ & _ & _ & ? & _); done].
  destruct ctrl_c as [|], terminated; try done;
    (destruct (shutdown s) as [[]|] eqn:Es; [|done]; intros [= <-]; split; [intros _|done];
     exists c, s; split_and!; auto).
Qed.

(** ** The theorems at concrete inputs *)

Definition demo_addr : SocketAddr := SockV4 (mkSA4 v4_unspecified 1080).

Definition demo_config : ServiceConfig :=
  mkService [] (bytes_of "example.com:443") None (mkEndpoint (Some demo_addr) None None)
    transport_default logging_default.

(** A connection, an error of [accept], then the signal. *)
Definition demo_turns : list (Turn (io_result (nat * SocketAddr))) :=
  [mkTurn false (Some (Ok (1%nat, demo_addr))) false;
   mkTurn false (Some (Err early_eof)) true; mkTurn true None false].

Definition demo_endpoints : EndpointEnv (TcpStream := nat) (Dev := unit) (Net4 := unit) :=
  mkEndpointEnv demo_turns demo_turns true (λ _ _, [Some tt]) 0 (λ _ _, false).

Definition demo_client : OmbracClient (Cert := unit) (Key := unit) (Sock := unit) (C := nat) :=
  mkOmbracClient
    (mkClient
       (QuicEndpoint.mkQuicClient
          (mkQuic [] demo_addr demo_addr None None false false []
             QuicEndpoint.transport_config_default)
          (Quic.mkClientTls Quic.WebpkiRoots None false false [])
          QuicEndpoint.transport_config_default tt)
       (shared_new 0%nat) dispatcher_new false)
    [HttpEndpoint].

(** The connection that the HTTP endpoint accepted still runs: the client goes on. *)
Lemma client_shutdown_returns_witness :
  ∃ c, client_shutdown demo_client
         (λ e, fst (endpoint_task (λ _, Ok tt) (λ _, Ok tt) (λ _ _ _, Ok tt) (λ _, Ok tt)
                      (λ _, Ok tt) tt demo_config demo_endpoints e))
         (connection_tasks (λ _, Ok tt) demo_config demo_endpoints) 0 = Some c
    ∧ shutdown_token c = false.
Proof.
  assert (Exists (λ t, signal t = true) demo_turns) as Hs by decide_now.
  destruct (client_shutdown_returns (λ _, Ok tt) (λ _, Ok tt) (λ _ _ _, Ok tt) (λ _, Ok tt)
    (λ _, Ok tt) tt demo_config demo_endpoints 0 demo_client Hs Hs eq_refl
    ltac:(intros ? ?; decide_now)) as [(c & Hc & Ht) _].
  exists c. split; [exact Hc|]. destruct (shutdown_token c); [|done].
  exfalso. destruct (proj1 Ht eq_refl) as [[_ Hover]|Hd]; [|discriminate Hd].
  specialize (Hover HttpEndpoint 0%nat (list_elem_of_here _ _)).
  discriminate Hover. vm_compute. lia.
Defined.

(** A server of one connection, with a second that arrives while it is served. *)
Definition demo_server_config : ServerConfig.ServiceConfig :=
  ServerConfig.mkService [] demo_addr
    (ServerConfig.mkTransport (Some Insecure) None None None None None None None None None None)
    (ServerConfig.mkConnection (Some 1) None None None) ServerConfig.logging_default.

Definition demo_server : OmbracServer :=
  mkOmbracServer (vreplicate 32 Byte.x00) (acceptor_new 1) QuicEndpoint.server_new.

Definition demo_events : list AcceptorEvent :=
  [Polled (mkTurn false (Some (Ok 1%nat)) false); Polled (mkTurn true (Some (Ok 2%nat)) false);
   Polled (mkTurn true None true)].

#[local] Existing Instance ServerAuth.demo_hello_bincode.
#[local] Existing Instance ServerAuth.demo_auth_bincode.

(** A client with the right secret gets its tunnels. *)
Definition demo_auth_env : AuthEnv Bytes :=
  mkAuthEnv (Ok (frame [z2b PROTOCOL_VERSION])) true true true 250.

Lemma server_respects_config_witness :
  let o := snd (server_shutdown demo_events demo_server) in
  processing (acceptor o) = {[1%nat]} ∧ (size (processing (acceptor o)) ≤ 1)%nat
  ∧ ∃ s payload f hello, accepted_stream demo_auth_env = Ok s
       ∧ framed_next (framed_new s : MemFramed) = (Some (Ok payload), f)
       ∧ decode payload = Ok (MsgHello hello) ∧ hello_version hello = PROTOCOL_VERSION
       ∧ hello_secret hello = vreplicate 32 Byte.x00.
Proof.
  intros o. split; [reflexivity|].
  destruct (server_respects_config (S := Bytes) (F := MemFramed) (Cert := unit) (Key := unit)
    (Sock := unit)
    (λ _, Ok tt) (λ _, Ok tt) (λ _, Ok []) (λ _, Ok tt) (Ok ([], tt)) (λ _, Ok tt) (λ _, Ok tt)
    (λ _, Ok tt) (λ _, vreplicate 32 Byte.x00) demo_server_config demo_server demo_events
    eq_refl) as [Hs Hn].
  { split; [intros c [= <-]; decide_now|]. split; [intros c [= <-]; decide_now|done]. }
  split; [exact Hn|]. apply (Hs demo_auth_env).
  vm_compute. right. right. left.
Defined.

Lemma server_shutdown_abandons_witness :
  let o := mkOmbracServer (authenticator demo_server)
             (handle_incoming_connection (Ok 1%nat) (acceptor demo_server))
             QuicEndpoint.server_new in
  fst (server_shutdown [Polled (mkTurn true None false)] o) = Some tt
  ∧ processing (acceptor (snd (server_shutdown [Polled (mkTurn true None false)] o))) = {[1%nat]}.
Proof.
  intros o.
  destruct (proj1 (server_shutdown_abandons o (mkTurn true None false) [] eq_refl eq_refl)
    (or_introl eq_refl)) as (H1 & H2 & _).
  split; [exact H1|]. rewrite H2. reflexivity.
Defined.
