(* ===== verification/ClientDispatcher.v ===== *)
(** The background task of the client's UDP sessions
    ([UdpDispatcher::run], crates/ombrac-client/src/connection/datagram.rs): the
    reader of ClientDatagram.v, its retry delay and the dispatcher, in the loop that
    joins them, among the sessions that receive, open and drop. *)

From S2P Require Import Prelude Std Select Protocol Reassembly ClientDatagram.

#[local] Open Scope Z_scope.

(** ** The task *)

(** The locals of [run], the dispatcher it shares with the sessions, whether the
    loop runs, and whether it is in the [sleep] that follows an error. What it has
    read and what the reader has returned are kept, and for each session how much
    had been returned when it was opened. *)
Record DispatchTask := mkTask {
  task_reassembler : UdpReassembler;
  current_delay : Z;
  dispatcher : UdpDispatcher;
  running : bool;
  sleeping : bool;
  reads : list (io_result Bytes);
  delivered : list (Z * Address * Bytes);
  opened_at : gmap Z nat
}.

(** [run] as it starts. *)
Definition task_new : DispatchTask :=
  mkTask reassembler_new DATAGRAM_INITIAL_DELAY dispatcher_new true false [] [] ∅.

Definition set_dispatcher (d : UdpDispatcher) (s : DispatchTask) : DispatchTask :=
  mkTask (task_reassembler s) (current_delay s) d (running s) (sleeping s) (reads s)
    (delivered s) (opened_at s).

(** The loop is at its [select!]: it has not left, does not sleep, and is not
    inside [dispatch]. *)
Definition at_select (s : DispatchTask) : bool :=
  running s && negb (sleeping s) && match waiting (dispatcher s) with None => true | _ => false end.

Section task.
Context `{!Bincode UdpPacket}.

(** The branch of [read_datagram] with one more outcome of [with_retry]. The
    reassembler outlives the branch, so a reader that is polled again goes on
    where it was. *)
Definition on_read (outcome : io_result Bytes) (s : DispatchTask) : DispatchTask :=
  match read_datagram (task_reassembler s) [outcome] with
  | (None, r) =>
    mkTask r (current_delay s) (dispatcher s) true false (reads s ++ [outcome]) (delivered s)
      (opened_at s)
  | (Some (Ok (session_id, address, data)), r) =>
    mkTask r (next_delay (current_delay s) true)
      (dispatch session_id data address (dispatcher s)) true false (reads s ++ [outcome])
      (delivered s ++ [(session_id, address, data)]) (opened_at s)
  | (Some (Err _), r) =>
    mkTask r (next_delay (current_delay s) false) (dispatcher s) true true
      (reads s ++ [outcome]) (delivered s) (opened_at s)
  end.

(** A poll of the task. *)
Definition poll_task (t : Turn (io_result Bytes)) (s : DispatchTask) : DispatchTask :=
  if at_select s then
    match select_fair t with
    | OnSignal =>
      mkTask (task_reassembler s) (current_delay s) (dispatcher s) false false (reads s)
        (delivered s) (opened_at s)
    | OnReady outcome => on_read outcome s
    | Waiting => s
    end
  else s.

(** The end of [sleep]. *)
Definition wake_up (s : DispatchTask) : DispatchTask :=
  mkTask (task_reassembler s) (current_delay s) (dispatcher s) (running s) false (reads s)
    (delivered s) (opened_at s).

(** [open_associate], noting when. *)
Definition open_session (s : DispatchTask) : DispatchTask :=
  let '(sid, d) := open_associate (dispatcher s) in
  mkTask (task_reassembler s) (current_delay s) d (running s) (sleeping s) (reads s)
    (delivered s) (<[sid := length (delivered s)]> (opened_at s)).

(** The task among its sessions, after [n] of them were opened. *)
Inductive task_reach : nat → DispatchTask → Prop :=
  | task_start : task_reach 0 task_new
  | task_poll n t s : task_reach n s → task_reach n (poll_task t s)
  | task_wake n s : task_reach n s → task_reach n (wake_up s)
  | task_open n s : task_reach n s → task_reach (S n) (open_session s)
  | task_recv n sid s :
      task_reach n s → sid ∉ dropping (dispatcher s) →
      task_reach n (set_dispatcher (snd (recv_from sid (dispatcher s))) s)
  | task_drop n sid s :
      task_reach n s → sid ∉ dropping (dispatcher s) →
      is_Some (dispatch_map (dispatcher s) !! sid) →
      task_reach n (set_dispatcher (drop_session sid (dispatcher s)) s)
  | task_expire n k s :
      task_reach n s →
      task_reach n (mkTask (evict k (task_reassembler s)) (current_delay s) (dispatcher s)
        (running s) (sleeping s) (reads s) (delivered s) (opened_at s)).

(** ** Laws *)

(** Reading is one outcome after the other. *)
Lemma read_datagram_cons r o l :
  read_datagram r (o :: l) =
    match read_datagram r [o] with
    | (None, r) => read_datagram r l
    | done => done
    end.
Proof.
  cbn [read_datagram]. destruct o as [b|e]; [|done]. destruct (decode b); [|done].
  by destruct (process r _) as [[[x|]|e] r'].
Qed.

(** The dispatcher of the task is one of ClientDatagram.v. *)
Lemma task_dispatcher n s : task_reach n s → dispatcher_reach n (dispatcher s).
Proof.
  induction 1 as [|n t s _ IH|n s _ IH|n s _ IH|n sid s _ IH Hd|n sid s _ IH Hd Hs|n k s _ IH];
    try done.
  - apply reach_start.
  - unfold poll_task. destruct (at_select s) eqn:Ea; [|done].
    destruct (select_fair t) as [|o|]; try done. unfold on_read.
    destruct (read_datagram (task_reassembler s) [o]) as [[[[[sid a] x]|e]|] r]; cbn; try done.
    eapply reach_step; [done|]. apply step_dispatch. unfold at_select in Ea.
    destruct (waiting (dispatcher s)); [|done]. by rewrite !andb_false_r in Ea.
  - unfold open_session.
    pose proof (reach_open _ _ IH) as H. by destruct (open_associate (dispatcher s)).
  - eapply reach_step; [done|]. by constructor.
  - eapply reach_step; [done|]. by constructor.
Qed.

(** What the application of a session is to get of what was returned since. *)
Definition items_of (sid : Z) (l : list (Z * Address * Bytes)) : list Item :=
  omap (λ '(s, a, x), if decide (s = sid) then Some (x, a) else None) l.

Lemma items_of_app sid l1 l2 : items_of sid (l1 ++ l2) = items_of sid l1 ++ items_of sid l2.
Proof. apply omap_app. Qed.

(** Of every live session, the dispatcher has handled exactly that. *)
Definition task_log (s : DispatchTask) : Prop :=
  ∀ sid, is_Some (dispatch_map (dispatcher s) !! sid) → ∃ k,
    opened_at s !! sid = Some k ∧ (k ≤ length (delivered s))%nat
    ∧ default [] (dispatched (dispatcher s) !! sid) = items_of sid (drop k (delivered s)).

Lemma dispatch_log sid x a d s :
  is_Some (dispatch_map (dispatch sid x a d) !! s) →
  is_Some (dispatch_map d !! s)
  ∧ default [] (dispatched (dispatch sid x a d) !! s)
    = default [] (dispatched d !! s) ++ items_of s [(sid, a, x)].
Proof.
  unfold dispatch. cbn [items_of omap list_omap].
  destruct (dispatch_map d !! sid) as [q|] eqn:E.
  - intros Hs. assert (is_Some (dispatch_map d !! s)) as Hl.
    { destruct (Nat.ltb _ _); [|done]. cbn in Hs. rewrite (push_lookup _ _ _ q) in Hs by done.
      destruct (decide (sid = s)) as [<-|]; [by rewrite E|by rewrite lookup_insert_ne in Hs]. }
    split; [done|]. destruct (Nat.ltb _ _); cbn; (case_decide as Hd;
      [subst; by rewrite push_eq|by rewrite push_ne, app_nil_r]).
  - intros Hs. split; [done|]. case_decide as Hd; [|by rewrite app_nil_r].
    subst. rewrite E in Hs. by destruct Hs.
Qed.

Lemma recv_from_log sid d s :
  dispatched (snd (recv_from sid d)) = dispatched d
  ∧ (is_Some (dispatch_map (snd (recv_from sid d)) !! s) → is_Some (dispatch_map d !! s)).
Proof.
  unfold recv_from. destruct (dispatch_map d !! sid) as [[|x q]|] eqn:E; [done| |done].
  destruct (waiting d) as [[s0 y]|]; [case_decide|]; (split; [done|]); cbn;
    (destruct (decide (sid = s)) as [<-|]; [by rewrite E|by rewrite lookup_insert_ne]).
Qed.

Lemma drop_session_log sid d s :
  dispatched (drop_session sid d) = dispatched d
  ∧ (is_Some (dispatch_map (drop_session sid d) !! s) → is_Some (dispatch_map d !! s)).
Proof.
  assert (is_Some (delete sid (dispatch_map d) !! s) → is_Some (dispatch_map d !! s)).
  { intros [q [_ Hq]%lookup_delete_Some]. by exists q. }
  unfold drop_session, unregister_session. destruct (waiting d) as [[s0 y]|]; [case_decide|]; by split.
Qed.

(** The log is kept by anything that only removes sessions. *)
Lemma task_log_same s s' :
  task_log s → opened_at s' = opened_at s → delivered s' = delivered s →
  dispatched (dispatcher s') = dispatched (dispatcher s) →
  (∀ sid, is_Some (dispatch_map (dispatcher s') !! sid) →
          is_Some (dispatch_map (dispatcher s) !! sid)) →
  task_log s'.
Proof. intros Hl E1 E2 E3 Hs sid Hsid. rewrite E1, E2, E3. by apply Hl, Hs. Qed.

Lemma on_read_log o s : task_log s → task_log (on_read o s).
Proof.
  intros Hl. unfold on_read.
  destruct (read_datagram (task_reassembler s) [o]) as [[[[[sid a] x]|e]|] r];
    [|by apply (task_log_same s)..].
  intros s' [Hs Hd]%dispatch_log. destruct (Hl s' Hs) as (k & Hk & Hle & Hlog).
  exists k. cbn [opened_at delivered dispatcher]. rewrite length_app. split_and!; [done|lia|].
  by rewrite Hd, Hlog, (drop_app_le _ _ k), items_of_app by done.
Qed.

Lemma open_session_log s : task_log s → task_log (open_session s).
Proof.
  intros Hl sid Hs. unfold open_session in *. cbn in *.
  destruct (decide (session_id_counter (dispatcher s) = sid)) as [<-|Hne].
  - exists (length (delivered s)). rewrite !lookup_insert_eq, drop_all. by split_and!.
  - rewrite !lookup_insert_ne in * by done. by apply Hl.
Qed.

Lemma task_reach_log n s : task_reach n s → task_log s.
Proof.
  induction 1 as [|n t s _ IH|n s _ IH|n s _ IH|n sid s _ IH Hd|n sid s _ IH Hd Hs|n k s _ IH].
  - intros sid [q Hq]. done.
  - unfold poll_task. destruct (at_select s); [|done].
    destruct (select_fair t); [|by apply on_read_log|done]. by apply (task_log_same s).
  - by apply (task_log_same s).
  - by apply open_session_log.
  - apply (task_log_same s); try done; [apply (recv_from_log sid _ 0)|intros s'; apply (proj2 (recv_from_log sid _ s'))].
  - apply (task_log_same s); try done; [apply (drop_session_log sid _ 0)|].
    intros s'. apply (proj2 (drop_session_log sid _ s')).
  - by apply (task_log_same s).
Qed.

(** The delay stays within its bounds, and [sleep] is only entered after an error. *)
Lemma task_delay n s :
  task_reach n s → DATAGRAM_INITIAL_DELAY ≤ current_delay s ≤ DATAGRAM_MAX_DELAY.
Proof.
  unfold DATAGRAM_INITIAL_DELAY, DATAGRAM_MAX_DELAY.
  induction 1 as [|n t s _ IH|n s _ IH|n s _ IH|n sid s _ IH Hd|n sid s _ IH Hd Hs|n k s _ IH];
    try done.
  unfold poll_task. destruct (at_select s); [|done]. destruct (select_fair t) as [|o|]; try done.
  unfold on_read. destruct (read_datagram _ [o]) as [[[[[sid a] x]|e]|] r]; cbn; try done;
    unfold next_delay, DATAGRAM_INITIAL_DELAY, DATAGRAM_MAX_DELAY; lia.
Qed.

(** ** Unfragmented packets *)

(** Datagrams that hold whole packets are returned as they come, whatever else the
    reassembler holds. *)
Definition whole (l : list (io_result Bytes)) : list (Z * Address * Bytes) :=
  omap (λ o, match o with
             | Ok b => match decode b with
                       | Ok (Unfragmented sid a x) => Some (sid, a, x)
                       | _ => None
                       end
             | Err _ => None
             end) l.

Definition is_fragment (o : io_result Bytes) : bool :=
  match o with
  | Ok b => match decode b with Ok (Fragmented _ _ _ _ _ _) => true | _ => false end
  | Err _ => false
  end.

Lemma on_read_whole o s :
  is_fragment o = false → delivered s = whole (reads s) →
  delivered (on_read o s) = whole (reads (on_read o s)).
Proof.
  intros Hf Hd. unfold on_read. cbn [read_datagram].
  destruct o as [b|e]; cbn [is_fragment] in Hf.
  - destruct (decode b) as [[sid a x|? ? ? ? ? ?]|e] eqn:Eb; [|done|].
    + cbn. unfold whole. rewrite omap_app. cbn. rewrite Eb. by rewrite Hd.
    + cbn. unfold whole. rewrite omap_app. cbn. rewrite Eb. by rewrite Hd, app_nil_r.
  - cbn. unfold whole. rewrite omap_app. cbn. by rewrite Hd, app_nil_r.
Qed.

Lemma on_read_reads o s : reads (on_read o s) = reads s ++ [o].
Proof.
  unfold on_read. by destruct (read_datagram _ [o]) as [[[[[sid a] x]|e]|] r].
Qed.

Lemma task_reach_whole n s :
  task_reach n s → existsb is_fragment (reads s) = false → delivered s = whole (reads s).
Proof.
  induction 1 as [|n t s _ IH|n s _ IH|n s _ IH|n sid s _ IH Hd|n sid s _ IH Hd Hs|n k s _ IH];
    try done.
  unfold poll_task. destruct (at_select s); [|done]. destruct (select_fair t) as [|o|]; try done.
  intros Hf. rewrite on_read_reads, existsb_app in Hf. apply orb_false_iff in Hf as [H1 H2].
  cbn in H2. rewrite orb_false_r in H2. by apply on_read_whole; [|apply IH].
Qed.
End task.

(** ** Properties *)

(** The background task gives every session its packets: whatever the reads,
    errors, fragments, expiries and sessions interleave, what the application of a
    live session has received, followed by its queue and the packet that waits for
    room in it, is exactly what the reader returned for that session since it was
    opened, in order. The delay between failed reads is always between one second
    and one minute; and the task stops only for the signal, never for an error. *)
Theorem dispatcher_delivers `{!Bincode UdpPacket} n s sid q :
  task_reach n s → Z.of_nat n < 2 ^ 64 - 1 →
  dispatch_map (dispatcher s) !! sid = Some q →
  (∃ k, opened_at s !! sid = Some k
     ∧ default [] (received (dispatcher s) !! sid) ++ q ++ waiting_for sid (dispatcher s)
       = items_of sid (drop k (delivered s)))
  ∧ DATAGRAM_INITIAL_DELAY ≤ current_delay s ≤ DATAGRAM_MAX_DELAY
  ∧ ∀ t, signal t = false → running (poll_task t s) = running s.
Proof.
  intros Hr Hn Hs. split; [|split; [by eapply task_delay|]].
  - destruct (dispatcher_reach_ok n _ (task_dispatcher n s Hr) Hn) as [[Hq _] _].
    destruct (Hq sid q Hs) as [_ ->].
    destruct (task_reach_log n s Hr sid ltac:(by rewrite Hs)) as (k & Hk & _ & Hlog).
    by exists k.
  - intros t Ht. unfold poll_task. destruct (at_select s) eqn:Ea; [|done].
    unfold at_select in Ea. apply andb_true_iff in Ea as [Ea _].
    apply andb_true_iff in Ea as [Er _]. rewrite Er.
    unfold select_fair. rewrite Ht. destruct (ready t) as [o|]; cbn; [|done].
    unfold on_read. by destruct (read_datagram _ [o]) as [[[[[s' a] x]|e]|] r].
Qed.

#[local] Instance demo_udp_codec : Bincode UdpPacket := {|
  encode_to_vec _ := None;
  borrow_decode_from_slice b :=
    match b with
    | [] => None
    | _ => Some (Unfragmented 1 (SocketV4 (mkSA4 v4_unspecified 9)) b, length b)
    end
|}.

(** One session; an error, a datagram that does not decode, and one that does. *)
Definition demo_reads : list (io_result Bytes) :=
  [Err early_eof; Ok []; Ok [Byte.x61]].

Definition demo_task : DispatchTask :=
  foldl (λ s o, wake_up (poll_task (mkTurn false (Some o) true) s)) (open_session task_new)
    demo_reads.

Lemma dispatcher_delivers_witness :
  demo_reads = reads demo_task
  ∧ items_of 1 (delivered demo_task) = [([Byte.x61], SocketV4 (mkSA4 v4_unspecified 9))]
  ∧ ∃ k, opened_at demo_task !! 1 = Some k
     ∧ default [] (received (dispatcher demo_task) !! 1)
         ++ [([Byte.x61], SocketV4 (mkSA4 v4_unspecified 9))]
         ++ waiting_for 1 (dispatcher demo_task)
       = items_of 1 (drop k (delivered demo_task)).
Proof.
  split; [reflexivity|]. split; [reflexivity|].
  assert (task_reach 1 demo_task) as Hr
    by (unfold demo_task; cbn [foldl demo_reads]; repeat constructor).
  exact (proj1 (dispatcher_delivers 1 demo_task 1 _ Hr ltac:(lia) eq_refl)).
Defined.
