(* ===== verification/UdpEndToEnd.v ===== *)
(** A UDP session through the tunnel, both sides together: the client's
    [UdpSession] and its background task (ClientDatagram.v, ClientDispatcher.v) and
    the server's [DatagramTunnel] (ServerDatagram.v). *)

From S2P Require Import Prelude Std Select Protocol Reassembly Metrics.
From S2P Require Import ClientDatagram ClientDispatcher ServerDatagram.

#[local] Open Scope Z_scope.

Section udp.
Context `{!Bincode UdpPacket} `{!BincodeLaws UdpPacket}.
Context (resolve_domain : Bytes → Z → io_result SocketAddr).

(** What [handle_upstream_packet] does with the datagram of a [send_to]. *)
Lemma upstream_whole bind sid dest data b t :
  send_datagram sid dest data = Ok b →
  let read := wire_address dest in
  let t0 := mkTunnel (sessions t) (dns_cache t) (reassembler t) (handlers t)
              (fetch_add ReassembliesCompleted 1 (tunnel_metrics t)) in
  handle_upstream_packet resolve_domain bind b t =
    let '(session, self) := get_or_create_session resolve_domain bind sid read t0 in
    match session with
    | Err _ => (Ok tt, self)
    | Ok s => (Ok tt, mkTunnel (sessions self) (dns_cache self) (reassembler self)
                        (handlers self ++ [mkHandler sid (socket s) read data])
                        (tunnel_metrics self))
    end.
Proof.
  intros He read t0. unfold send_datagram in He. unfold handle_upstream_packet.
  by rewrite (decode_encode _ _ He).
Qed.

Lemma get_or_create_session_spec bind sid dest t s t' :
  get_or_create_session resolve_domain bind sid dest t = (Ok s, t') →
  sessions t' !! sid = Some s ∧ handlers t' = handlers t
  ∧ (sessions t !! sid = Some s
     ∨ sessions t !! sid = None
       ∧ ∃ a c, lookup_host resolve_domain (dns_cache t) dest = (Ok a, c)
         ∧ family (socket s) = match a with SockV4 _ => BindV4 | SockV6 _ => BindV6 end).
Proof.
  unfold get_or_create_session. destruct (sessions t !! sid) as [s0|] eqn:Es.
  { intros [= -> ->]. auto. }
  destruct (lookup_host _ _ _) as [[a|e] c] eqn:El; [|done].
  unfold bind_udp_socket_with_retry.
  assert (∀ n k last fd x y, bind_attempts bind
      (match a with SockV4 _ => BindV4 | SockV6 _ => BindV6 end) n k last = (Ok fd, x, y) →
    family fd = match a with SockV4 _ => BindV4 | SockV6 _ => BindV6 end) as Hf.
  { intros n k. revert n. induction k as [|k IH]; intros n last fd x y; cbn; [done|].
    destruct (bind n); [by intros [= <- _ _]|].
    destruct (bind_attempts bind _ (S n) k _) as [[r' ?] ?] eqn:E. intros [= -> _ _].
    by eapply IH. }
  destruct (bind_attempts bind _ 0 _ None) as [[[sock|e] x] y] eqn:Eb; [|done].
  intros [= <- <-]. cbn. rewrite lookup_insert_eq. split_and!; [done..|]. right.
  split; [done|]. exists a, c. split; [done|]. by eapply Hf.
Qed.

(** One of the attempts to bind a socket succeeds. *)
Definition binds (bind : nat → io_result nat) : Prop :=
  ∃ n, (n < SOCKET_BIND_RETRY_MAX)%nat ∧ is_ok (bind n) = true.

Lemma bind_attempts_ok bind fam attempt todo last :
  is_ok (fst (fst (bind_attempts bind fam attempt todo last))) = true ↔
  ∃ n, (attempt ≤ n < attempt + todo)%nat ∧ is_ok (bind n) = true.
Proof.
  revert attempt last. induction todo as [|k IH]; intros attempt last; cbn [bind_attempts].
  { split; [done|]. intros (n & ? & _). lia. }
  destruct (bind attempt) as [fd|e] eqn:Eb.
  { split; [|done]. intros _. exists attempt. rewrite Eb. split; [lia|done]. }
  specialize (IH (S attempt) (Some e)).
  destruct (bind_attempts bind fam (S attempt) k (Some e)) as [[r n] p]. cbn [fst] in *.
  rewrite IH. split; intros (m & Hm & Hb); exists m; (split; [|done]); [lia|].
  destruct (decide (m = attempt)) as [->|]; [by rewrite Eb in Hb|lia].
Qed.

(** The session has a socket, or can be given one: its destination can be looked up
    and a socket be bound. *)
Definition has_session (bind : nat → io_result nat) (sid : Z) (dest : Address)
    (t : DatagramTunnel) : Prop :=
  is_Some (sessions t !! sid)
  ∨ is_ok (fst (lookup_host resolve_domain (dns_cache t) dest)) = true ∧ binds bind.

Lemma get_or_create_session_error bind sid dest t e t' :
  get_or_create_session resolve_domain bind sid dest t = (Err e, t') →
  ¬ has_session bind sid dest t ∧ sessions t' = sessions t ∧ handlers t' = handlers t.
Proof.
  unfold get_or_create_session, has_session.
  destruct (sessions t !! sid); [done|].
  destruct (lookup_host _ _ _) as [[a|e'] c].
  2:{ intros [= <- <-]. split; [|done]. intros [[? ?]|[? _]]; done. }
  unfold bind_udp_socket_with_retry.
  pose proof (bind_attempts_ok bind (match a with SockV4 _ => BindV4 | SockV6 _ => BindV6 end)
    0 SOCKET_BIND_RETRY_MAX None) as Hb.
  destruct (bind_attempts _ _ _ _ _) as [[[sock|e'] x] y]; [done|]. intros [= <- <-].
  split; [|done]. intros [[? ?]|[_ (n & Hn & Hok)]]; [done|].
  assert (false = true) as ?; [|done]. apply Hb. exists n. split; [lia|done].
Qed.

Lemma get_or_create_session_ok bind sid dest t s t' :
  get_or_create_session resolve_domain bind sid dest t = (Ok s, t') →
  has_session bind sid dest t.
Proof.
  unfold get_or_create_session, has_session.
  destruct (sessions t !! sid) as [s0|]; [by left; eexists|].
  destruct (lookup_host _ _ _) as [[a|e'] c]; [|done].
  unfold bind_udp_socket_with_retry.
  pose proof (bind_attempts_ok bind (match a with SockV4 _ => BindV4 | SockV6 _ => BindV6 end)
    0 SOCKET_BIND_RETRY_MAX None) as Hb.
  destruct (bind_attempts _ _ _ _ _) as [[[sock|e'] x] y]; [|done]. intros _. right.
  split; [done|]. destruct (proj1 Hb eq_refl) as (n & Hn & Hok). exists n. split; [lia|done].
Qed.

(** What leaves a session's socket for a packet whose destination was looked up. *)
Definition sent_up (s : DatagramSession) (data : Bytes) (looked_up : io_result SocketAddr)
    : list TunnelOutput :=
  match looked_up with Ok a => [SendTo (socket s) data a] | Err _ => [] end.

(** C13. A datagram an application sends through its session, up to the server's
    socket. The session is in the server's cache, or can be given a socket (its
    destination can be looked up and one of three attempts to bind succeeds): then
    the packet gets exactly one handler, the session the application's id and its
    socket if it had one; and whenever that handler runs, whatever happened in
    between, it sends exactly the application's bytes, once, from the session's
    socket, to the destination as it was read from the wire (an IPv6 address without
    its scope), or to what the server's cache of names holds for its name, whatever
    port that was resolved for, or to what the name resolves to. Otherwise there is no
    handler, and nothing is sent. *)
Theorem udp_upstream_end_to_end bind sid dest data b t :
  send_datagram sid dest data = Ok b →
  let read := wire_address dest in
  let '(r, t1) := handle_upstream_packet resolve_domain bind b t in
  r = Ok tt
  ∧ (has_session bind sid read t →
     ∃ s, sessions t1 !! sid = Some s
       ∧ handlers t1 = handlers t ++ [mkHandler sid (socket s) read data]
       ∧ (∀ s0, sessions t !! sid = Some s0 → s = s0)
       ∧ ∀ resolve' i t2, handlers t2 !! i = Some (mkHandler sid (socket s) read data) →
           fst (run_handler resolve' i t2)
           = sent_up s data
               (match read with
                | SocketV4 a => Ok (SockV4 a)
                | SocketV6 a => Ok (SockV6 a)
                | Domain name port =>
                  match dns_cache t2 !! name with
                  | Some a => Ok a
                  | None => resolve' name port
                  end
                end))
  ∧ (¬ has_session bind sid read t →
     sessions t !! sid = None ∧ sessions t1 = sessions t ∧ handlers t1 = handlers t).
Proof.
  intros He read. rewrite (upstream_whole bind sid dest data b t He). fold read.
  set (t0 := mkTunnel _ _ _ _ _). change (has_session bind sid read t)
    with (has_session bind sid read t0).
  destruct (get_or_create_session resolve_domain bind sid read t0) as [[s|e] t1] eqn:Eg.
  - pose proof (get_or_create_session_ok _ _ _ _ _ _ Eg) as Hhas.
    apply get_or_create_session_spec in Eg as (Hs & Hh & Hold). split; [done|].
    split; [|done]. intros _. exists s. cbn [sessions handlers]. rewrite Hh.
    split_and!; [done..| |].
    + intros s0 Hs0. destruct Hold as [H|[H _]]; cbn in H; congruence.
    + intros resolve' i t2 Hi. unfold run_handler. rewrite Hi. cbn [handler_address].
      unfold lookup_host. destruct read as [a|a|d p]; [done..|].
      destruct (dns_cache t2 !! d); [done|]. by destruct (resolve' d p).
  - apply get_or_create_session_error in Eg as (Hno & Hs & Hh). split; [done|].
    split; [done|]. intros _. split; [|done].
    destruct (sessions t !! sid) eqn:E; [|done]. destruct Hno. left. cbn. by rewrite E.
Qed.

(** A datagram the server sent down for a packet that came to a session's socket. *)
Definition sent_down (o : io_result Bytes) (x : Z * Address * Bytes) : Prop :=
  let '(sid, addr, data) := x in
  ∃ b from t t' p, o = Ok b ∧ addr = wire_address (address_from from)
    ∧ downstream sid data from t = ([ToClient p], t') ∧ encode p = Ok b.

Lemma sent_down_whole o x : sent_down o x → is_fragment o = false ∧ whole [o] = [x].
Proof.
  destruct x as [[sid addr] data].
  intros (b & from & t & t' & p & -> & -> & Hd & He). unfold downstream in Hd.
  destruct (sessions t !! sid); [|done]. injection Hd as <- _.
  unfold is_fragment, whole. cbn. by rewrite (decode_encode _ _ He).
Qed.

Lemma sent_down_reads os xs :
  Forall2 sent_down os xs → existsb is_fragment os = false ∧ whole os = xs.
Proof.
  induction 1 as [|o x os xs Hd _ [IH1 IH2]]; [done|].
  destruct (sent_down_whole o x Hd) as [H1 H2]. split; [cbn; by rewrite H1|].
  change (o :: os) with ([o] ++ os). unfold whole in *. rewrite omap_app, IH2, H2. done.
Qed.
End udp.

(** C3. The packets that come to the sockets of the server's sessions reach the
    applications: as long as what the client reads is what the server sent down, a
    live session's application has received, or will find in its queue, exactly the
    packets that arrived for its session since it was opened, each with the bytes
    and the source address the server saw (of an IPv6 one the address and the port,
    which is what the wire keeps), in the order of the datagrams, and none of
    another session. *)
Theorem udp_downstream_end_to_end `{!Bincode UdpPacket} `{!BincodeLaws UdpPacket} n s sid q xs :
  task_reach n s → Z.of_nat n < 2 ^ 64 - 1 →
  Forall2 sent_down (reads s) xs →
  dispatch_map (dispatcher s) !! sid = Some q →
  ∃ k, opened_at s !! sid = Some k
    ∧ default [] (received (dispatcher s) !! sid) ++ q ++ waiting_for sid (dispatcher s)
      = items_of sid (drop k xs).
Proof.
  intros Hr Hn Hx Hs. destruct (sent_down_reads _ _ Hx) as [Hf <-].
  rewrite <-(task_reach_whole n s Hr Hf).
  destruct (dispatcher_reach_ok n _ (task_dispatcher n s Hr) Hn) as [[Hq _] _].
  destruct (Hq sid q Hs) as [_ ->].
  destruct (task_reach_log n s Hr sid ltac:(by rewrite Hs)) as (k & Hk & _ & Hlog).
  by exists k.
Qed.

(** The socket of a session is bound for the family of its first destination and
    kept: a packet of the same session for an IPv6 address is sent from the IPv4
    socket, which cannot send it. *)
Theorem session_family_fixed `{!Bincode UdpPacket} `{!BincodeLaws UdpPacket}
    resolve bind sid v4 v6 data b1 b2 t fd :
  sessions t !! sid = None → handlers t = [] → bind 0%nat = Ok fd →
  send_datagram sid (SocketV4 v4) data = Ok b1 →
  send_datagram sid (SocketV6 v6) data = Ok b2 →
  let t1 := snd (handle_upstream_packet resolve bind b1 t) in
  let t2 := snd (handle_upstream_packet resolve bind b2 t1) in
  fst (run_handler resolve 0 t2) = [SendTo (mkSocket fd BindV4) data (SockV4 v4)]
  ∧ fst (run_handler resolve 1 t2) = [SendTo (mkSocket fd BindV4) data (SockV6 (wire_v6 v6))].
Proof.
  intros Hs Hh Hb H1 H2 t1.
  assert (sessions t1 !! sid = Some (mkSession (mkSocket fd BindV4) 0 0 (SocketV4 v4))
    ∧ handlers t1 = [mkHandler sid (mkSocket fd BindV4) (SocketV4 v4) data]) as [Hs1 Hh1].
  { unfold t1. rewrite (upstream_whole resolve bind _ _ _ _ _ H1).
    unfold get_or_create_session. cbn. rewrite Hs. unfold bind_udp_socket_with_retry. cbn.
    rewrite Hb. cbn. by rewrite lookup_insert_eq, Hh. }
  rewrite (upstream_whole resolve bind _ _ _ _ _ H2). unfold get_or_create_session. cbn.
  rewrite Hs1. cbn. rewrite Hh1. done.
Qed.

(** ** A run *)

Definition demo_v4 : Address := SocketV4 (mkSA4 v4_unspecified 9).
Definition demo_v6 : Address := SocketV6 (mkSA6 v6_unspecified 9 0 0).
Definition demo_packet (dest : Address) : UdpPacket := Unfragmented 1 dest [Byte.x68].

(** A serializer that knows two packets. *)
#[local] Instance demo_codec : Bincode UdpPacket := {|
  encode_to_vec p :=
    if decide (p = demo_packet demo_v4) then Some [Byte.x04]
    else if decide (p = demo_packet demo_v6) then Some [Byte.x06] else None;
  borrow_decode_from_slice b :=
    match b with
    | [Byte.x04] => Some (demo_packet demo_v4, 1%nat)
    | [Byte.x06] => Some (demo_packet demo_v6, 1%nat)
    | _ => None
    end
|}.
#[local] Instance demo_codec_laws : BincodeLaws UdpPacket.
Proof.
  intros p b. unfold encode_to_vec, demo_codec.
  case_decide as H1; [subst; by intros [= <-]|].
  case_decide as H2; [subst; by intros [= <-]|done].
Qed.

Lemma demo_sent_v4 : send_datagram 1 demo_v4 [Byte.x68] = Ok [Byte.x04].
Proof. vm_compute. reflexivity. Qed.
Lemma demo_sent_v6 : send_datagram 1 demo_v6 [Byte.x68] = Ok [Byte.x06].
Proof. vm_compute. reflexivity. Qed.

Definition demo_tunnel : DatagramTunnel := tunnel_new metrics_new.

Lemma udp_upstream_end_to_end_witness :
  let t1 := snd (handle_upstream_packet (λ _ _, Err early_eof) (λ n, Ok n) [Byte.x04] demo_tunnel) in
  ∃ s, sessions t1 !! 1 = Some s
    ∧ handlers t1 = handlers demo_tunnel ++ [mkHandler 1 (socket s) demo_v4 [Byte.x68]].
Proof.
  intros t1.
  pose proof (udp_upstream_end_to_end (λ _ _, Err early_eof) (λ n, Ok n) 1 demo_v4 [Byte.x68]
    [Byte.x04] demo_tunnel demo_sent_v4) as H. cbn zeta in H. fold t1 in H.
  destruct (handle_upstream_packet _ _ _ _) as [r t1'] eqn:E.
  destruct (proj1 (proj2 H)) as (s & H1 & H2 & _).
  { right. split; [reflexivity|]. exists 0%nat. split; [unfold SOCKET_BIND_RETRY_MAX; lia|done]. }
  unfold t1. cbn [snd]. by exists s.
Defined.

Definition demo_down : DispatchTask :=
  poll_task (mkTurn false (Some (Ok [Byte.x04])) true) (open_session task_new).

Definition demo_session_tunnel : DatagramTunnel :=
  snd (handle_upstream_packet (λ _ _, Err early_eof) (λ n, Ok n) [Byte.x04] demo_tunnel).

Lemma udp_downstream_end_to_end_witness :
  ∃ k, opened_at demo_down !! 1 = Some k
    ∧ default [] (received (dispatcher demo_down) !! 1) ++ [([Byte.x68], demo_v4)]
        ++ waiting_for 1 (dispatcher demo_down)
      = items_of 1 (drop k [(1, demo_v4, [Byte.x68])]).
Proof.
  assert (task_reach 1 demo_down) as Hr by (unfold demo_down; repeat constructor).
  refine (udp_downstream_end_to_end 1 demo_down 1 _ _ Hr ltac:(lia) _ eq_refl).
  constructor; [|constructor].
  exists [Byte.x04], (SockV4 (mkSA4 v4_unspecified 9)), demo_session_tunnel.
  eexists. exists (demo_packet demo_v4).
  split_and!; [reflexivity..|exact demo_sent_v4].
Defined.

Lemma session_family_fixed_witness :
  let t1 := snd (handle_upstream_packet (λ _ _, Err early_eof) (λ n, Ok n) [Byte.x04] demo_tunnel) in
  let t2 := snd (handle_upstream_packet (λ _ _, Err early_eof) (λ n, Ok n) [Byte.x06] t1) in
  fst (run_handler (λ _ _, Err early_eof) 1 t2)
  = [SendTo (mkSocket 0 BindV4) [Byte.x68] (SockV6 (mkSA6 v6_unspecified 9 0 0))].
Proof.
  exact (proj2 (session_family_fixed (λ _ _, Err early_eof) (λ n, Ok n) 1
    (mkSA4 v4_unspecified 9) (mkSA6 v6_unspecified 9 0 0) [Byte.x68] [Byte.x04] [Byte.x06]
    demo_tunnel 0 eq_refl eq_refl eq_refl demo_sent_v4 demo_sent_v6)).
Defined.
