(* ===== verification/SocksUdpEndToEnd.v ===== *)
(** A SOCKS5 UDP association from the application to the server's sockets and back:
    the relay of SocksServer.v over a session of ClientDispatcher.v, whose datagrams
    the server sent (UdpEndToEnd.v). *)

From S2P Require Import Prelude Std Select Protocol Reassembly Metrics.
From S2P Require Import ClientDatagram ClientDispatcher ServerDatagram UdpEndToEnd.
From S2P Require SocksProtocol.
From S2P Require Import SocksServer.

#[local] Open Scope Z_scope.

(** A datagram of the SOCKS protocol that is not a fragment: its payload and the
    address in its header. *)
Definition socks_datagram (packet : Bytes) : option Item :=
  match fst (SocksProtocol.udp_from_buf packet) with
  | Ok p =>
    if decide (SocksProtocol.frag p = Byte.x00)
    then Some (SocksProtocol.data p, SocksProtocol.to_ombrac (SocksProtocol.address p))
    else None
  | Err _ => None
  end.

(** What the relay takes from its socket, whoever sent it, and from the session. *)
Definition from_socket (evs : list RelayEvent) : list Item :=
  omap (λ ev, match ev with FromSocket (Ok (buf, _)) _ => socks_datagram buf | _ => None end) evs.
Definition from_session (evs : list RelayEvent) : list Item :=
  omap (λ ev, match ev with FromTunnel data from _ => Some (data, from) | _ => None end) evs.

(** What it puts into the session, and what the application at [app] reads. *)
Definition into_session (outs : list RelayOutput) : list Item :=
  omap (λ o, match o with ToTunnel data address => Some (data, address) | _ => None end) outs.
Definition at_application (app : SocketAddr) (outs : list RelayOutput) : list Item :=
  omap (λ o, match o with
    | ToSocket packet dest => if decide (dest = app) then socks_datagram packet else None
    | _ => None
    end) outs.

(** The addresses that the header of a datagram can hold in full. *)
Definition header_ok (address : Protocol.Address) : Prop :=
  ∀ a, SocksProtocol.try_from address = Ok a → SocksProtocol.wire_ok a.

Lemma socks_datagram_encode from a data :
  SocksProtocol.try_from from = Ok a → SocksProtocol.wire_ok a →
  socks_datagram (SocksProtocol.encode_unfragmented a data) = Some (data, from).
Proof.
  intros Ht Ha. unfold socks_datagram. rewrite SocksProtocol.udp_from_buf_encode by done.
  cbn. by rewrite (try_from_ok _ _ Ht).
Qed.

(** An iteration that goes on, once the application is known. *)
Lemma relay_step_passes app ev ca outs :
  Forall (λ x, header_ok (snd x)) (from_session [ev]) →
  relay_step (Some app) ev = (ca, outs, Loop) →
  ca = Some app ∧ into_session outs = from_socket [ev]
  ∧ at_application app outs = from_session [ev].
Proof.
  intros Hw. unfold relay_step.
  destruct ev as [[b|e]|data from sent|[[buf src]|e] sent]; try done.
  - by intros [= <- <-].
  - destruct (SocksProtocol.try_from from) as [a|e] eqn:Ht; [|done].
    intros [= <- <- _]. split; [done|]. split; [done|].
    apply Forall_cons in Hw as [Hw _]. cbn. rewrite decide_True by done.
    by rewrite (socks_datagram_encode _ _ _ Ht (Hw a Ht)).
  - unfold from_socket, socks_datagram. cbn [opt_or omap list_omap].
    destruct (fst (SocksProtocol.udp_from_buf buf)) as [p|[|e]]; [|done..].
    destruct (decide (SocksProtocol.frag p ≠ Byte.x00)) as [Hf|Hf].
    + intros [= <- <-]. by rewrite decide_False.
    + intros [= <- <- _]. apply dec_stable in Hf. by rewrite decide_True.
Qed.

Lemma relay_loop_passes app evs outs :
  Forall (λ x, header_ok (snd x)) (from_session evs) →
  udp_relay_loop (Some app) evs = (outs, None) →
  into_session outs = from_socket evs ∧ at_application app outs = from_session evs.
Proof.
  revert outs. induction evs as [|ev evs IH]; intros outs Hw; cbn [udp_relay_loop].
  { by intros [= <-]. }
  change (ev :: evs) with ([ev] ++ evs) in *. unfold from_session, from_socket in *.
  rewrite omap_app in *. apply Forall_app in Hw as [Hw1 Hw2].
  destruct (relay_step (Some app) ev) as [[ca out] [|r]] eqn:E; [|done].
  destruct (relay_step_passes app ev ca out Hw1 E) as (-> & H1 & H2).
  destruct (udp_relay_loop (Some app) evs) as [outs1 res] eqn:El. intros [= <- ->].
  destruct (IH outs1 Hw2 eq_refl) as [H3 H4]. unfold into_session, at_application in *.
  by rewrite !omap_app, H1, H2, H3, H4.
Qed.

(** ** Properties *)

(** C6. A UDP association, all the way, while its relay runs; its application is the
    sender of the first datagram. Every datagram that comes to the relay's socket
    and is not a fragment goes into the session, whoever sent it (the relay looks at
    the sender of the first one alone), with its payload and the destination of its
    header, in order and once; nothing else does. And what the application has read,
    followed by what waits in the session, is exactly what arrived at the server's
    sockets for the session since it was opened, each packet with the payload and, in
    its header, the source that the server saw (of an IPv6 one the address and the
    port), in order; as long as the header can hold these sources and the client
    reads what the server sent. *)
Theorem socks_udp_end_to_end `{!Bincode UdpPacket} `{!BincodeLaws UdpPacket}
    app first sent evs outs n s sid q xs :
  udp_relay_loop None (FromSocket (Ok (first, app)) sent :: evs) = (outs, None) →
  from_session evs = default [] (received (dispatcher s) !! sid) →
  Forall (λ x, header_ok (snd x)) (from_session evs) →
  task_reach n s → Z.of_nat n < 2 ^ 64 - 1 →
  Forall2 sent_down (reads s) xs →
  dispatch_map (dispatcher s) !! sid = Some q →
  into_session outs = from_socket (FromSocket (Ok (first, app)) sent :: evs)
  ∧ ∃ k, opened_at s !! sid = Some k
      ∧ at_application app outs ++ q ++ waiting_for sid (dispatcher s)
        = items_of sid (drop k xs).
Proof.
  intros Hloop Hread Hw Hr Hn Hx Hs.
  assert (udp_relay_loop (Some app) (FromSocket (Ok (first, app)) sent :: evs) = (outs, None))
    as Hloop' by exact Hloop.
  destruct (relay_loop_passes app (FromSocket (Ok (first, app)) sent :: evs) outs Hw Hloop')
    as [Hin Hout]. split; [done|].
  destruct (sent_down_reads _ _ Hx) as [Hf <-]. rewrite <-(task_reach_whole n s Hr Hf).
  destruct (dispatcher_delivers n s sid q Hr Hn Hs) as [(k & Hk & Hlog) _].
  exists k. split; [done|]. by rewrite Hout, <-Hlog, <-Hread.
Qed.

#[local] Existing Instances demo_codec demo_codec_laws.

(** The application sends one datagram and reads the one that came back. *)
Definition demo_application : SocketAddr := SockV4 (mkSA4 v4_unspecified 7).
Definition demo_first : Bytes :=
  SocksProtocol.encode_unfragmented (SocksProtocol.Domain [Byte.x61] 53) [Byte.x71].
Definition demo_read : DispatchTask :=
  set_dispatcher (snd (recv_from 1 (dispatcher demo_down))) demo_down.

Lemma socks_udp_end_to_end_witness :
  let evs := [FromTunnel [Byte.x68] demo_v4 (Ok tt)] in
  let outs := fst (udp_relay_loop None
                     (FromSocket (Ok (demo_first, demo_application)) (Ok tt) :: evs)) in
  into_session outs = [([Byte.x71], Protocol.Domain [Byte.x61] 53)]
  ∧ at_application demo_application outs = [([Byte.x68], demo_v4)]
  ∧ ∃ k, opened_at demo_read !! 1 = Some k
      ∧ at_application demo_application outs ++ [] ++ waiting_for 1 (dispatcher demo_read)
        = items_of 1 (drop k [(1, demo_v4, [Byte.x68])]).
Proof.
  intros evs outs. split; [vm_compute; reflexivity|]. split; [vm_compute; reflexivity|].
  assert (task_reach 1 demo_read) as Hr.
  { unfold demo_read. apply task_recv; [unfold demo_down; repeat constructor|].
    vm_compute. intros H. exact (not_elem_of_empty (C := gset Z) 1 H). }
  refine (proj2 (socks_udp_end_to_end demo_application demo_first (Ok tt) evs outs 1 demo_read
    1 [] _ eq_refl _ _ Hr ltac:(lia) _ eq_refl)).
  - vm_compute. reflexivity.
  - repeat constructor. by intros a [= <-].
  - constructor; [|constructor].
    exists [Byte.x04], (SockV4 (mkSA4 v4_unspecified 9)), demo_session_tunnel.
    eexists. exists (demo_packet demo_v4).
    split_and!; [reflexivity..|exact demo_sent_v4].
Defined.
