(* ===== verification/EndToEnd.v ===== *)
(** Properties of the client and the server together: what an application
    learns about its destination through the tunnel. *)

From S2P Require Import Prelude Std Stream Protocol Metrics TransportIo.
From S2P Require Import ClientStream ClientConnection ServerStream.
From S2P Require SocksProtocol.

#[local] Open Scope Z_scope.

(** The error of a connect as the client sees it. *)
Definition tunnelled_error (e : IoError) : IoError :=
  mkIoError (error_kind_of (from_io_error e)) (msg e).

Lemma tunnelled_kind e :
  kind (tunnelled_error e) =
    match kind e with
    | ConnectionRefused | NetworkUnreachable | HostUnreachable | TimedOut => kind e
    | _ => OtherKind
    end.
Proof. unfold tunnelled_error, from_io_error. by destruct (kind e). Qed.

(** The SOCKS reply for it. *)
Lemma tunnelled_reply e :
  SocksProtocol.from_connect_error (tunnelled_error e) =
    (if decide (kind e = PermissionDenied) then SocksProtocol.GeneralFailure
     else SocksProtocol.from_connect_error e).
Proof.
  unfold tunnelled_error, SocksProtocol.from_connect_error, from_io_error. cbn [kind].
  by destruct (kind e).
Qed.

(** The client's side: from the server's answer to the application's result. *)
Lemma open_answered {S F T} `{FramedLaws S F} `{!Bincode ClientMessage}
    `{!Bincode ServerMessage} `{!BincodeLaws ServerMessage}
    (result : io_result T) dest m (client_stream : S) (sent : F) request response rest :
  encode (MsgConnect (mkConnect dest)) = Ok request →
  framed_send request (framed_new client_stream : F) = (Ok tt, sent) →
  encode (MsgConnectResponse (connect_response result)) = Ok response →
  Z.of_nat (length response) ≤ MAX_CONTROL_FRAME_LENGTH →
  readable client_stream = frame response ++ rest →
  match fst (open_bidirectional (F := F) (Ok client_stream) dest m), result with
  | Ok stream, Ok _ => readable stream = rest
  | Err e', Err e => e' = tunnelled_error e
  | _, _ => False
  end.
Proof.
  intros Hreq Hsend Hresp Hlen Hread.
  unfold open_bidirectional, negotiate_stream. rewrite Hreq, Hsend.
  destruct (framed_send_flushes _ _ _ Hsend) as [Hw Hr].
  rewrite framed_new_readable, Hread in Hr.
  destruct (framed_next_frame _ _ _ Hr Hlen) as (f & -> & Hrest & Hwf).
  rewrite (decode_encode_same (MsgConnectResponse (connect_response result)) response eq_refl Hresp).
  rewrite decide_False by (rewrite Hwf, Hw; auto).
  unfold connect_response. destruct result as [tcp|e]; [exact Hrest|done].
Qed.

(** The client's request reaches the server as it was framed. *)
Lemma request_written {S F} `{FramedLaws S F} (client_stream : S) (sent : F) request :
  framed_send request (framed_new client_stream : F) = (Ok tt, sent) →
  framed_written sent = frame request.
Proof.
  intros Hs. destruct (framed_new_clean client_stream : write_buf (_ : F) = [] ∧ _) as [Hc Hw].
  by rewrite (framed_send_written _ _ _ Hs Hc), Hw.
Qed.

(** The server's handler, up to the exchange: what it has read, what it has sent, and
    what is left to read. *)
Lemma handle_connect_spec {S F T} `{FramedLaws S F} `{!Bincode ClientMessage}
    `{!BincodeLaws ClientMessage} `{!Bincode ServerMessage}
    resolve (connect : SocketAddr → option (io_result T)) env
    (s : S) dest request upstream response :
  encode (MsgConnect (mkConnect dest)) = Ok request →
  Z.of_nat (length request) ≤ MAX_CONTROL_FRAME_LENGTH →
  readable s = frame request ++ upstream →
  let read := wire_address dest in
  let result := connect_to_destination resolve connect read in
  encode (MsgConnectResponse (connect_response result)) = Ok response →
  (∀ f1 : F, framed_readable f1 = upstream → is_ok (fst (framed_send response f1)) = true) →
  ∃ f : F, framed_readable f = upstream ∧ framed_written f = frame response
    ∧ handle_connect true resolve connect env s guard_default =
        let guard := guard_with_destination read guard_default in
        match result with
        | Err e => (Err e, guard, f)
        | Ok tcp => let '(r, guard) := exchange_data env f tcp guard in (r, guard, f)
        end.
Proof.
  intros He Hl Hr read result Hresp Hsend.
  destruct (framed_new_clean s : write_buf (_ : F) = [] ∧ _) as [Hc1 Hc2].
  destruct (read_connect_message_frame (framed_new s : F) dest request upstream
    He Hl) as (f1 & Hread & Hr1 & Hw1 & Hwr1); [by rewrite framed_new_readable|].
  specialize (Hsend f1 Hr1). unfold handle_connect. rewrite Hread. fold read.
  fold result. unfold send_connect_response. rewrite Hresp.
  destruct (framed_send response f1) as [[[]|e] f] eqn:Es; [|done].
  exists f. destruct (framed_send_flushes _ _ _ Es) as [_ ->].
  rewrite (framed_send_written _ _ _ Es) by congruence. rewrite Hwr1, Hc2.
  split; [done|]. split; [done|]. by destruct result.
Qed.

(** C2. A connect through the tunnel, both sides together: the server's stream begins
    with the bytes the client has sent, and the client's stream with those the
    server's handler has sent. The server connects to the address the application
    asked for, as the wire keeps it (an IPv6 address without its scope), reports it,
    and answers once; and what its connect gives is what the application gets.
    Success hands over a stream on which every byte after the server's answer can be
    read; a failure has the same text, and the same kind if it is one of the four the
    protocol distinguishes. The SOCKS reply is then the one a direct connect would
    have got, except that "not allowed" becomes a general failure. *)
Theorem tunnel_connect_end_to_end {S F T} `{FramedLaws S F}
    `{!Bincode ClientMessage} `{!BincodeLaws ClientMessage}
    `{!Bincode ServerMessage} `{!BincodeLaws ServerMessage}
    resolve (connect : SocketAddr → option (io_result T)) env dest m
    (server_stream client_stream : S) (sent : F) request response upstream rest :
  encode (MsgConnect (mkConnect dest)) = Ok request →
  Z.of_nat (length request) ≤ MAX_CONTROL_FRAME_LENGTH →
  framed_send request (framed_new client_stream : F) = (Ok tt, sent) →
  readable server_stream = framed_written sent ++ upstream →
  let read := wire_address dest in
  let result := connect_to_destination resolve connect read in
  encode (MsgConnectResponse (connect_response result)) = Ok response →
  Z.of_nat (length response) ≤ MAX_CONTROL_FRAME_LENGTH →
  (∀ f1 : F, framed_readable f1 = upstream → is_ok (fst (framed_send response f1)) = true) →
  let '(served, guard, answered) :=
    handle_connect (F := F) true resolve connect env server_stream guard_default in
  readable client_stream = framed_written answered ++ rest →
  destination guard = Some read
  ∧ framed_readable answered = upstream
  ∧ match fst (open_bidirectional (F := F) (Ok client_stream) dest m), result with
    | Ok stream, Ok _ => readable stream = rest
    | Err e', Err e =>
      served = Err e ∧ e' = tunnelled_error e
      ∧ SocksProtocol.from_connect_error e' =
          (if decide (kind e = PermissionDenied) then SocksProtocol.GeneralFailure
           else SocksProtocol.from_connect_error e)
    | _, _ => False
    end.
Proof.
  intros Hreq Hlreq Hsend Hsrv read result Hresp Hlen Hok.
  rewrite (request_written _ _ _ Hsend) in Hsrv.
  destruct (handle_connect_spec resolve connect env server_stream dest request upstream
    response Hreq Hlreq Hsrv Hresp Hok) as (f & Hr & Hw & ->). fold read result. cbn zeta.
  assert (∀ rest', readable client_stream = framed_written f ++ rest' →
    readable client_stream = frame response ++ rest') as Hcl by (by rewrite Hw).
  pose proof (λ Hc, open_answered result dest m client_stream sent request response rest
    Hreq Hsend Hresp Hlen (Hcl rest Hc)) as Hopen. clear Hcl.
  destruct result as [tcp|e].
  - destruct (exchange_data env f tcp _) as [r g] eqn:Eg. intros Hcl. specialize (Hopen Hcl).
    split; [|split; [done|by destruct (fst (open_bidirectional _ _ _))]].
    apply (f_equal snd) in Eg. cbn [snd] in Eg. rewrite <-Eg. apply exchange_data_destination.
  - intros Hcl. specialize (Hopen Hcl). split; [done|]. split; [done|].
    destruct (fst (open_bidirectional _ _ _)) as [stream|e']; [done|]. subst e'.
    split; [done|]. split; [done|apply tunnelled_reply].
Qed.

(** A serializer for the witness. *)
#[local] Instance demo_connect_codec : Bincode ClientMessage := {|
  encode_to_vec m :=
    match m with MsgConnect (mkConnect (Domain [] 1)) => Some [Byte.x07] | _ => None end;
  borrow_decode_from_slice b :=
    match b with
    | [Byte.x07] => Some (MsgConnect (mkConnect (Domain [] 1)), 1%nat)
    | _ => None
    end
|}.
#[local] Instance demo_connect_codec_laws : BincodeLaws ClientMessage.
Proof.
  intros [|[[| |d p]]] b; [done..|]. destruct d; [|done].
  destruct p as [|[|[]|]|]; try done. by intros [= <-].
Qed.
#[local] Instance demo_response_codec : Bincode ServerMessage := {|
  encode_to_vec m :=
    match m with
    | MsgConnectResponse (ConnectErr CekTimedOut "t") => Some [Byte.x01]
    | _ => None
    end;
  borrow_decode_from_slice b :=
    match b with
    | [Byte.x01] => Some (MsgConnectResponse (ConnectErr CekTimedOut "t"), 1%nat)
    | _ => None
    end
|}.
#[local] Instance demo_response_codec_laws : BincodeLaws ServerMessage.
Proof.
  intros [[|k t]] b H; [done|]. revert H. unfold encode_to_vec, demo_response_codec.
  destruct k; try done.
  destruct (decide (t = "t"%string)) as [->|Hne]; [by intros [= <-]|].
  intros H. exfalso. revert H.
  destruct t as [|[[] [] [] [] [] [] [] []] [|]]; done.
Qed.

Lemma tunnel_connect_end_to_end_witness :
  let timed_out := mkIoError TimedOut "t" in
  let client : Bytes := frame [Byte.x01] ++ [] in
  let env := mkExchange (λ _ _, Ok tt) false (λ _ _, Ok (mkStats 0 0)) in
  destination (snd (fst (handle_connect (S := Bytes) (F := MemFramed) (T := unit) true
    (λ _ _, Ok (SockV4 (mkSA4 v4_unspecified 1))) (λ _, Some (Err timed_out)) env
    (frame [Byte.x07] ++ []) guard_default))) = Some (Domain [] 1)
  ∧ fst (open_bidirectional (S := Bytes) (F := MemFramed) (Ok client) (Domain [] 1) metrics_new)
    = Err (tunnelled_error timed_out).
Proof.
  intros timed_out client env.
  pose proof (tunnel_connect_end_to_end (S := Bytes) (F := MemFramed)
    (T := unit) (λ _ _, Ok (SockV4 (mkSA4 v4_unspecified 1)))
    (λ _, Some (Err timed_out)) env (Domain [] 1) metrics_new (frame [Byte.x07] ++ []) client
    (mkFramed [] client [[Byte.x07]]) [Byte.x07] [Byte.x01] [] [] eq_refl ltac:(done) eq_refl
    eq_refl eq_refl ltac:(done) (λ _ _, eq_refl)) as H.
  destruct (handle_connect _ _ _ _ _ _) as [[served guard] f] eqn:Eh.
  assert (framed_written f = frame [Byte.x01]) as Hf
    by (vm_compute in Eh; injection Eh as _ _ <-; vm_compute; reflexivity).
  rewrite Hf in H. destruct (H eq_refl) as (Hd & _ & Hm). split; [exact Hd|].
  destruct (fst (open_bidirectional _ _ _)) as [stream|e']; [done|].
  by destruct Hm as (_ & -> & _).
Defined.
