(* ===== verification/AuthEndToEnd.v ===== *)
(** The client's authentication and the server's together: who gets tunnels,
    and what the client learns. *)

From S2P Require Import Prelude Std Stream Protocol ClientConnection ServerAuth.

#[local] Open Scope Z_scope.

(** The bytes a handler put on the control stream. *)
Definition sent_bytes {Ctx} (effects : list (AuthEffect Ctx)) : Bytes :=
  effects ≫= λ e, match e with SentResponse payload => frame payload | _ => [] end.

(** Everything the server waits for comes in time. *)
Definition in_time {S} (env : AuthEnv S) : bool :=
  hello_in_time env && verify_in_time env && send_in_time env.

Section sides.
Context {S F : Type} `{FramedLaws S F}
  `{!Bincode ClientMessage} `{!BincodeLaws ClientMessage}
  `{!Bincode ServerAuthResponse} `{!BincodeLaws ServerAuthResponse}.

(** The server's side: from the client's hello frame to the decision. *)
Lemma handle_hello (env : AuthEnv S) (secret server_secret : Secret) options s request
    upstream ok :
  encode (MsgHello (mkHello PROTOCOL_VERSION secret options)) = Ok request →
  Z.of_nat (length request) ≤ MAX_CONTROL_FRAME_LENGTH →
  encode AuthOk = Ok ok →
  accepted_stream env = Ok s → readable s = frame request ++ upstream →
  ∃ f1 : F,
    framed_next (framed_new s) = (Some (Ok request), f1)
    ∧ framed_readable f1 = upstream
    ∧ handle (F := F) env server_secret =
        if negb (hello_in_time env) then
          (Err (mkIoError TimedOut
             "authentication timeout: failed to receive hello message within "), [])
        else if negb (verify_in_time env) then
          (Err (mkIoError TimedOut "deadline has elapsed"), [])
        else if negb (bool_decide (secret = server_secret)) then
          (Err (auth_error_to_io InvalidSecret), [])
        else if negb (send_in_time env) then
          (Err (mkIoError TimedOut
             "authentication timeout: failed to send response within "), [])
        else match framed_send ok f1 with
             | (Ok _, _) => (Ok tt, [SentResponse ok; Accepted tt; RanTunnels])
             | (Err e, _) => (Err e, [])
             end.
Proof.
  intros Hreq Hlen Hok Hs Hread.
  destruct (framed_next_frame (framed_new s : F) request upstream) as (f1 & En & Hr & _).
  { by rewrite framed_new_readable. }
  { done. }
  exists f1. split; [done|]. split; [done|].
  unfold handle, perform_authentication, read_hello_message, verify_authentication,
    send_auth_ok_response. rewrite Hs, Hok.
  destruct (hello_in_time env); cbn [negb]; [|done].
  rewrite En, (decode_encode_same (MsgHello (mkHello PROTOCOL_VERSION secret options)) _ eq_refl Hreq).
  cbn [hello_version]. rewrite Z.eqb_refl. cbn [negb].
  destruct (verify_in_time env); cbn [negb]; [|done].
  unfold verify, secret_authenticator. cbn [hello_secret].
  destruct (decide (secret = server_secret)) as [E|E];
    [rewrite bool_decide_eq_true_2 by done|by rewrite bool_decide_eq_false_2].
  cbn [negb]. destruct (send_in_time env); cbn [negb]; [|done].
  by destruct (framed_send ok f1) as [[[]|e] f2].
Qed.

(** The client's side: from the bytes of the control stream to its result. *)
Lemma do_auth_reads {C} (c : C) open shutdown secret options s (f : F) request :
  open c = Ok s →
  encode (MsgHello (mkHello PROTOCOL_VERSION secret options)) = Ok request →
  framed_send request (framed_new s : F) = (Ok tt, f) →
  (readable s = [] →
     is_ok (do_auth (F := F) (Ok c) open shutdown secret options) = false)
  ∧ (∀ ok rest, encode AuthOk = Ok ok →
       Z.of_nat (length ok) ≤ MAX_CONTROL_FRAME_LENGTH →
       readable s = frame ok ++ rest →
       ∃ f2 : F, framed_readable f2 = rest
         ∧ do_auth (F := F) (Ok c) open shutdown secret options =
             match shutdown (framed_inner f2) with Ok _ => Ok c | Err e => Err e end).
Proof.
  intros Ho Hreq Hsend. unfold do_auth. cbn [mbind Result_mbind].
  rewrite Ho, Hreq. cbn [mbind Result_mbind]. rewrite Hsend.
  destruct (framed_send_flushes _ _ _ Hsend) as [_ Hr].
  rewrite framed_new_readable in Hr. split.
  - intros Hn. rewrite Hn in Hr.
    destruct (framed_next f) as [[[p|e]|] f'] eqn:En; [|done..].
    by destruct (framed_next_end _ _ _ Hr En).
  - intros ok rest Hok Hlen Hread. rewrite Hread in Hr.
    destruct (framed_next_frame _ _ _ Hr Hlen) as (f2 & -> & Hrest & _).
    exists f2. split; [done|].
    rewrite (decode_encode_same AuthOk ok eq_refl Hok). cbn [mbind Result_mbind].
    by destruct (shutdown _).
Qed.
End sides.

(** C8. Authentication, both sides together, with a shared secret. A client's
    hello reaches the server and the client reads what the server sends back.
    Then the server opens tunnels exactly when both hold the same secret and
    nothing on its side timed out or failed; and the client is connected
    exactly when the server did so, within its ten seconds, and could close the
    control stream. A client with another secret learns nothing but that the
    stream ended: the server writes no byte. *)
Theorem authentication_end_to_end {C S F} `{FramedLaws S F}
    `{!Bincode ClientMessage} `{!BincodeLaws ClientMessage}
    `{!Bincode ServerAuthResponse} `{!BincodeLaws ServerAuthResponse}
    (c : C) open shutdown (secret server_secret : Secret) options elapsed
    (env : AuthEnv S) (client_stream server_stream : S) (sent : F) request ok upstream :
  open c = Ok client_stream → accepted_stream env = Ok server_stream →
  encode (MsgHello (mkHello PROTOCOL_VERSION secret options)) = Ok request →
  Z.of_nat (length request) ≤ MAX_CONTROL_FRAME_LENGTH →
  framed_send request (framed_new client_stream : F) = (Ok tt, sent) →
  readable server_stream = frame request ++ upstream →
  encode AuthOk = Ok ok → Z.of_nat (length ok) ≤ MAX_CONTROL_FRAME_LENGTH →
  (∀ f1 : F, framed_readable f1 = upstream → is_ok (fst (framed_send ok f1)) = true) →
  (∀ f2 : F, framed_readable f2 = [] → shutdown (framed_inner f2) = Ok tt) →
  let (served, effects) := handle (F := F) env server_secret in
  readable client_stream = sent_bytes effects →
  is_ok served = bool_decide (secret = server_secret) && in_time env
  ∧ (RanTunnels ∈ effects ↔ is_ok served = true)
  ∧ (is_ok served = false → effects = [])
  ∧ is_ok (authenticate (F := F) elapsed (Ok c) open shutdown secret options) =
      is_ok served && match elapsed with Some t => t <=? AUTH_TIMEOUT | None => false end.
Proof.
  intros Ho Hs Hreq Hlreq Hsend Hread Hok Hlok Hsrv Hshut.
  destruct (handle_hello env secret server_secret options server_stream request upstream ok
    Hreq Hlreq Hok Hs Hread) as (f1 & _ & Hr1 & ->).
  destruct (do_auth_reads c open shutdown secret options client_stream sent request
    Ho Hreq Hsend) as [Hempty Hframe].
  specialize (Hsrv f1 Hr1). unfold in_time, authenticate.
  assert (∀ r : io_result C, is_ok match elapsed with
      | Some t => if t <=? AUTH_TIMEOUT then r
                  else Err (mkIoError TimedOut "client authentication timed out after ")
      | None => Err (mkIoError TimedOut "client authentication timed out after ")
      end = is_ok r && match elapsed with Some t => t <=? AUTH_TIMEOUT | None => false end)
    as Htime.
  { intros [r|e]; destruct elapsed as [t|]; try done; by destruct (t <=? AUTH_TIMEOUT). }
  rewrite Htime. clear Htime.
  destruct (hello_in_time env), (verify_in_time env), (bool_decide (secret = server_secret)),
    (send_in_time env); cbn [negb andb];
    try (intros Hc; rewrite Hempty by exact Hc; split_and!; [done|set_solver|done..]).
  destruct (framed_send ok f1) as [[[]|e] f2]; [|done]. intros Hc.
  destruct (Hframe ok [] Hok Hlok Hc) as (f3 & Hr3 & ->). rewrite (Hshut f3 Hr3).
  split_and!; [done|set_solver|done|done].
Qed.

(** A serializer for the witness: it knows one hello. *)
Definition demo_secret : Secret := vreplicate 32 Byte.x01.

Definition is_demo_hello (h : ClientHello) : bool :=
  bool_decide (hello_version h = PROTOCOL_VERSION)
  && bool_decide (hello_secret h = demo_secret) && bool_decide (hello_options h = []).

#[local] Instance demo_hello_codec : Bincode ClientMessage := {|
  encode_to_vec m :=
    match m with
    | MsgHello h => if is_demo_hello h then Some [Byte.x07] else None
    | _ => None
    end;
  borrow_decode_from_slice b :=
    match b with
    | [Byte.x07] => Some (MsgHello (mkHello PROTOCOL_VERSION demo_secret []), 1%nat)
    | _ => None
    end
|}.
#[local] Instance demo_hello_codec_laws : BincodeLaws ClientMessage.
Proof.
  intros [[v sec o]|c] b; [|done]. unfold encode_to_vec, demo_hello_codec, is_demo_hello.
  cbn [hello_version hello_secret hello_options].
  repeat case_bool_decide; cbn [andb]; try done. subst. by intros [= <-].
Qed.
#[local] Instance demo_answer_codec : Bincode ServerAuthResponse := {|
  encode_to_vec m := match m with AuthOk => Some [Byte.x00] | AuthErr => None end;
  borrow_decode_from_slice b :=
    match b with [Byte.x00] => Some (AuthOk, 1%nat) | _ => None end
|}.
#[local] Instance demo_answer_codec_laws : BincodeLaws ServerAuthResponse.
Proof. by intros [] b; [intros [= <-]|]. Qed.

(** A client with the server's secret, and one with another. *)
Lemma authentication_end_to_end_witness :
  let env := mkAuthEnv (Ok (frame [Byte.x07] : Bytes)) true true true 100 in
  let client answer := authenticate (F := MemFramed) (Some 5) (Ok 0%nat)
    (λ _, Ok (answer : Bytes)) (λ _, Ok tt) demo_secret [] in
  (RanTunnels ∈ snd (handle (F := MemFramed) env demo_secret)
   ∧ is_ok (client (frame [Byte.x00])) = true)
  ∧ (snd (handle (F := MemFramed) env (vreplicate 32 Byte.x02 : Secret)) = []
     ∧ is_ok (client []) = false).
Proof.
  intros env client.
  assert (encode (MsgHello (mkHello PROTOCOL_VERSION demo_secret [])) = Ok [Byte.x07])
    as Hreq by (vm_compute; reflexivity).
  assert (∀ (answer : Bytes) (server_secret : Secret), answer = sent_bytes
      (snd (handle (F := MemFramed) env server_secret)) →
    let served := handle (F := MemFramed) env server_secret in
    is_ok (fst served) = bool_decide (demo_secret = server_secret)
    ∧ (RanTunnels ∈ snd served ↔ is_ok (fst served) = true)
    ∧ (is_ok (fst served) = false → snd served = [])
    ∧ is_ok (client answer) = is_ok (fst served) && true) as H.
  { intros answer server_secret Ha.
    pose proof (authentication_end_to_end (F := MemFramed) 0%nat (λ _, Ok answer)
      (λ _, Ok tt) demo_secret server_secret [] (Some 5) env answer (frame [Byte.x07])
      (mkFramed [] answer [[Byte.x07]]) [Byte.x07] [Byte.x00] [] eq_refl eq_refl Hreq
      ltac:(done) eq_refl eq_refl eq_refl ltac:(done) (λ _ _, eq_refl) (λ _ _, eq_refl)) as H.
    destruct (handle env server_secret) as [served effects]. cbn [fst snd] in *.
    specialize (H Ha). unfold in_time in H. cbn in H. rewrite andb_true_r in H. exact H. }
  split.
  - destruct (H (frame [Byte.x00]) demo_secret) as (H1 & H2 & _ & H4);
      [vm_compute; reflexivity|].
    rewrite bool_decide_eq_true_2 in H1 by done. rewrite H1 in H4. split; [by apply H2|done].
  - destruct (H [] (vreplicate 32 Byte.x02)) as (H1 & _ & H3 & H4); [vm_compute; reflexivity|].
    assert (demo_secret ≠ (vreplicate 32 Byte.x02 : Secret)) as Hne
      by (intros E; apply (f_equal vec_to_list) in E; discriminate E).
    rewrite bool_decide_eq_false_2 in H1 by done. rewrite H1 in H4. split; [by apply H3|done].
Defined.
