(* ===== verification/RelayEndToEnd.v ===== *)
(** The data of a tunnelled connection, both sides together: the client copies
    between the application and the tunnel, the server between the tunnel and
    the destination, and a QUIC stream joins them. *)

From S2P Require Import Prelude Std TransportIo.

#[local] Open Scope Z_scope.

(** On the client [a] is the application and [b] the tunnel, on the server [a]
    is the tunnel and [b] the destination: [AtoB] is upstream on both. [early]
    are the bytes the server's framed stream had read past the connect message,
    [None] before [exchange_data] starts. A side that is dropped stops between
    two awaits. *)
Record Relay := mkRelay {
  client : Bidirectional;
  client_dropped : bool;
  server : Bidirectional;
  server_dropped : bool;
  early : option Bytes
}.

Definition relay_init : Relay := mkRelay bidi_init false bidi_init false None.

Inductive RelayEvent :=
  | ClientStep (d : Direction) (ev : CopyEvent)
  | ClientDrops
  | ServerStarts (read_buf : Bytes)
  | ServerStep (d : Direction) (ev : CopyEvent)
  | ServerDrops.

(** A side closes its half of the stream when it drops it, which it does after
    the copy at the latest. *)
Definition closed (s : Bidirectional) (dropped : bool) : bool :=
  dropped || (returned (a_to_b s) && returned (b_to_a s)).

(** What a read of the tunnel can give, when the peer's writer accepted [sent]
    and this side has [received]: the next bytes in order; the end, once the
    peer has closed its half and everything has arrived; an error at any
    time. *)
Definition tunnel_event_ok (sent received : Bytes) (peer_closed : bool)
    (ev : CopyEvent) : bool :=
  match ev with
  | EvRead (Ok []) => peer_closed && bool_decide (received = sent)
  | EvRead (Ok b) => bool_decide (received ++ b `prefix_of` sent)
  | _ => true
  end.

Definition upstream_received (r : Relay) : Bytes :=
  default [] (early r) ++ taken (a_to_b (server r)).
(** What the destination has got: [exchange_data] writes the early bytes
    first. *)
Definition delivered (r : Relay) : Bytes :=
  default [] (early r) ++ given (a_to_b (server r)).

Definition relay_step (r : Relay) (e : RelayEvent) : option Relay :=
  match e with
  | ClientStep d ev =>
    let ok := match d with
              | AtoB => true
              | BtoA => tunnel_event_ok (given (b_to_a (server r)))
                          (taken (b_to_a (client r)))
                          (closed (server r) (server_dropped r)) ev
              end in
    if negb (client_dropped r) && ok then
      c ← bidi_step (client r) d ev;
      Some (mkRelay c false (server r) (server_dropped r) (early r))
    else None
  | ClientDrops => Some (mkRelay (client r) true (server r) (server_dropped r) (early r))
  | ServerStarts b =>
    match early r with
    | None =>
      if negb (server_dropped r) && bool_decide (b `prefix_of` given (a_to_b (client r)))
      then Some (mkRelay (client r) (client_dropped r) (server r) false (Some b))
      else None
    | Some _ => None
    end
  | ServerStep d ev =>
    let ok := match d with
              | AtoB => tunnel_event_ok (given (a_to_b (client r)))
                          (upstream_received r)
                          (closed (client r) (client_dropped r)) ev
              | BtoA => true
              end in
    if negb (server_dropped r) && bool_decide (is_Some (early r)) && ok then
      s ← bidi_step (server r) d ev;
      Some (mkRelay (client r) (client_dropped r) s false (early r))
    else None
  | ServerDrops => Some (mkRelay (client r) (client_dropped r) (server r) true (early r))
  end.

Fixpoint relay_run (r : Relay) (es : list RelayEvent) : option Relay :=
  match es with
  | [] => Some r
  | e :: es => r' ← relay_step r e; relay_run r' es
  end.

Lemma relay_run_app r es1 es2 :
  relay_run r (es1 ++ es2) = r' ← relay_run r es1; relay_run r' es2.
Proof.
  revert r. induction es1 as [|e es1 IH]; intros r; [done|].
  cbn [relay_run app]. destruct (relay_step r e) as [r1|]; [|done]. apply IH.
Qed.

(** ** Invariant *)

(** What a step of one side does to the bytes of a direction. *)
Lemma bidi_step_bytes s d ev s' :
  bidi_step s d ev = Some s' →
  (∀ d', d' ≠ d → side d' s' = side d' s)
  ∧ given (side d s) `prefix_of` given (side d s')
  ∧ taken (side d s') = taken (side d s)
      ++ match ev with EvRead r => match read_result r with Ok b => b | Err _ => [] end
                     | _ => [] end
  ∧ returned (side d s) = false.
Proof.
  unfold bidi_step.
  assert (∀ c c', copy_step (token s) c ev = Some c' →
    given c `prefix_of` given c'
    ∧ taken c' = taken c ++ match ev with
        | EvRead r => match read_result r with Ok b => b | Err _ => [] end
        | _ => [] end
    ∧ returned c = false) as Hc.
  { intros [ph n tk gv] c'. unfold copy_step, returned.
    destruct ph, ev; cbn -[Nat.ltb Z.of_nat]; try done; repeat case_match; try done;
      intros [= <-]; cbn; rewrite ?app_nil_r; split_and!; try done;
      by apply prefix_app_r. }
  destruct d.
  all: destruct (copy_step _ _ _) as [c|] eqn:E; [|done]; intros [= <-]; cbn;
    destruct (Hc _ _ E) as (? & ? & ?);
    split_and!; [by intros []|done..].
Qed.

(** A side that is closed takes no step. *)
Lemma closed_no_step s d ev : closed s false = true → bidi_step s d ev = None.
Proof.
  intros [Ha Hb]%andb_prop. unfold bidi_step, returned in *.
  destruct d, (phase (a_to_b s)) eqn:E1, (phase (b_to_a s)) eqn:E2; try done;
    unfold copy_step; rewrite ?E1, ?E2; by destruct ev.
Qed.

(** [up] and [down] say whether the tunnel was read to its end. *)
Record relay_ok (up down : bool) (r : Relay) : Prop := {
  rok_client : bidi_ok (client r);
  rok_server : bidi_ok (server r);
  rok_up : upstream_received r `prefix_of` given (a_to_b (client r));
  rok_down : taken (b_to_a (client r)) `prefix_of` given (b_to_a (server r));
  rok_start : early r = None → server r = bidi_init;
  rok_up_end : up = true →
    upstream_received r = given (a_to_b (client r)) ∧ is_Some (early r)
    ∧ closed (client r) (client_dropped r) = true ∧ returned (a_to_b (server r)) = true
    ∧ taken (a_to_b (server r)) = given (a_to_b (server r));
  rok_down_end : down = true →
    taken (b_to_a (client r)) = given (b_to_a (server r))
    ∧ closed (server r) (server_dropped r) = true ∧ returned (b_to_a (client r)) = true
    ∧ taken (b_to_a (client r)) = given (b_to_a (client r))
}.

Lemma read_end s d s' :
  bidi_ok s → bidi_step s d (EvRead (Ok [])) = Some s' →
  returned (side d s') = true ∧ taken (side d s') = given (side d s').
Proof.
  intros Hs E. pose proof (bidi_step_ok _ _ _ _ Hs E) as [Hd _].
  destruct (Hd d) as [Hc _]. revert Hc. unfold bidi_step in E.
  destruct d; cbn [side]; unfold copy_step in E;
    [destruct (phase (a_to_b s))|destruct (phase (b_to_a s))]; try done;
    destruct (token s); try done; injection E as <-; unfold copy_ok; cbn;
    by intros [_ H].
Qed.

(** The bytes a read of the tunnel adds stay within what was sent. *)
Lemma tunnel_read_prefix sent received closed ev :
  tunnel_event_ok sent received closed ev = true → received `prefix_of` sent →
  received ++ match ev with
              | EvRead r => match read_result r with Ok b => b | Err _ => [] end
              | _ => [] end `prefix_of` sent.
Proof.
  intros Hok Hp. destruct ev as [|[[|x b]|e]| |e n]; cbn in *; rewrite ?app_nil_r; try done.
  - by apply bool_decide_eq_true in Hok.
  - destruct (kind e); by rewrite app_nil_r.
Qed.

Definition reads_end (side : RelayEvent) : bool * bool :=
  match side with
  | ServerStep AtoB (EvRead (Ok [])) => (true, false)
  | ClientStep BtoA (EvRead (Ok [])) => (false, true)
  | _ => (false, false)
  end.

Lemma client_copy_ok up down r d ev r' :
  relay_ok up down r → relay_step r (ClientStep d ev) = Some r' →
  relay_ok up (down || snd (reads_end (ClientStep d ev))) r'.
Proof.
  intros [Hc Hs Hu Hd He Hue Hde]. cbn [relay_step].
  destruct (client_dropped r) eqn:Edr; cbn [negb andb]; [done|].
  destruct (match d with AtoB => _ | BtoA => _ end) eqn:Hok; [|done].
  destruct (bidi_step (client r) d ev) as [c|] eqn:E; [|done]. intros [= <-].
  assert (up = false) as ->.
  { destruct up; [|done]. destruct (Hue eq_refl) as (_ & _ & Hcl & _).
    unfold closed in Hcl. cbn in Hcl. by rewrite (closed_no_step _ d ev Hcl) in E. }
  destruct (bidi_step_bytes _ _ _ _ E) as (Hother & Hgiven & Htaken & Hret).
  pose proof (bidi_step_ok _ _ _ _ Hc E) as Hc'.
  split; cbn [client server early client_dropped server_dropped]; [done|done| | |done|done|].
  - etrans; [exact Hu|]. destruct d; [exact Hgiven|].
    by rewrite (Hother AtoB ltac:(done) : a_to_b c = a_to_b (client r)).
  - destruct d; [by rewrite (Hother BtoA ltac:(done) : b_to_a c = b_to_a (client r))|].
    cbn [side] in Htaken. rewrite Htaken. by eapply tunnel_read_prefix.
  - intros Hend. destruct d.
    + rewrite orb_false_r in Hend.
      rewrite (Hother BtoA ltac:(done) : b_to_a c = b_to_a (client r)). by apply Hde.
    + destruct down; [destruct (Hde eq_refl) as (_ & _ & Hr & _);
        cbn [side] in Hret; congruence|].
      destruct ev as [|[[|x b]|e]| |e n]; try done.
      destruct (read_end _ _ _ Hc E) as [Hr1 Ht1].
      cbn [tunnel_event_ok] in Hok. apply andb_prop in Hok as [Hcl Hall].
      apply bool_decide_eq_true in Hall. cbn [side read_result] in *.
      rewrite app_nil_r in Htaken. split_and!; [congruence|done..].
Qed.

Lemma server_copy_ok up down r d ev r' :
  relay_ok up down r → relay_step r (ServerStep d ev) = Some r' →
  relay_ok (up || fst (reads_end (ServerStep d ev))) down r'.
Proof.
  intros [Hc Hs Hu Hd He Hue Hde]. cbn [relay_step].
  destruct (server_dropped r) eqn:Edr; cbn [negb andb]; [done|].
  case_bool_decide as Hst; cbn [andb]; [|done].
  destruct (match d with AtoB => _ | BtoA => _ end) eqn:Hok; [|done].
  destruct (bidi_step (server r) d ev) as [s|] eqn:E; [|done]. intros [= <-].
  assert (down = false) as ->.
  { destruct down; [|done]. destruct (Hde eq_refl) as (_ & Hcl & _).
    unfold closed in Hcl. cbn in Hcl. by rewrite (closed_no_step _ d ev Hcl) in E. }
  destruct (bidi_step_bytes _ _ _ _ E) as (Hother & Hgiven & Htaken & Hret).
  pose proof (bidi_step_ok _ _ _ _ Hs E) as Hs'. unfold upstream_received in *.
  split; unfold upstream_received; cbn [client server early client_dropped server_dropped];
    [done|done| | | | |done].
  - destruct d; [|by rewrite (Hother AtoB ltac:(done) : a_to_b s = a_to_b (server r))].
    cbn [side] in Htaken. rewrite Htaken, app_assoc. by eapply tunnel_read_prefix.
  - etrans; [exact Hd|]. destruct d; [|exact Hgiven].
    by rewrite (Hother BtoA ltac:(done) : b_to_a s = b_to_a (server r)).
  - intros Hn. rewrite Hn in Hst. by destruct Hst.
  - intros Hend. destruct d.
    + destruct up; [destruct (Hue eq_refl) as (_ & _ & _ & Hr & _);
        cbn [side] in Hret; congruence|].
      destruct ev as [|[[|x b]|e]| |e n]; try done.
      destruct (read_end _ _ _ Hs E) as [Hr1 Ht1].
      cbn [tunnel_event_ok] in Hok. apply andb_prop in Hok as [Hcl Hall].
      apply bool_decide_eq_true in Hall. cbn [side read_result] in *.
      rewrite app_nil_r in Htaken. split_and!; [congruence|done..].
    + rewrite orb_false_r in Hend.
      rewrite (Hother AtoB ltac:(done) : a_to_b s = a_to_b (server r)). by apply Hue.
Qed.

Lemma relay_step_ok up down r e r' :
  relay_ok up down r → relay_step r e = Some r' →
  relay_ok (up || fst (reads_end e)) (down || snd (reads_end e)) r'.
Proof.
  intros Hr E. destruct e as [d ev| |b|d ev| ].
  - assert (fst (reads_end (ClientStep d ev)) = false) as ->
      by (by destruct d, ev as [|[[|x b]|e]| |e n]).
    rewrite orb_false_r. by eapply client_copy_ok.
  - injection E as <-. cbn. rewrite !orb_false_r. destruct Hr. split; try done.
    cbn. intros Hup. by destruct (rok_up_end0 Hup) as (? & ? & _ & ?).
  - destruct Hr as [Hc Hs Hu Hd He Hue Hde]. cbn in E.
    destruct (early r) eqn:Ee; [done|]. destruct (server_dropped r) eqn:Ed; [done|].
    case_bool_decide as Hb; cbn in E; [|done]. injection E as <-. cbn.
    rewrite !orb_false_r, (He eq_refl) in *. split; try done.
    + unfold upstream_received. cbn. by rewrite app_nil_r.
    + intros Hup. by destruct (Hue Hup) as (_ & [x Hx] & _).
  - assert (snd (reads_end (ServerStep d ev)) = false) as ->
      by (by destruct d, ev as [|[[|x b]|e]| |e n]).
    rewrite orb_false_r. by eapply server_copy_ok.
  - injection E as <-. cbn. rewrite !orb_false_r. destruct Hr. split; try done.
    cbn. intros Hup. by destruct (rok_down_end0 Hup) as (? & _ & ?).
Qed.

Lemma relay_run_ok es r up down r' :
  relay_ok up down r → relay_run r es = Some r' →
  ∃ up' down', relay_ok up' down' r'
    ∧ (up = true ∨ ServerStep AtoB (EvRead (Ok [])) ∈ es → up' = true)
    ∧ (down = true ∨ ClientStep BtoA (EvRead (Ok [])) ∈ es → down' = true).
Proof.
  revert r up down. induction es as [|e es IH]; intros r up down Hr; cbn [relay_run].
  - intros [= <-]. exists up, down. split; [done|]. by split; intros [H|?%elem_of_nil].
  - destruct (relay_step r e) as [r1|] eqn:E; [|done]. cbn [mbind option_bind].
    intros Hrun. pose proof (relay_step_ok _ _ _ _ _ Hr E) as Hr1.
    destruct (IH _ _ _ Hr1 Hrun) as (up' & down' & Hok & Hu & Hd).
    exists up', down'. split; [done|]. split.
    + intros [->|[<-|H]%elem_of_cons]; apply Hu; [by left| |by right].
      left. by rewrite orb_true_r.
    + intros [->|[<-|H]%elem_of_cons]; apply Hd; [by left| |by right].
      left. by rewrite orb_true_r.
Qed.

Lemma relay_init_ok : relay_ok false false relay_init.
Proof. split; try done; apply bidi_init_ok. Qed.

(** A copy's writer has a prefix of what its reader gave, all of it when the
    copy returned without an error. *)
Lemma copy_ok_given s :
  copy_ok s → given s `prefix_of` taken s
  ∧ ∀ n, phase s = Returned (Ok n) → taken s = given s ∧ n = len64 (given s).
Proof.
  unfold copy_ok. destruct (phase s) as [| |b|[n|[e n]]].
  - by intros (_ & -> & ->).
  - by intros [_ ->].
  - intros [_ ->]. split; [by apply prefix_app_r|done].
  - intros [-> ->]. split; [done|]. by intros ? [= <-].
  - intros (f & p & rest & _ & -> & _). split; [by apply prefix_app_r|done].
Qed.

(** What each end has got, of what the other end gave. *)
Lemma relay_prefixes es r :
  relay_run relay_init es = Some r →
  bidi_ok (client r) ∧ bidi_ok (server r)
  ∧ delivered r `prefix_of` taken (a_to_b (client r))
  ∧ given (b_to_a (client r)) `prefix_of` taken (b_to_a (server r)).
Proof.
  intros Hrun.
  destruct (relay_run_ok _ _ _ _ _ relay_init_ok Hrun) as (up & down & [Hc Hs Hu Hd _ _ _] & _).
  assert (∀ b d, bidi_ok b → given (side d b) `prefix_of` taken (side d b)) as Hok
    by (intros b d [Hb _]; apply copy_ok_given, Hb).
  split_and!; [done..| |].
  - etrans; [|apply (Hok _ AtoB Hc)]. etrans; [|exact Hu].
    apply prefix_app, (Hok _ AtoB Hs).
  - etrans; [apply (Hok _ BtoA Hc)|]. etrans; [exact Hd|apply (Hok _ BtoA Hs)].
Qed.

(** ** Properties *)

(** C4. The bytes of a tunnelled connection, end to end and in any
    interleaving of the four copies: at every moment the destination has
    received a prefix of what the application sent and the application a prefix
    of what the destination sent. A side that reads the tunnel to its end has
    passed on every byte its peer put into it, and, if the peer's copy of that
    direction returned without an error, every byte the peer read, in the number
    the peer reports. *)
Theorem relay_faithful es r :
  relay_run relay_init es = Some r →
  delivered r `prefix_of` taken (a_to_b (client r))
  ∧ given (b_to_a (client r)) `prefix_of` taken (b_to_a (server r))
  ∧ (ServerStep AtoB (EvRead (Ok [])) ∈ es →
       delivered r = given (a_to_b (client r))
       ∧ ∀ n, phase (a_to_b (client r)) = Returned (Ok n) →
           delivered r = taken (a_to_b (client r)) ∧ n = len64 (delivered r))
  ∧ (ClientStep BtoA (EvRead (Ok [])) ∈ es →
       given (b_to_a (client r)) = given (b_to_a (server r))
       ∧ ∀ n, phase (b_to_a (server r)) = Returned (Ok n) →
           given (b_to_a (client r)) = taken (b_to_a (server r))
           ∧ n = len64 (given (b_to_a (client r)))).
Proof.
  intros Hrun.
  destruct (relay_run_ok _ _ _ _ _ relay_init_ok Hrun)
    as (up & down & [Hc Hs Hu Hd _ Hue Hde] & Hup & Hdown).
  assert (∀ b d, bidi_ok b → given (side d b) `prefix_of` taken (side d b)
    ∧ ∀ n, phase (side d b) = Returned (Ok n) →
        taken (side d b) = given (side d b) ∧ n = len64 (given (side d b))) as Hok
    by (intros b d [Hb _]; apply copy_ok_given, Hb).
  destruct (Hok _ AtoB Hc) as [_ Hcan], (Hok _ BtoA Hs) as [_ Hsbn]. cbn [side] in *.
  destruct (relay_prefixes _ _ Hrun) as (_ & _ & Hpu & Hpd). split_and!; [done..| |].
  - intros Hin. destruct (Hue (Hup (or_intror Hin))) as (Hall & _ & _ & _ & Hg).
    assert (delivered r = given (a_to_b (client r))) as E
      by (unfold delivered; by rewrite <-Hg).
    split; [done|]. intros n Hn. destruct (Hcan n Hn) as [-> ->]. by rewrite E.
  - intros Hin. destruct (Hde (Hdown (or_intror Hin))) as (Hall & _ & _ & Hg).
    assert (given (b_to_a (client r)) = given (b_to_a (server r))) as E by congruence.
    split; [done|]. intros n Hn. destruct (Hsbn n Hn) as [-> ->]. by rewrite E.
Qed.

(** A request and its answer; the application closes its half after the
    request. *)
Definition half_closed_run (request response : Bytes) : list RelayEvent :=
  [ClientStep AtoB EvPoll; ClientStep BtoA EvPoll;
   ClientStep AtoB (EvRead (Ok request)); ClientStep AtoB EvWritten;
   ServerStarts []; ServerStep AtoB EvPoll; ServerStep BtoA EvPoll;
   ServerStep AtoB (EvRead (Ok request)); ServerStep AtoB EvWritten;
   ServerStep BtoA (EvRead (Ok response)); ServerStep BtoA EvWritten;
   ClientStep AtoB (EvRead (Ok [])); ClientStep BtoA EvPoll;
   ServerStep AtoB (EvRead (Ok [])); ServerStep BtoA EvPoll].

Lemma relay_faithful_witness :
  let r := default relay_init
             (relay_run relay_init (half_closed_run [Byte.x61; Byte.x62] [Byte.x63])) in
  delivered r = taken (a_to_b (client r)) ∧ delivered r = [Byte.x61; Byte.x62].
Proof.
  intros r.
  assert (relay_run relay_init (half_closed_run [Byte.x61; Byte.x62] [Byte.x63]) = Some r)
    as H by (vm_compute; reflexivity).
  split; [|vm_compute; reflexivity].
  refine (proj1 (proj2 (proj1 (proj2 (proj2 (relay_faithful _ r H))) _) 2 _)).
  - unfold half_closed_run. do 13 right. left.
  - vm_compute. reflexivity.
Defined.

#[local] Ltac normal :=
  cbn [client server early client_dropped server_dropped negb default a_to_b b_to_a
       token taken given phase copied app returned closed orb andb side copy_init
       bidi_init relay_init].

(** A half-close ends both directions: the answer to a request after which the
    application closed its half may be lost, whatever it is, while both sides
    report success. The end of one copy cancels the other. *)
Theorem half_close_loses_answer request response :
  request ≠ [] → Z.of_nat (length request) ≤ DEFAULT_BUF_SIZE →
  response ≠ [] → Z.of_nat (length response) ≤ DEFAULT_BUF_SIZE →
  ∃ r, relay_run relay_init (half_closed_run request response) = Some r
    ∧ bidi_result (client r) = Some (Ok (mkStats (len64 request) 0))
    ∧ bidi_result (server r) = Some (Ok (mkStats (len64 request) (len64 response)))
    ∧ delivered r = request
    ∧ taken (b_to_a (server r)) = response ∧ given (b_to_a (client r)) = [].
Proof.
  intros Hq Hlq Hp Hlp.
  destruct request as [|q request]; [done|].
  destruct response as [|p response]; [done|].
  apply Z.leb_le in Hlq, Hlp. unfold half_closed_run.
  set (rq := q :: request) in *. set (rs := p :: response) in *.
  assert (∀ b n t g, (b = rq ∨ b = rs) → copy_step false (mkCopy Selecting n t g)
      (EvRead (Ok b)) = Some (mkCopy (WritingAll b) n (t ++ b) g)) as Hread.
  { intros b n t g [-> | ->]; unfold copy_step; cbn [phase read_result];
      [rewrite Hlq|rewrite Hlp]; done. }
  assert (∀ sent received c, received ++ rq = sent →
      tunnel_event_ok sent received c (EvRead (Ok rq)) = true) as Htun
    by (intros sent received c <-; by apply bool_decide_eq_true_2).
  assert (∀ r e es r' res, relay_step r e = Some r' → relay_run r' es = res →
      relay_run r (e :: es) = res) as Hcons by (intros * E <-; cbn [relay_run]; by rewrite E).
  assert (∀ l, tunnel_event_ok l l true (EvRead (Ok [])) = true) as Hend
    by (intros l; cbn; by rewrite bool_decide_eq_true_2).
  clearbody rq rs. eexists. split.
  { repeat (eapply Hcons; [first [reflexivity
      |unfold relay_step, bidi_step, upstream_received; normal;
       first [rewrite Htun by done|rewrite Hend|idtac]; normal;
       try rewrite Hread by auto; reflexivity]|normal]).
    reflexivity. }
  split_and!; done.
Qed.

Lemma half_close_loses_answer_witness :
  ∃ r, relay_run relay_init (half_closed_run [Byte.x61] [Byte.x62]) = Some r
    ∧ bidi_result (client r) = Some (Ok (mkStats (len64 [Byte.x61]) 0))
    ∧ bidi_result (server r) = Some (Ok (mkStats (len64 [Byte.x61]) (len64 [Byte.x62])))
    ∧ delivered r = [Byte.x61]
    ∧ taken (b_to_a (server r)) = [Byte.x62] ∧ given (b_to_a (client r)) = [].
Proof. by apply (half_close_loses_answer [Byte.x61] [Byte.x62]). Defined.
