(* ===== verification/SocksEndToEnd.v ===== *)
(** A SOCKS5 CONNECT from the application to the destination and back: the dialogue
    of SocksServer.v, the tunnel stream the client opens for it (EndToEnd.v), the
    handler of that stream on the server (ServerStream.v) and the four copies
    between them (RelayEndToEnd.v). *)

From S2P Require Import Prelude Std Stream Protocol Metrics TransportIo.
From S2P Require Import ClientStream ClientConnection EndToEnd RelayEndToEnd.
From S2P Require SocksProtocol SocksServer ServerStream.

#[local] Open Scope Z_scope.

(** What a client that offers the methods [ms] sends to reach [a]. *)
Definition connect_request (ms : list byte) (rsv : byte) (a : SocksProtocol.Address) : Bytes :=
  [SocksProtocol.VERSION; z2b (Z.of_nat (length ms))] ++ ms
  ++ [SocksProtocol.VERSION; SocksProtocol.CMD_CONNECT; rsv] ++ SocksProtocol.encode a [].

(** What it is answered. *)
Definition connect_answer (reply : SocksProtocol.Reply) : Bytes :=
  [SocksProtocol.VERSION; SocksProtocol.NO_AUTHENTICATION]
  ++ SocksProtocol.encode_reply reply SocksProtocol.UNSPECIFIED.

(** The copy of the client, between the application's stream, on which [rest] was
    still to be read, and the tunnel, went as the client's side of [r]. *)
Definition client_copied {A U} `{AsyncStream A} (rest : Bytes) (r : Relay)
    (copy : U → A → Result (IoError * CopyBidirectionalStats) CopyBidirectionalStats * A) : Prop :=
  ∀ u app, incoming app = rest →
    let '(res, app') := copy u app in
    bidi_result (client r) = Some res
    ∧ incoming app = taken (a_to_b (client r)) ++ incoming app'
    ∧ outgoing app' = outgoing app ++ given (b_to_a (client r)).

(** [exchange_data] on the server went as the server's side of [r]: it wrote the
    bytes its framed stream had buffered, and no shutdown came first. *)
Definition server_copied {S F T} `{Framed S F} (r : Relay) (f : F) (tcp : T)
    (env : ServerStream.ExchangeEnv S T) : Prop :=
  early r = Some (read_buf f)
  ∧ ServerStream.write_buffered env tcp (read_buf f) = Ok tt
  ∧ ServerStream.shutdown_first env = false
  ∧ bidi_result (server r) =
      Some (ServerStream.copy_bidirectional env (framed_inner f) tcp).

(** The counts of a copy that returned without an error. *)
Lemma bidi_result_counts s stats :
  bidi_ok s → bidi_result s = Some (Ok stats) →
  stats = mkStats (len64 (given (a_to_b s))) (len64 (given (b_to_a s))).
Proof.
  intros [Hd _]. destruct (copy_ok_given _ (proj1 (Hd AtoB))) as [_ Ha].
  destruct (copy_ok_given _ (proj1 (Hd BtoA))) as [_ Hb]. cbn [side] in *.
  unfold bidi_result. destruct (phase (a_to_b s)) as [| | |[n|[]]]; try done;
    destruct (phase (b_to_a s)) as [| | |[m|[]]]; try done.
  intros [= <-]. cbn [count_of].
  by rewrite (proj2 (Ha n eq_refl)), (proj2 (Hb m eq_refl)).
Qed.

Lemma len64_swap a b : as_u64 (len64 b + Z.of_nat (length a)) = len64 (a ++ b).
Proof.
  rewrite len64_app. unfold len64. by rewrite !length_app, Nat.add_comm.
Qed.

(** The address of a request is one that the wire keeps. *)
Lemma wire_address_socks a :
  SocksProtocol.wire_ok a →
  wire_address (SocksProtocol.to_ombrac a) = SocksProtocol.to_ombrac a.
Proof.
  destruct a as [|[ip port flow scope]|]; [done| |done]. cbn. unfold wire_v6. cbn.
  naive_solver.
Qed.

Section sides.
Context {A S F T : Type} `{AsyncStreamLaws A} `{!ReliableWrites A} `{FramedLaws S F}
  `{!Bincode ClientMessage} `{!BincodeLaws ClientMessage}
  `{!Bincode ServerMessage} `{!BincodeLaws ServerMessage}.

(** The server's side of an exchange, once the destination is connected: the
    result, what the guard reports, and the bytes that were waiting. *)
Lemma exchange_reports (env : ServerStream.ExchangeEnv S T) (f : F) tcp guard es r :
  relay_run relay_init es = Some r → server_copied r f tcp env →
  let '(res, guard') := ServerStream.exchange_data env f tcp guard in
  ServerStream.destination guard' = ServerStream.destination guard
  ∧ ServerStream.initial_upstream_bytes guard' = Z.of_nat (length (read_buf f))
  ∧ (res = Ok tt → ∃ stats, ServerStream.stats guard' = Some stats
      ∧ as_u64 (a_to_b_bytes stats + ServerStream.initial_upstream_bytes guard')
        = len64 (delivered r)
      ∧ b_to_a_bytes stats = len64 (given (b_to_a (server r)))).
Proof.
  intros Hrun (He & Hw & Hsh & Hres). unfold ServerStream.exchange_data. rewrite Hsh.
  assert ((if decide (read_buf f ≠ []) then ServerStream.write_buffered env tcp (read_buf f)
           else Ok tt) = Ok tt) as -> by (by destruct (decide _)).
  destruct (relay_prefixes es r Hrun) as (_ & Hs & _).
  destruct (ServerStream.copy_bidirectional env (framed_inner f) tcp) as [stats|[e stats]];
    cbn; [|done]. split_and!; [done..|]. intros _. exists stats. split; [done|].
  rewrite (bidi_result_counts _ _ Hs Hres). cbn [a_to_b_bytes b_to_a_bytes].
  split; [|done]. unfold delivered. rewrite He. apply len64_swap.
Qed.

End sides.

(** ** Properties *)

(** C7. A SOCKS CONNECT whose destination cannot be reached, all the way. The server
    reads what the client has sent and the client reads what the server's handler has
    sent. The application reads the handshake and exactly one reply, with the code a
    direct connect would have had ("not allowed" becomes a general failure), and its
    connection ends with the error the server met, by its text, and by its kind if
    the protocol tells it apart; the server's handler ends with that error too, for
    the address the application asked for. *)
Theorem socks_connect_refused {A S F T} `{AsyncStreamLaws A} `{!ReliableWrites A}
    `{FramedLaws S F} `{!Bincode ClientMessage} `{!BincodeLaws ClientMessage}
    `{!Bincode ServerMessage} `{!BincodeLaws ServerMessage}
    (app : A) ms rsv a rest (client_stream server_stream : S) (sent : F) request response
    upstream downstream m resolve (connect : SocketAddr → option (io_result T)) env copy
    peer local bnd udp e :
  (length ms ≤ 255)%nat → SocksProtocol.NO_AUTHENTICATION ∈ ms → SocksProtocol.wire_ok a →
  incoming app = connect_request ms rsv a ++ rest →
  let dest := SocksProtocol.to_ombrac a in
  Protocol.encode (MsgConnect (mkConnect dest)) = Ok request →
  Z.of_nat (length request) ≤ MAX_CONTROL_FRAME_LENGTH →
  framed_send request (framed_new client_stream : F) = (Ok tt, sent) →
  readable server_stream = framed_written sent ++ upstream →
  ServerStream.connect_to_destination resolve connect dest = Err e →
  Protocol.encode (MsgConnectResponse (ConnectErr (from_io_error e) (msg e))) = Ok response →
  Z.of_nat (length response) ≤ MAX_CONTROL_FRAME_LENGTH →
  (∀ f1 : F, framed_readable f1 = upstream → is_ok (fst (framed_send response f1)) = true) →
  let '(served, guard, answered) :=
    ServerStream.handle_connect (F := F) true resolve connect env server_stream
      ServerStream.guard_default in
  readable client_stream = framed_written answered ++ downstream →
  served = Err e
  ∧ ServerStream.destination guard = Some dest
  ∧ ∃ app',
    SocksServer.handle_connection
      (λ d, fst (open_bidirectional (F := F) (Ok client_stream) d m))
      copy peer local bnd udp app = (Err (tunnelled_error e), app')
    ∧ outgoing app' = outgoing app ++ connect_answer
        (if decide (kind e = PermissionDenied) then SocksProtocol.GeneralFailure
         else SocksProtocol.from_connect_error e).
Proof.
  intros Hms Hno Ha Hin dest Hreq Hlreq Hsend Hsrv Hres Hresp Hlresp Hsendr.
  rewrite (request_written _ _ _ Hsend) in Hsrv.
  assert (Protocol.encode (MsgConnectResponse
    (ServerStream.connect_response (Err e : io_result T))) = Ok response) as Hresp' by done.
  pose proof (handle_connect_spec resolve connect env server_stream dest request upstream
    response Hreq Hlreq Hsrv) as Hh. cbn zeta in Hh.
  rewrite (wire_address_socks a Ha : wire_address dest = dest), Hres in Hh.
  destruct (Hh Hresp' Hsendr) as (f & _ & Hw & ->). rewrite Hw. intros Hcl.
  split; [done|]. split; [done|].
  pose proof (open_answered (Err e : io_result T) dest m client_stream sent request response
    downstream Hreq Hsend Hresp' Hlresp Hcl) as Hopen.
  unfold connect_request in Hin. rewrite <-!app_assoc in Hin.
  pose proof (SocksServer.connect_dialogue
    (λ d, fst (open_bidirectional (F := F) (Ok client_stream) d m)) copy peer local bnd udp
    app ms rsv a rest Hms Ha Hno Hin) as Hd. cbn beta zeta in Hd. fold dest in Hd.
  destruct (fst (open_bidirectional _ _ _)) as [stream|e']; [done|subst e'].
  destruct Hd as (app' & Hrun & Hout). exists app'. split; [exact Hrun|].
  by rewrite Hout, tunnelled_reply.
Qed.

(** C5. A SOCKS CONNECT that succeeds, from the application to the destination and
    back, for every interleaving [es] of the four copies that lets both sides
    return. The server reads what the client has sent, its request and then what its
    copy puts into the tunnel; the client reads what the server has sent, its answer
    and then what its copy puts there. The application reads the handshake, one reply
    of success, and then a prefix of what the destination sent; the destination
    receives a prefix of what the application sent after its request, and the server
    reports the address the application asked for. If the server's copy returned
    without an error, the counts it reports are the bytes that the destination
    received, those that came with the connect request included, and the bytes it put
    into the tunnel. *)
Theorem socks_session_end_to_end {A S F T} `{AsyncStreamLaws A} `{!ReliableWrites A}
    `{FramedLaws S F} `{!Bincode ClientMessage} `{!BincodeLaws ClientMessage}
    `{!Bincode ServerMessage} `{!BincodeLaws ServerMessage}
    (app : A) ms rsv a rest (client_stream server_stream : S) (sent : F) request response
    m resolve (connect : SocketAddr → option (io_result T)) env copy
    peer local bnd udp tcp es r :
  (length ms ≤ 255)%nat → SocksProtocol.NO_AUTHENTICATION ∈ ms → SocksProtocol.wire_ok a →
  incoming app = connect_request ms rsv a ++ rest →
  let dest := SocksProtocol.to_ombrac a in
  Protocol.encode (MsgConnect (mkConnect dest)) = Ok request →
  Z.of_nat (length request) ≤ MAX_CONTROL_FRAME_LENGTH →
  framed_send request (framed_new client_stream : F) = (Ok tt, sent) →
  ServerStream.connect_to_destination resolve connect dest = Ok tcp →
  Protocol.encode (MsgConnectResponse ConnectOk) = Ok response →
  Z.of_nat (length response) ≤ MAX_CONTROL_FRAME_LENGTH →
  (∀ f1 : F, framed_readable f1 = given (a_to_b (client r)) →
     is_ok (fst (framed_send response f1)) = true) →
  relay_run relay_init es = Some r →
  readable server_stream = framed_written sent ++ given (a_to_b (client r)) →
  let '(served, guard, answered) :=
    ServerStream.handle_connect (F := F) true resolve connect env server_stream
      ServerStream.guard_default in
  readable client_stream = framed_written answered ++ given (b_to_a (server r)) →
  client_copied rest r copy → server_copied r answered tcp env →
  (∃ res app',
    bidi_result (client r) = Some res
    ∧ SocksServer.handle_connection
        (λ d, fst (open_bidirectional (F := F) (Ok client_stream) d m))
        copy peer local bnd udp app
      = (match res with Ok _ => Ok tt | Err (e, _) => Err e end, app')
    ∧ outgoing app' = outgoing app ++ connect_answer SocksProtocol.Succeeded
                      ++ given (b_to_a (client r)))
  ∧ given (b_to_a (client r)) `prefix_of` taken (b_to_a (server r))
  ∧ delivered r `prefix_of` rest
  ∧ ServerStream.destination guard = Some dest
  ∧ (served = Ok tt → ∃ stats, ServerStream.stats guard = Some stats
      ∧ as_u64 (a_to_b_bytes stats + ServerStream.initial_upstream_bytes guard)
        = len64 (delivered r)
      ∧ b_to_a_bytes stats = len64 (given (b_to_a (server r)))).
Proof.
  intros Hms Hno Ha Hin dest Hreq Hlreq Hsend Hres Hresp Hlresp Hsendr Hrun Hsrv.
  rewrite (request_written _ _ _ Hsend) in Hsrv.
  pose proof (handle_connect_spec resolve connect env server_stream dest request _
    response Hreq Hlreq Hsrv) as Hh. cbn zeta in Hh.
  rewrite (wire_address_socks a Ha : wire_address dest = dest), Hres in Hh.
  destruct (Hh Hresp Hsendr) as (f & _ & Hw & ->).
  pose proof (exchange_reports env f tcp (ServerStream.guard_with_destination dest
    ServerStream.guard_default) es r Hrun) as Hex.
  destruct (ServerStream.exchange_data env f tcp _) as [served guard]. rewrite Hw.
  intros Hcl Hcopy Hscopy. specialize (Hex Hscopy). destruct Hex as (Hd & _ & Hstats).
  destruct (relay_prefixes es r Hrun) as (_ & _ & Hup & Hdown).
  pose proof (open_answered (Ok tcp) dest m client_stream sent request response _
    Hreq Hsend Hresp Hlresp Hcl) as Hopen.
  unfold connect_request in Hin. rewrite <-!app_assoc in Hin.
  pose proof (SocksServer.connect_dialogue
    (λ d, fst (open_bidirectional (F := F) (Ok client_stream) d m)) copy peer local bnd udp
    app ms rsv a rest Hms Ha Hno Hin) as Hdial. cbn beta zeta in Hdial. fold dest in Hdial.
  destruct (fst (open_bidirectional _ _ _)) as [stream|e']; [|done].
  destruct Hdial as (app1 & Hr1 & Hin1 & Hout1).
  specialize (Hcopy stream app1 Hin1). rewrite Hr1. unfold SocksServer.relay_stream.
  destruct (copy stream app1) as [res app2]. destruct Hcopy as (Hcres & Htaken & Hout2).
  split_and!; [|done| |done|done].
  - exists res, app2. split; [done|]. split; [by destruct res as [|[]]|].
    rewrite Hout2, Hout1. unfold connect_answer. by rewrite <-!app_assoc.
  - etrans; [exact Hup|]. exists (incoming app2). congruence.
Qed.

(** ** A run *)

(** A serializer that knows one request and two answers. *)
Definition demo_refused : IoError := mkIoError ConnectionRefused "r".
#[local] Instance demo_request_codec : Bincode ClientMessage := {|
  encode_to_vec m :=
    match m with MsgConnect (mkConnect (Domain [Byte.x61] 80)) => Some [Byte.x07] | _ => None end;
  borrow_decode_from_slice b :=
    match b with
    | [Byte.x07] => Some (MsgConnect (mkConnect (Domain [Byte.x61] 80)), 1%nat)
    | _ => None
    end
|}.
#[local] Instance demo_request_codec_laws : BincodeLaws ClientMessage.
Proof.
  intros [|[[| |d p]]] b H; [done..|].
  destruct (decide (d = [Byte.x61] ∧ p = 80)) as [[-> ->]|Hne]; [by injection H as <-|].
  exfalso. unfold encode_to_vec, demo_request_codec in H. repeat case_match; naive_solver.
Qed.

Definition is_demo_refusal (k : ConnectErrorKind) (m : string) : bool :=
  match k with CekConnectionRefused => bool_decide (m = "r"%string) | _ => false end.
#[local] Instance demo_answer_codec : Bincode ServerMessage := {|
  encode_to_vec m :=
    match m with
    | MsgConnectResponse ConnectOk => Some [Byte.x00]
    | MsgConnectResponse (ConnectErr k m) => if is_demo_refusal k m then Some [Byte.x01] else None
    end;
  borrow_decode_from_slice b :=
    match b with
    | [Byte.x00] => Some (MsgConnectResponse ConnectOk, 1%nat)
    | [Byte.x01] => Some (MsgConnectResponse (ConnectErr CekConnectionRefused "r"), 1%nat)
    | _ => None
    end
|}.
#[local] Instance demo_answer_codec_laws : BincodeLaws ServerMessage.
Proof.
  intros [[|k t]] b; [by intros [= <-]|].
  unfold encode_to_vec, demo_answer_codec, is_demo_refusal.
  destruct k; try done. case_bool_decide; [|done]. subst. by intros [= <-].
Qed.

Definition demo_socks_addr : SocksProtocol.Address := SocksProtocol.Domain [Byte.x61] 80.
Definition demo_app (rest : Bytes) : PipeStream :=
  mkPipe (connect_request [Byte.x00] Byte.x00 demo_socks_addr ++ rest) [].

(** The request arrives with the connect message; the destination answers and
    closes. *)
Definition demo_session : list RelayEvent :=
  [ClientStep AtoB EvPoll; ClientStep BtoA EvPoll;
   ClientStep AtoB (EvRead (Ok [Byte.x71])); ClientStep AtoB EvWritten;
   ServerStarts [Byte.x71]; ServerStep AtoB EvPoll; ServerStep BtoA EvPoll;
   ServerStep BtoA (EvRead (Ok [Byte.x72])); ServerStep BtoA EvWritten;
   ClientStep BtoA (EvRead (Ok [Byte.x72])); ClientStep BtoA EvWritten;
   ServerStep BtoA (EvRead (Ok [])); ServerStep AtoB EvPoll;
   ClientStep BtoA (EvRead (Ok [])); ClientStep AtoB EvPoll].
Definition demo_relayed : Relay := default relay_init (relay_run relay_init demo_session).

Definition demo_copied (_ : BufferedStream Bytes) (app : PipeStream)
    : Result (IoError * CopyBidirectionalStats) CopyBidirectionalStats * PipeStream :=
  (Ok (mkStats 1 1), mkPipe (drop 1 (incoming app)) (outgoing app ++ [Byte.x72])).
Definition demo_exchange : ServerStream.ExchangeEnv Bytes unit :=
  ServerStream.mkExchange (λ _ _, Ok tt) false (λ _ _, Ok (mkStats 0 1)).

Lemma socks_session_end_to_end_witness :
  let '(served, guard, f) :=
    ServerStream.handle_connect (F := MemFramed) true
      (λ _ _, Ok (SockV4 (mkSA4 v4_unspecified 1))) (λ _, Some (Ok tt)) demo_exchange
      (frame [Byte.x07] ++ [Byte.x71]) ServerStream.guard_default in
  ∃ res app',
    bidi_result (client demo_relayed) = Some res
    ∧ SocksServer.handle_connection
        (λ d, fst (open_bidirectional (F := MemFramed)
                     (Ok (frame [Byte.x00] ++ [Byte.x72] : Bytes)) d metrics_new))
        demo_copied (Err demo_refused) (Err demo_refused) (λ _, Err demo_refused) (mret tt)
        (demo_app [Byte.x71])
      = (match res with Ok _ => Ok tt | Err (e, _) => Err e end, app')
    ∧ outgoing app' = [] ++ connect_answer SocksProtocol.Succeeded ++ [Byte.x72].
Proof.
  assert (relay_run relay_init demo_session = Some demo_relayed) as Hrun
    by (vm_compute; reflexivity).
  assert (given (a_to_b (client demo_relayed)) = [Byte.x71]) as Hup
    by (vm_compute; reflexivity).
  assert (given (b_to_a (client demo_relayed)) = [Byte.x72]) as Hdown
    by (vm_compute; reflexivity).
  assert (given (b_to_a (server demo_relayed)) = [Byte.x72]) as Hsdown
    by (vm_compute; reflexivity).
  pose proof (socks_session_end_to_end (A := PipeStream) (S := Bytes) (F := MemFramed)
    (demo_app [Byte.x71]) [Byte.x00] Byte.x00 demo_socks_addr [Byte.x71]
    (frame [Byte.x00] ++ [Byte.x72]) (frame [Byte.x07] ++ [Byte.x71])
    (mkFramed [] (frame [Byte.x00] ++ [Byte.x72]) [[Byte.x07]]) [Byte.x07] [Byte.x00]
    metrics_new (λ _ _, Ok (SockV4 (mkSA4 v4_unspecified 1))) (λ _, Some (Ok tt))
    demo_exchange demo_copied (Err demo_refused) (Err demo_refused) (λ _, Err demo_refused)
    (mret tt) tt demo_session demo_relayed) as H.
  cbn zeta in H. rewrite Hup, Hdown, Hsdown in H.
  specialize (H ltac:(cbn; lia) ltac:(left) ltac:(repeat split; cbn; lia) eq_refl eq_refl
    ltac:(done) eq_refl eq_refl eq_refl ltac:(done) (λ _ _, eq_refl) Hrun eq_refl).
  destruct (ServerStream.handle_connect _ _ _ _ _ _) as [[served guard] f] eqn:Eh.
  assert (framed_written f = frame [Byte.x00]) as Hf
    by (vm_compute in Eh; injection Eh as _ _ <-; vm_compute; reflexivity).
  rewrite Hf in H. refine (proj1 (H eq_refl _ _)).
  - intros u app Happ. unfold demo_copied.
    split_and!; [vm_compute; reflexivity| |by rewrite Hdown].
    cbn [incoming]. rewrite Happ. vm_compute. reflexivity.
  - vm_compute in Eh. injection Eh as _ _ <-. split_and!; vm_compute; reflexivity.
Defined.

Lemma socks_connect_refused_witness :
  ∃ app',
    SocksServer.handle_connection
      (λ d, fst (open_bidirectional (F := MemFramed) (Ok (frame [Byte.x01] ++ [] : Bytes)) d
                   metrics_new))
      demo_copied (Err demo_refused) (Err demo_refused) (λ _, Err demo_refused) (mret tt)
      (demo_app []) = (Err (tunnelled_error demo_refused), app')
    ∧ outgoing app' = [] ++ connect_answer SocksProtocol.ReplyConnectionRefused.
Proof.
  pose proof (socks_connect_refused (A := PipeStream) (S := Bytes) (F := MemFramed) (T := unit)
    (demo_app []) [Byte.x00] Byte.x00 demo_socks_addr [] (frame [Byte.x01] ++ [])
    (frame [Byte.x07] ++ []) (mkFramed [] (frame [Byte.x01] ++ []) [[Byte.x07]])
    [Byte.x07] [Byte.x01] [] [] metrics_new (λ _ _, Ok (SockV4 (mkSA4 v4_unspecified 1)))
    (λ _, Some (Err demo_refused)) demo_exchange demo_copied (Err demo_refused)
    (Err demo_refused) (λ _, Err demo_refused) (mret tt) demo_refused ltac:(cbn; lia)
    ltac:(left) ltac:(repeat split; cbn; lia) eq_refl eq_refl ltac:(done) eq_refl eq_refl
    eq_refl eq_refl ltac:(done) (λ _ _, eq_refl)) as H.
  destruct (ServerStream.handle_connect _ _ _ _ _ _) as [[served guard] f] eqn:Eh.
  assert (framed_written f = frame [Byte.x01]) as Hf
    by (vm_compute in Eh; injection Eh as _ _ <-; vm_compute; reflexivity).
  rewrite Hf in H. exact (proj2 (proj2 (H eq_refl))).
Defined.
