(* ===== verification/TestKit.v ===== *)
(** Assertions for the repository's own unit tests. The files [...Tests.v]
    translate the tests of the modelled functions, one definition per test, with
    the inputs and the assertions of the source; each test evaluates to [true] in
    the kernel. Tests of what is not modelled (the JSON parser, the packets that
    [etherparse] builds, the serializer's bytes, threads, timers, live name
    lookups) are left out. *)

From S2P Require Import Prelude Std.

#[local] Open Scope Z_scope.

(** [assert_eq!]. *)
Definition assert_eq {A} `{EqDecision A} (left right : A) : bool := bool_decide (left = right).

(** [unwrap], then further assertions on the value. *)
Definition unwrap_and {E A} (r : Result E A) (k : A → bool) : bool :=
  match r with Ok a => k a | Err _ => false end.

(** [unwrap_err], then further assertions on the error. *)
Definition unwrap_err_and {E A} (r : Result E A) (k : E → bool) : bool :=
  match r with Ok _ => false | Err e => k e end.

(** [str::contains]. *)
Definition contains (needle haystack : string) : bool :=
  match String.index 0 needle haystack with Some _ => true | None => false end.

(** The test fails unless all its assertions hold. *)
Definition all (assertions : list bool) : bool := forallb id assertions.

(** [Ipv4Addr::new], [Ipv6Addr::new] and [Ipv6Addr::LOCALHOST]. *)
Definition v4_new (a b c d : Z) : Ipv4Addr := mkIpv4 [# z2b a; z2b b; z2b c; z2b d].
Definition v6_new (a b c d e f g h : Z) : Ipv6Addr :=
  mkIpv6 [# z2b (a / 256); z2b a; z2b (b / 256); z2b b; z2b (c / 256); z2b c;
            z2b (d / 256); z2b d; z2b (e / 256); z2b e; z2b (f / 256); z2b f;
            z2b (g / 256); z2b g; z2b (h / 256); z2b h].
Definition v6_localhost : Ipv6Addr := v6_new 0 0 0 0 0 0 0 1.

Definition v4_sock (a b c d port : Z) : SocketAddrV4 := mkSA4 (v4_new a b c d) port.

(** [io::Error::new] with an empty text. *)
Definition error_of (k : ErrorKind) : IoError := mkIoError k "".
