(* ===== verification/ProtocolTests.v ===== *)
(** The unit tests of crates/ombrac: protocol.rs, reassembly.rs, codec.rs and
    metrics.rs. *)

From S2P Require Import Prelude Std Parse Protocol AddressText Reassembly Metrics Stream TestKit.

#[local] Open Scope Z_scope.

(** ** [Address::try_from(&str)] *)

Definition test_address_try_from_ipv4 : bool :=
  unwrap_and (address_try_from (bytes_of "1.2.3.4:80")) (λ addr,
    match addr with
    | SocketV4 a => assert_eq (sa4_ip a) (v4_new 1 2 3 4) && assert_eq (sa4_port a) 80
    | _ => false
    end).

Definition test_address_try_from_ipv6 : bool :=
  unwrap_and (address_try_from (bytes_of "[::1]:443")) (λ addr,
    match addr with
    | SocketV6 a => assert_eq (sa6_ip a) v6_localhost && assert_eq (sa6_port a) 443
    | _ => false
    end).

Definition test_address_try_from_domain : bool :=
  unwrap_and (address_try_from (bytes_of "example.com:8080")) (λ addr,
    match addr with
    | Domain bytes port => assert_eq bytes (bytes_of "example.com") && assert_eq port 8080
    | _ => false
    end).

Definition test_address_try_from_empty_string : bool :=
  unwrap_err_and (address_try_from (bytes_of "")) (λ err, assert_eq (kind err) InvalidInput).

Definition test_address_try_from_empty_domain : bool :=
  unwrap_err_and (address_try_from (bytes_of ":80")) (λ err,
    assert_eq (kind err) InvalidInput && contains "empty" (msg err)).

Definition test_address_try_from_domain_too_long : bool :=
  let long_domain := replicate (MAX_DOMAIN_LENGTH + 1) Byte.x61 ++ bytes_of ":80" in
  unwrap_err_and (address_try_from long_domain) (λ err,
    assert_eq (kind err) InvalidInput && contains "too long" (msg err)).

Definition test_address_try_from_invalid_port : bool :=
  unwrap_err_and (address_try_from (bytes_of "example.com:notaport")) (λ err,
    assert_eq (kind err) InvalidInput).

Definition test_address_try_from_port_overflow : bool :=
  unwrap_err_and (address_try_from (bytes_of "example.com:65536")) (λ err,
    assert_eq (kind err) InvalidInput).

Lemma address_try_from_tests :
  all [test_address_try_from_ipv4; test_address_try_from_ipv6;
       test_address_try_from_domain; test_address_try_from_empty_string;
       test_address_try_from_empty_domain; test_address_try_from_domain_too_long;
       test_address_try_from_invalid_port; test_address_try_from_port_overflow] = true.
Proof. vm_compute. reflexivity. Qed.

(** ** [Address::to_socket_addr] *)

(** The lookups of these tests never happen. *)
Definition no_lookup (domain : Bytes) (port : Z) : io_result (list SocketAddr) :=
  Err (io_other "lookup").

Definition test_address_to_socket_addr_ipv4 : bool :=
  unwrap_and (to_socket_addr no_lookup (SocketV4 (v4_sock 127 0 0 1 9999))) (λ result,
    assert_eq (socket_addr_port result) 9999
    && match socket_addr_ip result with
       | IpV4 ip => assert_eq (display_ipv4 ip) (bytes_of "127.0.0.1")
       | IpV6 _ => false
       end).

Definition test_address_to_socket_addr_ipv6 : bool :=
  unwrap_and (to_socket_addr no_lookup (SocketV6 (mkSA6 v6_localhost 443 0 0))) (λ result,
    assert_eq (socket_addr_port result) 443).

Definition test_address_to_socket_addr_invalid_utf8 : bool :=
  unwrap_err_and (to_socket_addr no_lookup (Domain [Byte.xff; Byte.xfe] 80)) (λ err,
    assert_eq (kind err) InvalidInput && contains "utf-8" (msg err)).

Lemma address_to_socket_addr_tests :
  all [test_address_to_socket_addr_ipv4; test_address_to_socket_addr_ipv6;
       test_address_to_socket_addr_invalid_utf8] = true.
Proof. vm_compute. reflexivity. Qed.

(** ** [encode] and [decode] *)

Section codec.
Context `{!Bincode ClientHello} `{!BincodeLaws ClientHello}.
Context `{!Bincode ClientConnect} `{!BincodeLaws ClientConnect}.
Context `{!Bincode UdpPacket} `{!BincodeLaws UdpPacket}.
Context `{!Bincode ClientMessage} `{!BincodeLaws ClientMessage}.
Context `{!Bincode ServerMessage} `{!BincodeLaws ServerMessage}.

(** What each of these tests does with a value. *)
Definition round_trips {T} `{Bincode T} (original : T) : Prop :=
  ∀ bytes, encode original = Ok bytes → decode bytes = Ok original.

Definition test_encode_decode_client_hello : Prop :=
  round_trips (mkHello PROTOCOL_VERSION (vreplicate 32 Byte.xab) (bytes_of "opts")).

Definition test_encode_decode_client_hello_empty_options : Prop :=
  round_trips (mkHello 1 (vreplicate 32 Byte.x00) []).

Definition test_encode_decode_client_connect_ipv4 : Prop :=
  round_trips (mkConnect (SocketV4 (v4_sock 10 0 0 1 443))).

Definition test_encode_decode_client_connect_domain : Prop :=
  round_trips (mkConnect (Domain (bytes_of "example.com") 8080)).

Definition test_encode_decode_udp_packet_unfragmented : Prop :=
  round_trips (Unfragmented 42 (SocketV4 (v4_sock 127 0 0 1 53)) (bytes_of "hello")).

Definition test_encode_decode_udp_packet_fragmented : Prop :=
  round_trips (Fragmented 1 7 1 3 None (bytes_of "chunk")).

Definition test_client_message_hello_roundtrip : Prop :=
  round_trips (MsgHello (mkHello PROTOCOL_VERSION (vreplicate 32 Byte.x01) [])).

Definition test_server_message_connect_response_roundtrip : Prop :=
  round_trips (MsgConnectResponse ConnectOk)
  ∧ round_trips (MsgConnectResponse (ConnectErr CekTimedOut "timed out")).

(** They hold of every lawful serializer. *)
Lemma codec_tests :
  test_encode_decode_client_hello ∧ test_encode_decode_client_hello_empty_options
  ∧ test_encode_decode_client_connect_ipv4 ∧ test_encode_decode_client_connect_domain
  ∧ test_encode_decode_udp_packet_unfragmented
  ∧ test_encode_decode_udp_packet_fragmented ∧ test_client_message_hello_roundtrip
  ∧ test_server_message_connect_response_roundtrip.
Proof.
  unfold test_server_message_connect_response_roundtrip.
  split_and!; intros bytes; by apply decode_encode_same.
Qed.
End codec.

(** ** [ConnectErrorKind::from_io_error] *)

#[local] Instance ConnectErrorKind_eq_dec : EqDecision ConnectErrorKind.
Proof. solve_decision. Defined.

Definition test_connect_error_kind_connection_refused : bool :=
  assert_eq (from_io_error (error_of ConnectionRefused)) CekConnectionRefused.

Definition test_connect_error_kind_network_unreachable : bool :=
  assert_eq (from_io_error (error_of NetworkUnreachable)) CekNetworkUnreachable.

Definition test_connect_error_kind_host_unreachable : bool :=
  assert_eq (from_io_error (error_of HostUnreachable)) CekHostUnreachable.

Definition test_connect_error_kind_timed_out : bool :=
  assert_eq (from_io_error (error_of TimedOut)) CekTimedOut.

Definition test_connect_error_kind_other_not_found : bool :=
  assert_eq (from_io_error (mkIoError NotFound "dns")) CekOther.

Definition test_connect_error_kind_other_permission_denied : bool :=
  assert_eq (from_io_error (error_of PermissionDenied)) CekOther.

Lemma connect_error_kind_tests :
  all [test_connect_error_kind_connection_refused;
       test_connect_error_kind_network_unreachable;
       test_connect_error_kind_host_unreachable; test_connect_error_kind_timed_out;
       test_connect_error_kind_other_not_found;
       test_connect_error_kind_other_permission_denied] = true.
Proof. vm_compute. reflexivity. Qed.

(** ** [UdpPacket::split_packet] *)

Definition make_ipv4_addr : Address := SocketV4 (v4_sock 127 0 0 1 5000).

(** The fragments of a call that does not panic. *)
Definition split_and (o : option (list UdpPacket)) (k : list UdpPacket → bool) : bool :=
  match o with Some frags => k frags | None => false end.

Definition test_split_packet_basic : bool :=
  split_and (split_packet 1 make_ipv4_addr (replicate 300 Byte.x00) 100 42) (λ frags,
    assert_eq (length frags) 3%nat
    && all (imap (λ i frag,
        match frag with
        | Fragmented session_id fragment_id fragment_index fragment_count address _ =>
          all [assert_eq session_id 1; assert_eq fragment_id 42;
               assert_eq fragment_index (as_u16 (Z.of_nat i)); assert_eq fragment_count 3;
               if Nat.eqb i 0 then bool_decide (is_Some address)
               else bool_decide (address = None)]
        | _ => false
        end) frags)).

Definition test_split_packet_single_fragment : bool :=
  split_and (split_packet 5 make_ipv4_addr (replicate 50 Byte.x01) 100 1) (λ frags,
    assert_eq (length frags) 1%nat
    && match frags with
       | Fragmented _ _ fragment_index fragment_count address _ :: _ =>
         all [assert_eq fragment_index 0; assert_eq fragment_count 1;
              bool_decide (is_Some address)]
       | _ => false
       end).

Definition test_split_packet_exact_boundary : bool :=
  split_and (split_packet 2 make_ipv4_addr (replicate 100 Byte.x00) 100 0) (λ frags,
    assert_eq (length frags) 1%nat).

Definition test_split_packet_one_byte_over : bool :=
  split_and (split_packet 3 make_ipv4_addr (replicate 101 Byte.x07) 100 0) (λ frags,
    assert_eq (length frags) 2%nat
    && match frags with
       | _ :: Fragmented _ _ _ _ _ data :: _ => assert_eq (length data) 1%nat
       | _ => false
       end).

Definition test_split_packet_data_integrity : bool :=
  let original := (λ i, z2b (Z.of_nat i mod 256)) <$> seq 0 500 in
  split_and (split_packet 9 make_ipv4_addr original 100 5) (λ frags,
    let reassembled := frags ≫= λ f,
      match f with Fragmented _ _ _ _ _ data => data | Unfragmented _ _ _ => [] end in
    forallb (λ f, match f with Fragmented _ _ _ _ _ _ => true | _ => false end) frags
    && assert_eq reassembled original).

Definition test_fragmented_overhead_value : bool := assert_eq fragmented_overhead 277%nat.

Lemma split_packet_tests :
  all [test_split_packet_basic; test_split_packet_single_fragment;
       test_split_packet_exact_boundary; test_split_packet_one_byte_over;
       test_split_packet_data_integrity; test_fragmented_overhead_value] = true.
Proof. vm_compute. reflexivity. Qed.

(** ** [Display for Address] *)

Definition test_address_display_ipv4 : bool :=
  assert_eq (address_display (SocketV4 (v4_sock 127 0 0 1 8080))) (bytes_of "127.0.0.1:8080").

Definition test_address_display_domain : bool :=
  assert_eq (address_display (Domain (bytes_of "example.com") 443))
    (bytes_of "example.com:443").

Lemma address_display_tests :
  all [test_address_display_ipv4; test_address_display_domain] = true.
Proof. vm_compute. reflexivity. Qed.

(** ** Reassembly *)

Definition create_test_fragments (session_id fragment_id : Z) (data : Bytes)
    (chunk_size : nat) : list UdpPacket :=
  let address := SocketV4 (v4_sock 127 0 0 1 8080) in
  let data_chunks := chunks chunk_size data in
  let fragment_count := as_u16 (Z.of_nat (length data_chunks)) in
  imap (λ i chunk,
    let fragment_index := as_u16 (Z.of_nat i) in
    Fragmented session_id fragment_id fragment_index fragment_count
      (if fragment_index =? 0 then Some address else None) chunk) data_chunks.

(** [result = reassembler.process(fragment).await.unwrap()] for each fragment: the
    last result. *)
Definition process_last (fragments : list UdpPacket) : option (Z * Address * Bytes) :=
  default None (last (fst (process_all reassembler_new (Packet <$> fragments)))).

(** The last result that was not [None]. *)
Definition process_last_some (fragments : list UdpPacket) : option (Z * Address * Bytes) :=
  last (omap id (fst (process_all reassembler_new (Packet <$> fragments)))).

Definition result_is (result : option (Z * Address * Bytes)) (session_id : Z) (data : Bytes)
    : bool :=
  match result with
  | Some (sid, _, d) => assert_eq sid session_id && assert_eq d data
  | None => false
  end.

(** [slice::swap]. *)
Definition swap {A} (i j : nat) (l : list A) : list A :=
  match l !! i, l !! j with
  | Some x, Some y => <[i := y]> (<[j := x]> l)
  | _, _ => l
  end.

Definition test_reassembly_in_order : bool :=
  let original_data := replicate 1024 Byte.x00 in
  let fragments := create_test_fragments 1 1 original_data 256 in
  assert_eq (length fragments) 4%nat && result_is (process_last fragments) 1 original_data.

Definition test_reassembly_out_of_order : bool :=
  let original_data := replicate 1024 Byte.x01 in
  let fragments := swap 1 3 (swap 0 2 (create_test_fragments 2 2 original_data 256)) in
  result_is (process_last fragments) 2 original_data.

Definition test_reassembly_with_duplicates : bool :=
  let original_data := replicate 512 Byte.x02 in
  let fragments := create_test_fragments 3 3 original_data 256 in
  let fragments := fragments ++ take 1 fragments in
  let fragments := fragments ++ take 1 (drop 1 fragments) in
  result_is (process_last_some fragments) 3 original_data.

Definition test_incomplete_reassembly : bool :=
  let original_data := replicate 1024 Byte.x03 in
  let fragments := create_test_fragments 4 4 original_data 256 in
  bool_decide (process_last (take (length fragments - 1) fragments) = None).

Definition test_malformed_first_fragment_no_address : bool :=
  let original_data := replicate 512 Byte.x04 in
  let fragments := create_test_fragments 5 5 original_data 256 in
  let fragments :=
    match fragments with
    | Fragmented s f i c _ d :: rest => Fragmented s f i c None d :: rest
    | _ => fragments
    end in
  bool_decide (process_last fragments = None).

Lemma reassembly_tests :
  all [test_reassembly_in_order; test_reassembly_out_of_order;
       test_reassembly_with_duplicates; test_incomplete_reassembly;
       test_malformed_first_fragment_no_address] = true.
Proof. vm_compute. reflexivity. Qed.

(** ** The counters *)

(** Two handles on the same counters are one state: a clone of [Metrics] is
    another name for it. *)
Definition default_snapshot_is_all_zero : bool :=
  assert_eq (snapshot metrics_new) (mkCounters 0 0 0 0 0 0 0 0 0 0 0 0 0 0).

Definition counters_are_independent_per_instance : bool :=
  let a := metrics_new in
  let b := metrics_new in
  let a := fetch_add StreamsOpened 5 a in
  assert_eq (streams_opened (snapshot a)) 5 && assert_eq (streams_opened (snapshot b)) 0.

Definition clone_shares_storage : bool :=
  let shared := metrics_new in
  let shared := fetch_add StreamsOpened 3 shared in
  let shared := fetch_add StreamsOpened 4 shared in
  assert_eq (streams_opened (snapshot shared)) 7
  && assert_eq (streams_opened (snapshot shared)) 7.

Definition snapshot_captures_all_fields : bool :=
  let c := metrics_new in
  let c := fetch_add ConnectionsAccepted 1 c in
  let c := fetch_add ConnectionsRejected 2 c in
  let c := fetch_add ConnectionsAuthFailed 3 c in
  let c := fetch_add StreamsOpened 4 c in
  let c := fetch_add StreamsClosed 5 c in
  let c := fetch_add StreamsFailed 6 c in
  let c := fetch_add UdpSessionsOpened 7 c in
  let c := fetch_add UdpSessionsClosed 8 c in
  let c := fetch_add BytesRx 9 c in
  let c := fetch_add BytesTx 10 c in
  let c := fetch_add ReassembliesCompleted 11 c in
  let c := fetch_add ReassemblyDrops 12 c in
  let c := fetch_add ReconnectAttempts 13 c in
  let c := fetch_add ReconnectSucceeded 14 c in
  let s := snapshot c in
  all [assert_eq (connections_accepted s) 1; assert_eq (connections_rejected s) 2;
       assert_eq (connections_auth_failed s) 3; assert_eq (streams_opened s) 4;
       assert_eq (streams_closed s) 5; assert_eq (streams_failed s) 6;
       assert_eq (udp_sessions_opened s) 7; assert_eq (udp_sessions_closed s) 8;
       assert_eq (bytes_rx s) 9; assert_eq (bytes_tx s) 10;
       assert_eq (reassemblies_completed s) 11; assert_eq (reassembly_drops s) 12;
       assert_eq (reconnect_attempts s) 13; assert_eq (reconnect_succeeded s) 14].

Lemma metrics_tests :
  all [default_snapshot_is_all_zero; counters_are_independent_per_instance;
       clone_shares_storage; snapshot_captures_all_fields] = true.
Proof. vm_compute. reflexivity. Qed.

(** ** The length codec *)

(** Encoding appends a frame to the buffer; decoding is [MemFramed]'s on what the
    buffer holds. *)
Definition codec_decode (buf : Bytes) : option (io_result Bytes) * Bytes :=
  let '(r, f) := framed_next (mkFramed buf [] []) in (r, mf_read f).

Definition codec_encode (payload buf : Bytes) : Bytes := buf ++ frame payload.

Definition decoded_is (r : option (io_result Bytes)) (payload : Bytes) : bool :=
  match r with Some (Ok p) => assert_eq p payload | _ => false end.

Definition test_length_codec_encode_decode_roundtrip : bool :=
  decoded_is (fst (codec_decode (codec_encode (bytes_of "hello world") [])))
    (bytes_of "hello world").

Definition test_length_codec_encode_decode_empty_frame : bool :=
  decoded_is (fst (codec_decode (codec_encode [] []))) [].

Definition test_length_codec_partial_data_returns_none : bool :=
  bool_decide (fst (codec_decode [Byte.x00; Byte.x00]) = None).

Definition test_length_codec_multi_frame_sequence : bool :=
  let buf := codec_encode (bytes_of "second") (codec_encode (bytes_of "first") []) in
  let '(first, buf) := codec_decode buf in
  let '(second, _) := codec_decode buf in
  decoded_is first (bytes_of "first") && decoded_is second (bytes_of "second").

Definition test_length_codec_frame_at_exact_max_size : bool :=
  let payload := replicate (Z.to_nat MAX_CONTROL_FRAME_LENGTH) Byte.x00 in
  match fst (codec_decode (codec_encode payload [])) with
  | Some (Ok decoded) => assert_eq (Z.of_nat (length decoded)) MAX_CONTROL_FRAME_LENGTH
  | _ => false
  end.

Definition test_length_codec_frame_exceeds_max_size_rejected : bool :=
  let n := as_u32 (MAX_CONTROL_FRAME_LENGTH + 1) in
  let buf := [z2b (n / 2 ^ 24); z2b (n / 2 ^ 16); z2b (n / 2 ^ 8); z2b n]
             ++ replicate 16 Byte.x00 in
  match fst (codec_decode buf) with Some (Err _) => true | _ => false end.

Definition test_length_codec_length_prefix_is_4_bytes : bool :=
  assert_eq (length (codec_encode (replicate 16 Byte.x63) [])) (LENGTH_PREFIX_SIZE + 16)%nat.

Lemma length_codec_tests :
  all [test_length_codec_encode_decode_roundtrip;
       test_length_codec_encode_decode_empty_frame;
       test_length_codec_partial_data_returns_none;
       test_length_codec_multi_frame_sequence; test_length_codec_frame_at_exact_max_size;
       test_length_codec_frame_exceeds_max_size_rejected;
       test_length_codec_length_prefix_is_4_bytes] = true.
Proof. vm_compute. reflexivity. Qed.
