(* ===== verification/ClientTests.v ===== *)
(** The unit tests of crates/ombrac-client: endpoint/socks/protocol.rs,
    connection/mod.rs and config/mod.rs. *)

From S2P Require Import Prelude Std Parse Stream SocksProtocol AddressText TestKit.
From S2P Require ClientConfig ClientConnection.

#[local] Open Scope Z_scope.

(** ** SOCKS5 *)

Module Socks.

(** [Cursor::new]: a stream that ends after the bytes. *)
Definition cursor (bytes : Bytes) : PipeStream := mkPipe bytes [].

#[local] Instance Request_eq_dec : EqDecision Request.
Proof. solve_decision. Defined.
#[local] Instance Reply_eq_dec : EqDecision Reply.
Proof. solve_decision. Defined.

Definition method_constants : bool :=
  assert_eq NO_AUTHENTICATION Byte.x00 && assert_eq NO_ACCEPTABLE_METHOD Byte.xff.

(** What the three round trips do with an address. *)
Definition round_trip (addr : Address) (bytes : Bytes) : bool :=
  assert_eq (length bytes) (encoded_len addr)
  && unwrap_and (fst (read (cursor bytes))) (λ a, assert_eq a addr)
  && unwrap_and (fst (from_buf bytes)) (λ a, assert_eq a addr).

Definition address_ipv4_round_trip : bool :=
  let addr := IPv4 (v4_sock 127 0 0 1 8080) in
  let bytes := encode addr [] in
  round_trip addr bytes && assert_eq (head bytes) (Some ATYP_IPV4).

Definition address_ipv6_round_trip : bool :=
  let addr := IPv6 (mkSA6 (v6_new 0x2001 0xdb8 0 0 0 0 0 1) 443 0 0) in
  let bytes := encode addr [] in
  round_trip addr bytes && assert_eq (head bytes) (Some ATYP_IPV6).

Definition address_domain_round_trip : bool :=
  let addr := Domain (bytes_of "example.com") 8080 in
  let bytes := encode addr [] in
  round_trip addr bytes && assert_eq (take 2 bytes) [ATYP_DOMAIN; z2b 11].

Definition address_read_rejects_invalid_atyp : bool :=
  negb (is_ok (fst (read (cursor [Byte.x02])))).

Definition address_read_rejects_empty_domain : bool :=
  negb (is_ok (fst (read (cursor [ATYP_DOMAIN; Byte.x00])))).

Definition address_from_buf_rejects_truncated_ipv4 : bool :=
  negb (is_ok (fst (from_buf [ATYP_IPV4; z2b 192; z2b 168]))).

Definition address_from_buf_rejects_truncated_domain : bool :=
  negb (is_ok (fst (from_buf ([ATYP_DOMAIN; Byte.x05] ++ bytes_of "abc")))).

Definition address_ombrac_conversion_round_trip : bool :=
  let cases :=
    [IPv4 (v4_sock 10 0 0 1 80); IPv6 (mkSA6 v6_localhost 443 0 0);
     Domain (bytes_of "example.org") 1234] in
  forallb (λ addr, unwrap_and (try_from (to_ombrac addr)) (λ back, assert_eq addr back)) cases.

Definition address_display : bool :=
  assert_eq (SocksProtocol.address_display (IPv4 (v4_sock 127 0 0 1 8080)))
    (bytes_of "127.0.0.1:8080")
  && assert_eq (SocksProtocol.address_display (Domain (bytes_of "example.com") 80))
       (bytes_of "example.com:80").

Definition request_connect_ipv4 : bool :=
  let buf := [VERSION; CMD_CONNECT; Byte.x00; ATYP_IPV4; z2b 192; z2b 168; z2b 1; z2b 1]
             ++ u16_to_be 80 in
  unwrap_and (fst (request_read (cursor buf))) (λ request,
    assert_eq request (Connect (IPv4 (v4_sock 192 168 1 1 80)))).

Definition request_associate_domain : bool :=
  let buf := [VERSION; CMD_ASSOCIATE; Byte.x00; ATYP_DOMAIN; z2b 11]
             ++ bytes_of "example.com" ++ u16_to_be 8080 in
  unwrap_and (fst (request_read (cursor buf))) (λ request,
    assert_eq request (Associate (Domain (bytes_of "example.com") 8080))).

Definition request_rejects_bad_version : bool :=
  negb (is_ok (fst (request_read (cursor
    [Byte.x04; CMD_CONNECT; Byte.x00; ATYP_IPV4; z2b 1; z2b 2; z2b 3; z2b 4; z2b 0; z2b 80])))).

Definition request_rejects_bad_command : bool :=
  negb (is_ok (fst (request_read (cursor
    [VERSION; Byte.xee; Byte.x00; ATYP_IPV4; z2b 1; z2b 2; z2b 3; z2b 4; z2b 0; z2b 80])))).

Definition reply_encoding : bool :=
  let bytes := encode_reply Succeeded (IPv4 (v4_sock 127 0 0 1 1080)) in
  assert_eq (take 10 bytes)
    ([VERSION; Byte.x00; Byte.x00; ATYP_IPV4; z2b 127; z2b 0; z2b 0; z2b 1] ++ u16_to_be 1080).

Definition reply_from_connect_error : bool :=
  all [assert_eq (from_connect_error (error_of ConnectionRefused)) ReplyConnectionRefused;
       assert_eq (from_connect_error (error_of TimedOut)) TtlExpired;
       assert_eq (from_connect_error (io_other "boom")) GeneralFailure].

Definition udp_packet_round_trip : bool :=
  let address := IPv4 (v4_sock 8 8 8 8 53) in
  let payload := bytes_of "hello world" in
  let encoded := encode_unfragmented address payload in
  assert_eq (take 3 encoded) [Byte.x00; Byte.x00; Byte.x00]
  && unwrap_and (fst (udp_from_buf encoded)) (λ parsed,
       assert_eq parsed (mkUdp Byte.x00 address payload)).

Definition udp_packet_rejects_short_header : bool :=
  negb (is_ok (fst (udp_from_buf [Byte.x00; Byte.x00]))).

Definition udp_packet_preserves_frag : bool :=
  let address := IPv4 (v4_sock 1 1 1 1 53) in
  let raw := encode address [Byte.x00; Byte.x00; Byte.x07] ++ bytes_of "data" in
  unwrap_and (fst (udp_from_buf raw)) (λ parsed,
    assert_eq (frag parsed) Byte.x07 && assert_eq (data parsed) (bytes_of "data")).

Lemma socks_tests :
  all [method_constants; address_ipv4_round_trip; address_ipv6_round_trip;
       address_domain_round_trip; address_read_rejects_invalid_atyp;
       address_read_rejects_empty_domain; address_from_buf_rejects_truncated_ipv4;
       address_from_buf_rejects_truncated_domain; address_ombrac_conversion_round_trip;
       address_display; request_connect_ipv4; request_associate_domain;
       request_rejects_bad_version; request_rejects_bad_command; reply_encoding;
       reply_from_connect_error; udp_packet_round_trip; udp_packet_rejects_short_header;
       udp_packet_preserves_frag] = true.
Proof. vm_compute. reflexivity. Qed.
End Socks.

(** ** The connection *)

Module Connection.
Import ClientConnection.

Definition is_connection_error_recognizes_all_transient_kinds : bool :=
  let kinds := [ConnectionReset; ConnectionAborted; BrokenPipe; NotConnected; TimedOut;
                UnexpectedEof; NetworkUnreachable; NetworkDown] in
  forallb (λ k, is_connection_error (error_of k)) kinds.

Definition is_connection_error_ignores_application_errors : bool :=
  let kinds := [PermissionDenied; InvalidData; InvalidInput; NotFound; WouldBlock] in
  forallb (λ k, negb (is_connection_error (error_of k))) kinds.

(** For the exact product and the first, a middle and the last nanosecond of the
    clock; the test takes one that happens to be. *)
Definition next_backoff_doubles_with_jitter_and_caps : bool :=
  forallb (λ nanos,
    let after_one := next_backoff exact_scale nanos INITIAL_RECONNECT_BACKOFF in
    let result := next_backoff exact_scale nanos (secs 10000) in
    all [1600 * 10 ^ 6 <=? after_one; after_one <? 2400 * 10 ^ 6;
         result <=? MAX_RECONNECT_BACKOFF])
    [0; 500000000; 999999999].

Lemma connection_tests :
  all [is_connection_error_recognizes_all_transient_kinds;
       is_connection_error_ignores_application_errors;
       next_backoff_doubles_with_jitter_and_caps] = true.
Proof. vm_compute. reflexivity. Qed.
End Connection.

(** ** The configuration *)

Module Config.
Import ClientConfig.

#[local] Instance TlsMode_eq_dec : EqDecision TlsMode.
Proof. solve_decision. Defined.

(** A JSON text is given as the value that is read from it: an absent member is
    [None]. *)
Definition json_of (secret server : option string) (endpoint : option EndpointConfig)
    (transport : option TransportConfig) : JsonConfig :=
  mkJson (bytes_of <$> secret) (bytes_of <$> server) None endpoint transport None.

Definition transport_empty : TransportConfig :=
  mkTransport None None None None None None None None None None None None None.

Definition minimal_json : JsonConfig :=
  json_of (Some "topsecret") (Some "example.com:443") None None.

Definition load_from_json_with_only_required_fields_uses_defaults : bool :=
  unwrap_and (load_from_json minimal_json) (λ cfg,
    all [assert_eq (secret cfg) (bytes_of "topsecret");
         assert_eq (server cfg) (bytes_of "example.com:443");
         assert_eq (tls_mode (transport cfg)) (Some Tls);
         assert_eq (idle_timeout (transport cfg)) (Some 30000);
         assert_eq (keep_alive (transport cfg)) (Some 8000);
         assert_eq (max_streams (transport cfg)) (Some 100);
         assert_eq (zero_rtt (transport cfg)) (Some false)]).

Definition load_from_json_missing_secret_fails : bool :=
  unwrap_err_and (load_from_json (json_of None (Some "example.com:443") None None))
    (contains "secret").

Definition load_from_json_missing_server_fails : bool :=
  unwrap_err_and (load_from_json (json_of (Some "s") None None None)) (contains "server").

Definition load_from_json_overrides_transport_defaults : bool :=
  let json := json_of (Some "k") (Some "1.2.3.4:443") None
    (Some (mkTransport None None (Some Insecure) None None None (Some true) None None None
             (Some 60000) (Some 4000) (Some 200))) in
  unwrap_and (load_from_json json) (λ cfg,
    all [assert_eq (tls_mode (transport cfg)) (Some Insecure);
         assert_eq (idle_timeout (transport cfg)) (Some 60000);
         assert_eq (keep_alive (transport cfg)) (Some 4000);
         assert_eq (max_streams (transport cfg)) (Some 200);
         assert_eq (zero_rtt (transport cfg)) (Some true)]).

(** [TransportConfig { idle_timeout, keep_alive, ..Default::default() }]. *)
Definition transport_with (idle keep : option Z) : TransportConfig :=
  let d := transport_default in
  mkTransport (bind d) (server_name d) (tls_mode d) (ca_cert d) (client_cert d)
    (client_key d) (zero_rtt d) (alpn_protocols d) (congestion d) (cwnd_init d) idle keep
    (max_streams d).

Definition cli_overrides_json_in_merge_order : bool :=
  let json := json_of (Some "from_json") (Some "from_json:1") None
                (Some (transport_with (Some 11111) (Some 2222))) in
  let cli := mkCli (Some (bytes_of "from_cli")) None None endpoint_default
               (transport_with (Some 99999) None) logging_default in
  unwrap_and (build (merge_cli (merge_json builder_new json) cli)) (λ cfg,
    all [assert_eq (secret cfg) (bytes_of "from_cli");
         assert_eq (server cfg) (bytes_of "from_json:1");
         assert_eq (idle_timeout (transport cfg)) (Some 99999);
         assert_eq (keep_alive (transport cfg)) (Some 2222)]).

Definition endpoint_config_defaults_are_empty : bool :=
  bool_decide (socks endpoint_default = None) && bool_decide (http endpoint_default = None).

Definition config_builder_build_fails_without_required_fields : bool :=
  unwrap_err_and (build builder_new) (contains "secret").

Definition endpoint_socks_address_parses_from_json : bool :=
  let json := json_of (Some "k") (Some "s:1")
    (Some (mkEndpoint None (parse_socket_addr (bytes_of "127.0.0.1:1080")) None)) None in
  unwrap_and (load_from_json json) (λ cfg,
    match socks (endpoint cfg) with
    | Some (SockV4 addr) => assert_eq (display_v4 addr) (bytes_of "127.0.0.1:1080")
    | _ => false
    end).

Lemma client_config_tests :
  all [load_from_json_with_only_required_fields_uses_defaults;
       load_from_json_missing_secret_fails; load_from_json_missing_server_fails;
       load_from_json_overrides_transport_defaults; cli_overrides_json_in_merge_order;
       endpoint_config_defaults_are_empty;
       config_builder_build_fails_without_required_fields;
       endpoint_socks_address_parses_from_json] = true.
Proof. vm_compute. reflexivity. Qed.
End Config.
