(* ===== verification/NetTests.v ===== *)
(** The unit tests of crates/ombrac-netstack: stack.rs, udp.rs and buffer.rs, on
    the packets and the header reader of NetStack.v. *)

From S2P Require Import Prelude Std Parse AddressText NetStack TestKit.
From S2P Require NetDevice NetDispatch.

#[local] Open Scope Z_scope.
#[local] Existing Instance demo_wire.
#[local] Existing Instance demo_builder.

Definition v4_any (a b c d port : Z) : SocketAddr := SockV4 (v4_sock a b c d port).
Definition v6_lo (port : Z) : SocketAddr := SockV6 (mkSA6 v6_localhost port 0 0).

(** A packet built as [PacketBuilder] does; [] where it fails. *)
Definition build_udp (src dst : SocketAddr) (payload : Bytes) : Packet :=
  match split_write 64 true (mkUdp payload src dst) with Ok p => p | Err _ => [] end.
Definition build_ipv4_tcp : Packet := demo_tcp_frame Byte.x01 Byte.x02 1000 80 Byte.x02.

Definition ip_text (ip : IpAddr) : Bytes :=
  match ip with IpV4 a => display_ipv4 a | IpV6 a => display_ipv6 a end.

Definition checked_and (packet : Packet) (k : IpPacket → bool) : bool :=
  match new_checked packet with Some pkt => k pkt | None => false end.

(** ** stack.rs *)

Definition ip_packet_v4_parsing : bool :=
  checked_and (build_udp (v4_any 10 0 0 1 1000) (v4_any 10 0 0 2 53) (bytes_of "hello"))
    (λ pkt, all [match pkt with PacketV4 _ => true | PacketV6 _ => false end;
       assert_eq (ip_text (src_addr pkt)) (bytes_of "10.0.0.1");
       assert_eq (ip_text (dst_addr pkt)) (bytes_of "10.0.0.2");
       assert_eq (protocol pkt) Udp]).

Definition ip_packet_v6_parsing : bool :=
  let src := SockV6 (mkSA6 (v6_new 0x2001 0xdb08 0 0 0 0 0 1) 1234 0 0) in
  let dst := SockV6 (mkSA6 (v6_new 0x2001 0xdb08 0 0 0 0 0 2) 4321 0 0) in
  checked_and (build_udp src dst (bytes_of "x")) (λ pkt,
    match pkt with PacketV6 _ => true | PacketV4 _ => false end
    && assert_eq (protocol pkt) Udp).

Definition ip_packet_tcp_protocol : bool :=
  checked_and build_ipv4_tcp (λ pkt, assert_eq (protocol pkt) Tcp).

Definition ip_packet_rejects_garbage : bool :=
  bool_decide (new_checked [Byte.xff; Byte.xee; Byte.xdd; Byte.xcc] = None).

#[local] Instance IpPacket_eq_dec : EqDecision IpPacket.
Proof. solve_decision. Defined.

(** For a machine that does not know its parallelism and one with eight threads. *)
Definition netstack_config_defaults_are_sane : bool :=
  forallb (λ cores, let cfg := NetDispatch.config_default cores in
    all [assert_eq (NetDispatch.mtu cfg) 1500%nat;
         1024 <=? Z.of_nat (NetDispatch.channel_size cfg);
         4096 <=? Z.of_nat (NetDispatch.tcp_recv_buffer_size cfg);
         4096 <=? Z.of_nat (NetDispatch.tcp_send_buffer_size cfg);
         Nat.leb 1 (NetDispatch.number_workers cfg);
         assert_eq (NetDispatch.ipv4_prefix_len cfg) 24;
         assert_eq (NetDispatch.ipv6_prefix_len cfg) 64;
         assert_eq (NetDispatch.ip_ttl cfg) 64; 0 <? NetDispatch.tcp_timeout cfg])
    [None; Some 8%positive].

(** [SinkExt::send]: [poll_ready], [start_send], [poll_flush]. *)
Definition sink_send (item : Packet) (self : StackSplitSink) : io_result unit * StackSplitSink :=
  match poll_ready self with
  | (Ready (Ok _), self) =>
    match start_send item self with
    | (Ok _, self) =>
      match poll_flush self with
      | (Ready r, self) => (r, self)
      | (Pending, self) => (Err (io_other "pending"), self)
      end
    | (Err e, self) => (Err e, self)
    end
  | (Ready (Err e), self) => (Err e, self)
  | (Pending, self) => (Err (io_other "pending"), self)
  end.

Definition test_sink : StackSplitSink := sink_new (chan_new 8) (chan_new 8).

Definition split_sink_routes_udp_to_udp_channel : bool :=
  let raw := build_udp (v4_any 10 0 0 1 1000) (v4_any 10 0 0 2 53) (bytes_of "dns") in
  let '(r, sink) := sink_send raw test_sink in
  is_ok r && match fst (fst (chan_recv (udp_inbound sink))) with
             | Some got => negb (bool_decide (got = [])) | None => false end.

Definition split_sink_routes_tcp_to_tcp_channel : bool :=
  let '(r, sink) := sink_send build_ipv4_tcp test_sink in
  is_ok r && match fst (fst (chan_recv (tcp_inbound sink))) with
             | Some got => negb (bool_decide (got = [])) | None => false end.

Definition split_sink_ignores_empty_packet : bool :=
  let '(r, sink) := sink_send [] test_sink in
  all [is_ok r; bool_decide (fst (fst (chan_recv (udp_inbound sink))) = None);
       bool_decide (fst (fst (chan_recv (tcp_inbound sink))) = None)].

Definition split_sink_rejects_malformed_packet : bool :=
  negb (is_ok (fst (sink_send [Byte.x00; Byte.x01; Byte.x02; Byte.x03] test_sink))).

Lemma stack_tests :
  all [ip_packet_v4_parsing; ip_packet_v6_parsing; ip_packet_tcp_protocol;
       ip_packet_rejects_garbage; netstack_config_defaults_are_sane;
       split_sink_routes_udp_to_udp_channel; split_sink_routes_tcp_to_tcp_channel;
       split_sink_ignores_empty_packet; split_sink_rejects_malformed_packet] = true.
Proof. vm_compute. reflexivity. Qed.

(** ** udp.rs *)

(** [writer.send(pkt)], then the packet on the channel. *)
Definition sent_packet (packet : UdpPacket) (k : IpPacket → bool) : bool :=
  unwrap_and (split_write 64 true packet) (λ out, checked_and out k).

Definition udp_packet_from_tuple_constructs_correctly : bool :=
  let pkt := mkUdp (bytes_of "payload") (v4_any 10 0 0 1 1000) (v4_any 10 0 0 2 53) in
  all [assert_eq (data pkt) (bytes_of "payload"); assert_eq (src pkt) (v4_any 10 0 0 1 1000);
       assert_eq (dst pkt) (v4_any 10 0 0 2 53)].

Definition split_write_emits_ipv4_udp_frame : bool :=
  sent_packet (mkUdp (bytes_of "hello dns") (v4_any 10 0 0 1 5000) (v4_any 8 8 8 8 53))
    (λ ip, all [assert_eq (protocol ip) Udp;
       assert_eq (ip_text (src_addr ip)) (bytes_of "10.0.0.1");
       assert_eq (ip_text (dst_addr ip)) (bytes_of "8.8.8.8")]).

Definition split_write_emits_ipv6_udp_frame : bool :=
  sent_packet (mkUdp (bytes_of "ping") (v6_lo 1000) (v6_lo 53))
    (λ ip, assert_eq (protocol ip) Udp).

Definition split_write_rejects_mixed_address_families : bool :=
  unwrap_err_and (split_write 64 true
    (mkUdp (bytes_of "x") (v4_any 10 0 0 1 1000) (v6_lo 53)))
    (λ err, assert_eq (kind err) InvalidInput).

Definition split_read_extracts_udp_payload : bool :=
  let frame := build_udp (v4_any 10 0 0 1 2000) (v4_any 10 0 0 2 53) (bytes_of "query") in
  match fst (udp_recv [frame]) with
  | Some received =>
    all [assert_eq (data received) (bytes_of "query");
         assert_eq (socket_addr_port (src received)) 2000;
         assert_eq (socket_addr_port (dst received)) 53]
  | None => false
  end.

Definition split_read_returns_none_on_garbage : bool :=
  match fst (udp_recv [[Byte.xff; Byte.xff; Byte.xff]]) with
  | Some _ => false | None => true end.

Lemma udp_tests :
  all [udp_packet_from_tuple_constructs_correctly; split_write_emits_ipv4_udp_frame;
       split_write_emits_ipv6_udp_frame; split_write_rejects_mixed_address_families;
       split_read_extracts_udp_payload; split_read_returns_none_on_garbage] = true.
Proof. vm_compute. reflexivity. Qed.

(** ** buffer.rs *)

Module Pool.
Import NetDevice.

(** [BytesMut::reserve] that allocates no more than it has to. *)
#[local] Instance exact_reserve : Reserve := λ n b, Nat.max (cap b) (len b + n).

#[local] Instance exact_reserve_laws : ReserveLaws.
Proof. split; unfold reserve_cap, exact_reserve; intros n [l c]; cbn; lia. Qed.

Definition get_returns_buffer_with_at_least_capacity : bool :=
  let '(buf, _) := get 2048 (pool_new 8 1024) in
  Nat.leb 2048 (room buf) && assert_eq (length (bytes buf)) 0%nat.

Definition get_uses_default_when_capacity_smaller : bool :=
  let '(buf, _) := get 64 (pool_new 8 1024) in Nat.leb 1024 (room buf).

Definition buffer_returns_to_pool_on_drop : bool :=
  let pool := pool_new 4 256 in
  let '(buf, pool1) := get 256 pool in
  all [assert_eq (length (free pool)) 0%nat; assert_eq (length (free pool1)) 0%nat;
       assert_eq (length (free (drop_buffer buf pool1))) 1%nat].

Definition pool_respects_max_pool_size : bool :=
  let '(bufs, pool) := foldl (λ '(bufs, pool) _,
    let '(b, pool) := get 64 pool in (bufs ++ [b], pool)) ([], pool_new 2 64) (seq 0 5) in
  let pool := foldl (λ pool b, drop_buffer b pool) pool bufs in
  Nat.leb (length (free pool)) 2.

Definition pooled_buffer_is_cleared_on_get : bool :=
  let '(buf, pool) := get 64 (pool_new 4 64) in
  let buf := put_slice (bytes_of "hello") buf in
  let '(buf2, _) := get 64 (drop_buffer buf pool) in
  assert_eq (length (bytes buf)) 5%nat && assert_eq (length (bytes buf2)) 0%nat.

Definition write_trait_appends_data : bool :=
  let '(buf, _) := get 64 (pool_new 4 64) in
  let '(r1, buf) := write (bytes_of "abc") buf in
  let '(r2, buf) := write (bytes_of "def") buf in
  all [is_ok r1; is_ok r2; assert_eq (bytes buf) (bytes_of "abcdef")].

Definition growing_capacity_works : bool :=
  let '(buf, pool) := get 64 (pool_new 4 64) in
  let buf := put_slice (replicate 64 Byte.x01) buf in
  let '(buf, _) := get 2048 (drop_buffer buf pool) in
  Nat.leb 2048 (room buf).

Lemma buffer_tests :
  all [get_returns_buffer_with_at_least_capacity; get_uses_default_when_capacity_smaller;
       buffer_returns_to_pool_on_drop; pool_respects_max_pool_size;
       pooled_buffer_is_cleared_on_get; write_trait_appends_data;
       growing_capacity_works] = true.
Proof. vm_compute. reflexivity. Qed.
End Pool.
