(* ===== verification/ServerTests.v ===== *)
(** The unit tests of crates/ombrac-server: config/mod.rs and connection/dns.rs. *)

From S2P Require Import Prelude Std Parse AddressText Dns TestKit.
From S2P Require Import ServerConfig.
From S2P Require ClientConfig.

#[local] Open Scope Z_scope.

#[local] Instance TlsMode_eq_dec : EqDecision ClientConfig.TlsMode.
Proof. solve_decision. Defined.

(** [SocketAddr::to_string]. *)
Definition socket_addr_text (a : SocketAddr) : Bytes :=
  match a with SockV4 a => display_v4 a | SockV6 a => display_v6 a end.

(** ** The configuration *)

(** A JSON text is given as its members, the absent ones [None]. Reading it fails
    when the address is not one. *)
Definition json_of (secret listen : option string) (transport : option TransportConfig)
    (connection : option ConnectionConfig) : Result string JsonConfig :=
  addr ← match listen with
         | Some l => Some <$> ok_or "invalid socket address syntax"%string
                                (parse_socket_addr (bytes_of l))
         | None => Ok None
         end;
  Ok (mkJson (bytes_of <$> secret) addr transport connection None).

Definition load_from_text (json : Result string JsonConfig) : Result string ServiceConfig :=
  json ← json; load_from_json json.

Definition load_from_json_minimal_uses_defaults : bool :=
  unwrap_and (load_from_text (json_of (Some "k") (Some "0.0.0.0:443") None None)) (λ cfg,
    all [assert_eq (secret cfg) (bytes_of "k");
         assert_eq (socket_addr_text (listen cfg)) (bytes_of "0.0.0.0:443");
         assert_eq (tls_mode (transport cfg)) (Some ClientConfig.Tls);
         assert_eq (idle_timeout (transport cfg)) (Some 30000);
         assert_eq (max_connections (connection cfg)) (Some 10000);
         assert_eq (auth_timeout_secs (connection cfg)) (Some 10);
         assert_eq (max_concurrent_streams (connection cfg)) (Some 4096)]).

Definition load_from_json_missing_secret_fails : bool :=
  unwrap_err_and (load_from_text (json_of None (Some "0.0.0.0:443") None None))
    (contains "secret").

Definition load_from_json_missing_listen_fails : bool :=
  unwrap_err_and (load_from_text (json_of (Some "k") None None None)) (contains "listen").

Definition load_from_json_invalid_listen_address_fails : bool :=
  negb (is_ok (load_from_text (json_of (Some "k") (Some "not-an-address") None None))).

Definition load_from_json_overrides_transport : bool :=
  let json := json_of (Some "k") (Some "127.0.0.1:443")
    (Some (mkTransport (Some ClientConfig.MTls) None None None None None None None
             (Some 12345) None (Some 999))) None in
  unwrap_and (load_from_text json) (λ cfg,
    all [assert_eq (tls_mode (transport cfg)) (Some ClientConfig.MTls);
         assert_eq (idle_timeout (transport cfg)) (Some 12345);
         assert_eq (max_streams (transport cfg)) (Some 999)]).

Definition load_from_json_overrides_connection_limits : bool :=
  let json := json_of (Some "k") (Some "127.0.0.1:443") None
    (Some (mkConnection (Some 500) (Some 5) (Some 100) (Some 200))) in
  unwrap_and (load_from_text json) (λ cfg,
    all [assert_eq (max_connections (connection cfg)) (Some 500);
         assert_eq (auth_timeout_secs (connection cfg)) (Some 5);
         assert_eq (max_concurrent_streams (connection cfg)) (Some 100);
         assert_eq (max_concurrent_datagrams (connection cfg)) (Some 200)]).

(** [TransportConfig { idle_timeout, keep_alive, ..Default::default() }]. *)
Definition transport_with (idle keep : option Z) : TransportConfig :=
  let d := transport_default in
  mkTransport (tls_mode d) (ca_cert d) (tls_cert d) (tls_key d) (zero_rtt d)
    (alpn_protocols d) (congestion d) (cwnd_init d) idle keep (max_streams d).

Definition cli_overrides_json_in_merge_order : bool :=
  let json := json_of (Some "from_json") (Some "0.0.0.0:5555")
                (Some (transport_with (Some 11111) (Some 2222))) None in
  let cli := mkCli None (parse_socket_addr (bytes_of "127.0.0.1:6666"))
               (transport_with (Some 99999) None) logging_default in
  unwrap_and (json ← json; build (merge_cli (merge_json builder_new json) cli)) (λ cfg,
    all [assert_eq (secret cfg) (bytes_of "from_json");
         assert_eq (socket_addr_text (listen cfg)) (bytes_of "127.0.0.1:6666");
         assert_eq (idle_timeout (transport cfg)) (Some 99999);
         assert_eq (keep_alive (transport cfg)) (Some 2222)]).

Definition transport_config_accessors_apply_defaults_on_none : bool :=
  let cfg := mkTransport None None None None None None None None None None None in
  all [assert_eq (get_tls_mode cfg) ClientConfig.Tls; negb (get_zero_rtt cfg);
       assert_eq (get_idle_timeout cfg) 30000; assert_eq (get_keep_alive cfg) 8000;
       assert_eq (get_max_streams cfg) 1000;
       assert_eq (get_alpn_protocols cfg) [bytes_of "h3"]].

Definition connection_config_accessors_apply_defaults_on_none : bool :=
  let cfg := mkConnection None None None None in
  all [assert_eq (get_max_connections cfg) 10000; assert_eq (get_auth_timeout_secs cfg) 10;
       assert_eq (get_max_concurrent_streams cfg) 4096;
       assert_eq (get_max_concurrent_datagrams cfg) 4096].

Lemma server_config_tests :
  all [load_from_json_minimal_uses_defaults; load_from_json_missing_secret_fails;
       load_from_json_missing_listen_fails; load_from_json_invalid_listen_address_fails;
       load_from_json_overrides_transport; load_from_json_overrides_connection_limits;
       cli_overrides_json_in_merge_order;
       transport_config_accessors_apply_defaults_on_none;
       connection_config_accessors_apply_defaults_on_none] = true.
Proof. vm_compute. reflexivity. Qed.

(** ** Name resolution *)

(** No lookup of these tests finds a record. *)
Definition resolve (domain : Bytes) (port : Z) : io_result SocketAddr :=
  resolve_domain (Ok tt) (λ _ _, None) domain port.

Definition test_resolve_domain_ipv4_literal : bool :=
  unwrap_and (resolve (bytes_of "127.0.0.1") 9000) (λ addr,
    assert_eq (socket_addr_port addr) 9000
    && match socket_addr_ip addr with
       | IpV4 ip => assert_eq (display_ipv4 ip) (bytes_of "127.0.0.1")
       | IpV6 _ => false
       end).

Definition test_resolve_domain_invalid_utf8 : bool :=
  unwrap_err_and (resolve [Byte.xff; Byte.xfe] 80) (λ err,
    assert_eq (kind err) InvalidInput && contains "utf-8" (msg err)).

Definition test_resolve_domain_empty_bytes : bool := negb (is_ok (resolve [] 80)).

Definition test_resolve_domain_nonexistent : bool :=
  unwrap_err_and (resolve (bytes_of "this-absolutely-does-not-exist.ombrac-test-invalid") 80)
    (λ err, assert_eq (kind err) NotFound).

Lemma dns_tests :
  all [test_resolve_domain_ipv4_literal; test_resolve_domain_invalid_utf8;
       test_resolve_domain_empty_bytes; test_resolve_domain_nonexistent] = true.
Proof. vm_compute. reflexivity. Qed.
