(* ===== verification/TransportTests.v ===== *)
(** The unit tests of crates/ombrac-transport/src/io.rs, with the reader and the
    writer they use; and that the copy loop, driven by such a pair, always ends
    with everything copied. *)

From S2P Require Import Prelude Std Parse TransportIo TestKit.

#[local] Open Scope Z_scope.

(** ** The reader and the writer of the tests *)

Record MockReader := mkReader {
  reader_data : Bytes;
  position : nat;
  error_on_nth_read : option (nat * IoError);
  read_count : nat
}.

Definition mock_reader_new (data : Bytes) : MockReader := mkReader data 0 None 0.

(** [poll_read], into a buffer with [n] bytes of room; it is never pending. *)
Definition mock_read (n : nat) (self : MockReader) : io_result Bytes * MockReader :=
  let read_count := S (read_count self) in
  let failed := match error_on_nth_read self with
                | Some (k, e) => if Nat.eqb read_count k then Some e else None
                | None => None
                end in
  match failed with
  | Some e =>
    (Err e, mkReader (reader_data self) (position self) (error_on_nth_read self) read_count)
  | None =>
    let remaining := drop (position self) (reader_data self) in
    let amt := Nat.min (length remaining) n in
    (Ok (take amt remaining),
     mkReader (reader_data self) (position self + amt) (error_on_nth_read self) read_count)
  end.

Record MockWriter := mkWriter {
  writer_written : Bytes;
  error_on_nth_write : option (nat * IoError);
  write_count : nat
}.

Definition mock_writer_new : MockWriter := mkWriter [] None 0.

(** [poll_write]: takes the whole buffer, so that [write_all] is one call. *)
Definition mock_write (buf : Bytes) (self : MockWriter) : io_result unit * MockWriter :=
  let write_count := S (write_count self) in
  let failed := match error_on_nth_write self with
                | Some (k, e) => if Nat.eqb write_count k then Some e else None
                | None => None
                end in
  match failed with
  | Some e => (Err e, mkWriter (writer_written self) (error_on_nth_write self) write_count)
  | None =>
    (Ok tt, mkWriter (writer_written self ++ buf) (error_on_nth_write self) write_count)
  end.

(** ** [copy_with_cancel] on them *)

(** What the next await of the loop completes with. *)
Definition mock_event (s : CopyState) (cancelled : bool) (r : MockReader) (w : MockWriter)
    : option (CopyEvent * MockReader * MockWriter) :=
  match phase s with
  | Starting => Some (EvPoll, r, w)
  | Selecting =>
    if cancelled then Some (EvPoll, r, w)
    else let '(res, r) := mock_read (Z.to_nat DEFAULT_BUF_SIZE) r in Some (EvRead res, r, w)
  | WritingAll block =>
    let '(res, w) := mock_write block w in
    Some (match res with Ok _ => EvWritten | Err e => EvWriteErr e 0 end, r, w)
  | Returned _ => None
  end.

(** At most [fuel] awaits. *)
Fixpoint mock_copy (fuel : nat) (cancelled : bool) (s : CopyState) (r : MockReader)
    (w : MockWriter) : CopyState * MockWriter :=
  match fuel with
  | O => (s, w)
  | S fuel =>
    match mock_event s cancelled r w with
    | None => (s, w)
    | Some (ev, r, w) =>
      match copy_step cancelled s ev with
      | Some s => mock_copy fuel cancelled s r w
      | None => (s, w)
      end
    end
  end.

(** A copy of a reader that does not fail to a writer that does not fail takes at
    most two awaits per byte and two more. *)
Definition copy_with_cancel (cancelled : bool) (r : MockReader) (w : MockWriter)
    : option (Result (IoError * Z) Z) * MockWriter :=
  let '(s, w) := mock_copy (2 * length (reader_data r) + 2) cancelled copy_init r w in
  (match phase s with Returned res => Some res | _ => None end, w).

Definition test_copy_with_cancel_normal : bool :=
  let data := bytes_of "Hello, World!" in
  let '(result, writer) := copy_with_cancel false (mock_reader_new data) mock_writer_new in
  match result with
  | Some (Ok n) => assert_eq n (Z.of_nat (length data)) && assert_eq (writer_written writer) data
  | _ => false
  end.

Definition test_copy_with_cancel_empty : bool :=
  let '(result, writer) := copy_with_cancel false (mock_reader_new []) mock_writer_new in
  match result with
  | Some (Ok n) => assert_eq n 0 && assert_eq (writer_written writer) []
  | _ => false
  end.

Definition test_copy_with_cancel_aborted_immediately : bool :=
  let data := bytes_of "Hello, World!" in
  let '(result, writer) := copy_with_cancel true (mock_reader_new data) mock_writer_new in
  match result with
  | Some (Ok n) => assert_eq n 0 && assert_eq (writer_written writer) []
  | _ => false
  end.

Definition two_blocks : Bytes := replicate (2 * Z.to_nat DEFAULT_BUF_SIZE) Byte.x00.

Definition test_copy_with_cancel_read_error_with_stats : bool :=
  let reader := mkReader two_blocks 0 (Some (2%nat, mkIoError OtherKind "read error")) 0 in
  let '(result, writer) := copy_with_cancel false reader mock_writer_new in
  match result with
  | Some (Err (err, copied)) =>
    all [assert_eq (kind err) OtherKind; assert_eq copied DEFAULT_BUF_SIZE;
         assert_eq (Z.of_nat (length (writer_written writer))) DEFAULT_BUF_SIZE]
  | _ => false
  end.

Definition test_copy_with_cancel_write_error_with_stats : bool :=
  let writer := mkWriter [] (Some (2%nat, mkIoError BrokenPipe "write error")) 0 in
  let '(result, writer) := copy_with_cancel false (mock_reader_new two_blocks) writer in
  match result with
  | Some (Err (err, copied)) =>
    all [assert_eq (kind err) BrokenPipe; assert_eq copied DEFAULT_BUF_SIZE;
         assert_eq (Z.of_nat (length (writer_written writer))) DEFAULT_BUF_SIZE]
  | _ => false
  end.

Lemma copy_with_cancel_tests :
  all [test_copy_with_cancel_normal; test_copy_with_cancel_empty;
       test_copy_with_cancel_aborted_immediately;
       test_copy_with_cancel_read_error_with_stats;
       test_copy_with_cancel_write_error_with_stats] = true.
Proof. vm_compute. reflexivity. Qed.

(** ** [copy_bidirectional] *)

(** The awaits of the two tasks, in the order in which the test lets them
    complete; the result of the copy. *)
Definition run_events (es : list (Direction * CopyEvent))
    : option (Result (IoError * CopyBidirectionalStats) CopyBidirectionalStats) :=
  s ← bidi_run bidi_init es; bidi_result s.

#[local] Instance Stats_eq_dec : EqDecision CopyBidirectionalStats.
Proof. solve_decision. Defined.

Definition stats_are (a_to_b b_to_a : Z)
    (r : option (Result (IoError * CopyBidirectionalStats) CopyBidirectionalStats)) : bool :=
  match r with Some (Ok stats) => assert_eq stats (mkStats a_to_b b_to_a) | _ => false end.

Definition test_copy_bidirectional_normal : bool :=
  stats_are 5 5 (run_events
    [(AtoB, EvPoll); (BtoA, EvPoll);
     (AtoB, EvRead (Ok (bytes_of "Hello"))); (AtoB, EvWritten);
     (BtoA, EvRead (Ok (bytes_of "World"))); (BtoA, EvWritten);
     (AtoB, EvRead (Ok [])); (BtoA, EvPoll)]).

Definition test_copy_bidirectional_one_side_closes_cancels_other : bool :=
  stats_are 11 0 (run_events
    [(AtoB, EvPoll); (BtoA, EvPoll);
     (AtoB, EvRead (Ok (bytes_of "data from a"))); (AtoB, EvWritten);
     (AtoB, EvRead (Ok [])); (BtoA, EvPoll)]).

Definition test_copy_bidirectional_one_side_empty : bool :=
  stats_are 5 0 (run_events
    [(AtoB, EvPoll); (BtoA, EvPoll);
     (AtoB, EvRead (Ok (bytes_of "Hello"))); (AtoB, EvWritten);
     (AtoB, EvRead (Ok [])); (BtoA, EvPoll)]).

Definition test_copy_bidirectional_zero_bytes : bool :=
  stats_are 0 0 (run_events [(AtoB, EvPoll); (AtoB, EvRead (Ok [])); (BtoA, EvPoll)]).

Definition block (n : nat) : Bytes := replicate n Byte.x00.

(** The second task starts after the first has failed. *)
Definition test_copy_bidirectional_write_error_cancels_other : bool :=
  match run_events
    [(AtoB, EvPoll);
     (AtoB, EvRead (Ok (block (Z.to_nat DEFAULT_BUF_SIZE)))); (AtoB, EvWritten);
     (AtoB, EvRead (Ok (block 10)));
     (AtoB, EvWriteErr (mkIoError BrokenPipe "write error") 0);
     (BtoA, EvPoll)] with
  | Some (Err (err, stats)) =>
    all [assert_eq (kind err) BrokenPipe; assert_eq (a_to_b_bytes stats) DEFAULT_BUF_SIZE;
         b_to_a_bytes stats <=? DEFAULT_BUF_SIZE]
  | _ => false
  end.

Definition test_copy_bidirectional_read_error_cancels_other : bool :=
  match run_events
    [(AtoB, EvPoll); (AtoB, EvRead (Ok (bytes_of "some data"))); (AtoB, EvWritten);
     (BtoA, EvPoll);
     (BtoA, EvRead (Ok (block (Z.to_nat DEFAULT_BUF_SIZE)))); (BtoA, EvWritten);
     (BtoA, EvRead (Err (mkIoError OtherKind "read error")));
     (AtoB, EvPoll)] with
  | Some (Err (err, stats)) =>
    all [assert_eq (kind err) OtherKind; assert_eq (a_to_b_bytes stats) 9;
         assert_eq (b_to_a_bytes stats) DEFAULT_BUF_SIZE]
  | _ => false
  end.

Lemma copy_bidirectional_tests :
  all [test_copy_bidirectional_normal;
       test_copy_bidirectional_one_side_closes_cancels_other;
       test_copy_bidirectional_one_side_empty; test_copy_bidirectional_zero_bytes;
       test_copy_bidirectional_write_error_cancels_other;
       test_copy_bidirectional_read_error_cancels_other] = true.
Proof. vm_compute. reflexivity. Qed.

(** ** The copy is total *)

Lemma mock_copy_returned fuel c s r w res :
  phase s = Returned res → mock_copy fuel c s r w = (s, w).
Proof. intros H. destruct fuel; [done|]. cbn. unfold mock_event. by rewrite H. Qed.

Lemma mock_read_ok data pos n k :
  let rest := drop pos data in
  mock_read n (mkReader data pos None k) =
    (Ok (take n rest), mkReader data (pos + Nat.min (length rest) n) None (S k)).
Proof.
  intros rest. unfold mock_read. cbn. fold rest. do 2 f_equal.
  rewrite Nat.min_comm, <-take_take. by rewrite firstn_all.
Qed.

(** One block: a read and the write of what it gave. *)
Lemma mock_copy_block fuel data pos k wr wk gv :
  let blk := take (Z.to_nat DEFAULT_BUF_SIZE) (drop pos data) in
  blk ≠ [] →
  mock_copy (S (S fuel)) false (mkCopy Selecting (len64 gv) gv gv)
    (mkReader data pos None k) (mkWriter wr None wk)
  = mock_copy fuel false (mkCopy Selecting (len64 (gv ++ blk)) (gv ++ blk) (gv ++ blk))
      (mkReader data (pos + length blk) None (S k)) (mkWriter (wr ++ blk) None (S wk)).
Proof.
  intros blk Hne. cbn [mock_copy mock_event phase]. rewrite mock_read_ok. fold blk.
  replace (length (drop pos data) `min` Z.to_nat DEFAULT_BUF_SIZE)%nat with (length blk)
    by (unfold blk; rewrite length_take; lia).
  assert (Z.of_nat (length blk) <=? DEFAULT_BUF_SIZE = true) as Hl
    by (apply Z.leb_le; unfold blk, DEFAULT_BUF_SIZE; rewrite length_take; lia).
  destruct blk as [|y l] eqn:E; [done|]. rewrite <-E in *.
  assert (copy_step false (mkCopy Selecting (len64 gv) gv gv) (EvRead (Ok blk))
    = Some (mkCopy (WritingAll blk) (len64 gv) (gv ++ blk) gv)) as ->.
  { unfold copy_step. cbn [phase copied taken given read_result]. rewrite Hl. by rewrite E. }
  cbn [mock_event phase mock_write error_on_nth_write writer_written write_count copy_step
       copied taken given]. by rewrite len64_app.
Qed.

Lemma mock_copy_selecting m : ∀ data pos k wr wk gv fuel,
  (length (drop pos data) ≤ m)%nat → (2 * m + 1 ≤ fuel)%nat →
  ∃ s w, mock_copy fuel false (mkCopy Selecting (len64 gv) gv gv)
           (mkReader data pos None k) (mkWriter wr None wk) = (s, w)
    ∧ phase s = Returned (Ok (len64 (gv ++ drop pos data)))
    ∧ writer_written w = wr ++ drop pos data.
Proof.
  induction m as [m IH] using (well_founded_induction lt_wf).
  intros data pos k wr wk gv fuel Hl Hf. set (rest := drop pos data) in *.
  assert (0 < Z.to_nat DEFAULT_BUF_SIZE)%nat as Hb by (unfold DEFAULT_BUF_SIZE; lia).
  destruct (decide (rest = [])) as [Er|Er].
  - destruct fuel as [|fuel]; [lia|]. cbn [mock_copy mock_event phase].
    rewrite mock_read_ok. fold rest. rewrite Er, take_nil. cbn.
    erewrite mock_copy_returned by done. eexists _, _. split; [done|]. cbn.
    by rewrite !app_nil_r.
  - assert (length rest ≠ 0)%nat as Hr by (by intros ?%nil_length_inv).
    destruct fuel as [|[|fuel]]; [lia..|].
    assert (length (take (Z.to_nat DEFAULT_BUF_SIZE) rest) ≠ 0)%nat as Ht
      by (rewrite length_take; lia).
    rewrite mock_copy_block by (fold rest; intros E; by rewrite E in Ht).
    fold rest. set (blk := take (Z.to_nat DEFAULT_BUF_SIZE) rest) in *.
    assert (drop (pos + length blk) data = drop (length blk) rest) as Ed
      by (unfold rest; by rewrite drop_drop).
    assert (rest = blk ++ drop (length blk) rest) as Esplit.
    { unfold blk at 2. rewrite length_take.
      destruct (Nat.min_spec (Z.to_nat DEFAULT_BUF_SIZE) (length rest)) as [[_ ->]|[Hge ->]].
      - unfold blk. by rewrite take_drop.
      - unfold blk. rewrite drop_all, take_ge by lia. by rewrite app_nil_r. }
    destruct (IH (m - length blk)%nat ltac:(lia) data (pos + length blk)%nat (S k) (wr ++ blk)
      (S wk) (gv ++ blk) fuel) as (s & w & E & Hs & Hw).
    { rewrite Ed, length_drop. lia. }
    { lia. }
    exists s, w. split; [exact E|]. rewrite Hs, Hw, Ed, <-!app_assoc, <-Esplit. done.
Qed.

(** A copy between a reader and a writer that do not fail ends with success: the
    writer has exactly the reader's bytes, and the result is their number. *)
Theorem copy_with_cancel_total data :
  let '(result, writer) := copy_with_cancel false (mock_reader_new data) mock_writer_new in
  result = Some (Ok (len64 data)) ∧ writer_written writer = data.
Proof.
  unfold copy_with_cancel, mock_reader_new, mock_writer_new. cbn [reader_data].
  replace (2 * length data + 2)%nat with (S (2 * length data + 1)) by lia.
  cbn [mock_copy mock_event phase copy_init copy_step copied taken given].
  destruct (mock_copy_selecting (length data) data 0 0 [] 0 [] (2 * length data + 1))
    as (s & w & E & Hs & Hw); [by rewrite drop_0|lia|].
  change (len64 []) with 0 in E. rewrite E, Hs, Hw, drop_0. done.
Qed.
